(* ===== verification/_CoqProject ===== *)
-Q . S2P
Prelude.v
GoStrings.v
GoNum.v
GoParse.v
GoJson.v
JsonFacts.v
GoFloat.v
GoTime.v
Model.v
StateWire.v
QueueUrl.v
Playback.v
Interfaces.v
Service.v
Chat.v
ChatWire.v
MemCaches.v
MemPresence.v
PubSub.v
Postgres.v
StoreSuite.v
Hub.v
Fixtures.v
HubControl.v
Redis.v
RedisCaches.v
RedisStates.v
RedisMembers.v
RedisChat.v
HubCleanup.v
ChatDelivery.v
ChatExamples.v
EmailCode.v
CodeGuessing.v
Config.v
Email.v
Ably.v
Startup.v
ToolCheck.v
Auth.v
AuthTokens.v
AuthAccounts.v
AccountLife.v
AuthExamples.v
Api.v
RoomsApi.v
Router.v
HttpBodies.v
Replies.v
ReplyReader.v
ApiAccess.v
ApiLimits.v
ApiExamples.v
