(* ===== verification/Prelude.v ===== *)
(** * WatchTogether backend: verification library

    A model in Rocq of the Go service under [src/] that lets people watch videos
    together: accounts with e-mailed verification codes and tokens, rooms with a
    shared playback state, presence, chat, and an HTTP interface over all of it;
    with the theorems that make it correct.  This file is the root: it has the
    errors, the monad and the lemmas everything else shares.

    ** The program and its model

    A request goes from the router to a handler, which calls the account service
    or the room service; these call caches (in memory or Redis), a PostgreSQL
    store, the mail sender and the real-time publisher through interfaces.  Every
    Go interface is a type class over the implementation's state, a method is a
    function [ctx -> ... -> SM S A]: a state-passing program whose result is a
    value, an error, or a halt ([NilDereference], a panic, or [OutOfFuel]).
    Effects happen in the order of the source, and every call of a collaborator
    and every reading of the clock takes one tick of a counter; what a context
    answers and what the clock shows are functions of the tick, so that theorems
    hold for a context that is cancelled, or a backend that fails, between any
    two calls.

    - Prelude, GoStrings, GoNum, GoParse, GoJson, GoFloat, GoTime: what the code
      uses of Go's strings, unicode/utf8, time, strconv, math (binary64) and
      encoding/json, down to shortest decimals and RFC 3339 instants; JsonFacts
      has the lemmas that a text reads back.
    - Model ([internal/model], the wire types of [internal/room/hub.go]),
      QueueUrl ([pkg/queueurl]), Playback ([internal/room/project.go] and the
      pure helpers of [hub.go]).
    - Interfaces: the classes of [internal/cache], [internal/store] and the
      publisher, and the [...Contract] classes that say what a client may rely
      on, through a view of the implementation's state.  Clients are proved
      against the contracts.  The in-memory caches, the PostgreSQL stores and the
      Redis chat discharge theirs; the Redis session cache discharges
      [SessionTokens], which has no clock; the Redis room states expire after seven
      days and discharge no [RoomStateContract], RedisStates says what they keep.
    - Service, Hub, Chat: the room service of [internal/room] ([Service] is the
      struct of [hub.go] with its collaborators; Module [Control] has the pure
      part of [ApplyControl]; [Chat] is [chat.go]).
    - MemCaches, MemPresence ([internal/cache/memory]), Postgres
      ([internal/store/postgres/stores.go]), Redis, RedisCaches, RedisStates and
      RedisChat ([internal/cache/redis]), EmailCode ([internal/emailcode],
      Modules [MemCodes] and [RedisCodes]): the backends.  StateWire is the JSON
      of a room state; PubSub is publish and subscribe in memory, as a step
      relation over goroutines and buffered channels, and over Redis; StoreSuite
      is the suite of [internal/store/testutil] that every store is tested with.
    - Config ([internal/config], [pkg/corsutil]), Email ([internal/email]), Ably
      ([internal/realtime]).
    - Auth: the account service of [internal/auth].
    - Api ([pkg/apierr], [internal/api/context.go], [auth_handlers.go]), RoomsApi
      ([room_handlers.go]), Router ([admin_room_handlers.go],
      [debug_handlers.go], [router.go]): the handlers, one case of [Router.route]
      per route with its middleware, [NewServer], and runs of a server:
      requests, the cleanup a login starts in the background, and the ticks of
      the chat's outbox, in any order ([run_server]).
    - HttpBodies: the request structs, filled from the text of a body, names
      without regard to case and members of a wrong type passed over; Replies: the
      JSON of every reply; ReplyReader: what a client reads from it.
    - Startup: [cmd/server/main.go] with [internal/store/postgres/db.go] and
      [internal/cache/redis/client.go]; ToolCheck: [pkg/toolcheck].
    - RedisMembers, ChatWire, ChatDelivery, HubControl, HubCleanup,
      CodeGuessing, AuthTokens, AuthAccounts, AccountLife, ApiAccess, ApiLimits:
      the theorems about the components they name.
    - Fixtures, ChatExamples, AuthExamples, ApiExamples and the [Toy...] modules: concrete
      backends, at which the witnesses evaluate the model.

    ** What the theorems show

    - Presence: for every sequence of calls the in-memory presence answers like
      one map from users to rooms ([presence_refines_located]), and so does the
      Redis one while no key expires and users leave no room but their own
      ([redis_presence_refines_located]; [leave_elsewhere_splits] says what
      happens otherwise).
    - Playback: accepted controls are numbered consecutively, stored and
      published in order, whatever fails and whatever comes between
      ([controls_linearize]); a stale client is refused; each branch of
      [ApplyControl] computes its specification; the projection of a state stays
      inside the video; the queue is played in its order.  Two controls that
      overlap can lose one ([concurrent_controls_lose_update]).  These theorems are
      over the contract of a room state cache that loses nothing.  Over Redis a
      state is kept as it was for seven days, as long as no command touches its key
      ([redis_state_kept]), and from the text of a request's body to the readers
      of the cache an accepted control is never lost to its encoding
      ([redis_control_kept]).
    - Cleanup: a room somebody is in is never touched, its chat and its outbox
      included, whatever fails; one that succeeds closes exactly the empty rooms and
      erases all they had; the interval and the lock hold.
    - Chat: an accepted message is numbered, kept and either published or put
      in the outbox ([SendChat_correct]); once the publisher works again the
      outbox is emptied in order ([outbox_delivers]), a round of it ends
      ([outbox_round_terminates]), and listings are paged ([history_pages]).
    - Codes: guesses are bounded in both backends, as a box with a fixed number
      of tries; daily limit and cooldown in the in-memory store; what concurrent guesses and a rollback
      after midnight do; the shape of codes.
    - Accounts and tokens: a refresh token works once, over any session cache
      that is a [SessionTokens], the in-memory and the Redis one among them;
      tokens read back for their own use until they expire or are revoked; login,
      registration and reset do what they say on every branch while the collaborators
      answer, and change nothing else ([failed_registration_keeps_account] is what a
      failure can leave behind); a registered account can be logged in to through any history
      ([registered_can_login]).
    - HTTP: a private room needs its password in any run of the server, a request
      refused there does nothing; a route behind [requireAuth] needs a token, managing a room needs its owner or an
      administrator; the rate limiter is exact.
    - Wire formats and settings: chat messages and room states survive JSON
      ([chat_message_roundtrip], [room_state_roundtrip]: floats and instants
      exactly); a client that looks the members of a reply up by name reads what was
      sent, and no password hash ([replies_read]); a channel token is for one room; an accepted configuration
      is well formed and stable.
    - Store: the life cycle of a room's row, the bounds of listings, and that the
      PostgreSQL stores pass the suite of all stores ([stores_conform]).
    - Publish and subscribe: in any interleaving every message addressed to a
      subscriber is received, buffered, carried or given up, once
      ([pubsub_delivery]); a subscriber that leaves can make a publisher panic
      ([pubsub_can_panic]).
    - Process: whatever fails, what was opened is closed, once and in the opposite
      order ([startup_closes]); the schema that start-up runs lacks the column of
      addresses ([schema_lacks_email]).

    ** Bounds and fuel

    Machine integers are [Z] with [wrap64] where the code can overflow, durations
    are 64-bit nanoseconds, positions are binary64.  [ParseDuration] recurses on
    fuel, the length of its text being enough ([duration_parts_fuel]); the JSON
    parser's fuel is the length of the text plus one; the scan of the outbox
    ([scan_pending]) runs until the backend answers cursor 0, so its fuel is a
    parameter, one more than the pages the backend has left being enough
    ([outbox_round_terminates]).

    ** Parameters

    Third-party code is taken as classes with documented behaviour as laws: bcrypt
    ([Bcrypt], [BcryptLaws]), JWT ([Jwt], [JwtLaws]), Redis ([RedisServer],
    [RedisLaws], on the keys that have not expired), PostgreSQL ([SqlRooms],
    [SqlUsers] and their laws), the Ably and Resend clients, the YAML decoder,
    net/mail's address parser, UUIDs, random bytes, the Unicode tables beyond
    ASCII, the iteration order of Go maps, and for start-up the drivers, the HTTP
    server and the signals ([Host]).

    ** Not modelled

    - The CORS middleware, which answers preflight requests and disallowed origins
      before a route is reached ([cors.New], third-party; Config has its settings),
      and the construction of the router at start-up.
    - Path matching and header parsing of the gin framework: a handler is given
      the parameters of its request and what its body binds to, which
      [HttpBodies.with_body] computes from the text.
    - SQL text, parameter binding and the copying of columns: a statement is a
      method of the database's class.
    - Time zones: an instant has none, and is written in UTC.
    - Log lines ([internal/applog], [HashForAudit]): output only; what a cleanup
      logs is recorded as events.
    - Concurrency inside one process beyond what the theorems on overlapping
      calls and on publish and subscribe say: each method of a cache is atomic (it
      runs under a mutex or is one Redis command), and service methods run one after the other otherwise. *)

From Stdlib Require Export ZArith Lia.
From stdpp Require Export base tactics option list gmap strings numbers.

#[global] Open Scope string_scope.
#[global] Open Scope list_scope.
#[global] Open Scope Z_scope.

(** ** Errors *)

(** The sentinel errors of the packages under src/, the two structured errors
    ([*emailcode.CooldownError], [*apierr.Error]), the database driver's
    [sql.ErrNoRows] and [*pgconn.PgError], [goredis.Nil], anonymous [errors.New] /
    [fmt.Errorf] values, and [%w]-wrapped errors. *)
Inductive error : Type :=
  | ErrForbidden | ErrStaleControl
  | ErrChatRequiresRedis | ErrChatPendingFull | ErrChatTextEmpty
  | ErrChatTextTooLong | ErrChatPayloadTooLarge | ErrChatRateLimited
  | ErrNotFound | ErrConflict
  | ErrCooldown | ErrDailyLimit | ErrInvalidCode | ErrExpired | ErrMaxAttempts
  | CooldownError (retryAfter : Z)
  | ErrInvalidCredentials | ErrInvalidToken | ErrInvalidEmail
  | ErrWeakPassword | ErrInvalidUsername
  | ErrNoRows | PgError (code : string) | ErrRedisNil
  | ApiError (status : Z) (code message : string)
  | ErrNew (message : string)
  | ErrWrap (message : string) (inner : error).

#[export] Instance error_eq_dec : EqDecision error.
Proof. solve_decision. Defined.

(** [errors.Is]: equality with the target, or with what the error unwraps to. *)
Fixpoint errors_Is (e target : error) : bool :=
  bool_decide (e = target) ||
  match e with
  | CooldownError _ => bool_decide (ErrCooldown = target)
  | ErrWrap _ inner => errors_Is inner target
  | _ => false
  end.

Lemma errors_Is_refl e : errors_Is e e = true.
Proof. destruct e; apply orb_true_intro; left; by apply bool_decide_eq_true_2. Qed.

(** ** Results and the state-and-error monad *)

(** Why a call does not return: it panics, or it has not finished within the
    fuel of its loop. *)
Inductive halt : Type := NilDereference | OutOfFuel.
#[export] Instance halt_eq_dec : EqDecision halt.
Proof. solve_decision. Defined.

Inductive result (A : Type) : Type :=
  | Ok (a : A)
  | Err (e : error)
  | Halt (h : halt).
Arguments Ok {A} a.
Arguments Err {A} e.
Arguments Halt {A} h.

#[export] Instance result_eq_dec `{EqDecision A} : EqDecision (result A).
Proof. solve_decision. Defined.

(** A Go function over mutable state [S] with result [(A, error)].  An error
    does not roll the state back. *)
Definition SM (S A : Type) : Type := S → result A * S.

#[export] Instance SM_ret S : MRet (SM S) := λ A a s, (Ok a, s).
#[export] Instance SM_bind S : MBind (SM S) := λ A B f m s,
  match m s with
  | (Ok a, s') => f a s'
  | (Err e, s') => (Err e, s')
  | (Halt h, s') => (Halt h, s')
  end.

Definition throw {S A} (e : error) : SM S A := λ s, (Err e, s).
Definition gets {S A} (f : S → A) : SM S A := λ s, (Ok (f s), s).
Definition modify {S} (f : S → S) : SM S unit := λ s, (Ok tt, f s).
(** [v, err := m()] followed by code that inspects [err] itself: the error is a
    value, a halt is not. *)
Definition attempt {S A} (m : SM S A) : SM S (A + error) := λ s,
  match m s with
  | (Ok a, s') => (Ok (inl a), s')
  | (Err e, s') => (Ok (inr e), s')
  | (Halt h, s') => (Halt h, s')
  end.
(** [_ = m()]. *)
Definition ignore {S A} (m : SM S A) : SM S unit := λ s,
  match m s with
  | (Halt h, s') => (Halt h, s')
  | (_, s') => (Ok tt, s')
  end.
(** Return the result [r] as it is. *)
Definition of_result {S A} (r : result A) : SM S A := λ s, (r, s).
Definition when {S} (b : bool) (m : SM S unit) : SM S unit :=
  if b then m else mret tt.

Lemma bind_Ok_inv {S A B} (m : SM S A) (k : A → SM S B) s b s' :
  (x ← m; k x) s = (Ok b, s') →
  ∃ a s1, m s = (Ok a, s1) ∧ k a s1 = (Ok b, s').
Proof.
  unfold mbind, SM_bind. destruct (m s) as [[a|e|h] s1]; intros H; [|done..]. eauto.
Qed.

Lemma bind_Err_inv {S A B} (m : SM S A) (k : A → SM S B) s e s' :
  (x ← m; k x) s = (Err e, s') →
  m s = (Err e, s') ∨ ∃ a s1, m s = (Ok a, s1) ∧ k a s1 = (Err e, s').
Proof.
  unfold mbind, SM_bind. destruct (m s) as [[a|e'|h] s1]; intros H; simplify_eq; eauto.
Qed.

Lemma bind_Ok {S A B} (m : SM S A) (k : A → SM S B) s a s1 :
  m s = (Ok a, s1) → (x ← m; k x) s = k a s1.
Proof. unfold mbind, SM_bind. by intros ->. Qed.

Lemma bind_Err {S A B} (m : SM S A) (k : A → SM S B) s e s1 :
  m s = (Err e, s1) → (x ← m; k x) s = (Err e, s1).
Proof. unfold mbind, SM_bind. by intros ->. Qed.

(** ** Machine integers *)

(** Two's-complement wrap-around of Go's [int64] (and [int] on 64-bit hosts). *)
Definition wrap64 (z : Z) : Z := (z + 2 ^ 63) mod 2 ^ 64 - 2 ^ 63.
Definition max_int64 : Z := 2 ^ 63 - 1.
Definition min_int64 : Z := - 2 ^ 63.

Lemma wrap64_range z : min_int64 ≤ wrap64 z ≤ max_int64.
Proof.
  unfold wrap64, min_int64, max_int64.
  pose proof (Z.mod_pos_bound (z + 2 ^ 63) (2 ^ 64)). lia.
Qed.

Lemma wrap64_id z : min_int64 ≤ z ≤ max_int64 → wrap64 z = z.
Proof. unfold wrap64, min_int64, max_int64. intros. rewrite Z.mod_small; lia. Qed.

(** ** Automation *)

(** [go_step] takes one step through a [SM] computation: it exposes the
    combinators and splits the branches on which the code tests. *)
Ltac sm_unfold :=
  cbv [mbind SM_bind mret SM_ret throw gets modify attempt ignore of_result when].
Tactic Notation "sm_unfold" "in" hyp(H) :=
  cbv [mbind SM_bind mret SM_ret throw gets modify attempt ignore of_result when] in H.

(** Split [H : (x ← m; k) s = (Ok v, s')] into the run of [m] and of [k]. *)
Tactic Notation "sm_bind" hyp(H) "as" simple_intropattern(p) ident(E) :=
  apply bind_Ok_inv in H; destruct H as (p & ? & E & H).

Create HintDb wt.
Create Rewrite HintDb wt_rw.
#[export] Hint Resolve errors_Is_refl : wt.

(** ** Reasoning about state-and-error programs *)

(** [wp m Q s]: the run of [m] from [s] ends as [Q] says. *)
Definition wp {S A} (m : SM S A) (Q : result A → S → Prop) (s : S) : Prop :=
  Q (m s).1 (m s).2.

(** [keeps R m]: wherever [m] starts, and however it ends, the state before and
    after are related by [R]. *)
Definition keeps {S A} (R : relation S) (m : SM S A) : Prop := ∀ s, R s (m s).2.

Section programs.
Context {S : Type}.
Implicit Types s : S.

Lemma wp_mono {A} (m : SM S A) (Q Q' : result A → S → Prop) s :
  wp m Q s → (∀ r s', Q r s' → Q' r s') → wp m Q' s.
Proof. unfold wp. auto. Qed.

Lemma wp_bind {A B} (m : SM S A) (k : A → SM S B) Q s :
  wp m (λ r s', match r with
                | Ok a => wp (k a) Q s'
                | Err e => Q (Err e) s'
                | Halt h => Q (Halt h) s'
                end) s →
  wp (x ← m; k x) Q s.
Proof. unfold wp, mbind, SM_bind. by destruct (m s) as [[a|e|h] s']. Qed.

Lemma wp_ret {A} (a : A) Q s : Q (Ok a) s → wp (mret a : SM S A) Q s.
Proof. done. Qed.

Lemma wp_throw {A} e (Q : result A → S → Prop) s : Q (Err e) s → wp (throw e : SM S A) Q s.
Proof. done. Qed.

Lemma wp_attempt {A} (m : SM S A) Q s :
  wp m (λ r s', match r with
                | Ok a => Q (Ok (inl a)) s'
                | Err e => Q (Ok (inr e)) s'
                | Halt h => Q (Halt h) s'
                end) s →
  wp (attempt m) Q s.
Proof. unfold wp, attempt. by destruct (m s) as [[a|e|h] s']. Qed.

Lemma wp_ignore {A} (m : SM S A) Q s :
  wp m (λ r s', match r with Halt h => Q (Halt h) s' | _ => Q (Ok tt) s' end) s →
  wp (ignore m) Q s.
Proof. unfold wp, ignore. by destruct (m s) as [[a|e|h] s']. Qed.

Context (R : relation S) `{!PreOrder R}.

Lemma keeps_ret {A} (a : A) : keeps R (mret a : SM S A).
Proof. intros s. simpl. reflexivity. Qed.
Lemma keeps_throw {A} e : keeps R (throw e : SM S A).
Proof. intros s. simpl. reflexivity. Qed.
Lemma keeps_gets {A} (f : S → A) : keeps R (gets f).
Proof. intros s. simpl. reflexivity. Qed.
Lemma keeps_halt {A} h : keeps R ((λ s, (Halt h, s)) : SM S A).
Proof. intros s. simpl. reflexivity. Qed.
Lemma keeps_bind {A B} (m : SM S A) (k : A → SM S B) :
  keeps R m → (∀ a, keeps R (k a)) → keeps R (x ← m; k x).
Proof.
  intros Hm Hk s. specialize (Hm s). unfold mbind, SM_bind.
  destruct (m s) as [[a|e|h] s']; simpl in *; [|done..]. etrans; [done|apply Hk].
Qed.
Lemma keeps_attempt {A} (m : SM S A) : keeps R m → keeps R (attempt m).
Proof. intros Hm s. specialize (Hm s). unfold attempt. by destruct (m s) as [[a|e|h] s']. Qed.
Lemma keeps_ignore {A} (m : SM S A) : keeps R m → keeps R (ignore m).
Proof. intros Hm s. specialize (Hm s). unfold ignore. by destruct (m s) as [[a|e|h] s']. Qed.
Lemma keeps_wp {A} (m : SM S A) :
  (∀ s, wp m (λ _ s', R s s') s) → keeps R m.
Proof. done. Qed.
Lemma wp_keeps {A} (m : SM S A) (Q : result A → S → Prop) s :
  keeps R m → (∀ r s', R s s' → Q r s') → wp m Q s.
Proof. intros Hm HQ. apply HQ, Hm. Qed.
Lemma keeps_of_result {A} (r : result A) : keeps R (of_result r).
Proof. intros s. simpl. reflexivity. Qed.
Lemma keeps_when b (m : SM S unit) : keeps R m → keeps R (when b m).
Proof. destruct b; [done|intros _; apply keeps_ret]. Qed.
End programs.
#[export] Hint Resolve keeps_ret keeps_throw keeps_gets keeps_of_result keeps_halt keeps_bind
  keeps_attempt keeps_ignore keeps_when : wt.

(** Decompose a goal [keeps R m] along the program. *)
Ltac keeps_step :=
  match goal with
  | |- keeps _ (mret _) => refine (keeps_ret _ _)
  | |- keeps _ (throw _) => refine (keeps_throw _ _)
  | |- keeps _ (of_result _) => refine (keeps_of_result _ _)
  | |- keeps _ (gets _) => refine (keeps_gets _ _)
  | |- keeps _ (attempt _) => apply keeps_attempt
  | |- keeps _ (ignore _) => apply keeps_ignore
  | |- keeps _ (when _ _) => refine (keeps_when _ _ _ _)
  | |- keeps _ (mbind _ _) => refine (keeps_bind _ _ _ _ _); [|intros ?]
  | |- keeps _ (if ?b then _ else _) => destruct b
  | |- keeps _ (match ?x with _ => _ end) => destruct x
  | |- keeps _ (let '(_, _) := ?x in _) => destruct x
  end.

(** Run a [wp] goal to its first call. *)
Ltac wp_step :=
  match goal with
  | |- wp (mbind _ _) _ _ => apply wp_bind
  | |- wp (attempt _) _ _ => apply wp_attempt
  | |- wp (ignore _) _ _ => apply wp_ignore
  | |- wp (mret _) _ _ => apply wp_ret
  | |- wp (throw _) _ _ => apply wp_throw
  end.

(** ** Lists *)

Lemma NoDup_app_snoc {A} (l : list A) x : NoDup l → x ∉ l → NoDup (l ++ [x]).
Proof.
  intros Hl Hx. apply list.NoDup_app. split_and!; [done| |apply NoDup_singleton].
  intros y Hy ->%list_elem_of_singleton. done.
Qed.

Lemma elem_of_concat {A} (x : A) (ls : list (list A)) :
  (x ∈ concat ls) ↔ ∃ l, (l ∈ ls) ∧ (x ∈ l).
Proof.
  induction ls as [|l ls IH]; simpl.
  - split; [by intros ?%not_elem_of_nil|]. intros (l & H & _). by apply not_elem_of_nil in H.
  - rewrite elem_of_app, IH. setoid_rewrite elem_of_cons. naive_solver.
Qed.
