(* ===== verification/GoStrings.v ===== *)
(** * Go strings

    A Go string is a sequence of bytes, here a [string] of the Standard Library
    (one [ascii] per byte).  This file models what the program uses of the
    packages [strings], [unicode/utf8] and [unicode]: UTF-8 decoding from both
    ends, rune counting, [TrimSpace], prefix tests, [ToLower], and the character
    classes.  The Unicode tables beyond ASCII are data of the Go runtime: the
    class [UnicodeTables] takes them as parameters. *)

From S2P Require Import Prelude.
From Stdlib Require Import Ascii.
From Stdlib Require String.

#[local] Open Scope N_scope.

(** ** Bytes and runes *)

Definition byte_of (a : ascii) : N := N_of_ascii a.
Definition to_bytes (s : string) : list ascii := String.list_ascii_of_string s.
Definition of_bytes (l : list ascii) : string := String.string_of_list_ascii l.

Lemma of_to_bytes s : of_bytes (to_bytes s) = s.
Proof. apply String.string_of_list_ascii_of_string. Qed.
Lemma to_of_bytes l : to_bytes (of_bytes l) = l.
Proof. apply String.list_ascii_of_string_of_list_ascii. Qed.

Lemma to_bytes_app s t : to_bytes (s +:+ t) = to_bytes s ++ to_bytes t.
Proof. induction s as [|a s IH]; [done|]. simpl. by f_equal. Qed.

Definition in_range (lo hi b : N) : bool := (lo <=? b) && (b <=? hi).
Definition RuneError : N := 65533.

(** Size of the sequence a lead byte starts, with the range of its second
    byte; [None] for a byte that starts no sequence (the tables [first] and
    [acceptRanges] of [unicode/utf8]). *)
Definition lead_info (b : N) : option (nat * N * N) :=
  if in_range 194 223 b then Some (2%nat, 128, 191)
  else if b =? 224 then Some (3%nat, 160, 191)
  else if b =? 237 then Some (3%nat, 128, 159)
  else if in_range 225 239 b then Some (3%nat, 128, 191)
  else if b =? 240 then Some (4%nat, 144, 191)
  else if in_range 241 243 b then Some (4%nat, 128, 191)
  else if b =? 244 then Some (4%nat, 128, 143)
  else None.

Definition cont_byte (b : N) : bool := in_range 128 191 b.

(** [utf8.DecodeRuneInString]: the first rune and its width. *)
Definition decode_rune (l : list ascii) : N * nat :=
  match l with
  | [] => (RuneError, 0%nat)
  | a :: t =>
      let b0 := byte_of a in
      if b0 <? 128 then (b0, 1%nat)
      else match lead_info b0, t with
      | Some (2%nat, lo, hi), a1 :: _ =>
          if in_range lo hi (byte_of a1)
          then (b0 mod 32 * 64 + byte_of a1 mod 64, 2%nat)
          else (RuneError, 1%nat)
      | Some (3%nat, lo, hi), a1 :: a2 :: _ =>
          if in_range lo hi (byte_of a1) && cont_byte (byte_of a2)
          then (b0 mod 16 * 4096 + byte_of a1 mod 64 * 64 + byte_of a2 mod 64, 3%nat)
          else (RuneError, 1%nat)
      | Some (4%nat, lo, hi), a1 :: a2 :: a3 :: _ =>
          if in_range lo hi (byte_of a1) && cont_byte (byte_of a2)
             && cont_byte (byte_of a3)
          then (b0 mod 8 * 262144 + byte_of a1 mod 64 * 4096
                + byte_of a2 mod 64 * 64 + byte_of a3 mod 64, 4%nat)
          else (RuneError, 1%nat)
      | _, _ => (RuneError, 1%nat)
      end
  end.

(** [utf8.DecodeLastRuneInString], on the reversed bytes: the decoder restarts
    at the nearest byte, at most four from the end, that can start a rune. *)
Definition rune_start (b : N) : bool := negb (cont_byte b).
Definition decode_last_rune (rl : list ascii) : N * nat :=
  let accept (l : list ascii) :=
    let '(r, w) := decode_rune (rev l) in
    if (w =? length l)%nat then (r, w) else (RuneError, 1%nat) in
  match rl with
  | [] => (RuneError, 0%nat)
  | a1 :: t =>
      if byte_of a1 <? 128 then (byte_of a1, 1%nat)
      else match t with
      | a2 :: t2 =>
          if rune_start (byte_of a2) then accept [a1; a2]
          else match t2 with
          | a3 :: t3 =>
              if rune_start (byte_of a3) then accept [a1; a2; a3]
              else match t3 with
              | a4 :: _ =>
                  if rune_start (byte_of a4) then accept [a1; a2; a3; a4]
                  else (RuneError, 1%nat)
              | [] => (RuneError, 1%nat)
              end
          | [] => (RuneError, 1%nat)
          end
      | [] => (RuneError, 1%nat)
      end
  end.

(** The runes of a string, as [for _, r := range s] yields them. *)
Fixpoint runes_from (skip : nat) (l : list ascii) : list N :=
  match l with
  | [] => []
  | _ :: t =>
      match skip with
      | S k => runes_from k t
      | O => let '(r, w) := decode_rune l in r :: runes_from (pred w) t
      end
  end.
Definition runes (s : string) : list N := runes_from 0 (to_bytes s).
Definition RuneCountInString (s : string) : nat := length (runes s).

(** [utf8.AppendRune] *)
Definition byte_at (b : N) : ascii := ascii_of_N b.
Definition encode_rune (r : N) : list ascii :=
  if r <? 128 then [byte_at r]
  else if r <? 2048 then [byte_at (192 + r / 64); byte_at (128 + r mod 64)]
  else if in_range 55296 57343 r || (1114111 <? r) then
    [byte_at 239; byte_at 191; byte_at 189]
  else if r <? 65536 then
    [byte_at (224 + r / 4096); byte_at (128 + r / 64 mod 64); byte_at (128 + r mod 64)]
  else [byte_at (240 + r / 262144); byte_at (128 + r / 4096 mod 64);
        byte_at (128 + r / 64 mod 64); byte_at (128 + r mod 64)].

(** ** [strings.TrimSpace] *)

(** [unicode.IsSpace] *)
Definition is_space (r : N) : bool :=
  in_range 9 13 r || (r =? 32) || (r =? 133) || (r =? 160) || (r =? 5760)
  || in_range 8192 8202 r || (r =? 8232) || (r =? 8233) || (r =? 8239)
  || (r =? 8287) || (r =? 12288).

(** Drop runes satisfying [f] as [dec] finds them; [skip] bytes belong to a
    rune already dropped. *)
Fixpoint drop_runes (dec : list ascii → N * nat) (f : N → bool) (skip : nat)
    (l : list ascii) : list ascii :=
  match l with
  | [] => []
  | _ :: t =>
      match skip with
      | S k => drop_runes dec f k t
      | O => let '(r, w) := dec l in
             if f r then drop_runes dec f (pred w) t else l
      end
  end.

Definition trim_left (f : N → bool) (l : list ascii) : list ascii :=
  drop_runes decode_rune f 0 l.
Definition trim_right (f : N → bool) (l : list ascii) : list ascii :=
  rev (drop_runes decode_last_rune f 0 (rev l)).
Definition trim_func (f : N → bool) (l : list ascii) : list ascii :=
  trim_right f (trim_left f l).
Definition TrimSpace (s : string) : string := of_bytes (trim_func is_space (to_bytes s)).

(** ** Prefixes *)

Definition HasPrefix (s p : string) : bool := String.prefix p s.
Definition TrimPrefix (s p : string) : string :=
  if HasPrefix s p then String.substring (String.length p) (String.length s - String.length p) s
  else s.
(** [len(s)]: the number of bytes. *)
Definition len (s : string) : Z := Z.of_nat (String.length s).

(** [strings.LastIndex(s, c)] for a single byte [c]; -1 when absent. *)
Fixpoint last_index_from (i best : Z) (c : ascii) (l : list ascii) : Z :=
  match l with
  | [] => best
  | a :: l => last_index_from (i + 1) (if Ascii.eqb a c then i else best) c l
  end.
Definition LastIndexByte (s : string) (c : ascii) : Z := last_index_from 0 (-1) c (to_bytes s).
(** [strings.Contains(s, c)] for a single byte. *)
Definition ContainsByte (s : string) (c : ascii) : bool := existsb (Ascii.eqb c) (to_bytes s).

(** Every rune of the string is encoded as itself: the string is valid UTF-8. *)
Definition ValidString (s : string) : bool :=
  bool_decide (concat (map encode_rune (runes s)) = to_bytes s).

(** ** Case and character classes *)

(** The Unicode tables of the Go runtime, consulted for runes from 128 on. *)
Class UnicodeTables := {
  uni_to_lower : N → N;
  uni_is_lower : N → bool;
  uni_is_digit : N → bool;
}.

Section unicode.
Context `{!UnicodeTables}.

(** [unicode.ToLower], [unicode.IsLower], [unicode.IsDigit] *)
Definition to_lower_rune (r : N) : N :=
  if r <? 128 then (if in_range 65 90 r then r + 32 else r) else uni_to_lower r.
Definition is_lower_rune (r : N) : bool :=
  if r <? 128 then in_range 97 122 r else uni_is_lower r.
Definition is_digit_rune (r : N) : bool :=
  if r <? 128 then in_range 48 57 r else uni_is_digit r.

(** [strings.ToLower]: every rune is mapped; an invalid byte decodes to
    [RuneError] and is written back as the encoding of its image. *)
Definition ToLower (s : string) : string :=
  of_bytes (concat (map (λ r, encode_rune (to_lower_rune r)) (runes s))).
End unicode.

(** ** Lemmas on decoding *)

Lemma decode_rune_width l : l ≠ [] → (1 ≤ (decode_rune l).2)%nat.
Proof.
  destruct l as [|a t]; [done|intros _]. simpl. repeat case_match; simpl; lia.
Qed.

(** A nonempty prefix decodes to the rune of the whole, or is cut inside it. *)
Lemma decode_rune_prefix p q :
  p ≠ [] → (decode_rune p).1 = RuneError ∨ decode_rune (p ++ q) = decode_rune p.
Proof.
  destruct p as [|a t]; [done|intros _]. simpl.
  destruct (byte_of a <? 128); [by right|].
  destruct (lead_info (byte_of a)) as [[[n lo] hi]|]; [|by left].
  destruct n as [|[|[|[|[|n]]]]]; try by left.
  - destruct t as [|a1 t]; [by left|]. by right.
  - destruct t as [|a1 [|a2 t]]; try by left. by right.
  - destruct t as [|a1 [|a2 [|a3 t]]]; try by left. by right.
Qed.

Lemma is_space_RuneError : is_space RuneError = false.
Proof. reflexivity. Qed.

(** ** Lemmas on trimming *)

Lemma drop_runes_skip dec f k l :
  drop_runes dec f k l = drop_runes dec f 0 (drop k l).
Proof. revert k. induction l as [|a l IH]; intros [|k]; simpl; auto. Qed.

Lemma drop_runes_suffix dec f k l : ∃ p, l = p ++ drop_runes dec f k l.
Proof.
  revert k. induction l as [|a l IH]; intros k; simpl; [by exists []|].
  destruct k as [|k].
  - destruct (dec (a :: l)) as [r w]. destruct (f r); [|by exists []].
    destruct (IH (pred w)) as [p Hp]. exists (a :: p). simpl. by f_equal.
  - destruct (IH k) as [p Hp]. exists (a :: p). simpl. by f_equal.
Qed.

(** What remains starts with no droppable rune. *)
Lemma drop_runes_head dec f k l :
  drop_runes dec f k l = [] ∨ f (dec (drop_runes dec f k l)).1 = false.
Proof.
  revert k. induction l as [|a l IH]; intros k; simpl; [by left|].
  destruct k as [|k]; [|apply IH].
  destruct (dec (a :: l)) as [r w] eqn:E. destruct (f r) eqn:Ef; [apply IH|].
  right. rewrite E. done.
Qed.

Lemma drop_runes_fix dec f l :
  l = [] ∨ f (dec l).1 = false → drop_runes dec f 0 l = l.
Proof.
  destruct l as [|a l]; [done|]. intros [|H]; [done|]. simpl.
  destruct (dec (a :: l)) as [r w]; simpl in H. by rewrite H.
Qed.

Lemma drop_runes_idem dec f k l :
  drop_runes dec f 0 (drop_runes dec f k l) = drop_runes dec f k l.
Proof. apply drop_runes_fix, drop_runes_head. Qed.

Lemma trim_right_prefix f l : ∃ q, l = trim_right f l ++ q.
Proof.
  unfold trim_right.
  destruct (drop_runes_suffix decode_last_rune f 0 (rev l)) as [p Hp].
  exists (rev p). rewrite <- rev_app_distr, <- Hp. by rewrite rev_involutive.
Qed.

Lemma trim_left_of_trim_right f l :
  f RuneError = false → trim_left f l = l →
  trim_left f (trim_right f l) = trim_right f l.
Proof.
  intros Hf Hl. apply drop_runes_fix.
  destruct (trim_right_prefix f l) as [q Hq].
  destruct (decide (trim_right f l = [])) as [|Hne]; [by left|right].
  destruct (decode_rune_prefix (trim_right f l) q Hne) as [->|Hd]; [done|].
  rewrite <- Hd, <- Hq.
  destruct (drop_runes_head decode_rune f 0 l) as [He|He];
    fold (trim_left f l) in He; rewrite Hl in He; [|done].
  exfalso. apply Hne. by rewrite He.
Qed.

Lemma trim_func_idem f l :
  f RuneError = false → trim_func f (trim_func f l) = trim_func f l.
Proof.
  intros Hf. unfold trim_func.
  rewrite (trim_left_of_trim_right f (trim_left f l)); [|done|apply drop_runes_idem].
  unfold trim_right at 1 2. rewrite rev_involutive. by rewrite drop_runes_idem.
Qed.

Lemma TrimSpace_idem s : TrimSpace (TrimSpace s) = TrimSpace s.
Proof.
  unfold TrimSpace. rewrite to_of_bytes, trim_func_idem; [done|apply is_space_RuneError].
Qed.

#[export] Hint Rewrite TrimSpace_idem of_to_bytes to_of_bytes : wt_rw.

(** Concrete runs. *)
Example TrimSpace_ascii : TrimSpace (String "009" " a b  ") = "a b".
Proof. vm_compute. reflexivity. Qed.
Example TrimSpace_unicode :
  TrimSpace (of_bytes (encode_rune 12288 ++ to_bytes "x" ++ encode_rune 160)) = "x".
Proof. vm_compute. reflexivity. Qed.
