(* ===== verification/GoNum.v ===== *)
(** * Go numbers and times

    [float64] is the binary64 format of the Standard Library's [SpecFloat]
    (infinities, NaN and rounding included), [time.Time] is its wall-clock
    instant in nanoseconds since the Unix epoch, [time.Duration] is a 64-bit
    number of nanoseconds. *)

From S2P Require Import Prelude.
From Stdlib Require Import SpecFloat.

(** ** float64 *)

Definition float64 : Type := spec_float.
Definition f_prec : Z := 53.
Definition f_emax : Z := 1024.

(** [float64(z)] for an integer, rounded to nearest even. *)
Definition f_of_Z (z : Z) : float64 := binary_normalize f_prec f_emax z 0 false.
Definition f_add : float64 → float64 → float64 := SFadd f_prec f_emax.
Definition f_div : float64 → float64 → float64 := SFdiv f_prec f_emax.
Definition f_mul : float64 → float64 → float64 := SFmul f_prec f_emax.
(** [uint64(x)] for a finite [x] in range: towards zero. *)
Definition f_trunc (x : float64) : Z :=
  match x with
  | S754_finite sign m e => let v := Z.shiftl (Zpos m) e in if sign then - v else v
  | _ => 0
  end.
Definition f_lt : float64 → float64 → bool := SFltb.
Definition f_le : float64 → float64 → bool := SFleb.
(** [x > y] and [x >= y]. *)
Definition f_gt (x y : float64) : bool := f_lt y x.
Definition f_ge (x y : float64) : bool := f_le y x.
Definition f_zero : float64 := S754_zero false.

#[export] Instance float64_eq_dec : EqDecision float64.
Proof. unfold EqDecision, Decision, float64. decide equality; solve_decision. Defined.

(** Comparison of floats is antisymmetric where it is defined. *)
Lemma SFcompare_antisym x y :
  SFcompare y x = CompOpp <$> SFcompare x y.
Proof.
  destruct x as [[]|[]| |[] mx ex], y as [[]|[]| |[] my ey]; try reflexivity; simpl;
    rewrite (Z.compare_antisym ex ey); destruct (ex ?= ey)%Z; simpl; try reflexivity;
    f_equal; change (Pos.compare_cont Eq ?a ?b) with (Pos.compare a b);
    rewrite (Pos.compare_antisym mx my); destruct (Pos.compare mx my); reflexivity.
Qed.

Lemma f_lt_asym x y : f_lt x y = true → f_lt y x = false.
Proof.
  unfold f_lt, SFltb. rewrite (SFcompare_antisym x y).
  destruct (SFcompare x y) as [[]|]; simpl; congruence.
Qed.

Lemma f_lt_irrefl x : f_lt x x = false.
Proof.
  destruct (f_lt x x) eqn:E; [|done]. pose proof (f_lt_asym _ _ E). congruence.
Qed.

Lemma f_le_not_gt x y : f_le x y = true → f_gt x y = false.
Proof.
  unfold f_gt, f_lt, f_le, SFleb, SFltb. rewrite (SFcompare_antisym x y).
  destruct (SFcompare x y) as [[]|]; simpl; congruence.
Qed.

Lemma f_lt_nonzero_refl x : f_lt f_zero x = true → f_le x x = true.
Proof.
  unfold f_lt, f_le, SFltb, SFleb.
  destruct x as [[]|[]| |[] m e]; simpl; try discriminate; try reflexivity.
  rewrite Z.compare_refl. change (Pos.compare_cont Eq m m) with (Pos.compare m m).
  by rewrite Pos.compare_refl.
Qed.

(** ** Durations *)

Definition Nanosecond : Z := 1.
Definition Millisecond : Z := 1000000.
Definition Second : Z := 1000000000.
Definition Minute : Z := 60 * Second.
Definition Hour : Z := 60 * Minute.

(** [Duration.Seconds]: whole seconds plus the nanoseconds as a fraction. *)
Definition Seconds (d : Z) : float64 :=
  f_add (f_of_Z (Z.quot d Second)) (f_div (f_of_Z (Z.rem d Second)) (f_of_Z 1000000000)).

(** [lessThanHalf(x, y)]: x + x < y without overflow. *)
Definition lessThanHalf (x y : Z) : bool := x + x <? y.

(** [Duration.Round]: to the nearest multiple of [m], halves away from zero,
    saturating at the largest duration. *)
Definition Round (d m : Z) : Z :=
  if m <=? 0 then d
  else
    let r := Z.rem d m in
    if d <? 0 then
      let r := - r in
      if lessThanHalf r m then d + r
      else let d1 := wrap64 (d - m + r) in if d1 <? d then d1 else min_int64
    else if lessThanHalf r m then d - r
    else let d1 := wrap64 (d + m - r) in if d <? d1 then d1 else max_int64.

(** ** Instants *)

Definition time : Type := Z.

(** The zero [time.Time]: 1 January of year 1. *)
Definition zero_time : time := - 62135596800 * Second.
Definition IsZero (t : time) : bool := t =? zero_time.

(** [t.Sub(u)] saturates at the largest and smallest durations. *)
Definition time_Sub (t u : time) : Z := Z.max min_int64 (Z.min max_int64 (t - u)).
Definition time_Add (t : time) (d : Z) : time := t + d.
Definition After (t u : time) : bool := u <? t.
Definition Before (t u : time) : bool := t <? u.
Definition Unix (t : time) : Z := t / Second.

Lemma time_Sub_small t u : min_int64 ≤ t - u ≤ max_int64 → time_Sub t u = t - u.
Proof. unfold time_Sub. lia. Qed.

Lemma time_Sub_range t u : min_int64 ≤ time_Sub t u ≤ max_int64.
Proof. unfold time_Sub, min_int64, max_int64. lia. Qed.

Lemma Unix_mono t u : t ≤ u → Unix t ≤ Unix u.
Proof. intros. unfold Unix, Second. by apply Z.div_le_mono. Qed.

(** *** Calendar days, for [Format("2006-01-02")] *)

Definition day_ns : Z := 24 * Hour.
(** Days since the Unix epoch of the UTC day of an instant. *)
Definition utc_day_number (t : time) : Z := t / day_ns.

(** Proleptic Gregorian date of a day number: (year, month, day). *)
Definition civil_of_days (n : Z) : Z * Z * Z :=
  let z := n + 719468 in
  let era := z / 146097 in
  let doe := z mod 146097 in
  let yoe := (doe - doe / 1460 + doe / 36524 - doe / 146096) / 365 in
  let doy := doe - (365 * yoe + yoe / 4 - yoe / 100) in
  let mp := (5 * doy + 2) / 153 in
  let d := doy - (153 * mp + 2) / 5 + 1 in
  let m := if mp <? 10 then mp + 3 else mp - 9 in
  (yoe + era * 400 + (if m <=? 2 then 1 else 0), m, d).

Definition digit (n : Z) : string :=
  String (Ascii.ascii_of_N (48 + Z.to_N (n mod 10))) EmptyString.
Definition pad2 (n : Z) : string := digit (n / 10) +:+ digit n.
Definition pad4 (n : Z) : string := pad2 (n / 100) +:+ pad2 n.

(** Years 0 to 9999 print with four digits. *)
Definition format_date (t : time) : string :=
  let '(y, m, d) := civil_of_days (utc_day_number t) in
  pad4 y +:+ "-" +:+ pad2 m +:+ "-" +:+ pad2 d.

(** [Format(time.RFC3339)] of a UTC time. *)
Definition format_rfc3339 (t : time) : string :=
  let sec := Unix t mod 86400 in
  format_date t +:+ "T" +:+ pad2 (sec / 3600) +:+ ":" +:+ pad2 (sec / 60 mod 60) +:+ ":"
    +:+ pad2 (sec mod 60) +:+ "Z".
Example format_rfc3339_example : format_rfc3339 (1700000000 * Second) = "2023-11-14T22:13:20Z".
Proof. vm_compute. reflexivity. Qed.
Example format_date_epoch : format_date 0 = "1970-01-01".
Proof. vm_compute. reflexivity. Qed.
Example format_date_leap : format_date (1709164799 * Second) = "2024-02-28".
Proof. vm_compute. reflexivity. Qed.
Example format_date_leap_day : format_date (1709164800 * Second) = "2024-02-29".
Proof. vm_compute. reflexivity. Qed.
Example Seconds_example : Seconds 1500000000 = f_div (f_of_Z 3) (f_of_Z 2).
Proof. vm_compute. reflexivity. Qed.
