(* ===== verification/GoParse.v ===== *)
(** * Reading numbers, durations and lists

    What the source uses of [strconv], [time.ParseDuration] and the splitting and
    trimming functions of [strings]. *)

From S2P Require Import Prelude GoStrings GoNum.

(** ** Decimal integers *)

(** [strconv.ParseInt(s, 10, 64)]: an optional sign and digits, in range. *)
Definition digit_value (a : Ascii.ascii) : option Z :=
  let n := Z.of_N (Ascii.N_of_ascii a) in
  if (48 <=? n) && (n <=? 57) then Some (n - 48) else None.
Fixpoint digits_from (acc : Z) (l : list Ascii.ascii) : option Z :=
  match l with
  | [] => Some acc
  | a :: l => d ← digit_value a; digits_from (10 * acc + d) l
  end.
Definition ParseInt (s : string) : option Z :=
  let '(sign, ds) := match to_bytes s with
    | a :: l => if (byte_of a =? 45)%N then (-1, l)
                else if (byte_of a =? 43)%N then (1, l) else (1, a :: l)
    | [] => (1, [])
    end in
  match ds with
  | [] => None
  | _ => n ← digits_from 0 ds;
         if (min_int64 <=? sign * n) && (sign * n <=? max_int64) then Some (sign * n) else None
  end.
(** [n, _ := strconv.ParseInt(...)], on text that is not an integer: 0. *)
Definition ParseInt_or_zero (s : string) : Z := default 0 (ParseInt s).

(** [strconv.FormatInt(n, 10)]; one digit per bit is more than enough. *)
Definition digit_char (n : Z) : Ascii.ascii := Ascii.ascii_of_N (Z.to_N (48 + n)).
Fixpoint format_digits (fuel : nat) (n : Z) : list Ascii.ascii :=
  match fuel with
  | O => []
  | S k => if n <? 10 then [digit_char n]
           else format_digits k (n / 10) ++ [digit_char (n mod 10)]
  end.
Definition FormatInt (n : Z) : string :=
  let ds m := format_digits (S (Z.to_nat (Z.log2 m))) m in
  of_bytes (if n <? 0 then Ascii.ascii_of_N 45 :: ds (- n) else ds n).

Lemma digit_value_char n : 0 ≤ n < 10 → digit_value (digit_char n) = Some n.
Proof.
  intros Hn. assert (n = 0 ∨ n = 1 ∨ n = 2 ∨ n = 3 ∨ n = 4 ∨ n = 5 ∨ n = 6 ∨ n = 7 ∨ n = 8 ∨ n = 9)
    as Hc by lia.
  destruct Hc as [->|[->|[->|[->|[->|[->|[->|[->|[->| ->]]]]]]]]]; reflexivity.
Qed.

Lemma digits_from_app acc l1 l2 :
  digits_from acc (l1 ++ l2) = a ← digits_from acc l1; digits_from a l2.
Proof.
  revert acc. induction l1 as [|a l1 IH]; intros acc; simpl; [done|].
  destruct (digit_value a); simpl; [apply IH|done].
Qed.

Lemma format_digits_correct fuel n :
  0 ≤ n < 2 ^ Z.of_nat fuel → (0 < fuel)%nat →
  digits_from 0 (format_digits fuel n) = Some n ∧ format_digits fuel n ≠ [].
Proof.
  revert n. induction fuel as [|fuel IH]; intros n Hn Hf; [lia|]. simpl.
  destruct (Z.ltb_spec n 10) as [Hlt|Hge].
  { simpl. rewrite digit_value_char by lia. simpl. split; [f_equal; lia|done]. }
  assert (2 ^ Z.of_nat (S fuel) = 2 * 2 ^ Z.of_nat fuel) as Hpow
    by (rewrite Nat2Z.inj_succ, Z.pow_succ_r; lia).
  destruct (IH (n / 10)) as [IH1 _].
  { split; [apply Z.div_pos; lia|]. apply Z.div_lt_upper_bound; lia. }
  { destruct fuel; [simpl in *; lia|lia]. }
  rewrite digits_from_app, IH1. simpl.
  rewrite digit_value_char by (apply Z.mod_pos_bound; lia). simpl. split.
  - f_equal. pose proof (Z.div_mod n 10). lia.
  - by destruct (format_digits fuel (n / 10)).
Qed.

Lemma format_digits_chars fuel n :
  0 ≤ n → Forall (λ a, ∃ d, 0 ≤ d < 10 ∧ a = digit_char d) (format_digits fuel n).
Proof.
  revert n. induction fuel as [|fuel IH]; intros n Hn; simpl; [constructor|].
  destruct (Z.ltb_spec n 10).
  - constructor; [|constructor]. exists n. split; [lia|done].
  - apply Forall_app. split; [apply IH, Z.div_pos; lia|].
    constructor; [|constructor]. exists (n mod 10). split; [apply Z.mod_pos_bound; lia|done].
Qed.

Lemma digit_char_sign d : 0 ≤ d < 10 →
  (byte_of (digit_char d) =? 45)%N = false ∧ (byte_of (digit_char d) =? 43)%N = false.
Proof.
  intros Hn. assert (d = 0 ∨ d = 1 ∨ d = 2 ∨ d = 3 ∨ d = 4 ∨ d = 5 ∨ d = 6 ∨ d = 7 ∨ d = 8 ∨ d = 9)
    as Hc by lia.
  destruct Hc as [->|[->|[->|[->|[->|[->|[->|[->|[->| ->]]]]]]]]]; by split.
Qed.

(** What is formatted is parsed back. *)
Lemma ParseInt_FormatInt n : min_int64 ≤ n ≤ max_int64 → ParseInt (FormatInt n) = Some n.
Proof.
  intros Hr. unfold ParseInt, FormatInt. rewrite to_of_bytes.
  assert (∀ m, 0 ≤ m → let ds := format_digits (S (Z.to_nat (Z.log2 m))) m in
    digits_from 0 ds = Some m ∧ ds ≠ [] ∧
    Forall (λ a, ∃ d, 0 ≤ d < 10 ∧ a = digit_char d) ds) as Hds.
  { intros m Hm ds. destruct (format_digits_correct (S (Z.to_nat (Z.log2 m))) m) as [H1 H2]; [|lia|].
    - split; [done|]. rewrite Nat2Z.inj_succ, Z2Nat.id by apply Z.log2_nonneg.
      destruct (Z.eq_dec m 0) as [->|]; [done|]. apply Z.log2_spec. lia.
    - split_and!; [done..|]. by apply format_digits_chars. }
  destruct (Z.ltb_spec n 0) as [Hneg|Hpos].
  - destruct (Hds (- n)) as (H1 & H2 & _); [lia|].
    change ((byte_of (Ascii.ascii_of_N 45) =? 45)%N) with true. cbv iota.
    destruct (format_digits _ (- n)) eqn:E; [done|]. rewrite H1. cbn [mbind option_bind].
    replace (-1 * - n) with n by lia.
    destruct (Z.leb_spec min_int64 n), (Z.leb_spec n max_int64); simpl; done || lia.
  - destruct (Hds n Hpos) as (H1 & H2 & H3).
    destruct (format_digits _ n) as [|a l] eqn:E; [done|].
    apply list.Forall_cons in H3 as [(d & Hd & ->) _]. destruct (digit_char_sign d Hd) as [-> ->].
    rewrite H1. cbn [mbind option_bind]. rewrite !Z.mul_1_l.
    destruct (Z.leb_spec min_int64 n), (Z.leb_spec n max_int64); simpl; done || lia.
Qed.

(** [strconv.Atoi] on a 64-bit platform. *)
Definition Atoi (s : string) : option Z := ParseInt s.

(** ** Pieces of strings *)

Definition bytes : Type := list Ascii.ascii.

(** [strings.Index(s, c)] for a single byte: what is before and after it. *)
Fixpoint cut_byte (c : Ascii.ascii) (l : bytes) : option (bytes * bytes) :=
  match l with
  | [] => None
  | a :: l => if Ascii.eqb a c then Some ([], l)
              else '(p, q) ← cut_byte c l; Some (a :: p, q)
  end.

(** [strings.Split(s, c)] for a single byte. *)
Fixpoint split_bytes (c : Ascii.ascii) (acc l : bytes) : list bytes :=
  match l with
  | [] => [rev acc]
  | a :: l => if Ascii.eqb a c then rev acc :: split_bytes c [] l
              else split_bytes c (a :: acc) l
  end.
Definition Split (s : string) (c : Ascii.ascii) : list string :=
  of_bytes <$> split_bytes c [] (to_bytes s).

(** [strings.TrimRight(s, c)] and [strings.Trim(s, c)] for a single byte. *)
Fixpoint drop_byte (c : Ascii.ascii) (l : bytes) : bytes :=
  match l with
  | [] => []
  | a :: t => if Ascii.eqb a c then drop_byte c t else l
  end.
Definition TrimRightByte (s : string) (c : Ascii.ascii) : string :=
  of_bytes (rev (drop_byte c (rev (to_bytes s)))).
Definition TrimByte (s : string) (c : Ascii.ascii) : string :=
  of_bytes (rev (drop_byte c (rev (drop_byte c (to_bytes s))))).

(** [strings.TrimSuffix(s, c)] when [strings.HasSuffix(s, c)], for a single byte. *)
Definition CutSuffixByte (s : string) (c : Ascii.ascii) : option string :=
  match rev (to_bytes s) with
  | a :: l => if Ascii.eqb a c then Some (of_bytes (rev l)) else None
  | [] => None
  end.

(** ** [time.ParseDuration] *)

Definition two63 : Z := 2 ^ 63.

(** [leadingInt]: the leading digits, unless their value exceeds 2^63. *)
Fixpoint leadingInt (x : Z) (l : bytes) : option (Z * bytes) :=
  match l with
  | [] => Some (x, [])
  | a :: t =>
      match digit_value a with
      | None => Some (x, l)
      | Some d =>
          if two63 / 10 <? x then None
          else let x := 10 * x + d in if two63 <? x then None else leadingInt x t
      end
  end.

(** [leadingFraction]: digits past the precision are skipped. *)
Fixpoint leadingFraction (x : Z) (scale : float64) (overflow : bool) (l : bytes)
    : Z * float64 * bytes :=
  match l with
  | [] => (x, scale, [])
  | a :: t =>
      match digit_value a with
      | None => (x, scale, l)
      | Some d =>
          if overflow || (max_int64 / 10 <? x) then leadingFraction x scale true t
          else let y := 10 * x + d in
               if two63 <? y then leadingFraction x scale true t
               else leadingFraction y (f_mul scale (f_of_Z 10)) false t
      end
  end.

Definition is_point (a : Ascii.ascii) : bool := (byte_of a =? 46)%N.
Definition is_digit_byte (a : Ascii.ascii) : bool :=
  match digit_value a with Some _ => true | None => false end.

(** The bytes up to the next period or digit. *)
Fixpoint take_unit (l : bytes) : bytes * bytes :=
  match l with
  | [] => ([], [])
  | a :: t => if is_point a || is_digit_byte a then ([], l)
              else let '(u, r) := take_unit t in (a :: u, r)
  end.

(** [unitMap]; micro is spelled "us" or with U+00B5 or U+03BC. *)
Definition unit_of (u : string) : option Z :=
  if bool_decide (u = "ns") then Some Nanosecond
  else if bool_decide (u = "us") || bool_decide (u = of_bytes (encode_rune 181 ++ to_bytes "s"))
       || bool_decide (u = of_bytes (encode_rune 956 ++ to_bytes "s")) then Some 1000
  else if bool_decide (u = "ms") then Some Millisecond
  else if bool_decide (u = "s") then Some Second
  else if bool_decide (u = "m") then Some Minute
  else if bool_decide (u = "h") then Some Hour
  else None.

(** One number and its unit: the nanoseconds, and the rest. *)
Definition duration_part (l : bytes) : option (Z * bytes) :=
  match l with
  | [] => None
  | a :: _ =>
      if negb (is_point a || is_digit_byte a) then None
      else
        '(v, r) ← leadingInt 0 l;
        let pre := negb (length r =? length l)%nat in
        let '(f, scale, r, post) := match r with
          | b :: r' => if is_point b
                       then let '(f, scale, r'') := leadingFraction 0 (f_of_Z 1) false r' in
                            (f, scale, r'', negb (length r'' =? length r')%nat)
                       else (0, f_of_Z 1, r, false)
          | [] => (0, f_of_Z 1, r, false)
          end in
        if negb pre && negb post then None
        else
          let '(u, r) := take_unit r in
          if bool_decide (u = []) then None
          else
            w ← unit_of (of_bytes u);
            if two63 / w <? v then None
            else
              let v := v * w in
              let v := if 0 <? f then v + f_trunc (f_mul (f_of_Z f) (f_div (f_of_Z w) scale))
                       else v in
              if two63 <? v then None else Some (v, r)
  end.

(** The sum of the parts; each part takes at least one byte. *)
Fixpoint duration_parts (fuel : nat) (d : Z) (l : bytes) : option Z :=
  match l, fuel with
  | [], _ => Some d
  | _, O => None
  | _, S k =>
      '(v, r) ← duration_part l;
      let d := (d + v) mod (2 * two63) in if two63 <? d then None else duration_parts k d r
  end.

Definition ParseDuration (s : string) : option Z :=
  let '(neg, l) := match to_bytes s with
    | a :: l => if (byte_of a =? 45)%N then (true, l)
                else if (byte_of a =? 43)%N then (false, l) else (false, a :: l)
    | [] => (false, [])
    end in
  if bool_decide (l = to_bytes "0") then Some 0
  else if bool_decide (l = []) then None
  else
    d ← duration_parts (length l) 0 l;
    if neg then Some (wrap64 (- d)) else if max_int64 <? d then None else Some d.

Example ParseDuration_mixed : ParseDuration "1h15m30.918s" = Some 4530918000000.
Proof. vm_compute. reflexivity. Qed.
Example ParseDuration_fraction : ParseDuration "-.5h" = Some (-1800000000000).
Proof. vm_compute. reflexivity. Qed.
Example ParseDuration_bad : ParseDuration "3600" = None ∧ ParseDuration "1d" = None.
Proof. split; vm_compute; reflexivity. Qed.

(** Each part consumes at least one byte, so the fuel never runs out: more of it
    makes no difference. *)
Lemma leadingInt_shrinks x l v r : leadingInt x l = Some (v, r) → (length r ≤ length l)%nat.
Proof.
  revert x. induction l as [|a l IH]; intros x; simpl; [intros [= _ <-]; done|].
  destruct (digit_value a); [|intros [= _ <-]; done].
  destruct (_ <? x); [done|]. destruct (_ <? _); [done|]. intros Hl%IH. lia.
Qed.
Lemma leadingFraction_shrinks x s o l : (length (leadingFraction x s o l).2 ≤ length l)%nat.
Proof.
  revert x s o. induction l as [|a l IH]; intros x s o; simpl; [done|].
  destruct (digit_value a); [|done].
  destruct (_ || _); [specialize (IH x s true)|destruct (_ <? _); [specialize (IH x s true)|]]; try lia.
  match goal with |- context [leadingFraction ?y ?z false l] => specialize (IH y z false) end. lia.
Qed.
Lemma take_unit_shrinks l : (length (take_unit l).1 + length (take_unit l).2 = length l)%nat.
Proof.
  induction l as [|a l IH]; simpl; [done|]. destruct (_ || _); [done|].
  destruct (take_unit l). simpl in *. lia.
Qed.
Lemma duration_part_shrinks l v r : duration_part l = Some (v, r) → (length r < length l)%nat.
Proof.
  unfold duration_part. destruct l as [|a l0]; [done|]. set (l := a :: l0).
  destruct (negb _); [done|]. destruct (leadingInt 0 l) as [[v0 r0]|] eqn:Ei; [|done].
  apply leadingInt_shrinks in Ei. cbn [mbind option_bind].
  set (rest := match r0 with [] => _ | _ => _ end).
  assert (length rest.1.2 ≤ length l)%nat as Hrest.
  { subst rest. destruct r0 as [|b r']; [done|]. destruct (is_point b); [|done].
    pose proof (leadingFraction_shrinks 0 (f_of_Z 1) false r') as Hf.
    destruct (leadingFraction _ _ _ _) as [[? ?] ?]. simpl in *. lia. }
  destruct rest as [[[f scale] r1] post]. cbn [fst snd] in Hrest.
  destruct (negb _ && _); [done|]. pose proof (take_unit_shrinks r1) as Hu.
  destruct (take_unit r1) as [u r2]. cbn [fst snd] in Hu. case_bool_decide as Hne; [done|].
  destruct (unit_of _); [|done]. cbn [mbind option_bind]. destruct (_ <? _); [done|].
  destruct (_ <? _); [done|]. intros [= _ <-]. destruct u; [done|]. simpl in Hu. lia.
Qed.
Lemma duration_parts_fuel k k' d l :
  (length l ≤ k)%nat → (length l ≤ k')%nat → duration_parts k d l = duration_parts k' d l.
Proof.
  revert k' d l. induction k as [|k IH]; intros k' d l Hk Hk'; destruct l as [|a l0];
    try (destruct k'; done); [simpl in *; lia|].
  set (l := a :: l0) in *. destruct k' as [|k']; [simpl in *; lia|]. subst l.
  cbn [duration_parts]. destruct (duration_part (a :: l0)) as [[v r]|] eqn:E; [|done].
  apply duration_part_shrinks in E. cbn [mbind option_bind]. destruct (_ <? _); [done|].
  apply IH; simpl in *; lia.
Qed.
