(* ===== verification/GoJson.v ===== *)
(** * encoding/json

    What the chat uses of Go's [encoding/json]: the escaping of strings and the
    decimal integers of [json.Marshal], the syntax that [json.Unmarshal]
    accepts, and how it fills a field.  A text parses to a [json] tree; a
    message is encoded and decoded field by field (Chat.v).  The encoder escapes
    HTML characters, the decoder replaces invalid UTF-8 by U+FFFD and joins
    surrogate pairs, as the Go package does. *)

From S2P Require Import Prelude GoStrings.
From Stdlib Require Import Ascii.

#[local] Open Scope N_scope.

(** ** Values *)

#[local] Set Warnings "-register-all".

(** A number keeps its literal, a string the bytes between its quotes beside its
    value; an object keeps its members in order. *)
Inductive json : Type :=
  | JNull
  | JBool (b : bool)
  | JNum (lit : list ascii)
  | JStr (s : string) (raw : list ascii)
  | JArr (l : list json)
  | JObj (l : list (string * json)).

(** ** Encoding strings *)

Definition hex_digit (n : N) : ascii :=
  byte_at (if n <? 10 then 48 + n else 87 + n).

(** [htmlSafeSet] *)
Definition html_safe (b : N) : bool :=
  (32 <=? b) && (b <? 128) &&
  negb ((b =? 34) || (b =? 38) || (b =? 60) || (b =? 62) || (b =? 92)).

Definition escape_byte (b : N) : list ascii :=
  if html_safe b then [byte_at b]
  else if (b =? 92) || (b =? 34) then [byte_at 92; byte_at b]
  else if b =? 8 then to_bytes "\b"
  else if b =? 12 then to_bytes "\f"
  else if b =? 10 then to_bytes "\n"
  else if b =? 13 then to_bytes "\r"
  else if b =? 9 then to_bytes "\t"
  else to_bytes "\u00" ++ [hex_digit (b / 16); hex_digit (b mod 16)].

(** [appendString] with [escapeHTML]; [skip] bytes belong to a rune already
    copied. *)
Fixpoint escape_from (skip : nat) (l : list ascii) : list ascii :=
  match l with
  | [] => []
  | a :: t =>
      match skip with
      | S k => escape_from k t
      | O =>
          if byte_of a <? 128 then escape_byte (byte_of a) ++ escape_from 0 t
          else
            let '(r, w) := decode_rune l in
            (if (r =? RuneError) && (w =? 1)%nat then to_bytes "\ufffd"
             else if (r =? 8232) || (r =? 8233)
             then to_bytes "\u202" ++ [hex_digit (r mod 16)]
             else take w l) ++ escape_from (pred w) t
      end
  end.
Definition quote (s : string) : list ascii :=
  [byte_at 34] ++ escape_from 0 (to_bytes s) ++ [byte_at 34].

(** ** Encoding integers *)

Fixpoint dec_digits (fuel : nat) (n : N) : list ascii :=
  match fuel with
  | O => []
  | S k => if n <? 10 then [byte_at (48 + n)]
           else dec_digits k (n / 10) ++ [byte_at (48 + n mod 10)]
  end.
(** One digit per bit is more than enough. *)
Definition dec_N (n : N) : list ascii := dec_digits (S (N.to_nat (N.log2 n))) n.
Definition dec_Z (z : Z) : list ascii :=
  if (z <? 0)%Z then byte_at 45 :: dec_N (Z.to_N (- z)) else dec_N (Z.to_N z).

(** ** Encoding arrays and objects *)

Definition chars : string → list ascii := to_bytes.
Definition member_str (name : string) (v : list ascii) : list ascii :=
  quote name ++ chars ":" ++ v.
Fixpoint join_members (ms : list (list ascii)) : list ascii :=
  match ms with
  | [] => []
  | [m] => m
  | m :: ms => m ++ chars "," ++ join_members ms
  end.
Definition braces (ms : list (list ascii)) : list ascii :=
  chars "{" ++ join_members ms ++ chars "}".
Definition omitempty (name v : string) : list (list ascii) :=
  if bool_decide (v = "") then [] else [member_str name (quote v)].
Definition brackets (es : list (list ascii)) : list ascii :=
  chars "[" ++ join_members es ++ chars "]".

(** ** Parsing *)

Definition is_ws (b : N) : bool := (b =? 32) || (b =? 9) || (b =? 13) || (b =? 10).
Fixpoint skip_ws (l : list ascii) : list ascii :=
  match l with
  | a :: t => if is_ws (byte_of a) then skip_ws t else l
  | [] => []
  end.

Definition is_digit (b : N) : bool := in_range 48 57 b.
Fixpoint take_digits (l : list ascii) : list ascii * list ascii :=
  match l with
  | a :: t => if is_digit (byte_of a)
              then let '(ds, r) := take_digits t in (a :: ds, r) else ([], l)
  | [] => ([], [])
  end.

(** [take_lit c l]: the byte [c] at the head of [l]. *)
Definition take_byte (c : N) (l : list ascii) : option (list ascii) :=
  match l with
  | a :: t => if byte_of a =? c then Some t else None
  | [] => None
  end.

(** At least one digit. *)
Definition digits1 (l : list ascii) : option (list ascii * list ascii) :=
  match take_digits l with
  | ([], _) => None
  | (ds, r) => Some (ds, r)
  end.

(** The literal of a number and the rest; a number that starts with 0 has no
    other integer digit. *)
Definition lex_int (l : list ascii) : option (list ascii * list ascii) :=
  match l with
  | a :: t => if byte_of a =? 48 then Some ([a], t) else digits1 l
  | [] => None
  end.
Definition lex_frac (l : list ascii) : option (list ascii * list ascii) :=
  match l with
  | a :: t => if byte_of a =? 46
              then '(ds, r) ← digits1 t; Some (a :: ds, r) else Some ([], l)
  | [] => Some ([], l)
  end.
Definition lex_exp (l : list ascii) : option (list ascii * list ascii) :=
  match l with
  | a :: t =>
      if (byte_of a =? 101) || (byte_of a =? 69) then
        let '(sign, t) := match t with
          | s :: t' => if (byte_of s =? 43) || (byte_of s =? 45) then ([s], t') else ([], t)
          | [] => ([], t)
          end in
        '(ds, r) ← digits1 t; Some (a :: sign ++ ds, r)
      else Some ([], l)
  | [] => Some ([], l)
  end.
Definition lex_number (l : list ascii) : option (list ascii * list ascii) :=
  let '(sign, l) := match take_byte 45 l with
    | Some t => ([byte_at 45], t) | None => ([], l) end in
  '(i, l) ← lex_int l; '(f, l) ← lex_frac l; '(e, l) ← lex_exp l;
  Some (sign ++ i ++ f ++ e, l).

Definition hex_value (b : N) : option N :=
  if is_digit b then Some (b - 48)
  else if in_range 97 102 b then Some (b - 87)
  else if in_range 65 70 b then Some (b - 55)
  else None.
(** [getu4], after the [\u]. *)
Definition hex4 (l : list ascii) : option (N * list ascii) :=
  match l with
  | a :: b :: c :: d :: t =>
      x ← hex_value (byte_of a); y ← hex_value (byte_of b);
      z ← hex_value (byte_of c); w ← hex_value (byte_of d);
      Some (((x * 16 + y) * 16 + z) * 16 + w, t)
  | _ => None
  end.

Definition is_surrogate (r : N) : bool := in_range 55296 57343 r.
(** [utf16.DecodeRune] on a pair that is one. *)
Definition join_surrogates (r1 r2 : N) : option N :=
  if in_range 55296 56319 r1 && in_range 56320 57343 r2
  then Some ((r1 - 55296) * 1024 + (r2 - 56320) + 65536) else None.

(** The bytes up to the closing quote, unquoted.  A lone surrogate becomes
    U+FFFD and what follows it is read on its own. *)
Fixpoint unquote (fuel : nat) (l : list ascii) : option (list ascii * list ascii) :=
  match fuel with
  | O => None
  | S k =>
      match l with
      | [] => None
      | a :: t =>
          let b := byte_of a in
          let emit (out rest : list ascii) :=
            '(s, r) ← unquote k rest; Some (out ++ s, r) in
          if b =? 34 then Some ([], t)
          else if b =? 92 then
            match t with
            | [] => None
            | e :: t' =>
                let c := byte_of e in
                if (c =? 34) || (c =? 92) || (c =? 47) then emit [e] t'
                else if c =? 98 then emit [byte_at 8] t'
                else if c =? 102 then emit [byte_at 12] t'
                else if c =? 110 then emit [byte_at 10] t'
                else if c =? 114 then emit [byte_at 13] t'
                else if c =? 116 then emit [byte_at 9] t'
                else if c =? 117 then
                  '(r1, t1) ← hex4 t';
                  if is_surrogate r1 then
                    match (t2 ← take_byte 92 t1; t2 ← take_byte 117 t2; hex4 t2) with
                    | Some (r2, t2) =>
                        match join_surrogates r1 r2 with
                        | Some r => emit (encode_rune r) t2
                        | None => emit (encode_rune RuneError) t1
                        end
                    | None => emit (encode_rune RuneError) t1
                    end
                  else emit (encode_rune r1) t1
                else None
            end
          else if b <? 32 then None
          else if b <? 128 then emit [a] t
          else
            let '(r, w) := decode_rune l in
            emit (encode_rune r) (drop w l)
      end
  end.

(** [maxNestingDepth] *)
Definition max_nesting : N := 10000.

(** The word [w] at the head of [l]. *)
Fixpoint take_word (w l : list ascii) : option (list ascii) :=
  match w, l with
  | [], _ => Some l
  | c :: w, a :: t => if byte_of a =? byte_of c then take_word w t else None
  | _ :: _, [] => None
  end.

(** A value after optional white space; the elements of an array and the
    members of an object come back as lists.  Every call consumes a byte, so the
    length of the text is enough fuel. *)
Fixpoint parse_value (fuel : nat) (depth : N) (l : list ascii) : option (json * list ascii) :=
  match fuel with
  | O => None
  | S k =>
      let l := skip_ws l in
      match l with
      | [] => None
      | a :: t =>
          let b := byte_of a in
          if b =? 34 then
            '(s, r) ← unquote k t;
            Some (JStr (of_bytes s) (take (length t - S (length r)) t), r)
          else if b =? 91 then
            if max_nesting <? depth + 1 then None
            else match take_byte 93 (skip_ws t) with
            | Some r => Some (JArr [], r)
            | None => '(es, r) ← parse_elements k (depth + 1) t; Some (JArr es, r)
            end
          else if b =? 123 then
            if max_nesting <? depth + 1 then None
            else match take_byte 125 (skip_ws t) with
            | Some r => Some (JObj [], r)
            | None => '(ms, r) ← parse_members k (depth + 1) t; Some (JObj ms, r)
            end
          else if b =? 116 then r ← take_word (to_bytes "true") l; Some (JBool true, r)
          else if b =? 102 then r ← take_word (to_bytes "false") l; Some (JBool false, r)
          else if b =? 110 then r ← take_word (to_bytes "null") l; Some (JNull, r)
          else '(n, r) ← lex_number l; Some (JNum n, r)
      end
  end
with parse_elements (fuel : nat) (depth : N) (l : list ascii) : option (list json * list ascii) :=
  match fuel with
  | O => None
  | S k =>
      '(v, r) ← parse_value k depth l;
      let r := skip_ws r in
      match take_byte 44 r with
      | Some r => '(vs, r) ← parse_elements k depth r; Some (v :: vs, r)
      | None => r ← take_byte 93 r; Some ([v], r)
      end
  end
with parse_members (fuel : nat) (depth : N) (l : list ascii)
    : option (list (string * json) * list ascii) :=
  match fuel with
  | O => None
  | S k =>
      r ← take_byte 34 (skip_ws l);
      '(key, r) ← unquote k r;
      r ← take_byte 58 (skip_ws r);
      '(v, r) ← parse_value k depth r;
      let r := skip_ws r in
      match take_byte 44 r with
      | Some r => '(ms, r) ← parse_members k depth r; Some ((of_bytes key, v) :: ms, r)
      | None => r ← take_byte 125 r; Some ([(of_bytes key, v)], r)
      end
  end.

(** A whole text: one value, then white space only. *)
Definition parse (s : string) : option json :=
  let l := to_bytes s in
  '(v, r) ← parse_value (S (S (length l))) 0 l;
  match skip_ws r with [] => Some v | _ => None end.

(** ** Filling fields *)

(** [foldName] on what can match an ASCII name: letters to upper case, the long
    s and the Kelvin sign to S and K. *)
Definition fold_rune (r : N) : N :=
  if in_range 97 122 r then r - 32
  else if r =? 383 then 83 else if r =? 8490 then 75 else r.
Definition fold_name (s : string) : list N := map fold_rune (runes s).

(** The field a key names: by exact name, else by the first name equal up to
    case. *)
Definition field_of (names : list string) (key : string) : option string :=
  if bool_decide (key ∈ names) then Some key
  else head (filter (λ n, bool_decide (fold_name n = fold_name key)) names).

(** A value stored into a field of type string, bool or int64; null leaves the
    field alone, another type is an error. *)
Definition into_string (v : json) (cur : string) : option string :=
  match v with JNull => Some cur | JStr s _ => Some s | _ => None end.
Definition into_bool (v : json) (cur : bool) : option bool :=
  match v with JNull => Some cur | JBool b => Some b | _ => None end.

Definition digits_value (ds : list ascii) : option N :=
  foldl (λ acc a, acc ≫= λ n, if is_digit (byte_of a)
                               then Some (10 * n + (byte_of a - 48)) else None) (Some 0) ds.
(** [strconv.ParseInt(lit, 10, 64)] on the literal of a number. *)
Definition parse_int64 (lit : list ascii) : option Z :=
  z ← match take_byte 45 lit with
      | Some ds => n ← digits_value ds; Some (- Z.of_N n)%Z
      | None => n ← digits_value lit; Some (Z.of_N n)
      end;
  if ((min_int64 <=? z) && (z <=? max_int64))%Z then Some z else None.
Definition into_int64 (v : json) (cur : Z) : option Z :=
  match v with JNull => Some cur | JNum lit => parse_int64 lit | _ => None end.

(** The members in order, each into the field its key names; unknown keys are
    skipped. *)
Fixpoint fold_members {A} (f : string * json → A → option A) (ms : list (string * json))
    (x : A) : option A :=
  match ms with
  | [] => Some x
  | kv :: ms => x ← f kv x; fold_members f ms x
  end.
