(* ===== verification/JsonFacts.v ===== *)
(** * Facts about encoding/json

    What [json.Unmarshal] reads back from the pieces [json.Marshal] writes: the
    characters of a string (invalid bytes replaced by U+FFFD), integers, arrays
    and objects. *)

From S2P Require Import Prelude GoStrings GoNum GoJson.
From Stdlib Require Import Ascii.
#[local] Open Scope N_scope.

(** ** Strings *)

(** The text of a string after one trip through runes. *)
Definition clean_bytes (l : list ascii) : list ascii := concat (map encode_rune (runes_from 0 l)).
Definition clean (s : string) : string := of_bytes (clean_bytes (to_bytes s)).

Lemma clean_valid s : ValidString s = true → clean s = s.
Proof.
  unfold ValidString, clean, clean_bytes. intros Hv%bool_decide_eq_true.
  unfold runes in Hv. rewrite Hv. apply of_to_bytes.
Qed.

Lemma runes_from_skip k l : runes_from k l = runes_from 0 (drop k l).
Proof. revert k. induction l as [|a l IH]; intros [|k]; simpl; auto. Qed.
Lemma escape_from_skip k l : escape_from k l = escape_from 0 (drop k l).
Proof. revert k. induction l as [|a l IH]; intros [|k]; cbn [escape_from drop]; auto. Qed.

Lemma clean_step l : l ≠ [] →
  clean_bytes l = encode_rune (decode_rune l).1 ++ clean_bytes (drop (decode_rune l).2 l).
Proof.
  intros Hl. destruct l as [|a t]; [done|]. unfold clean_bytes at 1. cbn [runes_from].
  pose proof (decode_rune_width (a :: t) Hl) as Hw. destruct (decode_rune (a :: t)) as [r w].
  cbn [fst snd] in *. destruct w as [|w]; [lia|]. cbn [map concat pred drop].
  by rewrite runes_from_skip.
Qed.

(** A rune decoded from [w] bytes is decoded from them whatever follows. *)
Lemma decode_rune_take l r w Y :
  decode_rune l = (r, w) → ¬ (r = RuneError ∧ w = 1%nat) → l ≠ [] →
  decode_rune (take w l ++ Y) = (r, w) ∧ length (take w l) = w.
Proof.
  intros Hd Hne Hl. destruct l as [|a t]; [done|]. cbn [decode_rune] in Hd.
  destruct (byte_of a <? 128) eqn:E1.
  { injection Hd as <- <-. cbn [take app decode_rune]. by rewrite E1. }
  destruct (lead_info (byte_of a)) as [[[n lo] hi]|] eqn:E2; [|injection Hd as <- <-; tauto].
  destruct n as [|[|[|[|[|n]]]]]; try (injection Hd as <- <-; tauto).
  - destruct t as [|a1 t]; [injection Hd as <- <-; tauto|].
    destruct (in_range lo hi (byte_of a1)) eqn:E3; [|injection Hd as <- <-; tauto].
    injection Hd as <- <-. cbn [take app decode_rune length]. by rewrite E1, E2, E3.
  - destruct t as [|a1 [|a2 t]]; try (injection Hd as <- <-; tauto).
    destruct (_ && _) eqn:E3; [|injection Hd as <- <-; tauto].
    injection Hd as <- <-. cbn [take app decode_rune length]. by rewrite E1, E2, E3.
  - destruct t as [|a1 [|a2 [|a3 t]]]; try (injection Hd as <- <-; tauto).
    destruct (_ && _) eqn:E3; [|injection Hd as <- <-; tauto].
    injection Hd as <- <-. cbn [take app decode_rune length]. by rewrite E1, E2, E3.
Qed.

Lemma unquote_ascii a X k :
  (byte_of a <? 128) = true →
  unquote (S k) (escape_byte (byte_of a) ++ X) = ('(s, r) ← unquote k X; Some (a :: s, r)).
Proof.
  destruct a as [[] [] [] [] [] [] [] []]; cbn; intros Hb; try done.
Qed.

Lemma escape_byte_nonempty b : (1 ≤ length (escape_byte b))%nat.
Proof. unfold escape_byte. repeat case_match; simpl; lia. Qed.

Lemma encode_ascii a : (byte_of a <? 128) = true → encode_rune (byte_of a) = [a].
Proof. destruct a as [[] [] [] [] [] [] [] []]; cbn; intros Hb; done. Qed.

Lemma unquote_high a t k :
  (byte_of a <? 128) = false →
  unquote (S k) (a :: t) =
    let '(r, w) := decode_rune (a :: t) in
    ('(s, rest) ← unquote k (drop w (a :: t)); Some (encode_rune r ++ s, rest)).
Proof.
  intros Hb. cbn [unquote]. apply N.ltb_ge in Hb.
  destruct (N.eqb_spec (byte_of a) 34); [lia|]. destruct (N.eqb_spec (byte_of a) 92); [lia|].
  destruct (N.ltb_spec (byte_of a) 32); [lia|]. by destruct (N.ltb_spec (byte_of a) 128); [lia|].
Qed.

Lemma unquote_error k X :
  unquote (S k) (to_bytes "\ufffd" ++ X) =
    ('(s, rest) ← unquote k X; Some (encode_rune RuneError ++ s, rest)).
Proof. reflexivity. Qed.
Lemma unquote_separator r k X :
  ((r =? 8232) || (r =? 8233)) = true →
  unquote (S k) ((to_bytes "\u202" ++ [hex_digit (r mod 16)]) ++ X) =
    ('(s, rest) ← unquote k X; Some (encode_rune r ++ s, rest)).
Proof.
  intros [H%N.eqb_eq|H%N.eqb_eq]%orb_true_iff; subst r; reflexivity.
Qed.

(** One rune of the escaped text. *)
Lemma unquote_rune l k Y :
  l ≠ [] → ∃ e, escape_from 0 l = e ++ escape_from 0 (drop (decode_rune l).2 l) ∧ e ≠ [] ∧
  unquote (S k) (e ++ Y) =
    ('(s, rest) ← unquote k Y; Some (encode_rune (decode_rune l).1 ++ s, rest)).
Proof.
  intros Hl. destruct l as [|a t]; [done|]. cbn [escape_from].
  destruct (byte_of a <? 128) eqn:Hb.
  { exists (escape_byte (byte_of a)). cbn [decode_rune]. rewrite Hb. cbn [fst snd drop].
    split_and!; [done| |by rewrite unquote_ascii, encode_ascii].
    pose proof (escape_byte_nonempty (byte_of a)). destruct (escape_byte _); simpl in *; [lia|done]. }
  pose proof (decode_rune_width (a :: t) Hl) as Hw.
  destruct (decode_rune (a :: t)) as [r w] eqn:Hd. cbn [fst snd] in *.
  destruct w as [|w]; [lia|]. cbn [pred drop]. rewrite (escape_from_skip w).
  eexists. split; [reflexivity|].
  destruct ((r =? RuneError) && (S w =? 1)%nat) eqn:E1.
  { apply andb_true_iff in E1 as [->%N.eqb_eq _]. split; [done|apply unquote_error]. }
  destruct ((r =? 8232) || (r =? 8233)) eqn:E2.
  { split; [by destruct (hex_digit _)|by apply unquote_separator]. }
  split; [done|]. destruct (decode_rune_take (a :: t) r (S w) Y Hd) as [Hdec Hlen]; [|done|].
  { intros [-> [= ->]]. done. }
  cbn [take app] in *. rewrite unquote_high, Hdec by done. cbn [drop].
  injection Hlen as Hlen. replace (drop w (take w t ++ Y)) with Y; [done|].
  rewrite <- Hlen at 1. by rewrite drop_app_length.
Qed.

(** Reading back an escaped string gives its runes, encoded. *)
Lemma unquote_escape n fuel l rest :
  (length l ≤ n)%nat → (length (escape_from 0 l) < fuel)%nat →
  unquote fuel (escape_from 0 l ++ byte_at 34 :: rest) = Some (clean_bytes l, rest).
Proof.
  revert fuel l. induction n as [|n IH]; intros fuel l Hn Hf.
  { destruct l; [|simpl in *; lia]. destruct fuel; [simpl in *; lia|]. done. }
  destruct (decide (l = [])) as [->|Hl]; [destruct fuel; [simpl in *; lia|]; done|].
  destruct fuel as [|k]; [lia|].
  destruct (unquote_rune l k (escape_from 0 (drop (decode_rune l).2 l) ++ byte_at 34 :: rest) Hl)
    as (e & He & Hne & Hun).
  rewrite He, <- app_assoc, Hun. rewrite (clean_step l Hl).
  pose proof (decode_rune_width l Hl) as Hw.
  rewrite (IH k); [done| |].
  - rewrite length_drop. destruct l; [done|]. simpl in *. lia.
  - rewrite He, length_app in Hf. destruct e; [done|]. simpl in Hf. lia.
Qed.

Lemma unquote_quote fuel s rest :
  (length (quote s) ≤ fuel)%nat →
  unquote fuel (escape_from 0 (to_bytes s) ++ byte_at 34 :: rest) =
    Some (clean_bytes (to_bytes s), rest).
Proof.
  intros Hf. apply (unquote_escape (length (to_bytes s))); [done|].
  unfold quote in Hf. rewrite !length_app in Hf. simpl in Hf. lia.
Qed.

(** ** Integers *)

Definition digit_byte (n : N) : ascii := byte_at (48 + n).
Lemma digit_byte_spec n : n < 10 →
  is_digit (byte_of (digit_byte n)) = true ∧ byte_of (digit_byte n) - 48 = n.
Proof.
  intros Hn. assert (n = 0 ∨ n = 1 ∨ n = 2 ∨ n = 3 ∨ n = 4 ∨ n = 5 ∨ n = 6 ∨ n = 7 ∨ n = 8 ∨ n = 9)
    as Hc by lia.
  destruct Hc as [->|[->|[->|[->|[->|[->|[->|[->|[->| ->]]]]]]]]]; split; reflexivity.
Qed.

Lemma digits_value_snoc ds a :
  digits_value (ds ++ [a]) = (n ← digits_value ds;
    if is_digit (byte_of a) then Some (10 * n + (byte_of a - 48)) else None).
Proof. unfold digits_value. by rewrite foldl_snoc. Qed.

(** What is known of a rendering: its value, its digits, no leading zero. *)
Lemma dec_digits_spec fuel n :
  n < 2 ^ N.of_nat fuel → (0 < fuel)%nat →
  digits_value (dec_digits fuel n) = Some n ∧
  Forall (λ a, is_digit (byte_of a) = true) (dec_digits fuel n) ∧
  ∃ a t, dec_digits fuel n = a :: t ∧ (byte_of a = 48 → t = []).
Proof.
  revert n. induction fuel as [|k IH]; intros n Hn Hf; [lia|]. cbn [dec_digits].
  destruct (N.ltb_spec n 10) as [Hlt|Hge].
  { destruct (digit_byte_spec n Hlt) as [H1 H2]. unfold digit_byte in *. split_and!.
    - unfold digits_value. cbn [foldl mbind option_bind]. rewrite H1, H2. f_equal; lia.
    - by constructor.
    - by eexists _, []. }
  assert (n / 10 < 2 ^ N.of_nat k) as Hdiv.
  { apply N.Div0.div_lt_upper_bound. rewrite Nat2N.inj_succ, N.pow_succ_r' in Hn. lia. }
  assert (0 < k)%nat as Hk.
  { destruct k; [|lia]. change (2 ^ N.of_nat 1) with 2 in Hn. lia. }
  destruct (IH (n / 10) Hdiv Hk) as (Hv & Hall & a & t & He & Hz).
  destruct (digit_byte_spec (n mod 10)) as [H1 H2]; [apply N.mod_lt; lia|].
  unfold digit_byte in *. split_and!.
  - rewrite digits_value_snoc, Hv. cbn [mbind option_bind]. rewrite H1, H2. f_equal.
    pose proof (N.div_mod n 10). lia.
  - apply Forall_app. split; [done|by constructor].
  - exists a, (t ++ [byte_at (48 + n mod 10)]). rewrite He. split; [done|].
    intros Ha. exfalso. rewrite He, (Hz Ha) in Hv. unfold digits_value in Hv.
    cbn [foldl mbind option_bind] in Hv. rewrite Ha in Hv. cbn in Hv. injection Hv as Hv.
    assert (1 ≤ n / 10) by (apply N.div_le_lower_bound; lia). lia.
Qed.

Lemma dec_N_spec n :
  digits_value (dec_N n) = Some n ∧ Forall (λ a, is_digit (byte_of a) = true) (dec_N n) ∧
  ∃ a t, dec_N n = a :: t ∧ (byte_of a = 48 → t = []).
Proof.
  apply dec_digits_spec; [|lia]. rewrite Nat2N.inj_succ, N2Nat.id.
  destruct (N.eq_dec n 0) as [->|]; [reflexivity|]. apply N.log2_spec. lia.
Qed.

(** The text goes on with something that ends a value. *)
Definition stops (rest : list ascii) : Prop :=
  match rest with [] => True | a :: _ => byte_of a = 44 ∨ byte_of a = 125 ∨ byte_of a = 93 end.

Lemma take_digits_app ds rest :
  Forall (λ a, is_digit (byte_of a) = true) ds → stops rest →
  take_digits (ds ++ rest) = (ds, rest).
Proof.
  intros Hds Hr. induction Hds as [|a ds Ha Hds IH]; cbn [app take_digits].
  - destruct rest as [|a t]; [done|]. cbn [take_digits]. by destruct Hr as [->|[->| ->]].
  - by rewrite Ha, IH.
Qed.

Lemma lex_dec_N n rest : stops rest → lex_int (dec_N n ++ rest) = Some (dec_N n, rest).
Proof.
  intros Hr. destruct (dec_N_spec n) as (_ & Hall & a & t & He & Hz). rewrite He in *.
  cbn [app lex_int]. destruct (N.eqb_spec (byte_of a) 48) as [H48|H48].
  - by rewrite (Hz H48).
  - unfold digits1. rewrite app_comm_cons, take_digits_app by done. done.
Qed.

Lemma lex_number_Z z rest : stops rest → lex_number (dec_Z z ++ rest) = Some (dec_Z z, rest).
Proof.
  intros Hr. assert (∀ n sign, (match lex_int (dec_N n ++ rest) with
    | Some (i, l) => '(f, l) ← lex_frac l; '(e, l) ← lex_exp l; Some (sign ++ i ++ f ++ e, l)
    | None => None end) = Some (sign ++ dec_N n, rest)) as Hn.
  { intros n sign. rewrite (lex_dec_N _ _ Hr). destruct rest as [|a t];
      cbn [lex_frac lex_exp mbind option_bind]; [by rewrite ?app_nil_r|].
    destruct Hr as [Hr|[Hr|Hr]]; rewrite Hr; cbn; rewrite Hr; cbn; by rewrite ?app_nil_r. }
  unfold lex_number, dec_Z. destruct (z <? 0)%Z.
  - cbn [app take_byte]. change (byte_of (byte_at 45) =? 45) with true. cbv iota.
    apply (Hn _ [byte_at 45]).
  - destruct (dec_N_spec (Z.to_N z)) as (_ & Hall & a & t & He & _).
    specialize (Hn (Z.to_N z) []). rewrite He in *. cbn [app take_byte].
    apply list.Forall_cons in Hall as [Ha _]. destruct (N.eqb_spec (byte_of a) 45) as [H45|]; [|exact Hn].
    by rewrite H45 in Ha.
Qed.

Lemma parse_dec_Z z : (min_int64 ≤ z ≤ max_int64)%Z → parse_int64 (dec_Z z) = Some z.
Proof.
  intros Hr. unfold parse_int64, dec_Z. destruct (Z.ltb_spec z 0).
  - cbn [take_byte]. change (byte_of (byte_at 45) =? 45) with true. cbv iota.
    rewrite (proj1 (dec_N_spec _)). cbn [mbind option_bind].
    rewrite Z2N.id by lia. replace (- - z)%Z with z by lia.
    by rewrite (proj2 (Z.leb_le _ _)), (proj2 (Z.leb_le _ _)) by lia.
  - destruct (dec_N_spec (Z.to_N z)) as (Hv & Hall & a & t & He & _).
    rewrite He in *. cbn [take_byte]. apply list.Forall_cons in Hall as [Ha _].
    destruct (N.eqb_spec (byte_of a) 45) as [H45|]; [by rewrite H45 in Ha|].
    rewrite Hv. cbn [mbind option_bind]. rewrite Z2N.id by lia.
    by rewrite (proj2 (Z.leb_le _ _)), (proj2 (Z.leb_le _ _)) by lia.
Qed.

(** ** Values *)

(** [l] is a rendering of [v], nested at most [d] deep: wherever a value may end,
    the parser reads [v] from it and stops after it. *)
Definition renders (d : N) (v : json) (l : list ascii) : Prop :=
  ∀ fuel depth rest, (length l < fuel)%nat → depth + d <= max_nesting → stops rest →
    parse_value fuel depth (l ++ rest) = Some (v, rest).

Lemma skip_ws_stops rest : stops rest → skip_ws rest = rest.
Proof. destruct rest as [|a t]; [done|]. cbn [stops skip_ws]. by intros [->|[->| ->]]. Qed.

Lemma quote_shape s rest :
  quote s ++ rest = byte_at 34 :: escape_from 0 (to_bytes s) ++ byte_at 34 :: rest.
Proof. unfold quote. cbn [app]. by rewrite <- app_assoc. Qed.

(** What a string reads back as: its runes, and the bytes it was written with. *)
Definition jstr (s : string) : json := JStr (clean s) (escape_from 0 (to_bytes s)).
Lemma renders_string d s : renders d (jstr s) (quote s).
Proof.
  intros fuel depth rest Hf _ Hr. destruct fuel as [|k]; [lia|]. cbn [parse_value].
  rewrite quote_shape. change (skip_ws (byte_at 34 :: ?x)) with (byte_at 34 :: x). cbv zeta iota.
  change (byte_of (byte_at 34) =? 34) with true. cbv iota. rewrite unquote_quote by lia.
  cbn [mbind option_bind]. rewrite length_app. cbn [length].
  replace (_ + S (length rest) - S (length rest))%nat with (length (escape_from 0 (to_bytes s))) by lia.
  by rewrite take_app_length.
Qed.

Lemma renders_bool d b : renders d (JBool b) (chars (if b then "true" else "false")).
Proof.
  intros fuel depth rest Hf _ Hr. destruct fuel as [|k]; [simpl in Hf; lia|]. by destruct b.
Qed.

(** A literal that the parser delimits as it was written. *)
Definition literal (lit : list ascii) : Prop :=
  (∃ a t, lit = a :: t ∧ (is_digit (byte_of a) = true ∨ byte_of a = 45)) ∧
  ∀ rest, stops rest → lex_number (lit ++ rest) = Some (lit, rest).
Lemma renders_literal d lit : literal lit → renders d (JNum lit) lit.
Proof.
  intros [(a & t & He & Ha) Hlex] fuel depth rest Hf _ Hr. destruct fuel as [|k]; [lia|]. cbn [parse_value].
  pose proof (Hlex rest Hr) as Hl. rewrite He in *. cbn [app] in *.
  assert (48 <= byte_of a <= 57 ∨ byte_of a = 45) as Hrange.
  { destruct Ha as [Ha|]; [left|by right]. unfold is_digit, in_range in Ha.
    apply andb_true_iff in Ha as [?%N.leb_le ?%N.leb_le]. lia. }
  cbn [skip_ws]. assert (is_ws (byte_of a) = false) as ->.
  { unfold is_ws. rewrite !(proj2 (N.eqb_neq _ _)) by lia. done. }
  cbv zeta iota. rewrite !(proj2 (N.eqb_neq _ _)) by lia. by rewrite Hl.
Qed.
Lemma literal_Z z : literal (dec_Z z).
Proof.
  split; [|intros rest; apply lex_number_Z].
  unfold dec_Z. destruct (z <? 0)%Z; [eexists _, _; split; [done|by right]|].
  destruct (dec_N_spec (Z.to_N z)) as (_ & Hall & a & t & He & _). rewrite He in *.
  exists a, t. split; [done|left]. by apply list.Forall_cons in Hall as [? _].
Qed.
Lemma renders_int d z : renders d (JNum (dec_Z z)) (dec_Z z).
Proof. apply renders_literal, literal_Z. Qed.

(** The elements of an array: value and rendering. *)
Lemma renders_elements d (es : list (json * list ascii)) : es ≠ [] →
  Forall (λ e, renders d e.1 e.2) es →
  ∀ fuel depth rest, (S (length (join_members es.*2)) < fuel)%nat → depth + d <= max_nesting →
    parse_elements fuel depth (join_members es.*2 ++ chars "]" ++ rest) = Some (es.*1, rest).
Proof.
  intros Hne Hes. induction Hes as [|[v l] es Hv Hes IH]; [done|]. intros fuel depth rest Hf Hd.
  cbn [fst snd] in Hv. destruct fuel as [|k]; [lia|]. cbn [parse_elements]. destruct es as [|[v' l'] es].
  - cbn [fmap list_fmap join_members fst snd] in *.
    rewrite Hv by (done || lia || by right; right). done.
  - cbn [fmap list_fmap fst snd] in *.
    change (join_members (l :: l' :: es.*2)) with (l ++ chars "," ++ join_members (l' :: es.*2)) in *.
    rewrite !length_app in Hf. change (length (chars ",")) with 1%nat in Hf.
    rewrite <- !app_assoc, Hv by (done || lia || by left). cbn [mbind option_bind].
    change (skip_ws (chars "," ++ ?x)) with (chars "," ++ x).
    change (take_byte 44 (chars "," ++ ?x)) with (Some x). cbv zeta iota.
    by rewrite (IH ltac:(done) k) by (done || lia).
Qed.
(** No value starts with a closing bracket. *)
Lemma renders_not_close d v l rest : renders d v l → d <= max_nesting → stops rest →
  take_byte 93 (skip_ws (l ++ rest)) = None.
Proof.
  intros Hr Hd Hs. specialize (Hr (S (length l)) 0 rest ltac:(lia) ltac:(lia) Hs).
  cbn [parse_value] in Hr. destruct (skip_ws (l ++ rest)) as [|a t]; [done|]. cbn [take_byte].
  destruct (N.eqb_spec (byte_of a) 93) as [E|]; [|done]. exfalso. cbv zeta in Hr.
  assert (a = byte_at 93) as ->.
  { rewrite <- (ascii_N_embedding a). unfold byte_of in E. by rewrite E. }
  by cbn in Hr.
Qed.
Lemma renders_array d (es : list (json * list ascii)) : es ≠ [] → Forall (λ e, renders d e.1 e.2) es →
  renders (d + 1) (JArr es.*1) (brackets es.*2).
Proof.
  intros Hne Hes fuel depth rest Hf Hd Hr. destruct fuel as [|k]; [lia|]. cbn [parse_value].
  unfold brackets in *. rewrite <- !app_assoc. rewrite !length_app in Hf.
  change (length (chars "[")) with 1%nat in Hf. change (length (chars "]")) with 1%nat in Hf.
  change (skip_ws (chars "[" ++ ?x)) with (byte_at 91 :: x). cbv zeta iota.
  change (byte_of (byte_at 91)) with 91. cbn [N.eqb Pos.eqb].
  destruct (N.ltb_spec max_nesting (depth + 1)); [lia|].
  pose proof (renders_elements d es Hne Hes k (depth + 1) rest) as Hp.
  destruct es as [|[v l] es]; [done|]. apply list.Forall_cons in Hes as [Hv Hes]. cbn [fst snd] in Hv.
  assert (take_byte 93 (skip_ws (join_members ((v, l) :: es).*2 ++ chars "]" ++ rest)) = None) as ->.
  { cbn [fmap list_fmap fst snd]. destruct es as [|[v' l'] es]; cbn [fmap list_fmap join_members fst snd];
      rewrite <- ?app_assoc; (apply (renders_not_close d v); [done|lia|]); [by right; right|by left]. }
  rewrite Hp by lia. done.
Qed.

(** The members of an object: name, value and rendering. *)
Definition rendering : Type := (string * json * list ascii).
Definition member_of (m : rendering) : string * json := (clean m.1.1, m.1.2).
Definition text_of (m : rendering) : list ascii := member_str m.1.1 m.2.

Lemma renders_member k d depth m rest :
  renders d m.1.2 m.2 → (length (text_of m) <= k)%nat → depth + d <= max_nesting → stops rest →
  parse_members (S k) depth (text_of m ++ rest) =
    match take_byte 44 rest with
    | Some r => '(ms, r) ← parse_members k depth r; Some (member_of m :: ms, r)
    | None => r ← take_byte 125 rest; Some ([member_of m], r)
    end.
Proof.
  destruct m as [[name v] l]. unfold text_of, member_str, member_of. cbn [fst snd].
  intros Hv Hlen Hd Hr. cbn [parse_members]. rewrite <- !app_assoc, quote_shape.
  change (skip_ws (byte_at 34 :: ?x)) with (byte_at 34 :: x).
  change (take_byte 34 (byte_at 34 :: ?x)) with (Some x). cbn [mbind option_bind].
  rewrite !length_app in Hlen. change (length (chars ":")) with 1%nat in Hlen.
  rewrite unquote_quote by lia. cbn [mbind option_bind].
  change (take_byte 58 (skip_ws (chars ":" ++ ?x))) with (Some x). cbn [mbind option_bind].
  assert (1 <= length (quote name))%nat as Hq by (unfold quote; simpl; lia).
  rewrite Hv by (done || lia). cbn [mbind option_bind]. by rewrite (skip_ws_stops rest Hr).
Qed.

Lemma renders_members d ms : ms ≠ [] → Forall (λ m : rendering, renders d m.1.2 m.2) ms →
  ∀ fuel depth rest, (length (join_members (text_of <$> ms)) < fuel)%nat →
    depth + d <= max_nesting →
    parse_members fuel depth (join_members (text_of <$> ms) ++ chars "}" ++ rest) =
      Some (member_of <$> ms, rest).
Proof.
  intros Hne Hms. induction Hms as [|m ms Hm Hms IH]; [done|]. intros fuel depth rest Hf Hd.
  destruct fuel as [|k]; [lia|]. destruct ms as [|m' ms].
  - cbn [fmap list_fmap join_members] in *. rewrite (renders_member k d) by (done || lia || by right; left). done.
  - cbn [fmap list_fmap] in *.
    change (join_members (text_of m :: text_of m' :: (text_of <$> ms)))
      with (text_of m ++ chars "," ++ join_members (text_of m' :: (text_of <$> ms))) in *.
    rewrite !length_app in Hf. change (length (chars ",")) with 1%nat in Hf.
    rewrite <- !app_assoc. rewrite (renders_member k d) by (done || lia || by left).
    change (take_byte 44 (chars "," ++ ?x)) with (Some x). cbv iota.
    rewrite (IH ltac:(done) k) by (done || lia). done.
Qed.

Lemma renders_object d ms : ms ≠ [] → Forall (λ m : rendering, renders d m.1.2 m.2) ms →
  renders (d + 1) (JObj (member_of <$> ms)) (braces (text_of <$> ms)).
Proof.
  intros Hne Hms fuel depth rest Hf Hd Hr. destruct fuel as [|k]; [lia|]. cbn [parse_value].
  unfold braces in *. rewrite <- !app_assoc. rewrite !length_app in Hf.
  change (length (chars "{")) with 1%nat in Hf. change (length (chars "}")) with 1%nat in Hf.
  change (skip_ws (chars "{" ++ ?x)) with (byte_at 123 :: x). cbv zeta iota.
  change (byte_of (byte_at 123)) with 123. cbn [N.eqb Pos.eqb].
  destruct (N.ltb_spec max_nesting (depth + 1)); [lia|].
  destruct ms as [|m ms]; [done|]. pose proof (renders_members d (m :: ms) Hne Hms k (depth + 1) rest) as Hp.
  assert (take_byte 125 (skip_ws (join_members (text_of <$> m :: ms) ++ chars "}" ++ rest)) = None) as ->.
  { cbn [fmap list_fmap]. unfold text_of at 1, member_str. destruct ms; cbn [fmap list_fmap join_members];
      rewrite <- !app_assoc, quote_shape; done. }
  rewrite Hp by lia. done.
Qed.

(** ** Members of a struct *)

Definition str_member (name s : string) : rendering := (name, jstr s, quote s).
Definition opt_member (name s : string) : list rendering :=
  if bool_decide (s = "") then [] else [str_member name s].
Definition int_member (name : string) (z : Z) : rendering := (name, JNum (dec_Z z), dec_Z z).

Lemma omitempty_text name s : omitempty name s = text_of <$> opt_member name s.
Proof. unfold omitempty, opt_member. by case_bool_decide. Qed.

Lemma opt_member_renders d name s : Forall (λ m : rendering, renders d m.1.2 m.2) (opt_member name s).
Proof.
  unfold opt_member. case_bool_decide; constructor; [apply renders_string|constructor].
Qed.
Ltac render_members := rewrite !Forall_app; split_and!; repeat constructor;
  try first [apply renders_string|apply renders_bool|apply renders_int|apply opt_member_renders].

Lemma parse_renders d s v : renders d v (to_bytes s) → d <= max_nesting → parse s = Some v.
Proof.
  intros Hr Hd. unfold parse. specialize (Hr (S (S (length (to_bytes s)))) 0 []).
  rewrite app_nil_r in Hr. rewrite Hr; [done|lia|lia|done].
Qed.

Lemma fold_members_app {A} (f : string * json → A → option A) ms1 ms2 x :
  fold_members f (ms1 ++ ms2) x = (y ← fold_members f ms1 x; fold_members f ms2 y).
Proof. revert x. induction ms1 as [|m ms1 IH]; intros x; simpl; [done|].
  destruct (f m x); [apply IH|done].
Qed.

(** Each member into its field. *)
Lemma fold_members_cons {A} (f : string * json → A → option A) r ms x y :
  f (member_of r) x = Some y →
  fold_members f (member_of <$> r :: ms) x = fold_members f (member_of <$> ms) y.
Proof. intros Hf. cbn [fmap list_fmap fold_members]. by rewrite Hf. Qed.

Definition in_int64 (z : Z) : Prop := (min_int64 ≤ z ≤ max_int64)%Z.
