(* ===== verification/GoFloat.v ===== *)
(** * Decimal texts of float64 values

    [strconv.ParseFloat] on the literal of a JSON number and the shortest
    decimal that [encoding/json] prints, both on exact integers: a literal is
    rounded to the nearest binary64 (ties to even), a value is printed with the
    least number of digits that read back as it.  Reading what was printed
    gives the value ([float_roundtrip]). *)

From S2P Require Import Prelude GoStrings GoNum GoJson JsonFacts.
From Stdlib Require Import SpecFloat Ascii.
#[local] Open Scope Z_scope.

(** ** Rounding a ratio *)

Definition pos_part (z : Z) : Z := Z.max 0 z.

Definition f_make (sign : bool) (m e : Z) : float64 :=
  if m =? 0 then S754_zero sign
  else if 971 <? e then S754_infinity sign
  else S754_finite sign (Z.to_pos m) e.

(** The binary64 nearest to n/d, for [0 <= n] and [0 < d]: [top] is the exponent of
    its leading bit, [e] that of the last bit of the significand. *)
Definition f_of_ratio (sign : bool) (n d : Z) : float64 :=
  if n =? 0 then S754_zero sign
  else
    let k := Z.log2 n - Z.log2 d in
    let top := if n * 2 ^ pos_part (- k) <? d * 2 ^ pos_part k then k - 1 else k in
    let e := Z.max (-1074) (top - 52) in
    let N := n * 2 ^ pos_part (- e) in
    let D := d * 2 ^ pos_part e in
    let q := N / D in
    let r := N mod D in
    let m := if (D <? 2 * r) || ((2 * r =? D) && Z.odd q) then q + 1 else q in
    if m =? 2 ^ 53 then f_make sign (2 ^ 52) (e + 1) else f_make sign m e.

(** D * 10^k. *)
Definition f_of_dec (sign : bool) (D k : Z) : float64 :=
  f_of_ratio sign (D * 10 ^ pos_part k) (10 ^ pos_part (- k)).

(** ** [strconv.ParseFloat] *)

(** The digits after the [e]; more than five make no difference. *)
Definition exp_digits (ds : list ascii) : Z :=
  foldl (λ e a, if e <? 10000 then e * 10 + (Z.of_N (byte_of a) - 48) else e) 0 ds.

(** The literal of a number as [lex_number] delimits it; [None] is out of range. *)
Definition parse_float (lit : list ascii) : option float64 :=
  let '(sign, l) := match take_byte 45 lit with Some t => (true, t) | None => (false, lit) end in
  let '(i, l) := take_digits l in
  let '(f, l) := match take_byte 46 l with Some t => take_digits t | None => ([], l) end in
  let e := match l with
    | _ :: t =>
        match take_byte 45 t, take_byte 43 t with
        | Some t, _ => - exp_digits t
        | None, Some t => exp_digits t
        | None, None => exp_digits t
        end
    | [] => 0
    end in
  D ← digits_value (i ++ f);
  match f_of_dec sign (Z.of_N D) (e - Z.of_nat (length f)) with
  | S754_infinity _ => None
  | x => Some x
  end.

(** ** [appendFloat] *)

(** The decimal exponent of 2^k. *)
Definition log10_guess (k : Z) : Z := k * 30103 / 100000.
(** 10^(p-1) <= m * 2^e < 10^p, by a table-free estimate of the logarithm. *)
Definition dec_exp (m e : Z) : Z :=
  let g := log10_guess (Z.log2 m + e) in
  if m * 2 ^ pos_part e * 10 ^ pos_part (- (g + 1)) <? 10 ^ pos_part (g + 1) * 2 ^ pos_part (- e)
  then g + 1 else g + 2.

(** The first number of digits, from [n] on, at which the value cut off or raised in
    its last digit reads back; when both do, the nearer one. *)
Fixpoint shortest (fuel : nat) (n p : Z) (m : positive) (e : Z) : Z * Z :=
  let N := Zpos m * 2 ^ pos_part e * 10 ^ pos_part (n - p) in
  let D := 2 ^ pos_part (- e) * 10 ^ pos_part (p - n) in
  let q := N / D in
  let r := N mod D in
  let low := bool_decide (f_of_dec false q (p - n) = S754_finite false m e) in
  let high := bool_decide (f_of_dec false (q + 1) (p - n) = S754_finite false m e) in
  let nearest := if (D <? 2 * r) || ((2 * r =? D) && Z.odd q) then q + 1 else q in
  if low && high then (nearest, p - n)
  else if low then (q, p - n)
  else if high then (q + 1, p - n)
  else match fuel with O => (nearest, p - n) | S k => shortest k (n + 1) p m e end.

(** Seventeen digits are always enough. *)
Definition shortest_dec (m : positive) (e : Z) : Z * Z :=
  shortest 17 0 (dec_exp (Zpos m) e) m e.

Definition zeros (n : Z) : list ascii := repeat (byte_at 48) (Z.to_nat n).

(** [%f] and [%e] of the digits [ds] with the point after the first [dp]. *)
Definition fmt_f (ds : list ascii) (dp : Z) : list ascii :=
  let nd := Z.of_nat (length ds) in
  if dp <=? 0 then byte_at 48 :: byte_at 46 :: zeros (- dp) ++ ds
  else if nd <=? dp then ds ++ zeros (dp - nd)
  else take (Z.to_nat dp) ds ++ byte_at 46 :: drop (Z.to_nat dp) ds.
Definition fmt_e (ds : list ascii) (dp : Z) : list ascii :=
  match ds with
  | [] => []
  | d :: rest =>
      d :: match rest with [] => [] | _ => byte_at 46 :: rest end ++
      byte_at 101 :: (if dp - 1 <? 0 then byte_at 45 else byte_at 43) :: dec_N (Z.to_N (Z.abs (dp - 1)))
  end.

Definition f_abs (x : float64) : float64 := SFabs x.

(** [floatEncoder]: the exponent form below 1e-6 and from 1e21 on, without the
    leading zero of a short exponent; infinities and NaN are refused. *)
Definition json_float (x : float64) : option (list ascii) :=
  let signed (sign : bool) (l : list ascii) := if sign then byte_at 45 :: l else l in
  match x with
  | S754_zero sign => Some (signed sign [byte_at 48])
  | S754_finite sign m e =>
      let '(D, k) := shortest_dec m e in
      let ds := dec_N (Z.to_N D) in
      let dp := k + Z.of_nat (length ds) in
      Some (signed sign (if f_lt (f_abs x) (f_of_dec false 1 (-6)) || f_le (f_of_dec false 1 21) (f_abs x)
                         then fmt_e ds dp else fmt_f ds dp))
  | S754_infinity _ | S754_nan => None
  end.

Definition into_float64 (v : json) (cur : float64) : option float64 :=
  match v with JNull => Some cur | JNum lit => parse_float lit | _ => None end.

(** ** Rounding a ratio close to a float *)

(** The floats there are: 53 bits of significand, the least exponent for the
    subnormal ones. *)
Definition f_ok (x : float64) : bool :=
  match x with
  | S754_finite _ m e =>
      (Zpos m <? 2 ^ 53) && (-1074 <=? e) && (e <=? 971) && ((2 ^ 52 <=? Zpos m) || (e =? -1074))
  | _ => true
  end.

Definition f_finite (x : float64) : bool :=
  match x with S754_zero _ | S754_finite _ _ _ => true | _ => false end.

Lemma pow_split b z B : 0 ≤ B → pos_part (- z) ≤ B →
  b ^ (z + B) = b ^ pos_part z * b ^ (B - pos_part (- z)) ∧
  b ^ B = b ^ pos_part (- z) * b ^ (B - pos_part (- z)).
Proof.
  unfold pos_part. intros HB Hz. rewrite <- !Z.pow_add_r by lia. split; f_equal; lia.
Qed.

(** A comparison of n/d with a power of two, at any scale. *)
Lemma ratio_lt_scale n d k B : 0 ≤ B → pos_part (- k) ≤ B →
  (n * 2 ^ pos_part (- k) < d * 2 ^ pos_part k ↔ n * 2 ^ B < d * 2 ^ (k + B)).
Proof.
  intros HB Hk. destruct (pow_split 2 k B HB Hk) as [-> ->]. rewrite !Z.mul_assoc.
  apply Z.mul_lt_mono_pos_r. apply Z.pow_pos_nonneg; lia.
Qed.

(** The exponent of the leading bit. *)
Lemma top_spec n d : 0 < n → 0 < d →
  let k := Z.log2 n - Z.log2 d in
  let top := if n * 2 ^ pos_part (- k) <? d * 2 ^ pos_part k then k - 1 else k in
  ∀ B, 0 ≤ B → Z.log2 d + 1 ≤ B → d * 2 ^ (top + B) ≤ n * 2 ^ B < d * 2 ^ (top + 1 + B).
Proof.
  intros Hn Hd k top B HB Hdb. destruct (Z.log2_spec n Hn) as [Hn1 Hn2]. destruct (Z.log2_spec d Hd) as [Hd1 Hd2].
  pose proof (Z.log2_nonneg n). pose proof (Z.log2_nonneg d).
  assert (pos_part (- k) ≤ B) as Hk by (unfold pos_part, k; lia).
  pose proof (ratio_lt_scale n d k B HB Hk) as Hs.
  assert (n * 2 ^ B < d * 2 ^ (k + 1 + B)) as Hup.
  { apply Z.lt_le_trans with (2 ^ Z.succ (Z.log2 n) * 2 ^ B); [apply Z.mul_lt_mono_pos_r; [apply Z.pow_pos_nonneg|]; lia|].
    rewrite <- Z.pow_add_r by lia. replace (Z.succ (Z.log2 n) + B) with (Z.log2 d + (k + 1 + B)) by (unfold k; lia).
    rewrite (Z.pow_add_r 2 (Z.log2 d)) by (unfold k; lia). apply Z.mul_le_mono_nonneg_r; [apply Z.pow_nonneg|]; lia. }
  assert (d * 2 ^ (k - 1 + B) ≤ n * 2 ^ B) as Hlow.
  { apply Z.le_trans with (2 ^ Z.log2 n * 2 ^ B); [|apply Z.mul_le_mono_nonneg_r; [apply Z.pow_nonneg|]; lia].
    rewrite <- Z.pow_add_r by lia. replace (Z.log2 n + B) with (Z.succ (Z.log2 d) + (k - 1 + B)) by (unfold k; lia).
    rewrite (Z.pow_add_r 2 (Z.succ (Z.log2 d))) by (unfold k; lia). apply Z.mul_le_mono_nonneg_r; [apply Z.pow_nonneg|]; lia. }
  unfold top. destruct (Z.ltb_spec (n * 2 ^ pos_part (- k)) (d * 2 ^ pos_part k)) as [Hlt|Hge].
  - apply Hs in Hlt. replace (k - 1 + 1 + B) with (k + B) by lia. done.
  - split; [|done]. apply Z.le_ngt. intros Hlt. apply Hs in Hlt. lia.
Qed.

(** Division to the nearest integer, away from ties. *)
Lemma nearest_unique N D m : 0 < D → (2 * m - 1) * D < 2 * N < (2 * m + 1) * D →
  (if (D <? 2 * (N mod D)) || ((2 * (N mod D) =? D) && Z.odd (N / D)) then N / D + 1 else N / D) = m.
Proof.
  intros HD [H1 H2]. pose proof (Z.div_mod N D ltac:(lia)) as Hdm. pose proof (Z.mod_pos_bound N D HD) as Hr.
  set (q := N / D) in *. set (r := N mod D) in *. clearbody q r.
  assert (q = m ∨ q = m - 1) as [->| ->] by nia.
  - destruct (Z.ltb_spec D (2 * r)), (Z.eqb_spec (2 * r) D); cbn; nia.
  - destruct (Z.ltb_spec D (2 * r)), (Z.eqb_spec (2 * r) D); cbn; nia.
Qed.

(** Powers at the scale [B]. *)
Lemma scaled_pow d t B : 0 < d → d * 2 ^ (t + B) < d * 2 ^ (t + 1 + B) ∨ t + 1 + B ≤ 0.
Proof.
  intros Hd. destruct (Z.le_gt_cases (t + 1 + B) 0); [by right|left].
  apply Z.mul_lt_mono_pos_l; [done|]. apply Z.pow_lt_mono_r; lia.
Qed.
Lemma scaled_pow_add d t j B : 0 ≤ t + B → 0 ≤ j → d * 2 ^ (t + j + B) = 2 ^ j * (d * 2 ^ (t + B)).
Proof. intros Ht Hj. replace (t + j + B) with (j + (t + B)) by lia. rewrite Z.pow_add_r by lia. lia. Qed.
Lemma scaled_pow_inv d t t' B : 0 < d → 0 ≤ t' + B → d * 2 ^ (t + B) < d * 2 ^ (t' + B) → t < t'.
Proof.
  intros Hd Ht H. apply Z.mul_lt_mono_pos_l in H; [|done]. apply Z.pow_lt_mono_r_iff in H; lia.
Qed.

Lemma round_at n d e m B : 0 < d → 0 ≤ B → pos_part (- e) ≤ B →
  (2 * m - 1) * (d * 2 ^ (e + B)) < 2 * (n * 2 ^ B) < (2 * m + 1) * (d * 2 ^ (e + B)) →
  let N := n * 2 ^ pos_part (- e) in let D := d * 2 ^ pos_part e in
  (if (D <? 2 * (N mod D)) || ((2 * (N mod D) =? D) && Z.odd (N / D)) then N / D + 1 else N / D) = m.
Proof.
  intros Hd HB He H N D. destruct (pow_split 2 e B HB He) as [E1 E2]. rewrite E1, E2 in H.
  assert (0 < 2 ^ (B - pos_part (- e))) as HW by (apply Z.pow_pos_nonneg; lia).
  apply nearest_unique.
  - apply Z.mul_pos_pos; [done|]. apply Z.pow_pos_nonneg; unfold pos_part; lia.
  - unfold N, D. set (W := 2 ^ (B - _)) in *. set (x := 2 ^ pos_part e) in *. set (y := 2 ^ pos_part (- e)) in *.
    clearbody W x y. rewrite !Z.mul_assoc in H. rewrite !Z.mul_assoc.
    split; apply (Z.mul_lt_mono_pos_r W); (done || apply H).
Qed.

Lemma f_of_ratio_near sign n d m e B :
  f_ok (S754_finite sign m e) = true → 0 < n → 0 < d → 1200 ≤ B → Z.log2 d + 1 ≤ B →
  (2 * Zpos m - 1) * (d * 2 ^ (e + B)) < 2 * (n * 2 ^ B) < (2 * Zpos m + 1) * (d * 2 ^ (e + B)) →
  (Zpos m = 2 ^ 52 → (4 * Zpos m - 1) * (d * 2 ^ (e + B)) < 4 * (n * 2 ^ B)) →
  f_of_ratio sign n d = S754_finite sign m e.
Proof.
  intros Hok Hn Hd HB Hlog Hnear Hnarrow. unfold f_ok in Hok.
  apply andb_true_iff in Hok as [Hok Hc]. apply andb_true_iff in Hok as [Hok He2].
  apply andb_true_iff in Hok as [Hm He1]. apply Z.ltb_lt in Hm. apply Z.leb_le in He1, He2.
  pose proof (top_spec n d Hn Hd B ltac:(lia) Hlog) as Htop. cbv zeta in Htop.
  unfold f_of_ratio. rewrite (proj2 (Z.eqb_neq n 0)) by lia. cbv zeta.
  set (top := if _ <? _ then _ else _) in *. clearbody top.
  set (P := d * 2 ^ (e + B)) in *. set (X := n * 2 ^ B) in *.
  assert (0 < P) as HP by (apply Z.mul_pos_pos; [done|apply Z.pow_pos_nonneg; lia]).
  assert (∀ j, 0 ≤ j → d * 2 ^ (e + j + B) = 2 ^ j * P) as HPj by (intros j Hj; apply scaled_pow_add; lia).
  assert (∀ j, 0 ≤ j → X < 2 ^ j * P → top < e + j) as Hlt.
  { intros j Hj HX. rewrite <- HPj in HX by done. apply (scaled_pow_inv d _ _ B Hd); lia. }
  assert (∀ j, 0 ≤ j → 2 ^ j * P ≤ X → e + j ≤ top) as Hge.
  { intros j Hj HX. rewrite <- HPj in HX by done. enough (e + j < top + 1) by lia.
    destruct (Z.le_gt_cases 0 (top + 1 + B)); [apply (scaled_pow_inv d _ _ B Hd); lia|].
    rewrite (Z.pow_neg_r 2 (top + 1 + B)), Z.mul_0_r in Htop by lia.
    assert (0 < X) by (apply Z.mul_pos_pos; [done|apply Z.pow_pos_nonneg; lia]). lia. }
  assert (Zpos m * P ≤ (2 ^ 53 - 1) * P) as HmP by (apply Z.mul_le_mono_nonneg_r; lia).
  assert (top < e + 53) as Htop53 by (apply Hlt; lia).
  assert (Z.max (-1074) (top - 52) = e → f_of_ratio sign n d = f_of_ratio sign n d →
    (let e' := e in let N := n * 2 ^ pos_part (- e') in let D := d * 2 ^ pos_part e' in
     let m' := if (D <? 2 * (N mod D)) || ((2 * (N mod D) =? D) && Z.odd (N / D)) then N / D + 1 else N / D in
     if m' =? 2 ^ 53 then f_make sign (2 ^ 52) (e' + 1) else f_make sign m' e') = S754_finite sign m e) as Hround.
  { intros _ _. cbv zeta. rewrite (round_at n d e (Zpos m) B Hd ltac:(lia) ltac:(unfold pos_part; lia) Hnear).
    rewrite (proj2 (Z.eqb_neq (Zpos m) (2 ^ 53))) by lia. unfold f_make.
    rewrite (proj2 (Z.ltb_ge 971 e)) by lia. done. }
  destruct (Z.le_gt_cases (2 ^ 52 * P) X) as [Hbig|Hsmall].
  - pose proof (Hge 52 ltac:(lia) Hbig). replace (Z.max (-1074) (top - 52)) with e by lia. apply Hround; [lia|done].
  - pose proof (Hlt 52 ltac:(lia) Hsmall). destruct (Z.eq_dec e (-1074)) as [->|Hne].
    { replace (Z.max (-1074) (top - 52)) with (-1074) by lia. apply Hround; [lia|done]. }
    assert (Zpos m = 2 ^ 52) as Em.
    { apply orb_true_iff in Hc as [Hc%Z.leb_le|Hc%Z.eqb_eq]; [|done].
      destruct (Z.eq_dec (Zpos m) (2 ^ 52)); [done|].
      assert ((2 ^ 52 + 1) * P ≤ Zpos m * P) by (apply Z.mul_le_mono_nonneg_r; lia). lia. }
    specialize (Hnarrow Em). rewrite Em in Hnear, Hnarrow.
    assert (P = 2 * (d * 2 ^ (e - 1 + B))) as EP.
    { unfold P. replace (e + B) with (1 + (e - 1 + B)) by lia. rewrite Z.pow_add_r by lia. lia. }
    set (P' := d * 2 ^ (e - 1 + B)) in *.
    assert (e + 51 ≤ top) by (apply Hge; lia). replace (Z.max (-1074) (top - 52)) with (e - 1) by lia.
    rewrite (round_at n d (e - 1) (2 ^ 53) B Hd ltac:(lia) ltac:(unfold pos_part; lia)) by (fold P' X; lia).
    rewrite Z.eqb_refl. unfold f_make. rewrite (proj2 (Z.ltb_ge 971 (e - 1 + 1))) by lia.
    rewrite Z.sub_add. by rewrite <- Em.
Qed.

(** ** Seventeen digits *)

(** Everything is compared at the scale 2^1200 * 10^400. *)
Definition two (t : Z) : Z := 2 ^ (t + 1200).
Definition ten (t : Z) : Z := 10 ^ (t + 400).
Lemma two_pos t : -1200 ≤ t → 0 < two t.
Proof. intros. apply Z.pow_pos_nonneg; lia. Qed.
Lemma ten_pos t : -400 ≤ t → 0 < ten t.
Proof. intros. apply Z.pow_pos_nonneg; lia. Qed.
Lemma two_add t j : -1200 ≤ t → 0 ≤ j → two (t + j) = 2 ^ j * two t.
Proof. intros. unfold two. rewrite <- Z.pow_add_r by lia. f_equal. lia. Qed.
Lemma ten_add t j : -400 ≤ t → 0 ≤ j → ten (t + j) = 10 ^ j * ten t.
Proof. intros. unfold ten. rewrite <- Z.pow_add_r by lia. f_equal. lia. Qed.
#[local] Opaque two ten.

(** One pass over the exponents: [a] is 2^k and [b] is 10^[log10_guess k]. *)
Fixpoint log10_check (fuel : nat) (k a b : Z) : bool :=
  match fuel with
  | O => true
  | S n =>
      let g := log10_guess k in let g' := log10_guess (k + 1) in
      (b <=? a) && (a <? 10 * b) && ((g' =? g) || (g' =? g + 1)) &&
      log10_check n (k + 1) (2 * a) (if g' =? g then b else 10 * b)
  end.
Lemma log10_check_all fuel : ∀ k a b, -1200 ≤ k → -400 ≤ log10_guess k →
  log10_check fuel k a b = true → a = two k * ten 0 → b = ten (log10_guess k) * two 0 →
  ∀ k', k ≤ k' < k + Z.of_nat fuel →
    ten (log10_guess k') * two 0 ≤ two k' * ten 0 < 10 * (ten (log10_guess k') * two 0).
Proof.
  induction fuel as [|n IH]; intros k a b Hk Hg Hc -> -> k' Hk'; [lia|]. cbn [log10_check] in Hc.
  apply andb_true_iff in Hc as [Hc Hrec]. apply andb_true_iff in Hc as [Hc Hstep].
  apply andb_true_iff in Hc as [H1%Z.leb_le H2%Z.ltb_lt].
  destruct (Z.eq_dec k' k) as [->|Hne]; [done|].
  eapply IH; [..|exact Hrec|idtac|idtac|]; [lia| |rewrite (two_add k 1) by lia; lia| |lia].
  - apply orb_true_iff in Hstep as [Hs%Z.eqb_eq|Hs%Z.eqb_eq]; lia.
  - apply orb_true_iff in Hstep as [Hs%Z.eqb_eq|Hs%Z.eqb_eq]; rewrite Hs.
    + by rewrite Z.eqb_refl.
    + rewrite (proj2 (Z.eqb_neq _ _)) by lia. rewrite (ten_add _ 1) by lia. lia.
Qed.
Lemma log10_run : log10_check 2098 (-1074) (2 ^ 126 * 10 ^ 400) (2 ^ 1200 * 10 ^ 76) = true.
Proof. vm_compute. reflexivity. Qed.
Lemma log10_estimate k : -1074 ≤ k ≤ 1023 →
  let g := log10_guess k in ten g * two 0 ≤ two k * ten 0 < ten (g + 1) * two 0.
Proof.
  intros Hk g. destruct (log10_check_all 2098 (-1074) _ _ ltac:(lia) ltac:(done) log10_run eq_refl
    (Z.mul_comm _ _) k ltac:(lia)) as [H1 H2].
  split; [exact H1|]. fold g in H2. rewrite (ten_add g 1); [lia| |lia].
  unfold g, log10_guess. apply Z.div_le_lower_bound; lia.
Qed.

Lemma two_split e : -1200 ≤ e → two e = 2 ^ pos_part e * 2 ^ (1200 - pos_part (- e)) ∧
  two 0 = 2 ^ pos_part (- e) * 2 ^ (1200 - pos_part (- e)).
Proof. intros He. apply (pow_split 2 e 1200); unfold pos_part; lia. Qed.
Lemma ten_split k : -400 ≤ k → ten k = 10 ^ pos_part k * 10 ^ (400 - pos_part (- k)) ∧
  ten 0 = 10 ^ pos_part (- k) * 10 ^ (400 - pos_part (- k)).
Proof. intros Hk. apply (pow_split 10 k 400); unfold pos_part; lia. Qed.

Lemma dec_exp_spec m e : 0 < m < 2 ^ 53 → -1074 ≤ e ≤ 971 →
  let p := dec_exp m e in
  -323 ≤ p ≤ 309 ∧ ten (p - 1) * two 0 ≤ m * two e * ten 0 < ten p * two 0.
Proof.
  intros Hm He p. destruct (Z.log2_spec m ltac:(lia)) as [Hl1 Hl2]. pose proof (Z.log2_nonneg m) as Hl0.
  assert (Z.log2 m < 53) as Hl by (apply Z.log2_lt_pow2; lia).
  set (k := Z.log2 m + e). set (g := log10_guess k).
  assert (-324 ≤ g ≤ 307) as Hg.
  { unfold g, log10_guess, k. split; [apply Z.div_le_lower_bound|apply Z.lt_succ_r, Z.div_lt_upper_bound]; lia. }
  destruct (log10_estimate k ltac:(lia)) as [H1 H2]. fold g in H1, H2.
  assert (two k ≤ m * two e < 2 * two k) as [Hx1 Hx2].
  { unfold k. rewrite (Z.add_comm (Z.log2 m)), two_add by lia. pose proof (two_pos e ltac:(lia)).
    rewrite Z.pow_succ_r in Hl2 by lia. split; nia. }
  pose proof (two_pos 0 ltac:(lia)). pose proof (ten_pos 0 ltac:(lia)).
  assert (ten g * two 0 ≤ m * two e * ten 0 < 2 * (ten (g + 1) * two 0)) as [Hv1 Hv2] by (split; nia).
  unfold p, dec_exp. fold k g.
  destruct (two_split e ltac:(lia)) as [E1 E2]. destruct (ten_split (g + 1) ltac:(lia)) as [T1 T2].
  set (W := 2 ^ (1200 - _)) in *. set (V := 10 ^ (400 - _)) in *.
  assert (0 < W * V) as HWV by (apply Z.mul_pos_pos; apply Z.pow_pos_nonneg; unfold pos_part; lia).
  assert (m * 2 ^ pos_part e * 10 ^ pos_part (- (g + 1)) < 10 ^ pos_part (g + 1) * 2 ^ pos_part (- e) ↔
    m * two e * ten 0 < ten (g + 1) * two 0) as Hcmp.
  { rewrite E1, E2, T1, T2. rewrite (Z.mul_lt_mono_pos_r (W * V)) by done.
    match goal with |- (?a < ?b) ↔ (?c < ?d) => replace a with c by ring; replace b with d by ring end. done. }
  destruct (Z.ltb_spec (m * 2 ^ pos_part e * 10 ^ pos_part (- (g + 1))) (10 ^ pos_part (g + 1) * 2 ^ pos_part (- e))) as [Hlt|Hge].
  - apply Hcmp in Hlt. split; [lia|]. replace (g + 1 - 1) with g by lia. done.
  - assert (ten (g + 1) * two 0 ≤ m * two e * ten 0) by (apply Z.le_ngt; intros ?%Hcmp; lia).
    split; [lia|]. replace (g + 2 - 1) with (g + 1) by lia. split; [done|].
    replace (g + 2) with (g + 1 + 1) by lia. rewrite (ten_add (g + 1) 1) by lia. lia.
Qed.

(** The nearest seventeen-digit decimal reads back. *)
Lemma nearest_reads m e c p :
  f_ok (S754_finite false m e) = true → -323 ≤ p ≤ 309 →
  ten (p - 1) * two 0 ≤ Zpos m * two e * ten 0 →
  (let N := Zpos m * 2 ^ pos_part e * 10 ^ pos_part (17 - p) in
   let D := 2 ^ pos_part (- e) * 10 ^ pos_part (p - 17) in
   - D ≤ 2 * (c * D - N) ≤ D) →
  f_of_dec false c (p - 17) = S754_finite false m e.
Proof.
  intros Hok Hp Hlow Hc. cbv zeta in Hc. pose proof Hok as Hok'. unfold f_ok in Hok'.
  apply andb_true_iff in Hok' as [Hok' _]. apply andb_true_iff in Hok' as [Hok' He2%Z.leb_le].
  apply andb_true_iff in Hok' as [Hm%Z.ltb_lt He1%Z.leb_le].
  replace (17 - p) with (- (p - 17)) in Hc by lia. set (j := p - 17) in *.
  destruct (two_split e ltac:(lia)) as [E1 E2]. destruct (ten_split j ltac:(lia)) as [T1 T2].
  set (W := 2 ^ (1200 - pos_part (- e))) in *. set (V := 10 ^ (400 - pos_part (- j))) in *.
  assert (0 < W) as HW by (apply Z.pow_pos_nonneg; unfold pos_part; lia).
  assert (0 < V) as HV by (apply Z.pow_pos_nonneg; unfold pos_part; lia).
  set (U := ten j * two 0). set (G := two e * ten 0).
  assert (0 < U) as HU by (apply Z.mul_pos_pos; [apply ten_pos|apply two_pos]; lia).
  assert (- U ≤ 2 * (c * U - Zpos m * G) ≤ U) as Hcu.
  { unfold U, G. rewrite E1, E2, T1, T2.
    set (x := 2 ^ pos_part e) in *. set (y := 2 ^ pos_part (- e)) in *.
    set (u := 10 ^ pos_part j) in *. set (v := 10 ^ pos_part (- j)) in *. clearbody x y u v W V.
    assert (0 < W * V) as HWV by by apply Z.mul_pos_pos. destruct Hc as [Hc1 Hc2].
    apply (Z.mul_le_mono_pos_r _ _ (W * V)) in Hc1, Hc2; [|done..]. split; nia. }
  assert (10 ^ 16 * U ≤ Zpos m * G) as HUG.
  { unfold U, G. rewrite Z.mul_assoc, <- ten_add by (unfold j; lia). replace (j + 16) with (p - 1) by (unfold j; lia). lia. }
  assert (0 < G) as HG by (apply Z.mul_pos_pos; [apply two_pos|apply ten_pos]; lia).
  assert (Zpos m * G ≤ (2 ^ 53 - 1) * G) as HmG by (apply Z.mul_le_mono_nonneg_r; lia).
  assert (0 < c * U) as HcU by lia. assert (0 < c) as Hcpos by nia.
  unfold f_of_dec. apply (f_of_ratio_near false _ _ m e 1200); [done|..].
  - apply Z.mul_pos_pos; [done|]. apply Z.pow_pos_nonneg; unfold pos_part; lia.
  - apply Z.pow_pos_nonneg; unfold pos_part; lia.
  - lia.
  - enough (Z.log2 (10 ^ pos_part (- j)) < 1199) by lia.
    apply Z.log2_lt_pow2; [apply Z.pow_pos_nonneg; unfold pos_part; lia|].
    apply Z.le_lt_trans with (10 ^ 340); [apply Z.pow_le_mono_r; unfold pos_part, j; lia|]. vm_compute. done.
  - change (2 ^ (e + 1200)) with (two e). change (2 ^ 1200) with (two 0).
    split; apply (Z.mul_lt_mono_pos_r V); try done.
    + replace ((2 * Zpos m - 1) * (10 ^ pos_part (- j) * two e) * V) with ((2 * Zpos m - 1) * G) by (unfold G; rewrite T2; ring).
      replace (2 * (c * 10 ^ pos_part j * two 0) * V) with (2 * (c * U)) by (unfold U; rewrite T1; ring). lia.
    + replace ((2 * Zpos m + 1) * (10 ^ pos_part (- j) * two e) * V) with ((2 * Zpos m + 1) * G) by (unfold G; rewrite T2; ring).
      replace (2 * (c * 10 ^ pos_part j * two 0) * V) with (2 * (c * U)) by (unfold U; rewrite T1; ring). lia.
  - intros Em. change (2 ^ (e + 1200)) with (two e). change (2 ^ 1200) with (two 0).
    apply (Z.mul_lt_mono_pos_r V); [done|]. rewrite Em in *.
    replace ((4 * 2 ^ 52 - 1) * (10 ^ pos_part (- j) * two e) * V) with ((4 * 2 ^ 52 - 1) * G) by (unfold G; rewrite T2; ring).
    replace (4 * (c * 10 ^ pos_part j * two 0) * V) with (4 * (c * U)) by (unfold U; rewrite T1; ring). lia.
Qed.

(** ** What [shortest] returns reads back *)

Lemma f_of_ratio_zero sign d : f_of_ratio sign 0 d = S754_zero sign.
Proof. done. Qed.
Lemma f_of_ratio_sign n d : f_of_ratio true n d = SFopp (f_of_ratio false n d).
Proof.
  unfold f_of_ratio. destruct (n =? 0); [done|]. cbv zeta.
  repeat (match goal with |- context [if ?b then f_make _ _ _ else _] => destruct b end);
    unfold f_make; repeat case_match; done.
Qed.

Lemma f_of_dec_sign D k : f_of_dec true D k = SFopp (f_of_dec false D k).
Proof. apply f_of_ratio_sign. Qed.

Lemma nearest_close N D : 0 < D →
  let q := N / D in let r := N mod D in
  let c := if (D <? 2 * r) || ((2 * r =? D) && Z.odd q) then q + 1 else q in
  - D ≤ 2 * (c * D - N) ≤ D.
Proof.
  intros HD. cbv zeta. pose proof (Z.div_mod N D ltac:(lia)) as Hdm. pose proof (Z.mod_pos_bound N D HD).
  destruct (Z.ltb_spec D (2 * (N mod D))) as [|], (Z.eqb_spec (2 * (N mod D)) D) as [|]; cbn;
    try destruct (Z.odd _); lia.
Qed.

(** At most [n] digits before the last one is cut off. *)
Lemma cut_bound n p m e : 0 < m → -1074 ≤ e ≤ 971 → 0 ≤ n ≤ 17 → -323 ≤ p ≤ 309 →
  m * two e * ten 0 < ten p * two 0 →
  m * 2 ^ pos_part e * 10 ^ pos_part (n - p) / (2 ^ pos_part (- e) * 10 ^ pos_part (p - n)) < 10 ^ 17.
Proof.
  intros Hm He Hn Hp Hup. apply Z.div_lt_upper_bound.
  { apply Z.mul_pos_pos; apply Z.pow_pos_nonneg; unfold pos_part; lia. }
  replace (p - n) with (- (n - p)) by lia. set (j := n - p).
  destruct (two_split e ltac:(lia)) as [E1 E2]. destruct (ten_split j ltac:(lia)) as [T1 T2].
  set (W := 2 ^ (1200 - pos_part (- e))) in *. set (V := 10 ^ (400 - pos_part (- j))) in *.
  assert (0 < W * V) as HWV by (apply Z.mul_pos_pos; apply Z.pow_pos_nonneg; unfold pos_part; lia).
  pose proof (ten_pos 0 ltac:(lia)). pose proof (ten_pos j ltac:(lia)). pose proof (two_pos 0 ltac:(lia)).
  assert (ten p * ten j = 10 ^ n * ten 0 * ten 0) as Hpj.
  { replace (ten p) with (10 ^ (p + 400)) by (by with_strategy transparent [ten] (unfold ten)).
    replace (ten j) with (10 ^ (j + 400)) by (by with_strategy transparent [ten] (unfold ten)).
    replace (ten 0) with (10 ^ 400) by (by with_strategy transparent [ten] (unfold ten)).
    rewrite <- !Z.pow_add_r by lia. f_equal. lia. }
  assert (10 ^ n ≤ 10 ^ 17) as H17 by (apply Z.pow_le_mono_r; lia).
  assert (m * two e * ten j < 10 ^ 17 * (two 0 * ten 0)) as Hlt.
  { apply (Z.mul_lt_mono_pos_r (ten 0)); [done|].
    apply Z.lt_le_trans with (10 ^ n * (two 0 * ten 0) * ten 0).
    - replace (m * two e * ten j * ten 0) with (m * two e * ten 0 * ten j) by ring.
      replace (10 ^ n * (two 0 * ten 0) * ten 0) with (ten p * two 0 * ten j)
        by (transitivity (ten p * ten j * two 0); [ring|rewrite Hpj; ring]).
      by apply Z.mul_lt_mono_pos_r.
    - apply Z.mul_le_mono_nonneg_r; [lia|]. apply Z.mul_le_mono_nonneg_r; [|done].
      apply Z.mul_nonneg_nonneg; lia. }
  apply (Z.mul_lt_mono_pos_r (W * V)); [done|]. rewrite E1, E2, T1, T2 in Hlt.
  match type of Hlt with ?a < ?b => match goal with |- ?c < ?d =>
    replace c with a by ring; replace d with b by ring end end. done.
Qed.

Lemma shortest_reads p m e : f_ok (S754_finite false m e) = true → -323 ≤ p ≤ 309 →
  ten (p - 1) * two 0 ≤ Zpos m * two e * ten 0 < ten p * two 0 → -1074 ≤ e ≤ 971 →
  ∀ fuel n, 0 ≤ n → n + Z.of_nat fuel = 17 →
  let '(D, k) := shortest fuel n p m e in
  0 ≤ D ≤ 10 ^ 17 ∧ p - 17 ≤ k ≤ p ∧ f_of_dec false D k = S754_finite false m e.
Proof.
  intros Hok Hp [Hlow Hup] He. induction fuel as [|fuel IH]; intros n Hn Hf; cbn [shortest];
    set (N := Zpos m * _ * _); set (D := 2 ^ pos_part (- e) * _);
    (assert (0 ≤ N) as HN by (apply Z.mul_nonneg_nonneg; [apply Z.mul_nonneg_nonneg|]; try apply Z.pow_nonneg; lia));
    (assert (0 < D) as HD by (apply Z.mul_pos_pos; apply Z.pow_pos_nonneg; unfold pos_part; lia));
    pose proof (Z.div_pos N D HN HD) as Hq;
    (assert (N / D < 10 ^ 17) as Hcut by (apply cut_bound; (done || lia)));
    (destruct (bool_decide_reflect (f_of_dec false (N / D) (p - n) = S754_finite false m e)) as [El|El]);
    (destruct (bool_decide_reflect (f_of_dec false (N / D + 1) (p - n) = S754_finite false m e)) as [Eh|Eh]);
    cbn [andb]; try (split_and!; [lia..|done]).
  - destruct (_ || _); split_and!; (lia || done).
  - assert (n = 17) as -> by lia. split; [destruct (_ || _); lia|]. split; [lia|].
    apply nearest_reads; [done|lia|done|]. cbv zeta. fold N D. by apply nearest_close.
  - destruct (_ || _); split_and!; (lia || done).
  - apply IH; lia.
Qed.

Lemma shortest_dec_reads m e : f_ok (S754_finite false m e) = true →
  let '(D, k) := shortest_dec m e in
  0 < D ≤ 10 ^ 17 ∧ -340 ≤ k ≤ 309 ∧ f_of_dec false D k = S754_finite false m e.
Proof.
  intros Hok. pose proof Hok as Hok'. unfold f_ok in Hok'.
  apply andb_true_iff in Hok' as [Hok' _]. apply andb_true_iff in Hok' as [Hok' He2%Z.leb_le].
  apply andb_true_iff in Hok' as [Hm%Z.ltb_lt He1%Z.leb_le].
  destruct (dec_exp_spec (Zpos m) e ltac:(lia) ltac:(lia)) as [Hp Hlow].
  unfold shortest_dec. pose proof (shortest_reads _ m e Hok Hp Hlow ltac:(lia) 17 0 ltac:(lia) eq_refl) as Hs.
  destruct (shortest 17 0 _ m e) as [D k]. destruct Hs as (HD & Hk & Hr). split_and!; [|lia..|done].
  enough (D ≠ 0) by lia. intros ->.
  unfold f_of_dec in Hr. by rewrite Z.mul_0_l in Hr.
Qed.

(** ** The parts of a literal *)

Abbreviation digits ds := (Forall (λ a, is_digit (byte_of a) = true) ds).
(** A literal: sign, integer digits, digits after the point, and the exponent. *)
Definition frac_text (f : list ascii) : list ascii := match f with [] => [] | _ => byte_at 46 :: f end.
Definition exp_text (x : option (bool * list ascii)) : list ascii :=
  match x with
  | Some (neg, ds) => byte_at 101 :: (if neg : bool then byte_at 45 else byte_at 43) :: ds
  | None => []
  end.
Definition lit_text (sign : bool) (i f : list ascii) (x : option (bool * list ascii)) : list ascii :=
  (if sign then [byte_at 45] else []) ++ i ++ frac_text f ++ exp_text x.
Definition exp_ok (x : option (bool * list ascii)) : Prop :=
  match x with Some (_, ds) => digits ds ∧ ds ≠ [] | None => True end.
Definition exp_value (x : option (bool * list ascii)) : Z :=
  match x with Some (neg, ds) => if neg : bool then - exp_digits ds else exp_digits ds | None => 0 end.

Definition no_digit (rest : list ascii) : Prop :=
  match rest with [] => True | a :: _ => is_digit (byte_of a) = false end.
Lemma take_digits_until ds rest : digits ds → no_digit rest → take_digits (ds ++ rest) = (ds, rest).
Proof.
  intros Hds Hr. induction Hds as [|a ds Ha Hds IH]; cbn [app take_digits].
  - destruct rest as [|a t]; [done|]. cbn [take_digits no_digit] in *. by rewrite Hr.
  - by rewrite Ha, IH.
Qed.
Lemma digits1_until ds rest : digits ds → ds ≠ [] → no_digit rest → digits1 (ds ++ rest) = Some (ds, rest).
Proof. intros Hds Hne Hr. unfold digits1. rewrite take_digits_until by done. by destruct ds. Qed.

Lemma stops_no_digit rest : stops rest → no_digit rest.
Proof. destruct rest; [done|]. cbn. by intros [->|[->| ->]]. Qed.
Lemma exp_no_digit x rest : stops rest → no_digit (exp_text x ++ rest).
Proof. intros Hr. destruct x as [[n ds]|]; [done|by apply stops_no_digit]. Qed.
Lemma frac_no_digit f x rest : stops rest → no_digit (frac_text f ++ exp_text x ++ rest).
Proof. intros Hr. destruct f; [by apply exp_no_digit|done]. Qed.

Lemma lex_frac_text f x rest : digits f → stops rest →
  lex_frac (frac_text f ++ exp_text x ++ rest) = Some (frac_text f, exp_text x ++ rest).
Proof.
  intros Hf Hr. destruct f as [|a f].
  - cbn [frac_text app]. destruct x as [[n ds]|]; [done|]. cbn [exp_text app].
    destruct rest as [|b t]; [done|]. cbn [stops lex_frac] in *. by destruct Hr as [->|[->| ->]].
  - cbn [frac_text]. rewrite <- app_comm_cons. cbn [lex_frac].
    change (byte_of (byte_at 46) =? 46)%N with true. cbv iota.
    by rewrite (digits1_until (a :: f)) by (done || by apply exp_no_digit).
Qed.
Lemma lex_exp_text x rest : exp_ok x → stops rest → lex_exp (exp_text x ++ rest) = Some (exp_text x, rest).
Proof.
  intros Hx Hr. destruct x as [[n ds]|].
  - destruct Hx as [Hds Hne]. cbn [exp_text app lex_exp].
    change (byte_of (byte_at 101) =? 101)%N with true. cbn [orb].
    destruct n; [change (byte_of (byte_at 45) =? 43)%N with false; change (byte_of (byte_at 45) =? 45)%N with true
      |change (byte_of (byte_at 43) =? 43)%N with true]; cbn [orb];
      by rewrite digits1_until by (done || by apply stops_no_digit).
  - cbn [exp_text app]. destruct rest as [|b t]; [done|]. cbn [stops lex_exp] in *.
    by destruct Hr as [->|[->| ->]].
Qed.

Lemma digit_not a n : is_digit (byte_of a) = true → is_digit n = false → (byte_of a =? n)%N = false.
Proof. intros Ha Hn. destruct (N.eqb_spec (byte_of a) n) as [E|]; [congruence|done]. Qed.

Lemma lit_literal sign i f x : digits i → digits f → exp_ok x →
  (∃ a t, i = a :: t ∧ (byte_of a = 48%N → t = [])) → literal (lit_text sign i f x).
Proof.
  intros Hi Hf Hx (a & t & -> & Hz). pose proof (proj1 (list.Forall_cons _ _ _) Hi) as [Ha Ht].
  split.
  { destruct sign; [eexists _, _; split; [done|by right]|]. exists a, (t ++ frac_text f ++ exp_text x).
    split; [done|by left]. }
  intros rest Hr. unfold lex_number, lit_text.
  assert (match take_byte 45 (((if sign then [byte_at 45] else []) ++ (a :: t) ++ frac_text f ++ exp_text x) ++ rest)
    with Some t => ([byte_at 45], t) | None => ([], ((if sign then [byte_at 45] else []) ++ (a :: t) ++ frac_text f ++ exp_text x) ++ rest) end
    = (if sign then [byte_at 45] else [], (a :: t) ++ frac_text f ++ exp_text x ++ rest)) as ->.
  { destruct sign; cbn [app take_byte].
    - change (byte_of (byte_at 45) =? 45)%N with true. cbv iota. by rewrite <- !app_assoc.
    - rewrite (digit_not a 45) by done. by rewrite <- !app_assoc. }
  assert (lex_int ((a :: t) ++ frac_text f ++ exp_text x ++ rest) = Some (a :: t, frac_text f ++ exp_text x ++ rest)) as ->.
  { cbn [app lex_int]. destruct (N.eqb_spec (byte_of a) 48) as [E|E]; [by rewrite (Hz E)|].
    apply (digits1_until (a :: t)); [done|done|by apply frac_no_digit]. }
  cbn [mbind option_bind]. rewrite lex_frac_text by done. cbn [mbind option_bind].
  rewrite lex_exp_text by done. cbn [mbind option_bind]. done.
Qed.

Lemma parse_float_text sign i f x D : digits i → digits f → exp_ok x → i ≠ [] →
  digits_value (i ++ f) = Some D →
  parse_float (lit_text sign i f x) =
    match f_of_dec sign (Z.of_N D) (exp_value x - Z.of_nat (length f)) with
    | S754_infinity _ => None | y => Some y end.
Proof.
  intros Hi Hf Hx Hne HD. destruct i as [|a t]; [done|]. pose proof (proj1 (list.Forall_cons _ _ _) Hi) as [Ha Ht].
  unfold parse_float, lit_text.
  assert (match take_byte 45 ((if sign then [byte_at 45] else []) ++ (a :: t) ++ frac_text f ++ exp_text x)
    with Some t => (true, t) | None => (false, (if sign then [byte_at 45] else []) ++ (a :: t) ++ frac_text f ++ exp_text x) end
    = (sign, (a :: t) ++ frac_text f ++ exp_text x)) as ->.
  { destruct sign; cbn [app take_byte]; [done|]. by rewrite (digit_not a 45) by done. }
  assert (no_digit (exp_text x)) as Hnx by (destruct x as [[? ?]|]; done).
  rewrite take_digits_until by (done || by destruct f).
  assert (match take_byte 46 (frac_text f ++ exp_text x) with Some t => take_digits t | None => ([], frac_text f ++ exp_text x) end
    = (f, exp_text x)) as ->.
  { destruct f as [|b f]; [by destruct x as [[? ?]|]|]. cbn [frac_text app take_byte].
    change (byte_of (byte_at 46) =? 46)%N with true. cbv iota.
    apply (take_digits_until (b :: f)); done. }
  rewrite HD. cbn [mbind option_bind].
  replace (match exp_text x with [] => 0 | _ :: t => _ end) with (exp_value x); [done|].
  destruct x as [[neg ds]|]; [|done]. cbn [exp_text exp_value]. destruct neg; [done|]. reflexivity.
Qed.

(** ** Reading back what is printed *)

Lemma zeros_digits n : digits (zeros n).
Proof. unfold zeros. induction (Z.to_nat n); by constructor. Qed.
Lemma digits_value_app_zeros ds D n : 0 ≤ n →
  digits_value ds = Some D → digits_value (ds ++ zeros n) = Some (Z.to_N (Z.of_N D * 10 ^ n)).
Proof.
  intros Hn HD. unfold zeros. rewrite <- (Z2Nat.id n Hn) at 2. induction (Z.to_nat n) as [|k IH].
  - rewrite app_nil_r, HD. f_equal. change (Z.of_nat 0) with 0. lia.
  - replace (repeat (byte_at 48) (S k)) with (repeat (byte_at 48) k ++ [byte_at 48])
      by (change (repeat (byte_at 48) (S k)) with (byte_at 48 :: repeat (byte_at 48) k); by rewrite repeat_cons).
    rewrite app_assoc, digits_value_snoc, IH. cbn [mbind option_bind].
    change (is_digit (byte_of (byte_at 48))) with true. change (byte_of (byte_at 48) - 48)%N with 0%N. cbv iota.
    f_equal. rewrite Nat2Z.inj_succ, Z.pow_succ_r by lia.
    assert (0 ≤ Z.of_N D * 10 ^ Z.of_nat k) by (apply Z.mul_nonneg_nonneg; [lia|apply Z.pow_nonneg; lia]). lia.
Qed.
Lemma digits_value_zeros_app n ds : digits_value (zeros n ++ ds) = digits_value ds.
Proof. unfold zeros. induction (Z.to_nat n) as [|k IH]; [done|]. exact IH. Qed.

Lemma digits_value_mono ds a D : digits_value (ds ++ [a]) = Some D →
  ∃ D', digits_value ds = Some D' ∧ (D' ≤ D)%N ∧ (D = 10 * D' + (byte_of a - 48))%N.
Proof.
  rewrite digits_value_snoc. destruct (digits_value ds) as [D'|]; [|done]. cbn [mbind option_bind].
  destruct (is_digit _); [|done]. intros [= <-]. exists D'. split_and!; [done|lia|done].
Qed.
Lemma exp_digits_value ds D : digits_value ds = Some D → (D < 10000)%N → digits ds → exp_digits ds = Z.of_N D.
Proof.
  revert D. induction ds as [|a ds IH] using rev_ind; intros D HD Hlt Hds; [by injection HD as <-|].
  destruct (digits_value_mono ds a D HD) as (D' & HD' & Hle & ->). apply Forall_app in Hds as [Hds Ha].
  apply list.Forall_cons in Ha as [Ha _]. unfold exp_digits in *. rewrite foldl_snoc, (IH D') by (done || lia).
  rewrite (proj2 (Z.ltb_lt _ _)) by lia. unfold is_digit, in_range in Ha.
  apply andb_true_iff in Ha as [?%N.leb_le _]. lia.
Qed.

(** The digits of a number are written as one of the two formats. *)
Definition shows (sign : bool) (D k : Z) (l : list ascii) : Prop :=
  ∃ i f x D', l = lit_text sign i f x ∧ digits i ∧ digits f ∧ exp_ok x ∧
    (∃ a t, i = a :: t ∧ (byte_of a = 48%N → t = [])) ∧ digits_value (i ++ f) = Some D' ∧
    f_of_dec sign (Z.of_N D') (exp_value x - Z.of_nat (length f)) = f_of_dec sign D k.
Definition signed (sign : bool) (l : list ascii) : list ascii := if sign then byte_at 45 :: l else l.
Lemma lit_text_signed sign i f x : lit_text sign i f x = signed sign (lit_text false i f x).
Proof. by destruct sign. Qed.

Lemma dec_N_pos D : 0 < D → ∃ a t, dec_N (Z.to_N D) = a :: t ∧ is_digit (byte_of a) = true ∧ byte_of a ≠ 48%N.
Proof.
  intros HD. destruct (dec_N_spec (Z.to_N D)) as (Hv & Hall & a & t & He & Hz). exists a, t.
  rewrite He in Hv, Hall. apply list.Forall_cons in Hall as [Ha _]. split_and!; [done..|].
  intros E. rewrite (Hz E) in Hv. unfold digits_value in Hv. cbn [foldl mbind option_bind] in Hv.
  rewrite Ha, E in Hv. cbn in Hv. injection Hv as Hv. lia.
Qed.

Lemma fmt_f_shows sign D k : 0 < D →
  shows sign D k (signed sign (fmt_f (dec_N (Z.to_N D)) (k + Z.of_nat (length (dec_N (Z.to_N D)))))).
Proof.
  intros HD. destruct (dec_N_spec (Z.to_N D)) as (Hv & Hall & _). destruct (dec_N_pos D HD) as (a & t & He & Ha & H48).
  set (ds := dec_N (Z.to_N D)) in *. set (nd := Z.of_nat (length ds)).
  assert (1 ≤ nd) as Hnd by (unfold nd; rewrite He; cbn [length]; lia). unfold fmt_f. fold nd.
  destruct (Z.leb_spec (k + nd) 0) as [Hdp|Hdp]; [|destruct (Z.leb_spec nd (k + nd)) as [Hk|Hk]].
  - exists [byte_at 48], (zeros (- (k + nd)) ++ ds), None, (Z.to_N D). split_and!.
    + rewrite lit_text_signed. f_equal. unfold lit_text, frac_text, exp_text. cbn [app]. rewrite app_nil_r.
      destruct (zeros _ ++ ds) eqn:E; [|done]. apply app_eq_nil in E as [_ E]. by rewrite He in E.
    + by constructor.
    + apply Forall_app. split; [apply zeros_digits|done].
    + done.
    + by eexists _, _.
    + change ([byte_at 48] ++ ?l) with (zeros 1 ++ l). by rewrite !digits_value_zeros_app.
    + rewrite length_app. unfold zeros. rewrite repeat_length. cbn [exp_value]. f_equal; [lia|].
      unfold nd in *. lia.
  - exists (ds ++ zeros (k + nd - nd)), [], None, (Z.to_N (Z.of_N (Z.to_N D) * 10 ^ (k + nd - nd))). split_and!.
    + rewrite lit_text_signed. f_equal. unfold lit_text, frac_text, exp_text. cbn [app]. by rewrite !app_nil_r.
    + apply Forall_app. split; [done|apply zeros_digits].
    + constructor.
    + done.
    + rewrite He. eexists _, _. split; [done|]. done.
    + rewrite app_nil_r. apply digits_value_app_zeros; [lia|done].
    + cbn [exp_value length]. change (Z.of_nat 0) with 0. unfold f_of_dec. unfold pos_part.
      assert (0 ≤ D * 10 ^ k) by (apply Z.mul_nonneg_nonneg; [lia|apply Z.pow_nonneg; lia]).
      replace (k + nd - nd) with k by lia. rewrite (Z2N.id D), Z2N.id by lia.
      replace (Z.max 0 (0 - 0)) with 0 by lia. replace (Z.max 0 (- (0 - 0))) with 0 by lia.
      replace (Z.max 0 k) with k by lia. replace (Z.max 0 (- k)) with 0 by lia. rewrite Z.pow_0_r, Z.mul_1_r. done.
  - set (j := Z.to_nat (k + nd)). exists (take j ds), (drop j ds), None, (Z.to_N D).
    assert (j < length ds)%nat as Hj by (unfold j, nd in *; lia).
    assert (digits (take j ds) ∧ digits (drop j ds)) as [Ht Hd].
    { rewrite <- (take_drop j ds) in Hall. by apply Forall_app in Hall. }
    split_and!.
    + rewrite lit_text_signed. f_equal. unfold lit_text, frac_text, exp_text. cbn [app]. rewrite app_nil_r.
      destruct (drop j ds) eqn:E; [|done]. apply (f_equal length) in E. rewrite length_drop in E. cbn [length] in E. lia.
    + done.
    + done.
    + done.
    + destruct j as [|j'] eqn:Ej; [lia|]. rewrite He. cbn [take]. by eexists _, _.
    + by rewrite take_drop.
    + rewrite length_drop. cbn [exp_value]. f_equal; [lia|]. unfold j, nd in *. lia.
Qed.

Lemma fmt_e_shows sign D k : 0 < D → -9000 ≤ k →
  k + Z.of_nat (length (dec_N (Z.to_N D))) < 9000 →
  shows sign D k (signed sign (fmt_e (dec_N (Z.to_N D)) (k + Z.of_nat (length (dec_N (Z.to_N D)))))).
Proof.
  intros HD Hk1 Hk2. destruct (dec_N_spec (Z.to_N D)) as (Hv & Hall & _). destruct (dec_N_pos D HD) as (a & t & He & Ha & H48).
  set (dp := k + Z.of_nat _) in *. assert (dp = k + 1 + Z.of_nat (length t)) as Edp by (unfold dp; rewrite He; cbn [length]; lia).
  set (X := Z.to_N (Z.abs (dp - 1))). destruct (dec_N_spec X) as (HvX & HallX & b & u & HeX & _).
  rewrite He in *. apply list.Forall_cons in Hall as [_ Ht].
  exists [a], t, (Some (dp - 1 <? 0, dec_N X)), (Z.to_N D). split_and!.
  - rewrite lit_text_signed. unfold lit_text, fmt_e, exp_text, frac_text. cbn [app]. by destruct t.
  - by constructor.
  - done.
  - split; [done|]. by rewrite HeX.
  - by exists a, [].
  - exact Hv.
  - f_equal; [lia|]. unfold exp_value. rewrite (exp_digits_value _ X) by (try done; unfold X; lia).
    unfold X. destruct (Z.ltb_spec (dp - 1) 0); lia.
Qed.

Lemma digits_length ds D : digits_value ds = Some D →
  (∃ a t, ds = a :: t ∧ (byte_of a = 48%N → t = [])) → digits ds → (D < 10 ^ 20)%N → (length ds ≤ 20)%nat.
Proof.
  intros HD (a & t & -> & Hz) Hds Hlt. destruct (decide (byte_of a = 48%N)) as [E|E]; [rewrite (Hz E); cbn; lia|].
  assert (∀ t D, digits_value (a :: t) = Some D → digits (a :: t) → 10 ^ Z.of_nat (length t) ≤ Z.of_N D) as Hge.
  { clear t D HD Hz Hds Hlt. intros t. induction t as [|b t IH] using rev_ind; intros D HD Hds.
    - unfold digits_value in HD. cbn [foldl mbind option_bind] in HD. apply list.Forall_cons in Hds as [Ha _].
      rewrite Ha in HD. injection HD as <-. unfold is_digit, in_range in Ha.
      apply andb_true_iff in Ha as [?%N.leb_le _]. cbn [length]. change (10 ^ Z.of_nat 0) with 1. lia.
    - rewrite app_comm_cons in HD, Hds. destruct (digits_value_mono _ b D HD) as (D' & HD' & _ & ->).
      apply Forall_app in Hds as [Hds _]. specialize (IH D' HD' Hds). rewrite length_app. cbn [length].
      replace (Z.of_nat (length t + 1)) with (Z.succ (Z.of_nat (length t))) by lia. rewrite Z.pow_succ_r by lia. lia. }
  specialize (Hge t D HD Hds). cbn [length]. destruct (Nat.le_gt_cases (S (length t)) 20); [done|].
  assert (10 ^ 20 ≤ 10 ^ Z.of_nat (length t)) by (apply Z.pow_le_mono_r; lia). lia.
Qed.

Lemma shows_reads sign D k l x : shows sign D k l → f_of_dec sign D k = x →
  match x with S754_infinity _ => False | _ => True end →
  literal l ∧ parse_float l = Some x.
Proof.
  intros (i & f & y & D' & -> & Hi & Hf & Hy & Hs & HD & HR) Hx Hfin. split; [by apply lit_literal|].
  rewrite (parse_float_text sign i f y D') by (try done; destruct Hs as (? & ? & -> & _); done).
  rewrite HR, Hx. by destruct x.
Qed.

(** What is printed is a number of JSON, and reads back as the value. *)
Lemma float_reads x l : f_ok x = true → json_float x = Some l → literal l ∧ parse_float l = Some x.
Proof.
  intros Hok Hl. destruct x as [sign|sign| |sign m e]; [|done..|].
  { injection Hl as <-. apply (shows_reads sign 0 0); [|by destruct sign|done].
    exists [byte_at 48], [], None, 0%N. split_and!; try done; [by destruct sign|by constructor|].
    by eexists _, _. }
  cbn [json_float] in Hl. pose proof (shortest_dec_reads m e Hok) as Hs.
  destruct (shortest_dec m e) as [D k]. destruct Hs as ((HD & HD17) & Hk & Hr).
  assert (f_of_dec sign D k = S754_finite sign m e) as Hr'.
  { destruct sign; [|exact Hr]. exact (eq_trans (f_of_dec_sign D k) (f_equal SFopp Hr)). }
  apply (shows_reads sign D k); [|exact Hr'|exact I]. apply Some_inj in Hl. rewrite <- Hl.
  destruct (_ || _); fold (signed sign (fmt_e (dec_N (Z.to_N D)) (k + Z.of_nat (length (dec_N (Z.to_N D))))));
    fold (signed sign (fmt_f (dec_N (Z.to_N D)) (k + Z.of_nat (length (dec_N (Z.to_N D)))))).
  - apply fmt_e_shows; [done|lia|]. destruct (dec_N_spec (Z.to_N D)) as (Hv & Hall & Hshape).
    pose proof (digits_length _ _ Hv Hshape Hall ltac:(lia)). lia.
  - by apply fmt_f_shows.
Qed.

Lemma json_float_finite x : is_Some (json_float x) ↔ f_finite x = true.
Proof.
  split.
  - intros [l Hl]. by destruct x.
  - destruct x as [| | |sign m e]; try done; intros _.
    cbn [json_float]. destruct (shortest_dec m e). by eexists.
Qed.

(** 1e21 and 1e-6 are where the form changes. *)
Example json_float_tenth : json_float (f_of_dec false 1 (-1)) = Some (to_bytes "0.1").
Proof. vm_compute. reflexivity. Qed.
Example json_float_large : json_float (f_of_dec true 15 20) = Some (to_bytes "-1.5e+21").
Proof. vm_compute. reflexivity. Qed.
Example json_float_small : json_float (f_of_dec false 1 (-7)) = Some (to_bytes "1e-7").
Proof. vm_compute. reflexivity. Qed.
Example json_float_zero : json_float (S754_zero true) = Some (to_bytes "-0").
Proof. vm_compute. reflexivity. Qed.

(** ** What is read is a float *)

Lemma f_make_ok sign m e : 0 ≤ m < 2 ^ 53 → -1074 ≤ e → 2 ^ 52 ≤ m ∨ e = -1074 → f_ok (f_make sign m e) = true.
Proof.
  intros Hm He Hc. unfold f_make. destruct (Z.eqb_spec m 0); [done|]. destruct (Z.ltb_spec 971 e); [done|].
  unfold f_ok. rewrite Z2Pos.id by lia. rewrite (proj2 (Z.ltb_lt _ _)), (proj2 (Z.leb_le (-1074) e)), (proj2 (Z.leb_le e 971)) by lia.
  cbn [andb]. apply orb_true_iff. destruct Hc as [Hc| ->]; [left; by apply Z.leb_le|by right].
Qed.

Lemma f_of_ratio_ok sign n d : 0 ≤ n → 0 < d → f_ok (f_of_ratio sign n d) = true.
Proof.
  intros Hn Hd. unfold f_of_ratio. destruct (Z.eqb_spec n 0) as [|Hn0]; [done|]. cbv zeta.
  pose proof (top_spec n d ltac:(lia) Hd) as Htop. cbv zeta in Htop.
  set (top := if _ <? d * _ then _ else _) in *. clearbody top. set (e := Z.max (-1074) (top - 52)).
  set (B := Z.log2 d + 1 + pos_part (- e)). pose proof (Z.log2_nonneg d) as Hl.
  assert (0 ≤ B ∧ Z.log2 d + 1 ≤ B ∧ pos_part (- e) ≤ B) as (HB & HBd & HBe) by (unfold B, pos_part; lia).
  destruct (Htop B HB HBd) as [Hlow Hup]. clear Htop.
  assert (0 < d * 2 ^ pos_part e) as HD by (apply Z.mul_pos_pos; [done|apply Z.pow_pos_nonneg; unfold pos_part; lia]).
  assert (0 ≤ n * 2 ^ pos_part (- e)) as HN by (apply Z.mul_nonneg_nonneg; [done|apply Z.pow_nonneg; lia]).
  assert (0 ≤ e + B) as HeB by (unfold pos_part in *; lia).
  assert (n * 2 ^ pos_part (- e) < 2 ^ 53 * (d * 2 ^ pos_part e)) as H53.
  { rewrite Z.mul_assoc. apply (ratio_lt_scale n (2 ^ 53 * d) e B HB HBe). eapply Z.lt_le_trans; [exact Hup|].
    replace (2 ^ 53 * d * 2 ^ (e + B)) with (d * 2 ^ (53 + (e + B))) by (rewrite Z.pow_add_r by lia; ring).
    apply Z.mul_le_mono_nonneg_l; [lia|]. apply Z.pow_le_mono_r; lia. }
  set (N := n * 2 ^ pos_part (- e)) in *. set (D := d * 2 ^ pos_part e) in *.
  assert (e = -1074 ∨ 2 ^ 52 ≤ N / D) as H52.
  { destruct (Z.eq_dec e (-1074)); [by left|right]. apply Z.div_le_lower_bound; [done|]. apply Z.nlt_ge. intros Hlt.
    rewrite Z.mul_comm in Hlt. unfold D in Hlt. rewrite Z.mul_assoc in Hlt.
    apply (ratio_lt_scale n (2 ^ 52 * d) e B HB HBe) in Hlt.
    replace (2 ^ 52 * d * 2 ^ (e + B)) with (d * 2 ^ (top + B)) in Hlt; [lia|].
    replace (top + B) with (52 + (e + B)) by lia. rewrite (Z.pow_add_r 2 52) by lia. ring. }
  assert (0 ≤ N / D < 2 ^ 53) as Hq.
  { split; [by apply Z.div_pos|]. apply Z.div_lt_upper_bound; [done|]. lia. }
  set (m := if _ || _ then N / D + 1 else N / D).
  assert (0 ≤ m ≤ 2 ^ 53 ∧ N / D ≤ m) as [Hm Hqm] by (unfold m; destruct (_ || _); lia).
  destruct (Z.eqb_spec m (2 ^ 53)); apply f_make_ok; lia.
Qed.

Lemma f_of_dec_ok sign D k : 0 ≤ D → f_ok (f_of_dec sign D k) = true.
Proof.
  intros HD. apply f_of_ratio_ok; [apply Z.mul_nonneg_nonneg; [done|apply Z.pow_nonneg; lia]|].
  apply Z.pow_pos_nonneg; unfold pos_part; lia.
Qed.
Lemma f_of_ratio_not_nan sign n d : f_of_ratio sign n d ≠ S754_nan.
Proof. unfold f_of_ratio, f_make. cbv zeta. repeat case_match; done. Qed.

(** A number read from JSON is finite. *)
Lemma parse_float_finite lit x : parse_float lit = Some x → f_ok x = true ∧ f_finite x = true.
Proof.
  unfold parse_float. destruct (match take_byte 45 lit with Some t => _ | None => _ end) as [sign l].
  destruct (take_digits l) as [i l1]. destruct (match take_byte 46 l1 with Some t => _ | None => _ end) as [f l2].
  destruct (digits_value (i ++ f)) as [D|]; [|done]. cbn [mbind option_bind].
  set (k := _ - _). clearbody k. pose proof (f_of_dec_ok sign (Z.of_N D) k ltac:(lia)) as Hok.
  pose proof (f_of_ratio_not_nan sign (Z.of_N D * 10 ^ pos_part k) (10 ^ pos_part (- k))) as Hnan.
  fold (f_of_dec sign (Z.of_N D) k) in Hnan. destruct (f_of_dec sign (Z.of_N D) k); intros [= <-]; done.
Qed.
Lemma into_float64_finite v cur x : into_float64 v cur = Some x →
  (f_ok cur = true ∧ f_finite cur = true) → f_ok x = true ∧ f_finite x = true.
Proof.
  destruct v; try done; cbn [into_float64]; [by intros [= <-]|]. intros Hx _. by apply parse_float_finite in Hx.
Qed.
