(* ===== verification/GoTime.v ===== *)
(** * Times in JSON

    [time.Time.MarshalJSON] and [UnmarshalJSON] for times in UTC: RFC 3339 with
    the nanoseconds that are not zero, for the years 0 to 9999; and the parser,
    which takes what [time.Parse] takes (an hour of one digit, a comma before the
    fraction, offsets up to 24:60).  What is written reads back as the same
    instant ([time_reads]). *)

From S2P Require Import Prelude GoStrings GoNum GoJson JsonFacts GoFloat.
From Stdlib Require Import Ascii.
#[local] Open Scope Z_scope.

(** ** The calendar *)

Definition isLeap (y : Z) : bool :=
  (y mod 4 =? 0) && (negb (y mod 100 =? 0) || (y mod 400 =? 0)).
Definition daysIn (m y : Z) : Z :=
  if m =? 2 then (if isLeap y then 29 else 28)
  else if (m =? 4) || (m =? 6) || (m =? 9) || (m =? 11) then 30 else 31.

(** The day number of a date, for months from 1 to 12. *)
Definition days_of_civil (y m d : Z) : Z :=
  let y' := if m <=? 2 then y - 1 else y in
  let era := y' / 400 in
  let yoe := y' mod 400 in
  let mp := (m + 9) mod 12 in
  let doy := (153 * mp + 2) / 5 + d - 1 in
  let doe := yoe * 365 + yoe / 4 - yoe / 100 + doy in
  era * 146097 + doe - 719468.

(** Days before a year of the era, whose years start in March. *)
Definition year_start (y : Z) : Z := 365 * y + y / 4 - y / 100 + y / 400.
Definition yoe_of (doe : Z) : Z := (doe - doe / 1460 + doe / 36524 - doe / 146096) / 365.

Definition year_ok (y : Z) : bool :=
  (yoe_of (year_start y) =? y) && (yoe_of (year_start (y + 1) - 1) =? y) &&
  (year_start (y + 1) - year_start y =? if isLeap (y + 1) then 366 else 365).
Lemma years_ok : forallb year_ok (seqZ 0 400) = true.
Proof. vm_compute. reflexivity. Qed.
Lemma year_ok_at y : 0 ≤ y < 400 →
  yoe_of (year_start y) = y ∧ yoe_of (year_start (y + 1) - 1) = y ∧
  year_start (y + 1) - year_start y = if isLeap (y + 1) then 366 else 365.
Proof.
  intros Hy. pose proof (proj1 (forallb_forall _ _) years_ok y) as H. unfold year_ok in H.
  rewrite !andb_true_iff, !Z.eqb_eq in H. apply and_assoc, H. apply list_elem_of_In, elem_of_seqZ. lia.
Qed.
Lemma yoe_of_mono x y : 0 ≤ x ≤ y → y ≤ 146096 → yoe_of x ≤ yoe_of y.
Proof.
  intros [Hx Hxy] Hy. apply Z.div_le_mono; [lia|].
  enough (∀ n, x + Z.of_nat n ≤ 146096 → x - x / 1460 + x / 36524 - x / 146096 ≤
    (x + Z.of_nat n) - (x + Z.of_nat n) / 1460 + (x + Z.of_nat n) / 36524 - (x + Z.of_nat n) / 146096) as H.
  { specialize (H (Z.to_nat (y - x))). replace (x + Z.of_nat (Z.to_nat (y - x))) with y in H by lia. lia. }
  induction n as [|n IH]; intros Hn; [rewrite Z.add_0_r; lia|].
  specialize (IH ltac:(lia)). rewrite Nat2Z.inj_succ in *. etrans; [exact IH|].
  set (z := x + Z.of_nat n) in *. replace (x + Z.succ (Z.of_nat n)) with (z + 1) in * by (unfold z; lia).
  assert (0 ≤ z) by (unfold z; lia). clearbody z. Z.div_mod_to_equations. lia.
Qed.
(** The year of a day of the era. *)
Lemma yoe_of_spec doe : 0 ≤ doe < 146097 →
  0 ≤ yoe_of doe < 400 ∧ year_start (yoe_of doe) ≤ doe < year_start (yoe_of doe + 1).
Proof.
  intros Hd. set (y := yoe_of doe).
  assert (0 ≤ y < 400) as Hy.
  { pose proof (yoe_of_mono 0 doe ltac:(lia) ltac:(lia)). pose proof (yoe_of_mono doe 146096 ltac:(lia) ltac:(lia)).
    change (yoe_of 0) with 0 in *. change (yoe_of 146096) with 399 in *. unfold y. lia. }
  assert (∀ z, 0 ≤ z ≤ 400 → 0 ≤ year_start z ≤ 146097) as Hrange.
  { intros z Hz. unfold year_start. Z.div_mod_to_equations. lia. }
  split; [done|]. split; apply Z.nlt_ge || apply Z.lt_nge; intros Hc.
  - destruct (Z.eq_dec y 0) as [E|]; [rewrite E in Hc; change (year_start 0) with 0 in Hc; lia|].
    destruct (year_ok_at (y - 1) ltac:(lia)) as (_ & H & _). rewrite Z.sub_add in H.
    pose proof (Hrange y ltac:(lia)). pose proof (yoe_of_mono doe (year_start y - 1) ltac:(lia) ltac:(lia)) as Hm.
    rewrite H in Hm. fold y in Hm. lia.
  - destruct (Z.eq_dec y 399) as [E|]; [rewrite E in Hc; change (year_start (399 + 1)) with 146097 in Hc; lia|].
    destruct (year_ok_at (y + 1) ltac:(lia)) as (H & _ & _).
    pose proof (Hrange (y + 1) ltac:(lia)). pose proof (yoe_of_mono (year_start (y + 1)) doe ltac:(lia) ltac:(lia)) as Hm.
    rewrite H in Hm. fold y in Hm. lia.
Qed.

(** Month and day from the day of the year, which starts in March. *)
Definition doy_ok (doy : Z) : bool :=
  let mp := (5 * doy + 2) / 153 in
  let d := doy - (153 * mp + 2) / 5 + 1 in
  let m := if mp <? 10 then mp + 3 else mp - 9 in
  (1 <=? m) && (m <=? 12) && (1 <=? d) && ((m + 9) mod 12 =? mp) &&
  (d <=? (if m =? 2 then (if doy =? 365 then 29 else 28) else daysIn m 0)).
Lemma doys_ok : forallb doy_ok (seqZ 0 366) = true.
Proof. vm_compute. reflexivity. Qed.

Lemma mod_shift y q n k : 0 < n → (y + q * (n * k)) mod n = y mod n.
Proof. intros Hn. replace (q * (n * k)) with (q * k * n) by lia. apply Z.mod_add. lia. Qed.
Lemma isLeap_era y q : isLeap (y + q * 400) = isLeap y.
Proof.
  unfold isLeap. rewrite (mod_shift y q 4 100 eq_refl : (y + q * 400) mod 4 = _),
    (mod_shift y q 100 4 eq_refl : (y + q * 400) mod 100 = _), (Z.mod_add y q 400) by lia. done.
Qed.

Lemma civil_roundtrip n :
  let '(y, m, d) := civil_of_days n in
  1 ≤ m ≤ 12 ∧ 1 ≤ d ≤ daysIn m y ∧ days_of_civil y m d = n.
Proof.
  unfold civil_of_days. set (era := (n + 719468) / 146097). set (doe := (n + 719468) mod 146097).
  pose proof (Z.mod_pos_bound (n + 719468) 146097 ltac:(lia)) as Hb. fold doe in Hb.
  pose proof (Z.div_mod (n + 719468) 146097 ltac:(lia)) as Hdm. fold era doe in Hdm.
  cbv zeta. fold (yoe_of doe). destruct (yoe_of_spec doe Hb) as [Hy Hd]. set (yoe := yoe_of doe) in *.
  destruct (year_ok_at yoe Hy) as (_ & _ & Hlen). clearbody yoe doe era.
  assert (year_start yoe = 365 * yoe + yoe / 4 - yoe / 100) as Hs.
  { unfold year_start. rewrite (Z.div_small yoe 400) by lia. lia. }
  rewrite <- Hs. set (doy := doe - year_start yoe). assert (0 ≤ doy < 366) as Hdoy by (unfold doy; destruct (isLeap _); lia).
  assert (doy = 365 → isLeap (yoe + 1) = true) as Hleap.
  { intros E. destruct (isLeap (yoe + 1)) eqn:E'; [done|]. unfold doy in E. lia. }
  pose proof (proj1 (forallb_forall _ _) doys_ok doy) as H. unfold doy_ok in H.
  rewrite !andb_true_iff, !Z.leb_le, Z.eqb_eq in H.
  destruct H as ((((Hm1 & Hm2) & Hd1) & Hmp) & Hd2); [apply list_elem_of_In, elem_of_seqZ; lia|].
  set (mp := (5 * doy + 2) / 153) in *. set (m := if mp <? 10 then mp + 3 else mp - 9) in *.
  set (d := doy - _ + 1) in *. split; [done|]. split.
  - split; [done|]. etrans; [exact Hd2|]. unfold daysIn. destruct (Z.eqb_spec m 2) as [Em|]; [|done].
    rewrite Em. change (2 <=? 2) with true. cbv iota.
    replace (yoe + era * 400 + 1) with (yoe + 1 + era * 400) by lia. rewrite isLeap_era.
    destruct (Z.eqb_spec doy 365) as [E|]; [by rewrite Hleap|destruct (isLeap _); lia].
  - unfold days_of_civil. rewrite Hmp.
    replace (if m <=? 2 then yoe + era * 400 + (if m <=? 2 then 1 else 0) - 1 else yoe + era * 400 + (if m <=? 2 then 1 else 0))
      with (yoe + era * 400) by (destruct (m <=? 2); lia).
    rewrite Z.mod_add, Z.div_add, (Z.mod_small yoe), (Z.div_small yoe 400) by lia.
    unfold d, doy. lia.
Qed.

(** ** Writing *)

(** The nine digits of the nanoseconds without the zeros at the end. *)
Fixpoint fixed_digits (k : nat) (n : Z) : list ascii :=
  match k with
  | O => []
  | S k => fixed_digits k (n / 10) ++ [byte_at (48 + Z.to_N (n mod 10))]
  end.
Fixpoint trim_zeros (l : list ascii) : list ascii :=
  match l with
  | [] => []
  | a :: t => match trim_zeros t with
              | [] => if (byte_of a =? 48)%N then [] else [a]
              | t' => a :: t'
              end
  end.
Definition frac_nanos (ns : Z) : list ascii :=
  match trim_zeros (fixed_digits 9 ns) with [] => [] | ds => byte_at 46 :: ds end.

(** [appendFormatRFC3339] in UTC, for a year from 0 to 9999. *)
Definition format_rfc3339_nano (t : time) : list ascii :=
  let sec := Unix t mod 86400 in
  to_bytes (format_date t) ++ chars "T" ++ to_bytes (pad2 (sec / 3600)) ++ chars ":" ++
  to_bytes (pad2 (sec / 60 mod 60)) ++ chars ":" ++ to_bytes (pad2 (sec mod 60)) ++
  frac_nanos (t mod Second) ++ chars "Z".

Definition year_of (t : time) : Z := (civil_of_days (utc_day_number t)).1.1.
Definition marshal_time (t : time) : option (list ascii) :=
  if (0 <=? year_of t) && (year_of t <=? 9999)
  then Some (quote (of_bytes (format_rfc3339_nano t))) else None.

(** ** Reading *)

(** [getnum(s, true)] and [getnum(s, false)]. *)
Definition digit_at (a : ascii) : option Z :=
  if is_digit (byte_of a) then Some (Z.of_N (byte_of a) - 48) else None.
Definition two_digits (l : list ascii) : option (Z * list ascii) :=
  match l with
  | a :: b :: t => x ← digit_at a; y ← digit_at b; Some (10 * x + y, t)
  | _ => None
  end.
Definition one_or_two_digits (l : list ascii) : option (Z * list ascii) :=
  match two_digits l with
  | Some r => Some r
  | None => match l with a :: t => x ← digit_at a; Some (x, t) | [] => None end
  end.
Definition ranged (lo hi : Z) (r : option (Z * list ascii)) : option (Z * list ascii) :=
  '(x, l) ← r; if (lo <=? x) && (x <=? hi) then Some (x, l) else None.

(** A fraction is a point or a comma and digits, of which nine count. *)
Definition read_frac (l : list ascii) : Z * list ascii :=
  match l with
  | a :: t =>
      if (byte_of a =? 46)%N || (byte_of a =? 44)%N then
        match take_digits t with
        | ([], _) => (0, l)
        | (ds, r) =>
            let ds9 := take 9 ds in
            (Z.of_N (default 0%N (digits_value ds9)) * 10 ^ (9 - Z.of_nat (length ds9)), r)
        end
      else (0, l)
  | [] => (0, l)
  end.

(** [Z07:00], in seconds; nothing may follow. *)
Definition read_zone (l : list ascii) : option Z :=
  match take_byte 90 l with
  | Some r => match r with [] => Some 0 | _ => None end
  | None =>
      match l with
      | sign :: t =>
          '(hr, t) ← ranged 0 24 (two_digits t);
          t ← take_byte 58 t;
          '(mm, t) ← ranged 0 60 (two_digits t);
          match t with
          | [] =>
              let offset := (hr * 60 + mm) * 60 in
              if (byte_of sign =? 43)%N then Some offset
              else if (byte_of sign =? 45)%N then Some (- offset) else None
          | _ => None
          end
      | [] => None
      end
  end.

(** [Parse(RFC3339, s)] *)
Definition parse_rfc3339 (l : list ascii) : option time :=
  '(yh, l) ← two_digits l; '(yl, l) ← two_digits l;
  l ← take_byte 45 l;
  '(month, l) ← ranged 1 12 (two_digits l);
  l ← take_byte 45 l;
  '(day, l) ← two_digits l;
  l ← take_byte 84 l;
  '(hour, l) ← ranged 0 23 (one_or_two_digits l);
  l ← take_byte 58 l;
  '(min, l) ← ranged 0 59 (two_digits l);
  l ← take_byte 58 l;
  '(sec, l) ← ranged 0 59 (two_digits l);
  let '(nsec, l) := read_frac l in
  offset ← read_zone l;
  let year := yh * 100 + yl in
  if (1 <=? day) && (day <=? daysIn month year) then
    Some ((days_of_civil year month day * 86400 + hour * 3600 + min * 60 + sec - offset) * Second + nsec)
  else None.

(** [UnmarshalJSON]: the bytes between the quotes as they are, escapes not undone. *)
Definition into_time (v : json) (cur : time) : option time :=
  match v with JNull => Some cur | JStr _ raw => parse_rfc3339 raw | _ => None end.

Example parse_offset : parse_rfc3339 (to_bytes "2023-11-15T0:13:20,5+02:00") =
  Some (1700000000 * Second + 500000000).
Proof. vm_compute. reflexivity. Qed.
Example parse_day_31 : parse_rfc3339 (to_bytes "2023-11-31T00:13:20Z") = None.
Proof. vm_compute. reflexivity. Qed.
Example format_nano : format_rfc3339_nano (1700000000 * Second + 120000000) = to_bytes "2023-11-14T22:13:20.12Z".
Proof. vm_compute. reflexivity. Qed.

(** ** Reading what is written *)

Lemma byte_of_digit n : 0 ≤ n < 10 →
  is_digit (byte_of (byte_at (48 + Z.to_N n))) = true ∧ digit_at (byte_at (48 + Z.to_N n)) = Some n.
Proof.
  intros Hn. assert (n = 0 ∨ n = 1 ∨ n = 2 ∨ n = 3 ∨ n = 4 ∨ n = 5 ∨ n = 6 ∨ n = 7 ∨ n = 8 ∨ n = 9) as Hc by lia.
  destruct Hc as [->|[->|[->|[->|[->|[->|[->|[->|[->| ->]]]]]]]]]; split; reflexivity.
Qed.

Lemma read_pad2 n rest : two_digits (to_bytes (pad2 n) ++ rest) = Some (n mod 100, rest).
Proof.
  unfold pad2, digit. rewrite to_bytes_app. cbn [to_bytes String.list_ascii_of_string app two_digits].
  pose proof (Z.mod_pos_bound (n / 10) 10 ltac:(lia)) as H1. pose proof (Z.mod_pos_bound n 10 ltac:(lia)) as H2.
  change (Ascii.ascii_of_N (48 + Z.to_N ?x)) with (byte_at (48 + Z.to_N x)).
  rewrite (proj2 (byte_of_digit _ H1)), (proj2 (byte_of_digit _ H2)). cbn [mbind option_bind].
  f_equal. f_equal. Z.div_mod_to_equations. lia.
Qed.
Lemma read_pad2_small n rest : 0 ≤ n < 100 → two_digits (to_bytes (pad2 n) ++ rest) = Some (n, rest).
Proof. intros Hn. by rewrite read_pad2, Z.mod_small. Qed.
Lemma read_ranged lo hi n rest : lo ≤ n ≤ hi → 0 ≤ n < 100 →
  ranged lo hi (two_digits (to_bytes (pad2 n) ++ rest)) = Some (n, rest) ∧
  ranged lo hi (one_or_two_digits (to_bytes (pad2 n) ++ rest)) = Some (n, rest).
Proof.
  intros Hr Hn. unfold one_or_two_digits. rewrite read_pad2_small by done. unfold ranged.
  cbn [mbind option_bind]. by rewrite (proj2 (Z.leb_le _ _)), (proj2 (Z.leb_le _ _)) by lia.
Qed.

Lemma fixed_digits_spec k n : 0 ≤ n →
  length (fixed_digits k n) = k ∧ Forall (λ a, is_digit (byte_of a) = true) (fixed_digits k n) ∧
  digits_value (fixed_digits k n) = Some (Z.to_N (n mod 10 ^ Z.of_nat k)).
Proof.
  revert n. induction k as [|k IH]; intros n Hn; [split_and!; [done|constructor|by rewrite Z.mod_1_r]|].
  cbn [fixed_digits]. destruct (IH (n / 10) (Z.div_pos n 10 Hn ltac:(lia))) as (Hl & Hd & Hv).
  pose proof (Z.mod_pos_bound n 10 ltac:(lia)) as Hb. destruct (byte_of_digit _ Hb) as [H1 H2].
  split_and!.
  - rewrite length_app, Hl. cbn. lia.
  - apply Forall_app. split; [done|by constructor].
  - rewrite digits_value_snoc, Hv. cbn [mbind option_bind]. rewrite H1. f_equal.
    unfold digit_at in H2. rewrite H1 in H2. injection H2 as H2.
    rewrite Nat2Z.inj_succ, Z.pow_succ_r by lia.
    assert (0 < 10 ^ Z.of_nat k) as Hp by (apply Z.pow_pos_nonneg; lia).
    rewrite Z.rem_mul_r by lia. pose proof (Z.mod_pos_bound (n / 10) _ Hp). lia.
Qed.

Lemma digits_value_total ds : Forall (λ a, is_digit (byte_of a) = true) ds → ∃ D, digits_value ds = Some D.
Proof.
  induction ds as [|a ds IH] using rev_ind; intros Hd; [by eexists|].
  apply Forall_app in Hd as [Hd Ha]. apply list.Forall_cons in Ha as [Ha _].
  destruct (IH Hd) as [D HD]. rewrite digits_value_snoc, HD. cbn [mbind option_bind]. rewrite Ha. by eexists.
Qed.
Lemma trim_zeros_spec l : ∃ j, l = trim_zeros l ++ repeat (byte_at 48) j.
Proof.
  induction l as [|a l [j IH]]; [by exists 0%nat|]. cbn [trim_zeros].
  destruct (trim_zeros l) as [|b t] eqn:E; [|exists j; by rewrite IH at 1].
  destruct (N.eqb_spec (byte_of a) 48) as [Ea|].
  - exists (S j). cbn [app repeat]. f_equal; [|done].
    rewrite <- (ascii_N_embedding a). unfold byte_of in Ea. by rewrite Ea.
  - exists j. cbn [app]. f_equal. exact IH.
Qed.

Lemma read_frac_nanos ns : 0 ≤ ns < Second →
  read_frac (frac_nanos ns ++ chars "Z") = (ns, chars "Z").
Proof.
  intros Hns. destruct (fixed_digits_spec 9 ns ltac:(lia)) as (Hl & Hd & Hv).
  rewrite Z.mod_small in Hv by (unfold Second in Hns; change (10 ^ Z.of_nat 9) with 1000000000; lia).
  destruct (trim_zeros_spec (fixed_digits 9 ns)) as [j Hj]. unfold frac_nanos.
  set (ds := trim_zeros _) in *. clearbody ds. rewrite Hj in Hl, Hd, Hv. apply Forall_app in Hd as [Hd _].
  rewrite length_app, repeat_length in Hl.
  destruct (digits_value_total ds Hd) as [D HD].
  assert (ns = Z.of_N D * 10 ^ Z.of_nat j) as E.
  { pose proof (digits_value_app_zeros ds D (Z.of_nat j) ltac:(lia) HD) as Hz. unfold zeros in Hz.
    rewrite Nat2Z.id, Hv in Hz. injection Hz as Hz.
    assert (0 ≤ Z.of_N D * 10 ^ Z.of_nat j) by (apply Z.mul_nonneg_nonneg; [lia|apply Z.pow_nonneg; lia]). lia. }
  destruct ds as [|a t] eqn:Eds.
  - injection HD as <-. by rewrite E.
  - cbn [app read_frac]. change (byte_of (byte_at 46) =? 46)%N with true. cbn [orb].
    change (a :: t ++ chars "Z") with ((a :: t) ++ chars "Z").
    rewrite take_digits_until by done. rewrite take_ge by (rewrite <- Hl; lia). rewrite HD. cbn [default].
    f_equal. rewrite E. f_equal. f_equal. cbn [length] in *. lia.
Qed.

(** An instant is its day, its time of day and its nanoseconds. *)
Lemma instant_parts t :
  let sec := Unix t mod 86400 in
  t = (utc_day_number t * 86400 + sec / 3600 * 3600 + sec / 60 mod 60 * 60 + sec mod 60) * Second + t mod Second ∧
  0 ≤ sec / 3600 ≤ 23 ∧ 0 ≤ sec / 60 mod 60 ≤ 59 ∧ 0 ≤ sec mod 60 ≤ 59.
Proof.
  cbv zeta. assert (utc_day_number t = Unix t / 86400) as ->.
  { unfold utc_day_number, Unix. rewrite Z.div_div by (unfold Second; lia). done. }
  pose proof (Z.div_mod t Second ltac:(unfold Second; lia)) as Ht. fold (Unix t) in Ht.
  set (u := Unix t) in *. clearbody u. pose proof (Z.mod_pos_bound u 86400 ltac:(lia)).
  pose proof (Z.div_mod u 86400 ltac:(lia)). set (s := u mod 86400) in *. clearbody s.
  split; [|Z.div_mod_to_equations; lia].
  assert (s / 3600 * 3600 + s / 60 mod 60 * 60 + s mod 60 = s) by (Z.div_mod_to_equations; lia). lia.
Qed.

Lemma time_reads t : 0 ≤ year_of t ≤ 9999 → parse_rfc3339 (format_rfc3339_nano t) = Some t.
Proof.
  intros Hy. unfold year_of in Hy. destruct (instant_parts t) as (Ht & Hh & Hm & Hs).
  pose proof (civil_roundtrip (utc_day_number t)) as Hc.
  unfold format_rfc3339_nano, format_date, parse_rfc3339. cbv zeta.
  set (h := Unix t mod 86400 / 3600) in *.
  set (mi := Unix t mod 86400 / 60 mod 60) in *. set (se := (Unix t mod 86400) mod 60) in *.
  destruct (civil_of_days (utc_day_number t)) as [[y m] d]. cbn [fst] in Hy. destruct Hc as (Hm12 & Hd & Hdays).
  assert (daysIn m y ≤ 31) as H31 by (unfold daysIn; repeat case_match; lia).
  unfold pad4. rewrite !to_bytes_app, <- !app_assoc.
  rewrite read_pad2. cbn [mbind option_bind]. rewrite read_pad2. cbn [mbind option_bind].
  change (take_byte 45 (to_bytes "-" ++ ?x)) with (Some x). cbn [mbind option_bind].
  rewrite (proj1 (read_ranged 1 12 m _ ltac:(lia) ltac:(lia))). cbn [mbind option_bind].
  change (take_byte 45 (to_bytes "-" ++ ?x)) with (Some x). cbn [mbind option_bind].
  rewrite read_pad2_small by lia. cbn [mbind option_bind].
  change (take_byte 84 (chars "T" ++ ?x)) with (Some x). cbn [mbind option_bind].
  rewrite (proj2 (read_ranged 0 23 h _ ltac:(lia) ltac:(lia))). cbn [mbind option_bind].
  change (take_byte 58 (chars ":" ++ ?x)) with (Some x). cbn [mbind option_bind].
  rewrite (proj1 (read_ranged 0 59 mi _ ltac:(lia) ltac:(lia))). cbn [mbind option_bind].
  change (take_byte 58 (chars ":" ++ ?x)) with (Some x). cbn [mbind option_bind].
  rewrite (proj1 (read_ranged 0 59 se _ ltac:(lia) ltac:(lia))). cbn [mbind option_bind].
  rewrite read_frac_nanos by (apply Z.mod_pos_bound; unfold Second; lia).
  change (read_zone (chars "Z")) with (Some 0). cbn [mbind option_bind].
  assert (y / 100 mod 100 * 100 + y mod 100 = y) as -> by (Z.div_mod_to_equations; lia).
  rewrite Hdays, (proj2 (Z.leb_le 1 d)), (proj2 (Z.leb_le d (daysIn m y))) by lia. cbn [andb]. f_equal. unfold time in *. lia.
Qed.

(** The encoder escapes nothing of a time. *)
Definition plain (a : ascii) : Prop := html_safe (byte_of a) = true.
Lemma escape_plain l : Forall plain l → escape_from 0 l = l.
Proof.
  induction 1 as [|a l Ha Hl IH]; [done|]. cbn [escape_from]. unfold plain in Ha.
  assert ((byte_of a <? 128)%N = true) as ->.
  { unfold html_safe in Ha. by repeat (apply andb_true_iff in Ha as [Ha ?]). }
  unfold escape_byte. rewrite Ha. cbn [app]. f_equal; [|exact IH]. apply ascii_N_embedding.
Qed.
Lemma digit_plain a : is_digit (byte_of a) = true → plain a.
Proof.
  unfold is_digit, in_range, plain, html_safe. intros [H1%N.leb_le H2%N.leb_le]%andb_true_iff.
  rewrite !(proj2 (N.eqb_neq _ _)) by lia.
  by rewrite (proj2 (N.leb_le _ _)), (proj2 (N.ltb_lt _ _)) by lia.
Qed.
Lemma pad2_plain n : Forall plain (to_bytes (pad2 n)).
Proof.
  unfold pad2, digit. rewrite to_bytes_app. cbn [to_bytes String.list_ascii_of_string app].
  change (Ascii.ascii_of_N (48 + Z.to_N ?x)) with (byte_at (48 + Z.to_N x)).
  repeat constructor; apply digit_plain, byte_of_digit, Z.mod_pos_bound; lia.
Qed.
Lemma frac_nanos_plain ns : 0 ≤ ns → Forall plain (frac_nanos ns).
Proof.
  intros Hns. unfold frac_nanos. destruct (fixed_digits_spec 9 ns Hns) as (_ & Hd & _).
  destruct (trim_zeros_spec (fixed_digits 9 ns)) as [j Hj]. rewrite Hj in Hd. apply Forall_app in Hd as [Hd _].
  destruct (trim_zeros _) as [|a l]; [constructor|]. constructor; [done|].
  eapply Forall_impl; [|exact Hd]. intros b. apply digit_plain.
Qed.
Lemma format_plain t : Forall plain (format_rfc3339_nano t).
Proof.
  unfold format_rfc3339_nano, format_date. destruct (civil_of_days _) as [[y m] d].
  unfold pad4. rewrite !to_bytes_app. repeat (apply Forall_app; split);
    try apply pad2_plain; try (repeat constructor; done). apply frac_nanos_plain, Z.mod_pos_bound. done.
Qed.

Lemma time_into t cur : 0 ≤ year_of t ≤ 9999 →
  into_time (jstr (of_bytes (format_rfc3339_nano t))) cur = Some t.
Proof.
  intros Hy. unfold jstr, into_time. rewrite to_of_bytes, escape_plain by apply format_plain. by apply time_reads.
Qed.
Lemma marshal_time_some t l : marshal_time t = Some l →
  0 ≤ year_of t ≤ 9999 ∧ l = quote (of_bytes (format_rfc3339_nano t)).
Proof.
  unfold marshal_time. destruct (Z.leb_spec 0 (year_of t)), (Z.leb_spec (year_of t) 9999); try done.
  by intros [= <-].
Qed.
