(* ===== verification/Model.v ===== *)
(** * Data model

    The records of [internal/model/model.go] and the wire types of
    [internal/room/hub.go].  The Go enumerations are defined string types whose
    values come from JSON and the database, so any string can occur: they are
    strings here, with the named constants. *)

From S2P Require Import Prelude GoNum.

Definition UserRole : Type := string.
Definition UserRoleAdmin : UserRole := "admin".
Definition UserRoleUser : UserRole := "user".

Module User.
(** [model.User]: the stored account. *)
Record t := mk {
  ID : string; Email : string; Username : string; PasswordHash : string;
  Nickname : string; AvatarURL : string; Role : UserRole;
  CreatedAt : time; UpdatedAt : time;
}.
#[global] Instance eq_dec : EqDecision t.
Proof. solve_decision. Defined.

Definition set_PasswordHash (h : string) (u : t) : t :=
  mk (ID u) (Email u) (Username u) h (Nickname u) (AvatarURL u) (Role u)
     (CreatedAt u) (UpdatedAt u).
End User.

Definition RoomVisibility : Type := string.
Definition RoomVisibilityPublic : RoomVisibility := "public".
Definition RoomVisibilityPrivate : RoomVisibility := "private".

Module Room.
(** [model.Room]: the stored room. *)
Record t := mk {
  ID : string; Name : string; OwnerID : string; Visibility : RoomVisibility;
  PasswordHash : string; CurrentVideo : string;
  CreatedAt : time; UpdatedAt : time;
}.
#[global] Instance eq_dec : EqDecision t.
Proof. solve_decision. Defined.

Definition set_CurrentVideo (v : string) (r : t) : t :=
  mk (ID r) (Name r) (OwnerID r) (Visibility r) (PasswordHash r) v
     (CreatedAt r) (UpdatedAt r).
End Room.

Definition PlaybackAction : Type := string.
Definition PlaybackActionPlay : PlaybackAction := "play".
Definition PlaybackActionPause : PlaybackAction := "pause".
Definition PlaybackActionSeek : PlaybackAction := "seek".
Definition PlaybackActionNext : PlaybackAction := "next".
Definition PlaybackActionSwitch : PlaybackAction := "switch".

Definition PlaybackMode : Type := string.
Definition PlaybackModeSequential : PlaybackMode := "sequential".
Definition PlaybackModeLoop : PlaybackMode := "loop".

Module QueueItemRef.
Record t := mk { ID : string; VideoID : string; Position : Z }.
#[global] Instance eq_dec : EqDecision t.
Proof. solve_decision. Defined.
End QueueItemRef.

Module RoomState.
(** [model.RoomState]: the playback state kept in the cache. *)
Record t := mk {
  RoomID : string; VideoID : string; Queue : list string;
  QueueMeta : list QueueItemRef.t; Action : PlaybackAction; Position : float64;
  PlaybackMode : PlaybackMode; VideoDuration : float64; ControlVersion : Z;
  UpdatedBy : string; UpdatedAt : time; BaseUpdatedAt : time;
}.
#[global] Instance eq_dec : EqDecision t.
Proof. solve_decision. Defined.

Definition set_RoomID (x : string) (s : t) : t :=
  mk x (VideoID s) (Queue s) (QueueMeta s) (Action s) (Position s)
     (PlaybackMode s) (VideoDuration s) (ControlVersion s) (UpdatedBy s)
     (UpdatedAt s) (BaseUpdatedAt s).
Definition set_VideoID (x : string) (s : t) : t :=
  mk (RoomID s) x (Queue s) (QueueMeta s) (Action s) (Position s)
     (PlaybackMode s) (VideoDuration s) (ControlVersion s) (UpdatedBy s)
     (UpdatedAt s) (BaseUpdatedAt s).
Definition set_Action (x : string) (s : t) : t :=
  mk (RoomID s) (VideoID s) (Queue s) (QueueMeta s) x (Position s)
     (PlaybackMode s) (VideoDuration s) (ControlVersion s) (UpdatedBy s)
     (UpdatedAt s) (BaseUpdatedAt s).
Definition set_Position (x : float64) (s : t) : t :=
  mk (RoomID s) (VideoID s) (Queue s) (QueueMeta s) (Action s) x
     (PlaybackMode s) (VideoDuration s) (ControlVersion s) (UpdatedBy s)
     (UpdatedAt s) (BaseUpdatedAt s).
Definition set_VideoDuration (x : float64) (s : t) : t :=
  mk (RoomID s) (VideoID s) (Queue s) (QueueMeta s) (Action s) (Position s)
     (PlaybackMode s) x (ControlVersion s) (UpdatedBy s)
     (UpdatedAt s) (BaseUpdatedAt s).
Definition set_UpdatedAt (x : time) (s : t) : t :=
  mk (RoomID s) (VideoID s) (Queue s) (QueueMeta s) (Action s) (Position s)
     (PlaybackMode s) (VideoDuration s) (ControlVersion s) (UpdatedBy s)
     x (BaseUpdatedAt s).
Definition set_BaseUpdatedAt (x : time) (s : t) : t :=
  mk (RoomID s) (VideoID s) (Queue s) (QueueMeta s) (Action s) (Position s)
     (PlaybackMode s) (VideoDuration s) (ControlVersion s) (UpdatedBy s)
     (UpdatedAt s) x.
End RoomState.

Module HubUser.
(** [room.User]: the sender carried by realtime messages. *)
Record t := mk {
  ID : string; Username : string; Nickname : string; Role : UserRole; IsOwner : bool;
}.
#[global] Instance eq_dec : EqDecision t.
Proof. solve_decision. Defined.
Definition zero : t := mk "" "" "" "" false.
Definition set_Nickname (n : string) (u : t) : t :=
  mk (ID u) (Username u) n (Role u) (IsOwner u).
End HubUser.

Module Message.
(** [room.Message]; its [Payload] field is never set by the code under src/. *)
Record t := mk {
  Type_ : string; Action : PlaybackAction; Event : string; Position : float64;
  VideoID : string; Queue : list string; Timestamp : Z; ControlVersion : Z;
  PlaybackMode : PlaybackMode; UpdatedAt : Z; User : option HubUser.t;
}.
#[global] Instance eq_dec : EqDecision t.
Proof. solve_decision. Defined.
End Message.

(** What is handed to [Publisher.PublishRoomMessage] as [data any]: a room
    message, or the JSON text of a chat message. *)
Inductive PubData : Type :=
  | PubMessage (m : Message.t)
  | PubRaw (json : string).
#[export] Instance PubData_eq_dec : EqDecision PubData.
Proof. solve_decision. Defined.

Module Snapshot.
(** [room.Snapshot] *)
Record t := mk {
  RoomID : string; State : option RoomState.t; Queue : list string; ViewerCount : Z;
}.
End Snapshot.

Module ControlInput.
(** [room.ControlInput] *)
Record t := mk {
  Action : PlaybackAction; Position : float64; VideoID : string; Queue : list string;
  PlaybackMode : PlaybackMode; ClientVersion : Z; VideoDuration : float64;
}.
#[global] Instance eq_dec : EqDecision t.
Proof. solve_decision. Defined.
End ControlInput.

Module RoomMember.
(** [cache.RoomMember] *)
Record t := mk { UserID : string; Username : string }.
#[global] Instance eq_dec : EqDecision t.
Proof. solve_decision. Defined.
End RoomMember.

Module ListRoomsOpts.
(** [store.ListRoomsOpts] *)
Record t := mk { Limit : Z; Offset : Z; Query : string; OwnerID : string }.
End ListRoomsOpts.
