(* ===== verification/StateWire.v ===== *)
(** * The wire format of room states

    [json.Marshal] and [json.Unmarshal] of [model.RoomState]
    ([internal/model/model.go]), as the Redis cache of room states uses them.
    Encoding fails on a position or duration that is not finite and on a year
    outside 0..9999; every other state reads back as itself. *)

From S2P Require Import Prelude GoStrings GoNum GoJson JsonFacts GoFloat GoTime Model.
From Stdlib Require Import SpecFloat.

(** ** Encoding *)

Section marshal.
#[local] Abbreviation text := (list Ascii.ascii).
(** An [omitempty] slice is left out when its length is 0, a number when it is 0
    (a float also when it is -0). *)
Definition omit_slice (name : string) (es : list text) : list text :=
  match es with [] => [] | _ => [member_str name (brackets es)] end.
Definition omit_int (name : string) (z : Z) : list text :=
  if z =? 0 then [] else [member_str name (dec_Z z)].
Definition is_zero_float (x : float64) : bool := match x with S754_zero _ => true | _ => false end.
Definition omit_float (name : string) (x : float64) : option (list text) :=
  if is_zero_float x then Some [] else l ← json_float x; Some [member_str name l].

Definition marshal_item (q : QueueItemRef.t) : text :=
  braces ([member_str "id" (quote (QueueItemRef.ID q))] ++
          omitempty "video_id" (QueueItemRef.VideoID q) ++
          [member_str "position" (dec_Z (QueueItemRef.Position q))]).

(** A [time.Time] is never empty: [base_updated_at] is always written. *)
Definition marshal_state (s : RoomState.t) : option string :=
  position ← json_float (RoomState.Position s);
  duration ← omit_float "video_duration" (RoomState.VideoDuration s);
  updated ← marshal_time (RoomState.UpdatedAt s);
  base ← marshal_time (RoomState.BaseUpdatedAt s);
  Some (of_bytes (braces (
    [member_str "room_id" (quote (RoomState.RoomID s))] ++
    omitempty "video_id" (RoomState.VideoID s) ++
    omit_slice "queue" (quote <$> RoomState.Queue s) ++
    omit_slice "queue_meta" (marshal_item <$> RoomState.QueueMeta s) ++
    [member_str "action" (quote (RoomState.Action s)); member_str "position" position] ++
    omitempty "playback_mode" (RoomState.PlaybackMode s) ++
    duration ++
    omit_int "control_version" (RoomState.ControlVersion s) ++
    omitempty "updated_by" (RoomState.UpdatedBy s) ++
    [member_str "updated_at" updated; member_str "base_updated_at" base]))).
End marshal.

(** ** Decoding *)

(** A slice that is being filled: its elements, and the array behind it, whose
    elements a second member of the same name finds again. *)
Module Slice.
Record t (A : Type) := mk { elems : list A; backing : list A }.
Arguments mk {A} _ _.
Arguments elems {A} _.
Arguments backing {A} _.
Definition empty {A} : t A := mk [] [].
End Slice.

(** [i] elements are read; the next goes into what the array holds there, or into
    a zero value. *)
Fixpoint into_elements {A} (into : json → A → option A) (zero : A) (vs : list json) (back : list A)
    : option (list A) :=
  match vs with
  | [] => Some []
  | v :: vs =>
      x ← into v (default zero (head back));
      xs ← into_elements into zero vs (tail back);
      Some (x :: xs)
  end.
(** null makes the slice nil, an empty array a fresh slice. *)
Definition into_slice {A} (into : json → A → option A) (zero : A) (v : json) (cur : Slice.t A)
    : option (Slice.t A) :=
  match v with
  | JNull => Some Slice.empty
  | JArr [] => Some Slice.empty
  | JArr vs =>
      xs ← into_elements into zero vs (Slice.backing cur);
      Some (Slice.mk xs (xs ++ drop (length xs) (Slice.backing cur)))
  | _ => None
  end.

Definition zero_item : QueueItemRef.t := QueueItemRef.mk "" "" 0.
Definition item_fields : list string := ["id"; "video_id"; "position"].
Definition item_member (kv : string * json) (q : QueueItemRef.t) : option QueueItemRef.t :=
  let '(key, v) := kv in
  match field_of item_fields key with
  | Some f =>
      if bool_decide (f = "id") then
        x ← into_string v (QueueItemRef.ID q);
        Some (QueueItemRef.mk x (QueueItemRef.VideoID q) (QueueItemRef.Position q))
      else if bool_decide (f = "video_id") then
        x ← into_string v (QueueItemRef.VideoID q);
        Some (QueueItemRef.mk (QueueItemRef.ID q) x (QueueItemRef.Position q))
      else
        x ← into_int64 v (QueueItemRef.Position q);
        Some (QueueItemRef.mk (QueueItemRef.ID q) (QueueItemRef.VideoID q) x)
  | None => Some q
  end.
Definition into_item (v : json) (q : QueueItemRef.t) : option QueueItemRef.t :=
  match v with
  | JNull => Some q
  | JObj ms => fold_members item_member ms q
  | _ => None
  end.

(** The state being filled, its two slices with their arrays. *)
Module Filling.
Record t := mk {
  RoomID : string; VideoID : string; Queue : Slice.t string; QueueMeta : Slice.t QueueItemRef.t;
  Action : string; Position : float64; PlaybackMode : string; VideoDuration : float64;
  ControlVersion : Z; UpdatedBy : string; UpdatedAt : time; BaseUpdatedAt : time;
}.
Definition zero : t :=
  mk "" "" Slice.empty Slice.empty "" f_zero "" f_zero 0 "" zero_time zero_time.
Definition done (x : t) : RoomState.t :=
  RoomState.mk (RoomID x) (VideoID x) (Slice.elems (Queue x)) (Slice.elems (QueueMeta x)) (Action x)
    (Position x) (PlaybackMode x) (VideoDuration x) (ControlVersion x) (UpdatedBy x) (UpdatedAt x)
    (BaseUpdatedAt x).
End Filling.

Definition state_fields : list string :=
  ["room_id"; "video_id"; "queue"; "queue_meta"; "action"; "position"; "playback_mode";
   "video_duration"; "control_version"; "updated_by"; "updated_at"; "base_updated_at"].
Definition state_member (kv : string * json) (x : Filling.t) : option Filling.t :=
  let '(key, v) := kv in
  let '(Filling.mk rid vid q qm act pos mode dur ver by_ upd base) := x in
  match field_of state_fields key with
  | Some f =>
      if bool_decide (f = "room_id") then
        y ← into_string v rid; Some (Filling.mk y vid q qm act pos mode dur ver by_ upd base)
      else if bool_decide (f = "video_id") then
        y ← into_string v vid; Some (Filling.mk rid y q qm act pos mode dur ver by_ upd base)
      else if bool_decide (f = "queue") then
        y ← into_slice into_string "" v q; Some (Filling.mk rid vid y qm act pos mode dur ver by_ upd base)
      else if bool_decide (f = "queue_meta") then
        y ← into_slice into_item zero_item v qm; Some (Filling.mk rid vid q y act pos mode dur ver by_ upd base)
      else if bool_decide (f = "action") then
        y ← into_string v act; Some (Filling.mk rid vid q qm y pos mode dur ver by_ upd base)
      else if bool_decide (f = "position") then
        y ← into_float64 v pos; Some (Filling.mk rid vid q qm act y mode dur ver by_ upd base)
      else if bool_decide (f = "playback_mode") then
        y ← into_string v mode; Some (Filling.mk rid vid q qm act pos y dur ver by_ upd base)
      else if bool_decide (f = "video_duration") then
        y ← into_float64 v dur; Some (Filling.mk rid vid q qm act pos mode y ver by_ upd base)
      else if bool_decide (f = "control_version") then
        y ← into_int64 v ver; Some (Filling.mk rid vid q qm act pos mode dur y by_ upd base)
      else if bool_decide (f = "updated_by") then
        y ← into_string v by_; Some (Filling.mk rid vid q qm act pos mode dur ver y upd base)
      else if bool_decide (f = "updated_at") then
        y ← into_time v upd; Some (Filling.mk rid vid q qm act pos mode dur ver by_ y base)
      else
        y ← into_time v base; Some (Filling.mk rid vid q qm act pos mode dur ver by_ upd y)
  | None => Some x
  end.

(** Into a zero [RoomState]; [None] is an error. *)
Definition unmarshal_state (payload : string) : option RoomState.t :=
  match parse payload with
  | Some JNull => Some (Filling.done Filling.zero)
  | Some (JObj ms) => Filling.done <$> fold_members state_member ms Filling.zero
  | _ => None
  end.

(** ** Reading back *)

Definition item_rendering (q : QueueItemRef.t) : list rendering :=
  [str_member "id" (QueueItemRef.ID q)] ++ opt_member "video_id" (QueueItemRef.VideoID q) ++
  [int_member "position" (QueueItemRef.Position q)].
Definition slice_member (name : string) (es : list (json * list Ascii.ascii)) : list rendering :=
  match es with [] => [] | _ => [(name, JArr es.*1, brackets es.*2)] end.
Definition lit_member (name : string) (lit : list Ascii.ascii) : rendering := (name, JNum lit, lit).
Definition string_element (s : string) : json * list Ascii.ascii := (jstr s, quote s).
Definition item_element (q : QueueItemRef.t) : json * list Ascii.ascii :=
  (JObj (member_of <$> item_rendering q), marshal_item q).
Definition omit_member (name : string) (lit : option (list Ascii.ascii)) : list rendering :=
  match lit with Some l => [lit_member name l] | None => [] end.
Definition time_member (name : string) (t : time) : rendering :=
  str_member name (of_bytes (format_rfc3339_nano t)).

Definition state_rendering (s : RoomState.t) (position : list Ascii.ascii)
    (duration : option (list Ascii.ascii)) : list rendering :=
  [str_member "room_id" (RoomState.RoomID s)] ++
  opt_member "video_id" (RoomState.VideoID s) ++
  slice_member "queue" (string_element <$> RoomState.Queue s) ++
  slice_member "queue_meta" (item_element <$> RoomState.QueueMeta s) ++
  [str_member "action" (RoomState.Action s)] ++ [lit_member "position" position] ++
  opt_member "playback_mode" (RoomState.PlaybackMode s) ++
  omit_member "video_duration" duration ++
  omit_member "control_version" (if RoomState.ControlVersion s =? 0 then None
                                 else Some (dec_Z (RoomState.ControlVersion s))) ++
  opt_member "updated_by" (RoomState.UpdatedBy s) ++
  [time_member "updated_at" (RoomState.UpdatedAt s)] ++
  [time_member "base_updated_at" (RoomState.BaseUpdatedAt s)].

Lemma marshal_item_text q : marshal_item q = braces (text_of <$> item_rendering q).
Proof. unfold marshal_item, item_rendering. by rewrite !fmap_app, omitempty_text. Qed.
Lemma omit_slice_text {A} name (el : A → json * list Ascii.ascii) (f : A → list Ascii.ascii) l :
  (∀ a, (el a).2 = f a) →
  omit_slice name (f <$> l) = text_of <$> slice_member name (el <$> l).
Proof.
  intros Hf. destruct l as [|a l]; [done|]. cbn [fmap list_fmap omit_slice slice_member].
  unfold text_of, member_str. cbn [fst snd]. repeat f_equal; [by rewrite Hf|].
  rewrite <- list_fmap_compose. apply list_fmap_ext. intros i b _. by rewrite <- Hf.
Qed.

Lemma marshal_state_text s p : marshal_state s = Some p →
  ∃ position duration,
    json_float (RoomState.Position s) = Some position ∧
    (if is_zero_float (RoomState.VideoDuration s) then duration = None
     else ∃ l, duration = Some l ∧ json_float (RoomState.VideoDuration s) = Some l) ∧
    (0 ≤ year_of (RoomState.UpdatedAt s) ≤ 9999 ∧ 0 ≤ year_of (RoomState.BaseUpdatedAt s) ≤ 9999) ∧
    to_bytes p = braces (text_of <$> state_rendering s position duration).
Proof.
  unfold marshal_state. destruct (json_float (RoomState.Position s)) as [pos|]; [|done].
  destruct (omit_float _ _) as [dur|] eqn:Hd; [|done].
  destruct (marshal_time (RoomState.UpdatedAt s)) as [upd|] eqn:Hu; [|done].
  destruct (marshal_time (RoomState.BaseUpdatedAt s)) as [base|] eqn:Hb; [|done].
  cbn [mbind option_bind]. intros Hp%Some_inj. apply marshal_time_some in Hu as [Hu ->], Hb as [Hb ->].
  assert (∃ duration, dur = text_of <$> omit_member "video_duration" duration ∧
    if is_zero_float (RoomState.VideoDuration s) then duration = None
    else ∃ l, duration = Some l ∧ json_float (RoomState.VideoDuration s) = Some l) as (duration & -> & Hd').
  { unfold omit_float in Hd. destruct (is_zero_float _); [injection Hd as <-; by exists None|].
    destruct (json_float _) as [l|]; [|done]. injection Hd as <-. exists (Some l). split; [done|by exists l]. }
  exists pos, duration. split_and!; try done; try lia. rewrite <- Hp, to_of_bytes. f_equal. unfold state_rendering.
  rewrite !fmap_app, <- !omitempty_text.
  rewrite <- (omit_slice_text "queue" string_element quote) by done.
  rewrite <- (omit_slice_text "queue_meta" item_element marshal_item) by done.
  unfold omit_int. by destruct (_ =? 0).
Qed.

(** What is left of a state whose strings are not all valid UTF-8; a duration of
    -0 is not written. *)
Definition clean_item (q : QueueItemRef.t) : QueueItemRef.t :=
  QueueItemRef.mk (clean (QueueItemRef.ID q)) (clean (QueueItemRef.VideoID q)) (QueueItemRef.Position q).
Definition clean_state (s : RoomState.t) : RoomState.t :=
  RoomState.mk (clean (RoomState.RoomID s)) (clean (RoomState.VideoID s)) (clean <$> RoomState.Queue s)
    (clean_item <$> RoomState.QueueMeta s) (clean (RoomState.Action s)) (RoomState.Position s)
    (clean (RoomState.PlaybackMode s))
    (if is_zero_float (RoomState.VideoDuration s) then f_zero else RoomState.VideoDuration s)
    (RoomState.ControlVersion s) (clean (RoomState.UpdatedBy s)) (RoomState.UpdatedAt s)
    (RoomState.BaseUpdatedAt s).

Lemma fold_one {A} (f : string * json → A → option A) r x y :
  f (member_of r) x = Some y → fold_members f (member_of <$> [r]) x = Some y.
Proof. intros Hf. cbn [fmap list_fmap fold_members]. by rewrite Hf. Qed.

Lemma into_item_item q : in_int64 (QueueItemRef.Position q) →
  into_item (item_element q).1 zero_item = Some (clean_item q).
Proof.
  intros Hp. destruct q as [id vid pos]. cbn [QueueItemRef.Position] in Hp.
  unfold item_element, item_rendering, clean_item. cbn [fst QueueItemRef.ID QueueItemRef.VideoID QueueItemRef.Position into_item].
  rewrite !fmap_app, fold_members_app.
  change (fold_members item_member (member_of <$> [str_member "id" id]) zero_item)
    with (Some (QueueItemRef.mk (clean id) "" 0)). cbn [mbind option_bind]. rewrite fold_members_app.
  assert (fold_members item_member (member_of <$> opt_member "video_id" vid) (QueueItemRef.mk (clean id) "" 0) =
    Some (QueueItemRef.mk (clean id) (clean vid) 0)) as ->.
  { unfold opt_member. case_bool_decide; [by subst vid|done]. }
  cbn [mbind option_bind]. apply fold_one.
  transitivity (x ← parse_int64 (dec_Z pos); Some (QueueItemRef.mk (clean id) (clean vid) x)); [reflexivity|].
  by rewrite parse_dec_Z.
Qed.

Lemma fold_step {A} (f : string * json → A → option A) l1 l2 x y :
  fold_members f (member_of <$> l1) x = Some y →
  fold_members f (member_of <$> l1 ++ l2) x = fold_members f (member_of <$> l2) y.
Proof. intros Hf. by rewrite fmap_app, fold_members_app, Hf. Qed.

(** A slice filled for the first time. *)
Lemma into_elements_fresh {A B} (into : json → A → option A) zero (el : B → json) (res : B → A) (l : list B) :
  Forall (λ b, into (el b) zero = Some (res b)) l →
  into_elements into zero (el <$> l) [] = Some (res <$> l).
Proof.
  induction 1 as [|b l Hb Hl IH]; [done|]. cbn [fmap list_fmap into_elements head tail].
  change (default zero None) with zero. rewrite Hb. cbn [mbind option_bind].
  change (list_fmap B json el l) with (el <$> l). by rewrite IH.
Qed.
Lemma into_slice_fresh {A B} (into : json → A → option A) zero (el : B → json) (res : B → A) (l : list B) :
  Forall (λ b, into (el b) zero = Some (res b)) l → l ≠ [] →
  ∃ back, into_slice into zero (JArr (el <$> l)) Slice.empty = Some (Slice.mk (res <$> l) back).
Proof.
  intros Hl%into_elements_fresh Hne. unfold into_slice. destruct l as [|b l]; [done|].
  change (Slice.backing Slice.empty) with (@nil A). rewrite fmap_cons in *. rewrite Hl. by eexists.
Qed.

(** A member that is left out when its value is what the field holds already. *)
Lemma fold_opt_member {A} (f : string * json → A → option A) name s (g : string → A) :
  (∀ s, f (member_of (str_member name s)) (g "") = Some (g (clean s))) →
  fold_members f (member_of <$> opt_member name s) (g "") = Some (g (clean s)).
Proof.
  intros Hf. unfold opt_member. case_bool_decide as E; [by subst s|].
  cbn [fmap list_fmap fold_members]. by rewrite Hf.
Qed.

Section fields.
Variables (rid vid act mode by_ : string) (q : Slice.t string) (qm : Slice.t QueueItemRef.t)
  (pos dur : float64) (ver : Z) (upd base : time).
#[local] Abbreviation fill := Filling.mk.
#[local] Abbreviation fold := (fold_members state_member).

Lemma state_queue l : ∃ q',
  fold (member_of <$> slice_member "queue" (string_element <$> l))
    (fill rid vid Slice.empty qm act pos mode dur ver by_ upd base) =
    Some (fill rid vid q' qm act pos mode dur ver by_ upd base) ∧
  Slice.elems q' = clean <$> l.
Proof.
  destruct (decide (l = [])) as [->|Hl]; [by exists Slice.empty|].
  destruct (into_slice_fresh into_string "" jstr clean l) as [back Hb]; [by apply Forall_forall|done|].
  exists (Slice.mk (clean <$> l) back). split; [|done]. destruct l as [|s l]; [done|].
  apply fold_one. transitivity (y ← into_slice into_string "" (JArr (string_element <$> s :: l).*1) Slice.empty;
    Some (fill rid vid y qm act pos mode dur ver by_ upd base)); [reflexivity|].
  rewrite <- list_fmap_compose. change (fst ∘ string_element) with jstr. by rewrite Hb.
Qed.
Lemma state_meta l : Forall (λ x, in_int64 (QueueItemRef.Position x)) l → ∃ qm',
  fold (member_of <$> slice_member "queue_meta" (item_element <$> l))
    (fill rid vid q Slice.empty act pos mode dur ver by_ upd base) =
    Some (fill rid vid q qm' act pos mode dur ver by_ upd base) ∧
  Slice.elems qm' = clean_item <$> l.
Proof.
  intros Hp. destruct (decide (l = [])) as [->|Hl]; [by exists Slice.empty|].
  destruct (into_slice_fresh into_item zero_item (λ x, (item_element x).1) clean_item l) as [back Hb]; [|done|].
  { eapply Forall_impl; [|exact Hp]. intros x. apply into_item_item. }
  exists (Slice.mk (clean_item <$> l) back). split; [|done]. destruct l as [|s l]; [done|].
  apply fold_one. transitivity (y ← into_slice into_item zero_item (JArr (item_element <$> s :: l).*1) Slice.empty;
    Some (fill rid vid q y act pos mode dur ver by_ upd base)); [reflexivity|].
  rewrite <- list_fmap_compose. by setoid_rewrite Hb.
Qed.

Lemma state_position lit x : parse_float lit = Some x →
  fold (member_of <$> [lit_member "position" lit]) (fill rid vid q qm act pos mode dur ver by_ upd base) =
    Some (fill rid vid q qm act x mode dur ver by_ upd base).
Proof.
  intros Hx. apply fold_one. transitivity (y ← parse_float lit;
    Some (fill rid vid q qm act y mode dur ver by_ upd base)); [reflexivity|]. by rewrite Hx.
Qed.
Lemma state_duration lit x :
  match lit with Some l => parse_float l = Some x | None => x = dur end →
  fold (member_of <$> omit_member "video_duration" lit) (fill rid vid q qm act pos mode dur ver by_ upd base) =
    Some (fill rid vid q qm act pos mode x ver by_ upd base).
Proof.
  destruct lit as [l|]; [|by intros ->]. intros Hx. apply fold_one. transitivity (y ← parse_float l;
    Some (fill rid vid q qm act pos mode y ver by_ upd base)); [reflexivity|]. by rewrite Hx.
Qed.
Lemma state_version z : in_int64 z →
  fold (member_of <$> omit_member "control_version" (if z =? 0 then None else Some (dec_Z z)))
    (fill rid vid q qm act pos mode dur 0 by_ upd base) =
    Some (fill rid vid q qm act pos mode dur z by_ upd base).
Proof.
  intros Hz. destruct (Z.eqb_spec z 0) as [->|]; [done|]. apply fold_one.
  transitivity (y ← parse_int64 (dec_Z z);
    Some (fill rid vid q qm act pos mode dur y by_ upd base)); [reflexivity|]. by rewrite parse_dec_Z.
Qed.
Lemma state_updated t : 0 ≤ year_of t ≤ 9999 →
  fold (member_of <$> [time_member "updated_at" t]) (fill rid vid q qm act pos mode dur ver by_ upd base) =
    Some (fill rid vid q qm act pos mode dur ver by_ t base).
Proof.
  intros Ht. apply fold_one. transitivity (y ← into_time (jstr (of_bytes (format_rfc3339_nano t))) upd;
    Some (fill rid vid q qm act pos mode dur ver by_ y base)); [reflexivity|]. by rewrite time_into.
Qed.
Lemma state_base t : 0 ≤ year_of t ≤ 9999 →
  fold (member_of <$> [time_member "base_updated_at" t]) (fill rid vid q qm act pos mode dur ver by_ upd base) =
    Some (fill rid vid q qm act pos mode dur ver by_ upd t).
Proof.
  intros Ht. apply fold_one. transitivity (y ← into_time (jstr (of_bytes (format_rfc3339_nano t))) base;
    Some (fill rid vid q qm act pos mode dur ver by_ upd y)); [reflexivity|]. by rewrite time_into.
Qed.
End fields.

(** What the fields of a Go state satisfy by their types. *)
Definition state_typed (s : RoomState.t) : Prop :=
  f_ok (RoomState.Position s) = true ∧ f_ok (RoomState.VideoDuration s) = true ∧
  in_int64 (RoomState.ControlVersion s) ∧
  Forall (λ q, in_int64 (QueueItemRef.Position q)) (RoomState.QueueMeta s).

Lemma item_renders d q : renders (d + 1) (item_element q).1 (item_element q).2.
Proof.
  cbn [fst snd item_element]. rewrite marshal_item_text. apply renders_object; [done|].
  unfold item_rendering. render_members.
Qed.
Lemma slice_renders d name es : Forall (λ e, renders d e.1 e.2) es →
  Forall (λ m : rendering, renders (d + 1) m.1.2 m.2) (slice_member name es).
Proof.
  intros Hes. destruct es as [|e es]; constructor; [|constructor]. by apply renders_array.
Qed.
Lemma lit_renders d name lit : literal lit → Forall (λ m : rendering, renders d m.1.2 m.2) [lit_member name lit].
Proof. intros Hl. constructor; [by apply renders_literal|constructor]. Qed.
Lemma state_renders s position duration :
  literal position → match duration with Some l => literal l | None => True end →
  renders 3 (JObj (member_of <$> state_rendering s position duration))
    (braces (text_of <$> state_rendering s position duration)).
Proof.
  intros Hp Hd. apply (renders_object 2); [done|]. unfold state_rendering. rewrite !Forall_app.
  repeat (match goal with |- _ ∧ _ => split end); try apply opt_member_renders;
    try (repeat constructor; apply renders_string).
  - apply (slice_renders 1), Forall_fmap, Forall_forall. intros x _. apply renders_string.
  - apply (slice_renders 1), Forall_fmap, Forall_forall. intros x _. apply (item_renders 0).
  - by apply lit_renders.
  - destruct duration; [by apply lit_renders|constructor].
  - destruct (_ =? 0); [constructor|]. apply lit_renders, literal_Z.
Qed.

Lemma unmarshal_marshal_state s p : state_typed s → marshal_state s = Some p →
  unmarshal_state p = Some (clean_state s).
Proof.
  intros (Hfp & Hfd & Hv & Hq) Hm.
  destruct (marshal_state_text s p Hm) as (position & duration & Hpos & Hdur & [Hu Hb] & Hp).
  destruct (float_reads _ _ Hfp Hpos) as [Hlp Hrp].
  assert (match duration with Some l => literal l ∧ parse_float l = Some (RoomState.VideoDuration s)
          | None => is_zero_float (RoomState.VideoDuration s) = true end) as Hd.
  { destruct (is_zero_float _); [by subst duration|]. destruct Hdur as (l & -> & Hl). by apply float_reads. }
  unfold unmarshal_state. rewrite (parse_renders 3 p _ (eq_rect_r (renders 3 _) (state_renders s position duration
    Hlp ltac:(destruct duration; tauto)) Hp)) by done.
  destruct (state_queue (clean (RoomState.RoomID s)) (clean (RoomState.VideoID s)) "" "" "" Slice.empty
    f_zero f_zero 0 zero_time zero_time (RoomState.Queue s)) as (q' & Hq' & Eq').
  destruct (state_meta (clean (RoomState.RoomID s)) (clean (RoomState.VideoID s)) "" "" "" q'
    f_zero f_zero 0 zero_time zero_time (RoomState.QueueMeta s) Hq) as (qm' & Hqm' & Eqm').
  set (dur := if is_zero_float (RoomState.VideoDuration s) then f_zero else RoomState.VideoDuration s).
  assert (fold_members state_member (member_of <$> state_rendering s position duration) Filling.zero =
    Some (Filling.mk (clean (RoomState.RoomID s)) (clean (RoomState.VideoID s)) q' qm'
      (clean (RoomState.Action s)) (RoomState.Position s) (clean (RoomState.PlaybackMode s)) dur
      (RoomState.ControlVersion s) (clean (RoomState.UpdatedBy s)) (RoomState.UpdatedAt s)
      (RoomState.BaseUpdatedAt s))) as ->.
  - unfold state_rendering, Filling.zero. set (r := clean (RoomState.RoomID s)) in *.
    set (v := clean (RoomState.VideoID s)) in *.
    rewrite (fold_step _ _ _ _ (Filling.mk r "" Slice.empty Slice.empty "" f_zero "" f_zero 0 "" zero_time zero_time))
      by reflexivity.
    rewrite (fold_step _ _ _ _ (Filling.mk r v Slice.empty Slice.empty "" f_zero "" f_zero 0 "" zero_time zero_time))
      by (apply (fold_opt_member _ _ _ (λ x, Filling.mk r x Slice.empty Slice.empty "" f_zero "" f_zero 0 "" zero_time zero_time)); reflexivity).
    rewrite (fold_step _ _ _ _ _ Hq'), (fold_step _ _ _ _ _ Hqm').
    set (a := clean (RoomState.Action s)). set (md := clean (RoomState.PlaybackMode s)). set (by_ := clean (RoomState.UpdatedBy s)).
    rewrite (fold_step _ _ _ _ (Filling.mk r v q' qm' a f_zero "" f_zero 0 "" zero_time zero_time)) by reflexivity.
    rewrite (fold_step _ _ _ _ _ (state_position _ _ _ _ _ _ _ _ _ _ _ _ _ _ Hrp)).
    rewrite (fold_step _ _ _ _ (Filling.mk r v q' qm' a (RoomState.Position s) md f_zero 0 "" zero_time zero_time))
      by (apply (fold_opt_member _ _ _ (λ x, Filling.mk r v q' qm' a (RoomState.Position s) x f_zero 0 "" zero_time zero_time)); reflexivity).
    rewrite (fold_step _ _ _ _ (Filling.mk r v q' qm' a (RoomState.Position s) md dur 0 "" zero_time zero_time)).
    2: { apply state_duration. unfold dur. destruct duration; [|by rewrite Hd].
         destruct Hd as [_ Hd]. destruct (is_zero_float _) eqn:E; [|done]. done. }
    rewrite (fold_step _ _ _ _ _ (state_version _ _ _ _ _ _ _ _ _ _ _ _ Hv)).
    rewrite (fold_step _ _ _ _ (Filling.mk r v q' qm' a (RoomState.Position s) md dur (RoomState.ControlVersion s) by_ zero_time zero_time))
      by (apply (fold_opt_member _ _ _ (λ x, Filling.mk r v q' qm' a (RoomState.Position s) md dur (RoomState.ControlVersion s) x zero_time zero_time)); reflexivity).
    rewrite (fold_step _ _ _ _ _ (state_updated _ _ _ _ _ _ _ _ _ _ _ _ _ Hu)).
    apply (state_base _ _ _ _ _ _ _ _ _ _ _ _ _ Hb).
  - cbn [fmap option_fmap option_map]. unfold Filling.done, clean_state. cbn. by rewrite Eq', Eqm'.
Qed.

Lemma marshal_state_defined s : is_Some (marshal_state s) ↔
  f_finite (RoomState.Position s) = true ∧ f_finite (RoomState.VideoDuration s) = true ∧
  0 ≤ year_of (RoomState.UpdatedAt s) ≤ 9999 ∧ 0 ≤ year_of (RoomState.BaseUpdatedAt s) ≤ 9999.
Proof.
  assert (∀ t, is_Some (marshal_time t) ↔ 0 ≤ year_of t ≤ 9999) as Ht.
  { intros t. unfold marshal_time. destruct (Z.leb_spec 0 (year_of t)), (Z.leb_spec (year_of t) 9999);
      cbn [andb]; (split; [intros [? [=]]; lia|intros ?; try lia]); by eexists. }
  assert (∀ n x, is_Some (omit_float n x) ↔ f_finite x = true) as Ho.
  { intros n x. unfold omit_float. rewrite <- json_float_finite. destruct (is_zero_float x) eqn:E.
    - by destruct x.
    - destruct (json_float x); (split; [intros [? [=]]|intros [? [=]]]; by eexists). }
  rewrite <- json_float_finite, <- (Ho "video_duration"), <- !Ht. unfold marshal_state.
  split.
  - destruct (json_float _), (omit_float _ _), (marshal_time (RoomState.UpdatedAt s)),
      (marshal_time (RoomState.BaseUpdatedAt s)); intros [? [=]]; split_and!; by eexists.
  - intros ([? ->] & [? ->] & [? ->] & [? ->]). by eexists.
Qed.

Definition state_strings (s : RoomState.t) : list string :=
  [RoomState.RoomID s; RoomState.VideoID s; RoomState.Action s; RoomState.PlaybackMode s;
   RoomState.UpdatedBy s] ++ RoomState.Queue s ++
  (QueueItemRef.ID <$> RoomState.QueueMeta s) ++ (QueueItemRef.VideoID <$> RoomState.QueueMeta s).

Lemma clean_state_valid s :
  Forall (λ x, ValidString x = true) (state_strings s) → RoomState.VideoDuration s ≠ S754_zero true →
  clean_state s = s.
Proof.
  unfold state_strings. rewrite !Forall_app, !Forall_fmap. intros (Hs & Hq & Hid & Hvid) Hz.
  repeat (apply list.Forall_cons in Hs as [? Hs]).
  destruct s as [rid vid q qm act pos mode dur ver by_ upd base]. unfold clean_state.
  cbn [RoomState.RoomID RoomState.VideoID RoomState.Queue RoomState.QueueMeta RoomState.Action
    RoomState.PlaybackMode RoomState.UpdatedBy RoomState.VideoDuration] in *.
  rewrite !clean_valid by done. f_equal.
  - rewrite <- (list_fmap_id q) at 2. apply list_fmap_ext. intros i x Hx. cbn.
    apply clean_valid. by eapply (list.Forall_lookup_1 _ _ _ _ Hq).
  - rewrite <- (list_fmap_id qm) at 2. apply list_fmap_ext. intros i [a b p] Hx. unfold clean_item.
    pose proof (list.Forall_lookup_1 _ _ _ _ Hid Hx) as Ha. pose proof (list.Forall_lookup_1 _ _ _ _ Hvid Hx) as Hb.
    cbn [compose QueueItemRef.ID QueueItemRef.VideoID QueueItemRef.Position] in *. by rewrite !clean_valid.
  - destruct dur as [[]| | |]; done.
Qed.

(** C26: a room state is encoded unless its position or its duration is infinite or
    not a number or one of its times lies outside the years 0 to 9999; and what
    was encoded reads back as the same state, its floats and its instants exactly.
    Only bytes that are no UTF-8 are replaced, and a duration of -0 returns as 0. *)
Theorem room_state_roundtrip s : state_typed s →
  (is_Some (marshal_state s) ↔
     f_finite (RoomState.Position s) = true ∧ f_finite (RoomState.VideoDuration s) = true ∧
     0 ≤ year_of (RoomState.UpdatedAt s) ≤ 9999 ∧ 0 ≤ year_of (RoomState.BaseUpdatedAt s) ≤ 9999) ∧
  ∀ p, marshal_state s = Some p →
    unmarshal_state p = Some (clean_state s) ∧
    (Forall (λ x, ValidString x = true) (state_strings s) →
     RoomState.VideoDuration s ≠ S754_zero true → unmarshal_state p = Some s).
Proof.
  intros Ht. split; [apply marshal_state_defined|]. intros p Hp.
  pose proof (unmarshal_marshal_state s p Ht Hp) as Hu. split; [done|]. intros Hv Hz.
  by rewrite Hu, clean_state_valid.
Qed.

(** ** An example *)

(** A position of 0.1, a queue of two, a quarter of a second past the full second. *)
Definition sample_state : RoomState.t :=
  RoomState.mk "r1" "v1" ["v1"; "v2"] [QueueItemRef.mk "q1" "v1" 0; QueueItemRef.mk "q2" "" 1] "play"
    (f_of_dec false 1 (-1)) "loop" (f_of_dec false 90 0) 7 "u1"
    (1700000000 * Second + 250000000) zero_time.
Definition sample_payload : string := of_bytes (
  chars "{" ++ join_members
    [member_str "room_id" (quote "r1"); member_str "video_id" (quote "v1");
     member_str "queue" (brackets [quote "v1"; quote "v2"]);
     member_str "queue_meta" (brackets
       [braces [member_str "id" (quote "q1"); member_str "video_id" (quote "v1"); member_str "position" (chars "0")];
        braces [member_str "id" (quote "q2"); member_str "position" (chars "1")]]);
     member_str "action" (quote "play"); member_str "position" (chars "0.1");
     member_str "playback_mode" (quote "loop"); member_str "video_duration" (chars "90");
     member_str "control_version" (chars "7"); member_str "updated_by" (quote "u1");
     member_str "updated_at" (quote "2023-11-14T22:13:20.25Z");
     member_str "base_updated_at" (quote "0001-01-01T00:00:00Z")] ++ chars "}").
Lemma sample_typed : state_typed sample_state.
Proof.
  split; [vm_compute; reflexivity|]. split; [vm_compute; reflexivity|]. split; [by split|].
  by repeat constructor.
Qed.
Lemma sample_marshal : marshal_state sample_state = Some sample_payload.
Proof. vm_compute. reflexivity. Qed.

Lemma room_state_roundtrip_witness : unmarshal_state sample_payload = Some sample_state.
Proof.
  refine (proj2 (proj2 (room_state_roundtrip sample_state sample_typed) _ sample_marshal) _ _).
  - repeat constructor; vm_compute; reflexivity.
  - vm_compute. discriminate.
Defined.
