(* ===== verification/QueueUrl.v ===== *)
(** * Playback URLs

    [pkg/queueurl/queueurl.go]: which queue entries are playback URLs, and the
    filter applied to the queue of a control request. *)

From S2P Require Import Prelude GoStrings.

Definition IsPlaybackURL (s : string) : bool :=
  let s := TrimSpace s in
  if bool_decide (s = "") then false
  else if HasPrefix s "//" then 2 <? len s
  else HasPrefix s "http://" || HasPrefix s "https://".

Definition FilterPlaybackURLs (queue : list string) : list string :=
  foldl (λ out item, if IsPlaybackURL item then out ++ [TrimSpace item] else out) [] queue.

Lemma IsPlaybackURL_trim s : IsPlaybackURL (TrimSpace s) = IsPlaybackURL s.
Proof. unfold IsPlaybackURL. by rewrite TrimSpace_idem. Qed.

Lemma FilterPlaybackURLs_spec queue :
  FilterPlaybackURLs queue = map TrimSpace (filter IsPlaybackURL queue).
Proof.
  unfold FilterPlaybackURLs.
  enough (∀ acc, foldl (λ out item, if IsPlaybackURL item then out ++ [TrimSpace item] else out)
    acc queue = acc ++ map TrimSpace (filter IsPlaybackURL queue)) as H by apply H.
  induction queue as [|q queue IH]; intros acc; simpl; [by rewrite app_nil_r|].
  rewrite IH, filter_cons. destruct (IsPlaybackURL q) eqn:E.
  - rewrite decide_True by done. simpl. by rewrite <- app_assoc.
  - rewrite decide_False by auto. done.
Qed.

Lemma HasPrefix_slashes s :
  HasPrefix s "//" = true → HasPrefix s "http://" = false ∧ HasPrefix s "https://" = false.
Proof.
  unfold HasPrefix. destruct s as [|a s]; [done|]. cbn -[Ascii.ascii_dec].
  destruct (Ascii.ascii_dec _ a) as [<-|]; done.
Qed.

Lemma IsPlaybackURL_forms s :
  IsPlaybackURL s = true ↔
  (HasPrefix (TrimSpace s) "//" = true ∧ 2 < len (TrimSpace s)) ∨
  HasPrefix (TrimSpace s) "http://" = true ∨ HasPrefix (TrimSpace s) "https://" = true.
Proof.
  unfold IsPlaybackURL. pose proof (HasPrefix_slashes (TrimSpace s)) as Hs.
  case_bool_decide as E.
  { rewrite E. split; [done|]. intros [[? _]|[?|?]]; done. }
  destruct (HasPrefix (TrimSpace s) "//").
  - destruct (Hs eq_refl) as [-> ->]. rewrite Z.ltb_lt. naive_solver.
  - rewrite orb_true_iff. naive_solver.
Qed.

(** The queue that survives is a list of trimmed playback URLs, in order, and
    filtering again changes nothing. *)
Lemma FilterPlaybackURLs_idem queue :
  FilterPlaybackURLs (FilterPlaybackURLs queue) = FilterPlaybackURLs queue.
Proof.
  rewrite !FilterPlaybackURLs_spec. induction queue as [|q queue IH]; [done|].
  rewrite filter_cons. destruct (IsPlaybackURL q) eqn:E.
  - rewrite decide_True by done. simpl. rewrite filter_cons, decide_True.
    + simpl. rewrite TrimSpace_idem. by f_equal.
    + by rewrite IsPlaybackURL_trim, E.
  - rewrite decide_False by auto. done.
Qed.

Lemma FilterPlaybackURLs_elem queue u :
  u ∈ FilterPlaybackURLs queue ↔ ∃ q, q ∈ queue ∧ IsPlaybackURL q = true ∧ u = TrimSpace q.
Proof.
  rewrite FilterPlaybackURLs_spec, list_elem_of_In, in_map_iff.
  split.
  - intros (q & <- & [Hq Hin]%list_elem_of_In%list_elem_of_filter). exists q.
    split_and!; [done|by apply Is_true_true|done].
  - intros (q & Hin & Hq & ->). exists q. split; [done|].
    apply list_elem_of_In, list_elem_of_filter. split; [by apply Is_true_true|done].
Qed.

(** The examples of [queueurl_test.go]. *)
Example IsPlaybackURL_test :
  map IsPlaybackURL ["https://cdn.example/v.mp4"; "http://x"; "//cdn.example/v.m3u8";
                     "video-1"; ""] = [true; true; true; false; false].
Proof. vm_compute. reflexivity. Qed.
