(* ===== verification/Playback.v ===== *)
(** * Playback projection and queue advance

    [internal/room/project.go] (Module [Project]) and the pure helpers of
    [internal/room/hub.go] that depend on it (Module [Advance]): where a video
    stands at a given time, what comes after its end, and how the state stored
    by a control is projected for readers. *)

From S2P Require Import Prelude GoNum Model.

Module Project.
(** [indexOf]: position of the first occurrence, -1 when absent. *)
Fixpoint index_from (i : Z) (slice : list string) (v : string) : Z :=
  match slice with
  | [] => -1
  | s :: rest => if bool_decide (s = v) then i else index_from (i + 1) rest v
  end.
Definition indexOf (slice : list string) (v : string) : Z := index_from 0 slice v.

(** [queue[i]]; the callers keep [i] in range. *)
Definition elem_at (queue : list string) (i : Z) : string :=
  default "" (queue !! Z.to_nat i).
Definition zlen (queue : list string) : Z := Z.of_nat (length queue).

Definition clampPos (pos duration : float64) : float64 :=
  if f_lt pos f_zero then f_zero
  else if f_gt duration f_zero && f_gt pos duration then duration
  else pos.

Definition ProjectedPlayback (state : option RoomState.t) (now : time)
    (duration : float64) : float64 * bool :=
  match state with
  | None => (f_zero, false)
  | Some st =>
      let pos := RoomState.Position st in
      if negb (bool_decide (RoomState.Action st = PlaybackActionPlay))
      then (clampPos pos duration, false)
      else
        let elapsed := Seconds (time_Sub now (RoomState.UpdatedAt st)) in
        let elapsed := if f_lt elapsed f_zero then f_zero else elapsed in
        let pos := f_add (RoomState.Position st) elapsed in
        if f_gt duration f_zero && f_ge pos duration then (duration, true)
        else (clampPos pos duration, false)
  end.

(** The result [(nextID, hasNext)] as an option. *)
Definition NextVideoAfterEnd (current : string) (queue : list string)
    (mode : PlaybackMode) : option string :=
  if bool_decide (zlen queue = 0) then None
  else
    let idx := indexOf queue current in
    if idx <? 0 then None
    else if bool_decide (mode = PlaybackModeLoop) then
      let next := idx + 1 in
      let next := if zlen queue <=? next then 0 else next in
      Some (elem_at queue next)
    else if zlen queue <=? idx + 1 then None
    else Some (elem_at queue (idx + 1)).
End Project.
Import Project.

Module Advance.
(** [nextInQueue]: like [NextVideoAfterEnd], but an unknown current video
    starts the queue over. *)
Definition nextInQueue (current : string) (queue : list string)
    (mode : PlaybackMode) : option string :=
  if bool_decide (zlen queue = 0) then None
  else
    let idx := indexOf queue current in
    if idx <? 0 then Some (elem_at queue 0)
    else if bool_decide (mode = PlaybackModeLoop) then
      let next := idx + 1 in
      let next := if zlen queue <=? next then 0 else next in
      Some (elem_at queue next)
    else if zlen queue <=? idx + 1 then None
    else Some (elem_at queue (idx + 1)).

Definition resolveControlDuration (msg : ControlInput.t)
    (prev : option RoomState.t) (videoID : string) : float64 :=
  if f_gt (ControlInput.VideoDuration msg) f_zero then ControlInput.VideoDuration msg
  else match prev with
  | Some p =>
      if negb (bool_decide (videoID = "")) && bool_decide (videoID = RoomState.VideoID p)
         && f_gt (RoomState.VideoDuration p) f_zero
      then RoomState.VideoDuration p
      else f_zero
  | None => f_zero
  end.

(** [Service.projectState] at the time [now] the service clock gives. *)
Definition projectState (now : time) (base : option RoomState.t) : option RoomState.t :=
  match base with
  | None => None
  | Some b =>
      let baseUpdated := RoomState.UpdatedAt b in
      let duration := RoomState.VideoDuration b in
      let '(pos, atEnd) := ProjectedPlayback (Some b) now duration in
      let out := RoomState.set_BaseUpdatedAt baseUpdated
                   (RoomState.set_UpdatedAt now (RoomState.set_Position pos b)) in
      if atEnd && f_gt duration f_zero then
        let mode := if bool_decide (RoomState.PlaybackMode out = "")
                    then PlaybackModeSequential else RoomState.PlaybackMode out in
        match NextVideoAfterEnd (RoomState.VideoID b) (RoomState.Queue out) mode with
        | Some nextID =>
            Some (RoomState.set_VideoDuration f_zero
                   (RoomState.set_Action PlaybackActionPause
                     (RoomState.set_Position f_zero
                       (RoomState.set_VideoID nextID out))))
        | None =>
            Some (RoomState.set_Position duration
                   (RoomState.set_Action PlaybackActionPause out))
        end
      else Some out
  end.
End Advance.
Import Advance.

(** ** Index lemmas *)

Lemma index_from_range i q v :
  0 ≤ i → index_from i q v = -1 ∨ i ≤ index_from i q v < i + zlen q.
Proof.
  revert i. induction q as [|s q IH]; intros i Hi; simpl; [by left|].
  case_bool_decide.
  - right. unfold zlen. simpl. lia.
  - destruct (IH (i + 1)) as [?|?]; [lia|by left|right]. unfold zlen in *. simpl. lia.
Qed.

Lemma index_from_absent i q v : 0 ≤ i → index_from i q v = -1 ↔ v ∉ q.
Proof.
  revert i. induction q as [|s q IH]; intros i Hi; simpl.
  - split; [intros _; apply not_elem_of_nil|done].
  - rewrite not_elem_of_cons. case_bool_decide; [|rewrite IH by lia; naive_solver].
    split; [lia|naive_solver].
Qed.

Lemma index_from_lookup i q v j :
  0 ≤ i → index_from i q v = i + Z.of_nat j →
  q !! j = Some v ∧ ∀ k, (k < j)%nat → q !! k ≠ Some v.
Proof.
  revert i j. induction q as [|s q IH]; intros i j Hi; simpl; [lia|].
  case_bool_decide as Hs.
  - intros ?. assert (j = 0%nat) as -> by lia. subst. split; [done|lia].
  - intros Hj. destruct (index_from_range (i + 1) q v) as [?|?]; [lia..|].
    destruct j as [|j]; [lia|]. destruct (IH (i + 1) j) as [Hl Hm]; [lia..|].
    split; [done|]. intros [|k] Hk; simpl; [naive_solver|apply Hm; lia].
Qed.

Lemma indexOf_NoDup q j v : NoDup q → q !! j = Some v → indexOf q v = Z.of_nat j.
Proof.
  intros Hnd Hj. unfold indexOf.
  destruct (index_from_range 0 q v) as [Ha|Hr]; [lia| |].
  - apply index_from_absent in Ha; [|lia]. exfalso. apply Ha. by eapply list_elem_of_lookup_2.
  - destruct (index_from_lookup 0 q v (Z.to_nat (index_from 0 q v))) as [Hl _]; [lia..|].
    rewrite (NoDup_lookup q j (Z.to_nat (index_from 0 q v)) v) by done. lia.
Qed.

Lemma indexOf_absent q v : indexOf q v = -1 ↔ v ∉ q.
Proof. apply index_from_absent. lia. Qed.

Lemma elem_at_lookup q i v : q !! Z.to_nat i = Some v → elem_at q i = v.
Proof. unfold elem_at. by intros ->. Qed.

(** The two advance functions agree on a video of the queue. *)
Lemma nextInQueue_known current q mode :
  current ∈ q → nextInQueue current q mode = NextVideoAfterEnd current q mode.
Proof.
  intros Hin. unfold nextInQueue, NextVideoAfterEnd.
  case_bool_decide; [done|]. destruct (indexOf q current <? 0) eqn:E; [|done].
  apply Z.ltb_lt in E. unfold indexOf in *.
  destruct (index_from_range 0 q current) as [Ha|]; [lia| |lia].
  apply index_from_absent in Ha; [done|lia].
Qed.

Lemma nextInQueue_unknown current q0 q mode :
  current ∉ q0 :: q → nextInQueue current (q0 :: q) mode = Some q0.
Proof. intros Hin%indexOf_absent. unfold nextInQueue. by rewrite Hin. Qed.

(** ** Advancing, in the words of lists

    What comes after the video at index [j] of a queue: the next entry, the first
    one after the last in mode "loop" and nothing there in any other mode. *)
Definition entry_after (j : nat) (queue : list string) (mode : string) : option string :=
  if decide (mode = "loop") then queue !! (S j mod length queue)%nat else queue !! S j.

(** What is played once [current] has ended, and what "next" moves to: after the
    first occurrence of [current]; from a video that is not in the queue nothing is
    played on, but "next" goes to the first entry. *)
Definition after_end (current : string) (queue : list string) (mode : string) : option string :=
  '(j, _) ← list_find (λ v, v = current) queue; entry_after j queue mode.
Definition after_next (current : string) (queue : list string) (mode : string) : option string :=
  match list_find (λ v, v = current) queue with
  | Some (j, _) => entry_after j queue mode
  | None => head queue
  end.

Lemma index_find q v i :
  index_from i q v =
    match list_find (λ u, u = v) q with Some (j, _) => i + Z.of_nat j | None => -1 end.
Proof.
  revert i. induction q as [|s q IH]; intros i; simpl; [done|].
  case_bool_decide; [rewrite decide_True by done; simpl; lia|].
  rewrite decide_False by done. rewrite IH.
  destruct (list_find _ q) as [[j w]|]; simpl; lia.
Qed.

(** The three cases of the two advance functions, by the index of the video. *)
Lemma advance_at (queue : list string) (mode : string) j :
  (j < length queue)%nat →
  (if bool_decide (mode = PlaybackModeLoop) then
     Some (elem_at queue (if zlen queue <=? Z.of_nat j + 1 then 0 else Z.of_nat j + 1))
   else if zlen queue <=? Z.of_nat j + 1 then None
   else Some (elem_at queue (Z.of_nat j + 1))) = entry_after j queue mode.
Proof.
  intros Hj. unfold entry_after, zlen, elem_at. rewrite bool_decide_decide.
  assert (∀ k, (k < length queue)%nat → Some (default "" (queue !! k)) = queue !! k) as Hin.
  { intros k [v ->]%lookup_lt_is_Some_2. done. }
  replace (Z.to_nat (Z.of_nat j + 1)) with (S j) by lia.
  destruct (Z.leb_spec (Z.of_nat (length queue)) (Z.of_nat j + 1)) as [Hle|Hlt].
  - assert (length queue = S j) as Hlen by lia. destruct (decide _).
    + rewrite Hlen, Nat.Div0.mod_same. apply Hin. lia.
    + symmetry. apply lookup_ge_None_2. lia.
  - replace (Z.to_nat (Z.of_nat j + 1)) with (S j) by lia. destruct (decide _).
    + rewrite Nat.mod_small by lia. apply Hin. lia.
    + apply Hin. lia.
Qed.

Lemma find_lt (queue : list string) v j w :
  list_find (λ u, u = v) queue = Some (j, w) → (j < length queue)%nat.
Proof. intros (Hj & _)%list_find_Some. by eapply lookup_lt_Some. Qed.

Lemma NextVideoAfterEnd_after current queue mode :
  NextVideoAfterEnd current queue mode = after_end current queue mode.
Proof.
  unfold NextVideoAfterEnd, after_end, indexOf. rewrite index_find.
  destruct queue as [|v queue]; [done|].
  rewrite bool_decide_false by (unfold zlen; simpl; lia).
  destruct (list_find _ _) as [[j w]|] eqn:E; [|done].
  rewrite Z.add_0_l. destruct (Z.ltb_spec (Z.of_nat j) 0); [lia|].
  by apply advance_at, (find_lt _ current j w).
Qed.

Lemma nextInQueue_after current queue mode :
  nextInQueue current queue mode = after_next current queue mode.
Proof.
  unfold nextInQueue, after_next, indexOf. rewrite index_find.
  destruct queue as [|v queue]; [done|].
  rewrite bool_decide_false by (unfold zlen; simpl; lia).
  destruct (list_find _ _) as [[j w]|] eqn:E; [|done].
  rewrite Z.add_0_l. destruct (Z.ltb_spec (Z.of_nat j) 0); [lia|].
  by apply advance_at, (find_lt _ current j w).
Qed.

(** The successor of position [j] of a duplicate-free queue. *)
Lemma NextVideoAfterEnd_seq q j v mode :
  NoDup q → q !! j = Some v → mode ≠ PlaybackModeLoop →
  NextVideoAfterEnd v q mode = q !! S j.
Proof.
  intros Hnd Hj Hm. pose proof (lookup_lt_Some _ _ _ Hj).
  unfold NextVideoAfterEnd, zlen. rewrite !bool_decide_eq_false_2 by (done || lia).
  rewrite (indexOf_NoDup q j v) by done.
  destruct (Z.of_nat j <? 0) eqn:?; [lia|].
  destruct (Z.of_nat (length q) <=? Z.of_nat j + 1) eqn:E.
  - symmetry. apply lookup_ge_None_2. lia.
  - unfold elem_at. replace (Z.to_nat (Z.of_nat j + 1)) with (S j) by lia.
    destruct (q !! S j) eqn:E2; [done|]. apply lookup_ge_None in E2. lia.
Qed.

Lemma NextVideoAfterEnd_loop q j v :
  NoDup q → q !! j = Some v →
  NextVideoAfterEnd v q PlaybackModeLoop = q !! (S j mod length q)%nat.
Proof.
  intros Hnd Hj. pose proof (lookup_lt_Some _ _ _ Hj) as Hlt.
  unfold NextVideoAfterEnd, zlen.
  rewrite bool_decide_eq_false_2 by lia. rewrite bool_decide_eq_true_2 by done.
  rewrite (indexOf_NoDup q j v) by done.
  destruct (Z.of_nat j <? 0) eqn:?; [lia|].
  set (k := (S j mod length q)%nat).
  assert (k < length q)%nat by (apply Nat.mod_upper_bound; lia).
  destruct (lookup_lt_is_Some_2 q k) as [u Hu]; [done|]. rewrite Hu. f_equal.
  apply elem_at_lookup. rewrite <- Hu. f_equal. subst k.
  destruct (Z.of_nat (length q) <=? Z.of_nat j + 1) eqn:E.
  - replace (S j) with (length q) by lia. rewrite Nat.Div0.mod_same. done.
  - rewrite Nat.mod_small; lia.
Qed.

(** Watching a queue from [v] for [k] ends. *)
Fixpoint play_through (k : nat) (q : list string) (mode : PlaybackMode)
    (v : string) : option string :=
  match k with
  | O => Some v
  | S k => u ← play_through k q mode v; NextVideoAfterEnd u q mode
  end.

Lemma play_through_seq k q j v mode :
  NoDup q → q !! j = Some v → mode ≠ PlaybackModeLoop →
  play_through k q mode v = q !! (j + k)%nat.
Proof.
  intros Hnd Hj Hm. induction k as [|k IH]; simpl; [by rewrite Nat.add_0_r|].
  rewrite IH. destruct (q !! (j + k)%nat) as [u|] eqn:E; simpl.
  - rewrite (NextVideoAfterEnd_seq _ _ _ _ Hnd E Hm). f_equal. lia.
  - symmetry. apply lookup_ge_None_2. apply lookup_ge_None in E. lia.
Qed.

Lemma play_through_loop k q j v :
  NoDup q → q !! j = Some v →
  play_through k q PlaybackModeLoop v = q !! ((j + k) mod length q)%nat.
Proof.
  intros Hnd Hj. pose proof (lookup_lt_Some _ _ _ Hj) as Hlt.
  induction k as [|k IH]; simpl.
  - rewrite Nat.add_0_r, Nat.mod_small; done.
  - rewrite IH. destruct (lookup_lt_is_Some_2 q ((j + k) mod length q)%nat) as [u Hu].
    { apply Nat.mod_upper_bound. lia. }
    rewrite Hu. simpl. rewrite (NextVideoAfterEnd_loop _ _ _ Hnd Hu). f_equal.
    replace (j + S k)%nat with (S (j + k)) by lia.
    rewrite <- (Nat.Div0.add_mod_idemp_r 1 (j + k)). done.
Qed.

(** ** Position lemmas *)

(** A position is within the video: not negative, and not past a known end. *)
Definition in_bounds (pos duration : float64) : Prop :=
  f_lt pos f_zero = false ∧ (f_gt duration f_zero = true → f_gt pos duration = false).

Lemma in_bounds_zero d : in_bounds f_zero d.
Proof. split; [done|]. apply f_lt_asym. Qed.

Lemma in_bounds_end d : f_gt d f_zero = true → in_bounds d d.
Proof. intros H. split; [by apply f_lt_asym|intros _; apply f_lt_irrefl]. Qed.

Lemma clampPos_bounds pos d : in_bounds (clampPos pos d) d.
Proof.
  unfold clampPos. destruct (f_lt pos f_zero) eqn:E; [apply in_bounds_zero|].
  destruct (f_gt d f_zero) eqn:E2; simpl; [|by split; [|rewrite E2]].
  destruct (f_gt pos d) eqn:E3; [by apply in_bounds_end|by split].
Qed.

Lemma clampPos_id pos d : in_bounds pos d → clampPos pos d = pos.
Proof.
  intros [H1 H2]. unfold clampPos. rewrite H1.
  destruct (f_gt d f_zero); simpl; [by rewrite H2|done].
Qed.

(** A position cut to the video: 0 for a negative one, the known length for one past
    it, unchanged in between. *)
Definition cut_to (raw d pos : float64) : Prop :=
  (f_lt raw f_zero = true → pos = f_zero) ∧
  (f_lt raw f_zero = false → f_gt d f_zero = true → f_gt raw d = true → pos = d) ∧
  (in_bounds raw d → pos = raw).
Lemma clampPos_cut raw d : cut_to raw d (clampPos raw d).
Proof.
  split_and!; [..|apply clampPos_id]; unfold clampPos; [by intros ->|by intros -> -> ->].
Qed.

#[export] Hint Resolve clampPos_cut : wt.
#[export] Hint Resolve in_bounds_zero in_bounds_end clampPos_bounds : wt.

Lemma ProjectedPlayback_bounds st now d :
  in_bounds (ProjectedPlayback st now d).1 d.
Proof.
  unfold ProjectedPlayback. destruct st as [st|]; simpl; [|auto with wt].
  case_match; simpl; [auto with wt|].
  match goal with |- in_bounds (fst (if ?b then _ else _)) _ => destruct b eqn:E end;
    simpl; [|auto with wt].
  apply andb_true_iff in E as [? _]. auto with wt.
Qed.

Lemma ProjectedPlayback_atEnd st now d p :
  ProjectedPlayback st now d = (p, true) → p = d ∧ f_gt d f_zero = true.
Proof.
  unfold ProjectedPlayback. destruct st as [st|]; [|done].
  case_match; [done|].
  match goal with |- (if ?b then _ else _) = _ → _ => destruct b eqn:E end; [|done].
  intros. simplify_eq. by apply andb_true_iff in E as [? _].
Qed.

(** The seconds a playing state has advanced; a clock that went back counts as
    none. *)
Definition elapsed_since (now updated : time) : float64 :=
  let e := Seconds (time_Sub now updated) in if f_lt e f_zero then f_zero else e.

(** The video of [base] is playing, its length is known, and [now] is past its
    end. *)
Definition reached_end (base : RoomState.t) (now : time) : bool :=
  bool_decide (RoomState.Action base = PlaybackActionPlay) &&
  f_gt (RoomState.VideoDuration base) f_zero &&
  f_ge (f_add (RoomState.Position base) (elapsed_since now (RoomState.UpdatedAt base)))
       (RoomState.VideoDuration base).

Lemma ProjectedPlayback_reached base now :
  ProjectedPlayback (Some base) now (RoomState.VideoDuration base) =
  (if reached_end base now then (RoomState.VideoDuration base, true)
   else (clampPos
     (if bool_decide (RoomState.Action base = PlaybackActionPlay)
      then f_add (RoomState.Position base) (elapsed_since now (RoomState.UpdatedAt base))
      else RoomState.Position base) (RoomState.VideoDuration base), false)).
Proof.
  unfold ProjectedPlayback, reached_end, elapsed_since.
  destruct (bool_decide _); simpl; [|done]. by destruct (_ && _).
Qed.

(** ** The properties *)

(** Watching a duplicate-free queue to the end of each video visits it in
    order: sequential mode plays every later entry once and then stops, loop
    mode cycles through the whole queue. *)
Theorem queue_traversal (queue : list string) (i k : nat) (v : string)
    (Hnd : NoDup queue) (Hv : queue !! i = Some v) :
  play_through k queue PlaybackModeSequential v = queue !! (i + k)%nat ∧
  play_through k queue PlaybackModeLoop v = queue !! ((i + k) mod length queue)%nat.
Proof.
  split; [by apply play_through_seq|by apply play_through_loop].
Qed.

Lemma queue_traversal_witness :
  play_through 2 ["a"; "b"; "c"] PlaybackModeSequential "b" = None ∧
  play_through 2 ["a"; "b"; "c"] PlaybackModeLoop "b" = Some "a".
Proof.
  apply (queue_traversal ["a"; "b"; "c"] 1 2 "b"); [|reflexivity].
  repeat constructor; set_solver.
Defined.

(** C35: Projection never reports a position outside the video: for every stored
    state and clock reading the projected position is not negative and, when the
    length is known, not past it.  A state whose playing video has reached its
    known end is projected to a pause: on the entry after the current video in the
    queue (the first one after the last in loop mode), at position 0 with unknown
    length, or, when there is none, on the current video at its end.  Any other
    state keeps its action, video and length; its position is the stored one, plus
    the elapsed time when it is playing, cut to the video. *)
Theorem projectState_correct (now : time) (base : RoomState.t) :
  ∃ out, projectState now (Some base) = Some out ∧
  let d := RoomState.VideoDuration base in
  in_bounds (RoomState.Position out) d ∧
  RoomState.UpdatedAt out = now ∧
  RoomState.BaseUpdatedAt out = RoomState.UpdatedAt base ∧
  RoomState.Queue out = RoomState.Queue base ∧
  RoomState.ControlVersion out = RoomState.ControlVersion base ∧
  if reached_end base now then
    RoomState.Action out = "pause" ∧
    match after_end (RoomState.VideoID base) (RoomState.Queue base)
            (RoomState.PlaybackMode base) with
    | Some next => RoomState.VideoID out = next ∧ RoomState.Position out = f_zero
                   ∧ RoomState.VideoDuration out = f_zero
    | None => RoomState.VideoID out = RoomState.VideoID base ∧ RoomState.Position out = d
              ∧ RoomState.VideoDuration out = d
    end
  else
    RoomState.Action out = RoomState.Action base ∧
    RoomState.VideoID out = RoomState.VideoID base ∧
    RoomState.VideoDuration out = d ∧
    cut_to (if decide (RoomState.Action base = "play")
            then f_add (RoomState.Position base) (elapsed_since now (RoomState.UpdatedAt base))
            else RoomState.Position base) d (RoomState.Position out).
Proof.
  unfold projectState. rewrite ProjectedPlayback_reached.
  destruct (reached_end base now) eqn:E; simpl.
  - unfold reached_end in E. apply andb_true_iff in E as [E _].
    apply andb_true_iff in E as [_ Hd]. rewrite Hd.
    assert (∀ m q c, NextVideoAfterEnd c q
      (if bool_decide (m = "") then PlaybackModeSequential else m) =
      NextVideoAfterEnd c q m) as -> by (intros; case_bool_decide; by subst).
    rewrite NextVideoAfterEnd_after. destruct (after_end _ _ _) as [nx|]; eexists; (split; [done|]);
      simpl;
      split_and!; auto with wt.
  - eexists. split; [done|]. simpl. rewrite bool_decide_decide.
    repeat (split; [solve [auto with wt]|]).
    unfold PlaybackActionPlay. case_decide; auto with wt.
Qed.

(** A paused, seeking or otherwise not playing state reads the same at any
    time: two projections of it differ in their timestamps only. *)
Theorem projectState_paused_stable (t1 t2 : time) (base : RoomState.t)
    (Hp : RoomState.Action base ≠ PlaybackActionPlay) :
  RoomState.set_UpdatedAt t2 <$> projectState t1 (Some base) =
  projectState t2 (Some base).
Proof.
  unfold projectState. rewrite !ProjectedPlayback_reached. unfold reached_end.
  by rewrite bool_decide_eq_false_2.
Qed.

Lemma projectState_paused_stable_witness :
  let st := RoomState.mk "r" "v" ["v"] [] PlaybackActionPause (f_of_Z 42)
              PlaybackModeLoop (f_of_Z 100) 3 "u" 0 zero_time in
  RoomState.set_UpdatedAt (999 * Second) <$> projectState Second (Some st) =
  projectState (999 * Second) (Some st).
Proof. apply projectState_paused_stable. done. Defined.
