(* ===== verification/Interfaces.v ===== *)
(** * The interfaces between components

    One class per Go interface of [internal/cache], [internal/store] and
    [internal/room] ([Publisher]): its methods, over the implementation's state.
    A method that fills in fields of the object it is handed returns the object.
    Each method takes as a first argument what [ctx.Err()] answers when the
    method looks at its context ([None] while the context is live; a failure of
    the backend during the call is represented the same way).  A method that
    reads the wall clock takes the reading as an argument.

    The [...Contract] classes say what a client may rely on, through a view of
    the implementation's state; the clients' theorems are proved against them.
    [MemStates], [MemAccess] and [MemPresence] discharge those of the room state,
    access and presence caches, [PgRooms] and [PgUsers] those of the stores, the
    in-memory session cache [SessionContract] and [SessionTokens], the Redis one
    [SessionTokens], the Redis chat [RoomChatContract]; the publisher is third-party.
    The Redis room states expire, so they are no [RoomStateContract]: what they keep and
    for how long is in [RedisStates]. *)

From S2P Require Import Prelude GoStrings GoNum Model.

Definition ctx : Type := option error.

(** ** Methods *)

Class RoomStateCache (S : Type) := {
  SetRoomState : ctx → time → string → RoomState.t → SM S unit;
  GetRoomState : ctx → string → SM S RoomState.t;
  DeleteRoomState : ctx → string → SM S unit;
}.

Class RoomAccessCache (S : Type) := {
  GrantRoomAccess : ctx → string → string → SM S unit;
  HasRoomAccess : ctx → string → string → SM S bool;
  DeleteRoomAccess : ctx → string → SM S unit;
}.

Class RoomPresence (S : Type) := {
  JoinRoom : ctx → string → string → string → SM S string;
  LeaveRoom : ctx → string → string → SM S unit;
  RemoveMember : ctx → string → string → SM S unit;
  ListMembers : ctx → string → SM S (list RoomMember.t);
  MemberCount : ctx → string → SM S Z;
  GetUserRoom : ctx → string → SM S string;
  DeleteRoomPresence : ctx → string → SM S unit;
  PendingEmptyRooms : ctx → SM S (list string);
  ClearPendingEmpty : ctx → string → SM S unit;
  GetLastRoomCleanupAt : ctx → SM S time;
  SetLastRoomCleanupAt : ctx → time → SM S unit;
  TryAcquireCleanupLock : ctx → time → Z → SM S bool;
  ReleaseCleanupLock : ctx → SM S unit;
  ListRoomsWithMembers : ctx → SM S (list string);
}.

Class SessionCache (S : Type) := {
  SetRefreshToken : ctx → time → string → string → Z → SM S unit;
  GetRefreshToken : ctx → time → string → SM S string;
  DeleteRefreshToken : ctx → string → SM S unit;
  BlacklistToken : ctx → time → string → Z → SM S unit;
  IsBlacklisted : ctx → time → string → SM S bool;
}.

(** [cache.RoomChatMessage] *)
Module RoomChatMessage.
Record t := mk { StreamID : string; Seq : Z; Payload : string }.
End RoomChatMessage.

Class RoomChat (S : Type) := {
  PendingCount : ctx → string → SM S Z;
  NextSeq : ctx → string → SM S Z;
  AppendMessage : ctx → time → string → Z → string → Z → SM S string;
  ListMessagesRev : ctx → string → string → Z → SM S (list RoomChatMessage.t);
  GetPayload : ctx → string → string → SM S string;
  EnqueuePending : ctx → time → string → string → SM S unit;
  RemovePending : ctx → string → string → SM S unit;
  PendingStreamIDs : ctx → string → Z → SM S (list string);
  DeleteRoom : ctx → string → SM S unit;
  AllowChatSend : ctx → string → string → Z → SM S bool;
  ScanPendingRooms : ctx → Z → Z → SM S (list string * Z);
}.

Class RoomStore (S : Type) := {
  RoomCreate : ctx → time → Room.t → SM S Room.t;
  RoomGetByID : ctx → string → SM S Room.t;
  RoomList : ctx → ListRoomsOpts.t → SM S (list Room.t * Z);
  RoomUpdate : ctx → time → Room.t → SM S Room.t;
  RoomDelete : ctx → string → SM S unit;
}.

Class UserStore (S : Type) := {
  UserGetByID : ctx → string → SM S User.t;
  UserGetByUsername : ctx → string → SM S User.t;
  UserGetByEmail : ctx → string → SM S User.t;
  UserCreate : ctx → time → User.t → SM S User.t;
  UserUpdate : ctx → time → User.t → SM S User.t;
}.

Class Publisher (S : Type) := {
  PublishRoomMessage : ctx → string → string → PubData → SM S unit;
}.

(** ** Contracts *)

(** Every method of the caches either reports the context's error and changes
    nothing a client can see, or does its work. *)
Definition method_law {S V A} (wf : S → Prop) (view : S → V) (c : ctx)
    (m : SM S A) (post : V → result A → V → Prop) : Prop :=
  ∀ s, wf s → let '(r, s') := m s in
    wf s' ∧
    match c with
    | Some e => r = Err e ∧ view s' = view s
    | None => post (view s) r (view s')
    end.

(** [SetRoomState] files the state under the given room and stamps a zero
    [UpdatedAt] with the clock. *)
Definition stamp_state (now : time) (roomID : string) (st : RoomState.t) : RoomState.t :=
  let st := if IsZero (RoomState.UpdatedAt st) then RoomState.set_UpdatedAt now st else st in
  RoomState.set_RoomID roomID st.

Class RoomStateContract (S : Type) `{RoomStateCache S} := {
  rs_wf : S → Prop;
  rs_view : S → gmap string RoomState.t;
  SetRoomState_law : ∀ c now r st,
    method_law rs_wf rs_view c (SetRoomState c now r st)
      (λ v res v', res = Ok tt ∧ v' = <[r := stamp_state now r st]> v);
  GetRoomState_law : ∀ c r,
    method_law rs_wf rs_view c (GetRoomState c r)
      (λ v res v', res = match v !! r with Some st => Ok st | None => Err ErrNotFound end
                   ∧ v' = v);
  DeleteRoomState_law : ∀ c r,
    method_law rs_wf rs_view c (DeleteRoomState c r)
      (λ v res v', res = Ok tt ∧ v' = delete r v);
}.

Class RoomAccessContract (S : Type) `{RoomAccessCache S} := {
  ra_wf : S → Prop;
  ra_view : S → gmap string (gset string);
  GrantRoomAccess_law : ∀ c r u,
    r ≠ "" → u ≠ "" →
    method_law ra_wf ra_view c (GrantRoomAccess c r u)
      (λ v res v', res = Ok tt ∧ v' = <[r := {[u]} ∪ default ∅ (v !! r)]> v);
  HasRoomAccess_law : ∀ c r u,
    r ≠ "" → u ≠ "" →
    method_law ra_wf ra_view c (HasRoomAccess c r u)
      (λ v res v', res = Ok (bool_decide (u ∈ default ∅ (v !! r))) ∧ v' = v);
  DeleteRoomAccess_law : ∀ c r,
    r ≠ "" →
    method_law ra_wf ra_view c (DeleteRoomAccess c r)
      (λ v res v', res = Ok tt ∧ v' = delete r v);
}.

(** What access control relies on, whatever fails: who has been granted access, and
    that only granting grants. *)
Class AccessGrants (S : Type) `{RoomAccessCache S} := {
  granted_to : S → string → string → Prop;   (* room, user *)
  GrantRoomAccess_only : ∀ c r u s r' u',
    granted_to (GrantRoomAccess c r u s).2 r' u' → granted_to s r' u' ∨ (r' = r ∧ u' = u);
  HasRoomAccess_sound : ∀ c r u s,
    ((HasRoomAccess c r u s).1 = Ok true → granted_to s r u) ∧
    ∀ r' u', granted_to (HasRoomAccess c r u s).2 r' u' → granted_to s r' u';
  DeleteRoomAccess_only : ∀ c r s r' u',
    granted_to (DeleteRoomAccess c r s).2 r' u' → granted_to s r' u';
}.

(** What the cleanup relies on in a presence: which rooms have members, which
    are marked as emptied, when the last cleanup ran, and the cleanup lock. *)
Module PresenceView.
Record t := mk {
  members : gmap string (gmap string string);   (* room → user → username *)
  pending : gset string;
  last : time;
  lock : bool;
}.
Definition count (v : t) (r : string) : Z := Z.of_nat (size (default ∅ (members v !! r))).
Definition set_pending (p : gset string) (v : t) : t := mk (members v) p (last v) (lock v).
Definition set_last (t : time) (v : PresenceView.t) : PresenceView.t :=
  mk (members v) (pending v) t (lock v).
Definition set_lock (b : bool) (v : t) : t := mk (members v) (pending v) (last v) b.
End PresenceView.
Abbreviation PV := PresenceView.t.

Class PresenceContract (S : Type) `{RoomPresence S} := {
  rp_wf : S → Prop;
  rp_view : S → PV;
  MemberCount_law : ∀ c r,
    method_law rp_wf rp_view c (MemberCount c r)
      (λ v res v', res = Ok (PresenceView.count v r) ∧ v' = v);
  DeleteRoomPresence_law : ∀ c r,
    method_law rp_wf rp_view c (DeleteRoomPresence c r)
      (λ v res v', res = Ok tt ∧ ∃ p,
         PresenceView.pending v ∖ {[r]} ⊆ p ∧ p ⊆ PresenceView.pending v ∧
         v' = PresenceView.mk (delete r (PresenceView.members v)) p
                (PresenceView.last v) (PresenceView.lock v));
  PendingEmptyRooms_law : ∀ c,
    method_law rp_wf rp_view c (PendingEmptyRooms c)
      (λ v res v', (∃ l, res = Ok l ∧ ∀ r, r ∈ l ↔ r ∈ PresenceView.pending v) ∧ v' = v);
  ClearPendingEmpty_law : ∀ c r,
    method_law rp_wf rp_view c (ClearPendingEmpty c r)
      (λ v res v', res = Ok tt ∧
         v' = PresenceView.set_pending (PresenceView.pending v ∖ {[r]}) v);
  ListRoomsWithMembers_law : ∀ c,
    method_law rp_wf rp_view c (ListRoomsWithMembers c)
      (λ v res v', (∃ l, res = Ok l ∧ ∀ r, r ∈ l ↔ is_Some (PresenceView.members v !! r))
                   ∧ v' = v);
  GetLastRoomCleanupAt_law : ∀ c,
    method_law rp_wf rp_view c (GetLastRoomCleanupAt c)
      (λ v res v', res = Ok (PresenceView.last v) ∧ v' = v);
  (* a backend may keep the time to the millisecond only *)
  SetLastRoomCleanupAt_law : ∀ c t,
    method_law rp_wf rp_view c (SetLastRoomCleanupAt c t)
      (λ v res v', res = Ok tt ∧ ∃ t', t - Millisecond < t' ≤ t ∧
         v' = PresenceView.set_last t' v);
  TryAcquireCleanupLock_law : ∀ c now ttl,
    method_law rp_wf rp_view c (TryAcquireCleanupLock c now ttl)
      (λ v res v', res = Ok (negb (PresenceView.lock v)) ∧
         v' = PresenceView.set_lock true v);
  ReleaseCleanupLock_law : ∀ c,
    method_law rp_wf rp_view c (ReleaseCleanupLock c)
      (λ v res v', res = Ok tt ∧ v' = PresenceView.set_lock false v);
}.

Class RoomStoreContract (S : Type) `{RoomStore S} := {
  st_wf : S → Prop;
  st_view : S → gmap string Room.t;
  RoomList_law : ∀ c opts,
    method_law st_wf st_view c (RoomList c opts)
      (λ v res v', (∃ l n, res = Ok (l, n) ∧
          (∀ room, room ∈ l → v !! Room.ID room = Some room) ∧
          (* a page of at least 50 rooms holds them all when there are at most 50 *)
          (50 ≤ ListRoomsOpts.Limit opts → ListRoomsOpts.Offset opts = 0 →
           ListRoomsOpts.Query opts = "" → ListRoomsOpts.OwnerID opts = "" →
           (size v ≤ 50)%nat → ∀ r room, v !! r = Some room → room ∈ l ∧ Room.ID room = r))
        ∧ v' = v);
  RoomDelete_law : ∀ c r,
    method_law st_wf st_view c (RoomDelete c r)
      (λ v res v', res = (if decide (is_Some (v !! r)) then Ok tt else Err ErrNotFound)
                   ∧ v' = delete r v);
}.

(** A deadline that is not over; the zero time is no deadline. *)
Definition before_deadline (d now : time) : bool := IsZero d || (now <? d).

(** What a session cache whose entries expire by the caller's clock would answer at
    each time: the refresh token of a user ("" for none), whether a token id is
    blacklisted.  Reading may forget what has expired. *)
Definition live_and (c : ctx) (P : Prop) `{Decision P} : bool :=
  match c with Some _ => false | None => bool_decide P end.

Class SessionContract (S : Type) `{SessionCache S} := {
  sc_token : S → time → string → string;
  sc_black : S → time → string → bool;
  SetRefreshToken_law : ∀ c now u tok ttl s, let '(r, s') := SetRefreshToken c now u tok ttl s in
    r = (match c with Some e => Err e | None => Ok tt end) ∧
    (∀ t j, sc_black s' t j = sc_black s t j) ∧
    ∀ t u', sc_token s' t u' =
      if live_and c (u' = u) then (if before_deadline (now + ttl) t then tok else "")
      else sc_token s t u';
  GetRefreshToken_law : ∀ c now u s, let '(r, s') := GetRefreshToken c now u s in
    r = (match c with Some e => Err e | None => Ok (sc_token s now u) end) ∧
    (∀ t j, sc_black s' t j = sc_black s t j) ∧
    ∀ t u', (sc_token s' t u' = "" ∨ sc_token s' t u' = sc_token s t u') ∧
            (now ≤ t → sc_token s' t u' = sc_token s t u');
  DeleteRefreshToken_law : ∀ c u s, let '(r, s') := DeleteRefreshToken c u s in
    r = (match c with Some e => Err e | None => Ok tt end) ∧
    (∀ t j, sc_black s' t j = sc_black s t j) ∧
    ∀ t u', sc_token s' t u' = if live_and c (u' = u) then "" else sc_token s t u';
  BlacklistToken_law : ∀ c now j ttl s, let '(r, s') := BlacklistToken c now j ttl s in
    r = (match c with Some e => Err e | None => Ok tt end) ∧
    (∀ t u, sc_token s' t u = sc_token s t u) ∧
    ∀ t j', sc_black s' t j' =
      if live_and c (j' = j) then before_deadline (now + ttl) t else sc_black s t j';
  IsBlacklisted_law : ∀ c now j s, let '(r, s') := IsBlacklisted c now j s in
    r = (match c with Some e => Err e | None => Ok (sc_black s now j) end) ∧
    (∀ t u, sc_token s' t u = sc_token s t u) ∧
    ∀ t j', now ≤ t → sc_black s' t j' = sc_black s t j';
}.

(** What the use of refresh tokens relies on, whatever fails, expires or is
    forgotten: the token a session cache may give for a user is the last one filed. *)
Class SessionTokens (S : Type) `{SessionCache S} := {
  may_give : S → string → string → Prop;   (* user, token *)
  SetRefreshToken_only : ∀ c now u tok ttl s, let '(r, s') := SetRefreshToken c now u tok ttl s in
    ∀ u' x, may_give s' u' x →
      match r with Ok _ => if decide (u' = u) then x = tok else may_give s u' x | _ => may_give s u' x end;
  GetRefreshToken_only : ∀ c now u s, let '(r, s') := GetRefreshToken c now u s in
    (∀ x, r = Ok x → x = "" ∨ may_give s u x) ∧ ∀ u' x, may_give s' u' x → may_give s u' x;
  DeleteRefreshToken_only : ∀ c u s u' x, may_give (DeleteRefreshToken c u s).2 u' x → may_give s u' x;
  BlacklistToken_only : ∀ c now j ttl s u' x,
    may_give (BlacklistToken c now j ttl s).2 u' x → may_give s u' x;
  IsBlacklisted_only : ∀ c now j s u' x, may_give (IsBlacklisted c now j s).2 u' x → may_give s u' x;
}.

(** The contract by the caller's clock implies it. *)
Definition contract_tokens {S} `{SC : SessionContract S} : SessionTokens S.
Proof.
  refine (Build_SessionTokens S _ (λ s u x, x ≠ "" ∧ ∃ t, sc_token s t u = x) _ _ _ _ _).
  - intros c now u tok ttl s. pose proof (SetRefreshToken_law c now u tok ttl s) as Hlaw.
    destruct (SetRefreshToken _ _ _ _ _ _) as [r s']. destruct Hlaw as (-> & _ & Ht).
    intros u' x [Hx [t Htx]]. rewrite Ht in Htx. destruct c as [e|]; cbn [live_and] in Htx; [by eauto|].
    destruct (decide (u' = u)) as [Hu|Hu].
    + rewrite bool_decide_true in Htx by done. destruct (before_deadline _ _); congruence.
    + rewrite bool_decide_false in Htx by done. split; [done|by exists t].
  - intros c now u s. pose proof (GetRefreshToken_law c now u s) as Hlaw.
    destruct (GetRefreshToken _ _ _ _) as [r s']. destruct Hlaw as (-> & _ & Ht). split.
    + intros x Hx. destruct c as [e|]; [done|]. injection Hx as <-.
      destruct (decide (sc_token s now u = "")); [by left|right; by eauto].
    + intros u' x [Hx [t Htx]]. destruct (Ht t u') as [[E|E] _]; [congruence|]. split; [done|]. exists t. congruence.
  - intros c u s u' x [Hx [t Htx]]. pose proof (DeleteRefreshToken_law c u s) as Hlaw.
    destruct (DeleteRefreshToken _ _ _) as [r s']. destruct Hlaw as (_ & _ & Ht). cbn [snd] in Htx.
    rewrite Ht in Htx. destruct (live_and _ _); [congruence|by eauto].
  - intros c now j ttl s u' x [Hx [t Htx]]. pose proof (BlacklistToken_law c now j ttl s) as Hlaw.
    destruct (BlacklistToken _ _ _ _ _) as [r s']. destruct Hlaw as (_ & Ht & _). cbn [snd] in Htx.
    rewrite Ht in Htx. by eauto.
  - intros c now j s u' x [Hx [t Htx]]. pose proof (IsBlacklisted_law c now j s) as Hlaw.
    destruct (IsBlacklisted _ _ _ _) as [r s']. destruct Hlaw as (_ & Ht & _). cbn [snd] in Htx.
    rewrite Ht in Htx. by eauto.
Defined.

(** A store of accounts with unique ids, whose lookups by name and address ignore
    case as the database's [lower] does.  The laws are for a live context: a store
    may report a failure under another error. *)
Class UserStoreContract (S : Type) `{UserStore S} := {
  us_wf : S → Prop;
  us_view : S → gmap string User.t;
  us_lower : string → string;
  UserGetByID_key : ∀ c id s u s', UserGetByID c id s = (Ok u, s') → User.ID u = id;
  UserGetByID_law : ∀ id,
    method_law us_wf us_view None (UserGetByID None id)
      (λ v res v', res = match v !! id with Some u => Ok u | None => Err ErrNotFound end ∧ v' = v);
  UserGetByUsername_law : ∀ name,
    method_law us_wf us_view None (UserGetByUsername None name)
      (λ v res v', v' = v ∧
         ((∃ u, res = Ok u ∧ v !! User.ID u = Some u ∧
             us_lower (User.Username u) = us_lower name) ∨
          (res = Err ErrNotFound ∧
             ∀ id u, v !! id = Some u → us_lower (User.Username u) ≠ us_lower name)));
  UserGetByEmail_law : ∀ email,
    method_law us_wf us_view None (UserGetByEmail None email)
      (λ v res v', v' = v ∧
         ((∃ u, res = Ok u ∧ v !! User.ID u = Some u ∧
             us_lower (User.Email u) = us_lower email) ∨
          (res = Err ErrNotFound ∧
             ∀ id u, v !! id = Some u → us_lower (User.Email u) ≠ us_lower email)));
  UserCreate_law : ∀ now user,
    method_law us_wf us_view None (UserCreate None now user)
      (λ v res v',
         (∃ u, res = Ok u ∧ v !! User.ID u = None ∧ v' = <[User.ID u := u]> v ∧
            User.Email u = User.Email user ∧ User.Username u = User.Username user ∧
            User.PasswordHash u = User.PasswordHash user ∧
            User.Nickname u = User.Nickname user ∧ User.AvatarURL u = User.AvatarURL user ∧
            User.Role u = (if bool_decide (User.Role user = "") then UserRoleUser
                           else User.Role user)) ∨
         (∃ e, res = Err e ∧ v' = v));
  UserUpdate_law : ∀ now user,
    method_law us_wf us_view None (UserUpdate None now user)
      (λ v res v',
         (* the row keeps the columns the statement does not set *)
         (∃ u old row, res = Ok u ∧ v !! User.ID user = Some old ∧ User.ID u = User.ID user ∧
            User.ID row = User.ID user ∧ User.PasswordHash row = User.PasswordHash user ∧
            User.Email row = User.Email user ∧ User.Username row = User.Username user ∧
            v' = <[User.ID user := row]> v) ∨
         (∃ e, res = Err e ∧ v' = v));
}.

(** What the chat relies on: for each room the messages kept, the newest first,
    the ids whose publication is pending, the one due first in front, and the last
    number given.  A backend may drop the oldest messages beyond the length asked
    for, and answers at most 200 at a time. *)
Module ChatView.
Record t := mk { log : list RoomChatMessage.t; outbox : list string; seq : Z }.
Definition ids (v : t) : list string := RoomChatMessage.StreamID <$> log v.
Definition set_log (l : list RoomChatMessage.t) (v : t) : t := mk l (outbox v) (seq v).
Definition set_outbox (l : list string) (v : t) : t := mk (log v) l (seq v).
Definition set_seq (n : Z) (v : t) : t := mk (log v) (outbox v) n.
Definition empty : t := mk [] [] 0.
End ChatView.
Abbreviation CH := ChatView.t.

Definition page_size (limit : Z) : nat :=
  Z.to_nat (if limit <=? 0 then 50 else if 200 <? limit then 200 else limit).

(** A method works on one room, or reports the context's error. *)
Definition room_law {S A} (wf : S → Prop) (view : S → string → CH) (c : ctx) (r : string)
    (m : SM S A) (post : CH → result A → CH → Prop) : Prop :=
  ∀ s, wf s → let '(x, s') := m s in
    wf s' ∧ (∀ r', r' ≠ r → view s' r' = view s r') ∧
    match c with
    | Some e => x = Err e ∧ view s' r = view s r
    | None => post (view s r) x (view s' r)
    end.
(** A method that changes nothing the contract speaks of. *)
Definition reads_law {S A} (wf : S → Prop) (view : S → string → CH) (m : SM S A) : Prop :=
  ∀ s, wf s → let '(x, s') := m s in
    wf s' ∧ (∀ r, view s' r = view s r) ∧ ∀ h, x ≠ Halt h.

Class RoomChatContract (S : Type) `{RoomChat S} := {
  rc_wf : S → Prop;
  rc_view : S → string → CH;
  rc_distinct : ∀ s r, rc_wf s →
    NoDup (ChatView.ids (rc_view s r)) ∧ NoDup (ChatView.outbox (rc_view s r));
  PendingCount_law : ∀ c r,
    room_law rc_wf rc_view c r (PendingCount c r)
      (λ v x v', x = Ok (Z.of_nat (length (ChatView.outbox v))) ∧ v' = v);
  NextSeq_law : ∀ c r,
    room_law rc_wf rc_view c r (NextSeq c r)
      (λ v x v', let n := ChatView.seq v + 1 in
         (x = Ok n ∧ 0 < n ≤ max_int64 ∧ v' = ChatView.set_seq n v) ∨
         (∃ e, x = Err e ∧ v' = v));
  AppendMessage_law : ∀ c now r n payload maxlen,
    min_int64 ≤ n ≤ max_int64 →
    room_law rc_wf rc_view c r (AppendMessage c now r n payload maxlen)
      (λ v x v', ∃ id k, x = Ok id ∧ (id ∉ ChatView.ids v) ∧
         v' = ChatView.set_log (take k (RoomChatMessage.mk id n payload :: ChatView.log v)) v ∧
         (if 0 <? maxlen then maxlen ≤ Z.of_nat k
          else (length (ChatView.log v) < k)%nat));
  ListMessagesRev_law : ∀ c r before limit,
    room_law rc_wf rc_view c r (ListMessagesRev c r before limit)
      (λ v x v', v' = v ∧ (∀ h, x ≠ Halt h) ∧
         (TrimSpace before = "" → x = Ok (take (page_size limit) (ChatView.log v))) ∧
         (∀ l1 m l2, ChatView.log v = l1 ++ m :: l2 → RoomChatMessage.StreamID m = before →
            TrimSpace before ≠ "" → x = Ok (take (page_size limit) l2)) ∧
         (∀ l, x = Ok l → (length l ≤ page_size limit)%nat));
  GetPayload_law : ∀ c r id,
    room_law rc_wf rc_view c r (GetPayload c r id)
      (λ v x v', v' = v ∧ (∀ h, x ≠ Halt h) ∧
         ∀ m, m ∈ ChatView.log v → RoomChatMessage.StreamID m = id →
           x = Ok (RoomChatMessage.Payload m));
  EnqueuePending_law : ∀ c now r id,
    room_law rc_wf rc_view c r (EnqueuePending c now r id)
      (λ v x v', x = Ok tt ∧ ∃ l1 l2, l1 ++ l2 = filter (λ i, i ≠ id) (ChatView.outbox v) ∧
         v' = ChatView.set_outbox (l1 ++ id :: l2) v);
  RemovePending_law : ∀ c r id,
    room_law rc_wf rc_view c r (RemovePending c r id)
      (λ v x v', x = Ok tt ∧
         v' = ChatView.set_outbox (filter (λ i, i ≠ id) (ChatView.outbox v)) v);
  PendingStreamIDs_law : ∀ c r max,
    room_law rc_wf rc_view c r (PendingStreamIDs c r max)
      (λ v x v', v' = v ∧
         x = Ok (take (Z.to_nat (if max <=? 0 then 50 else max)) (ChatView.outbox v)));
  ChatDeleteRoom_law : ∀ c r,
    room_law rc_wf rc_view c r (DeleteRoom c r)
      (λ v x v', x = Ok tt ∧ v' = ChatView.empty);
  AllowChatSend_law : ∀ c r u n, reads_law rc_wf rc_view (AllowChatSend c r u n);
  ScanPendingRooms_law : ∀ c cursor count, reads_law rc_wf rc_view (ScanPendingRooms c cursor count);
}.

(** A publisher answers or reports an error; it does not panic. *)
Class PublisherContract (S : Type) `{Publisher S} := {
  publish_returns : ∀ c roomID name data s h,
    (PublishRoomMessage c roomID name data s).1 ≠ Halt h;
}.
