(* ===== verification/Service.v ===== *)
(** * The room service's state

    The struct [Service] of [internal/room/hub.go] over any implementation of
    its collaborators, the environment its methods consult (what each look at a
    context answers, the clock readings, the random jitter of the retries) and
    the combinators by which a method calls a collaborator.  Every call and
    every clock reading is one tick, so an environment can cancel a context or
    fail the backend between any two calls.  [events] records, in order, what
    the service does outside its collaborators' states: publications, sleeps
    and the cleanup's log lines. *)

From S2P Require Import Prelude GoNum Model Interfaces.

(** [room.ChatLimits] *)
Module ChatLimits.
Record t := mk {
  StreamMaxLen : Z; AblyPublishRetry : Z; AblyPublishTimeout : Z;
  AblyPendingMax : Z; MaxPayloadBytes : Z; MaxTextRunes : Z; RatePerSecond : Z;
}.
End ChatLimits.

(** The implementations a service is wired with. *)
Class Backend := {
  StatesT : Type; states_ops :: RoomStateCache StatesT;
  PresenceT : Type; presence_ops :: RoomPresence PresenceT;
  RoomsT : Type; rooms_ops :: RoomStore RoomsT;
  AccessT : Type; access_ops :: RoomAccessCache AccessT;
  ChatT : Type; chat_ops :: RoomChat ChatT;
  PubT : Type; pub_ops :: Publisher PubT;
}.

(** The environment, by tick. *)
Class Env := {
  ctx_at : nat → ctx;
  now_at : nat → time;
  jitter_at : nat → Z;
}.

(** One cleaned or skipped room in the log of a cleanup; the age of a room is
    unknown when the listing does not have it. *)
Module CleanupEntry.
(** [emptyRoomCleanupEntry] *)
Record t := mk { roomID : string; existence : option Z; online : Z }.
End CleanupEntry.
Module CleanupTrigger.
(** [emptyRoomCleanupTrigger]; no [lastCleanupAgo] is the first cleanup. *)
Record t := mk {
  lastCleanupAgo : option Z; minInterval : Z; lockAcquired : bool;
  triggeredByGlobal : bool;
}.
Definition zero : t := mk None 0 false false.
End CleanupTrigger.

Inductive event : Type :=
  | EvPublish (roomID name : string) (data : PubData) (res : result unit)
  | EvSleep (d : Z)
  | EvCleaned (e : CleanupEntry.t)
  | EvSkipped (e : CleanupEntry.t)
  | EvCleanupSummary (trigger : CleanupTrigger.t)
      (pendingN activeN dbN candidatesN cleanedN skippedN : nat).

Section service.
Context `{!Backend}.

Record Service := mkService {
  states : StatesT;
  presence : option PresenceT;
  rooms : option RoomsT;
  roomAccess : option AccessT;
  publisher : option PubT;
  roomChat : option ChatT;
  chat : ChatLimits.t;
  tick : nat;
  events : list event;
}.

Definition NewService (st : StatesT) (pr : option PresenceT) (ro : option RoomsT)
    (ac : option AccessT) (pu : option PubT) (ch : option ChatT)
    (limits : ChatLimits.t) : Service :=
  mkService st pr ro ac pu ch limits 0 [].

Definition set_states (x : StatesT) (s : Service) : Service :=
  mkService x (presence s) (rooms s) (roomAccess s) (publisher s) (roomChat s)
    (chat s) (tick s) (events s).
Definition set_presence (x : option PresenceT) (s : Service) : Service :=
  mkService (states s) x (rooms s) (roomAccess s) (publisher s) (roomChat s)
    (chat s) (tick s) (events s).
Definition set_rooms (x : option RoomsT) (s : Service) : Service :=
  mkService (states s) (presence s) x (roomAccess s) (publisher s) (roomChat s)
    (chat s) (tick s) (events s).
Definition set_roomAccess (x : option AccessT) (s : Service) : Service :=
  mkService (states s) (presence s) (rooms s) x (publisher s) (roomChat s)
    (chat s) (tick s) (events s).
Definition set_publisher (x : option PubT) (s : Service) : Service :=
  mkService (states s) (presence s) (rooms s) (roomAccess s) x (roomChat s)
    (chat s) (tick s) (events s).
Definition set_roomChat (x : option ChatT) (s : Service) : Service :=
  mkService (states s) (presence s) (rooms s) (roomAccess s) (publisher s) x
    (chat s) (tick s) (events s).
Definition next_tick (s : Service) : Service :=
  mkService (states s) (presence s) (rooms s) (roomAccess s) (publisher s)
    (roomChat s) (chat s) (S (tick s)) (events s).
Definition add_event (e : event) (s : Service) : Service :=
  mkService (states s) (presence s) (rooms s) (roomAccess s) (publisher s)
    (roomChat s) (chat s) (tick s) (events s ++ [e]).

Context `{!Env}.

(** [s.now()] *)
Definition now : SM Service time := λ s, (Ok (now_at (tick s)), next_tick s).
(** [ctx.Err()] *)
Definition ctx_err : SM Service ctx := λ s, (Ok (ctx_at (tick s)), next_tick s).
Definition jitter : SM Service Z := λ s, (Ok (jitter_at (tick s)), next_tick s).
Definition emit (e : event) : SM Service unit := modify (add_event e).

(** Calls on a collaborator; the clock reading is the tick's.  A call on a nil
    collaborator is a nil dereference, which the nil tests of the code avoid. *)
Definition call_states {A} (m : ctx → time → SM StatesT A) : SM Service A := λ s,
  let '(r, x) := m (ctx_at (tick s)) (now_at (tick s)) (states s) in
  (r, next_tick (set_states x s)).

Definition call_opt {T A} (get : Service → option T) (put : option T → Service → Service)
    (m : ctx → time → SM T A) : SM Service A := λ s,
  match get s with
  | None => (Halt NilDereference, s)
  | Some c => let '(r, x) := m (ctx_at (tick s)) (now_at (tick s)) c in
              (r, next_tick (put (Some x) s))
  end.
Definition call_presence {A} := @call_opt PresenceT A presence set_presence.
Definition call_rooms {A} := @call_opt RoomsT A rooms set_rooms.
Definition call_access {A} := @call_opt AccessT A roomAccess set_roomAccess.
Definition call_chat {A} := @call_opt ChatT A roomChat set_roomChat.

Definition call_publish (roomID name : string) (data : PubData) : SM Service unit := λ s,
  let '(r, s') := call_opt publisher set_publisher
                    (λ c _, PublishRoomMessage c roomID name data) s in
  (r, add_event (EvPublish roomID name data r) s').

(** [x != nil] *)
Definition present {T} (get : Service → option T) : SM Service bool :=
  gets (λ s, match get s with Some _ => true | None => false end).
End service.

(** ** What a call does to the service *)

Section calls.
Context `{!Backend, !Env}.

Lemma wp_present {T A} (get : Service → option T) (k : bool → SM Service A) Q s :
  wp (k (match get s with Some _ => true | None => false end)) Q s →
  wp (has ← present get; k has) Q s.
Proof. done. Qed.

Lemma wp_now {A} (k : time → SM Service A) Q s :
  wp (k (now_at (tick s))) Q (next_tick s) → wp (t ← now; k t) Q s.
Proof. done. Qed.

(** What [method_law] says of one run: the context's error and an unchanged
    view, or the method's work. *)
Definition outcome {V A} (c : ctx) (post : V → result A → V → Prop)
    (v : V) (r : result A) (v' : V) : Prop :=
  match c with Some e => r = Err e ∧ v' = v | None => post v r v' end.

Lemma wp_call_states {V A} (wf : StatesT → Prop) (view : StatesT → V)
    (m : ctx → time → SM StatesT A) post Q s :
  method_law wf view (ctx_at (tick s)) (m (ctx_at (tick s)) (now_at (tick s))) post →
  wf (states s) →
  (∀ r x, wf x → outcome (ctx_at (tick s)) post (view (states s)) r (view x) →
          Q r (next_tick (set_states x s))) →
  wp (call_states m) Q s.
Proof.
  intros Hm Hwf HQ. specialize (Hm (states s) Hwf). unfold wp, call_states.
  destruct (m _ _ (states s)) as [r x]. destruct Hm as [Hx Ho]. by apply HQ.
Qed.

Lemma wp_call_opt {T V A} (wf : T → Prop) (view : T → V) get put
    (m : ctx → time → SM T A) post Q s c :
  get s = Some c →
  method_law wf view (ctx_at (tick s)) (m (ctx_at (tick s)) (now_at (tick s))) post →
  wf c →
  (∀ r x, wf x → outcome (ctx_at (tick s)) post (view c) r (view x) →
          Q r (next_tick (put (Some x) s))) →
  wp (call_opt get put m) Q s.
Proof.
  intros Hc Hm Hwf HQ. specialize (Hm c Hwf). unfold wp, call_opt. rewrite Hc.
  destruct (m _ _ c) as [r x]. destruct Hm as [Hx Ho]. by apply HQ.
Qed.

(** A publication, with what it answered. *)
Lemma wp_publish `{!PublisherContract PubT} roomID name data Q s c :
  publisher s = Some c →
  (∀ x res, (res = Ok tt ∨ ∃ e, res = Err e) →
     Q res (add_event (EvPublish roomID name data res)
              (next_tick (set_publisher (Some x) s)))) →
  wp (call_publish roomID name data) Q s.
Proof.
  intros Hc HQ. unfold wp, call_publish, call_opt. rewrite Hc.
  pose proof (publish_returns (ctx_at (tick s)) roomID name data c) as Hp.
  destruct (PublishRoomMessage _ _ _ _ c) as [res x]. simpl in *. apply HQ.
  destruct res as [[]|e|h]; [by left|right; eauto|by destruct (Hp h)].
Qed.
End calls.
