(* ===== verification/Chat.v ===== *)
(** * Room chat

    [internal/room/chat.go]: sending a message (validation, rate limit, storing
    it in the stream, publishing it with bounded retries, and the outbox of
    messages whose publication was deferred), listing messages, and draining
    the outbox. *)

From S2P Require Import Prelude GoStrings GoNum GoJson Model Interfaces Service.

Module ChatMessage.
(** [room.ChatMessage] *)
Record t := mk {
  Type_ : string; Seq : Z; StreamID : string; RoomID : string; User : HubUser.t;
  Text : string; SentAt : Z;
}.
#[global] Instance eq_dec : EqDecision t.
Proof. solve_decision. Defined.
Definition zero : t := mk "" 0 "" "" HubUser.zero "" 0.
Definition set_Type (x : string) (m : t) : t :=
  mk x (Seq m) (StreamID m) (RoomID m) (User m) (Text m) (SentAt m).
Definition set_Seq (x : Z) (m : t) : t :=
  mk (Type_ m) x (StreamID m) (RoomID m) (User m) (Text m) (SentAt m).
Definition set_StreamID (x : string) (m : t) : t :=
  mk (Type_ m) (Seq m) x (RoomID m) (User m) (Text m) (SentAt m).
Definition set_RoomID (x : string) (m : t) : t :=
  mk (Type_ m) (Seq m) (StreamID m) x (User m) (Text m) (SentAt m).
Definition set_User (x : HubUser.t) (m : t) : t :=
  mk (Type_ m) (Seq m) (StreamID m) (RoomID m) x (Text m) (SentAt m).
Definition set_Text (x : string) (m : t) : t :=
  mk (Type_ m) (Seq m) (StreamID m) (RoomID m) (User m) x (SentAt m).
Definition set_SentAt (x : Z) (m : t) : t :=
  mk (Type_ m) (Seq m) (StreamID m) (RoomID m) (User m) (Text m) x.
End ChatMessage.

(** [room.ChatSendResult] *)
Module ChatSendResult.
Record t := mk { Message : ChatMessage.t; Realtime : string }.
End ChatSendResult.

(** ** The JSON of a message *)

(** [json.Marshal] of the two structs, by the order and the tags of their
    fields; an [omitempty] string is left out when it is empty. *)
Section marshal.
Definition marshal_user (u : HubUser.t) : list Ascii.ascii :=
  braces ([member_str "id" (quote (HubUser.ID u));
           member_str "username" (quote (HubUser.Username u))]
          ++ omitempty "nickname" (HubUser.Nickname u) ++
          [member_str "role" (quote (HubUser.Role u));
           member_str "is_owner" (chars (if HubUser.IsOwner u then "true" else "false"))]).

Definition marshal_chat (m : ChatMessage.t) : string :=
  of_bytes (braces (
    [member_str "type" (quote (ChatMessage.Type_ m));
     member_str "seq" (dec_Z (ChatMessage.Seq m))]
    ++ omitempty "stream_id" (ChatMessage.StreamID m) ++
    [member_str "room_id" (quote (ChatMessage.RoomID m));
     member_str "user" (marshal_user (ChatMessage.User m));
     member_str "text" (quote (ChatMessage.Text m));
     member_str "sent_at" (dec_Z (ChatMessage.SentAt m))])).
End marshal.

(** [json.Unmarshal] into the two structs: the members in order, each into the
    field its key names; unknown keys are skipped. *)
Definition user_fields : list string := ["id"; "username"; "nickname"; "role"; "is_owner"].
Definition user_member (kv : string * json) (u : HubUser.t) : option HubUser.t :=
  let '(key, v) := kv in
  match field_of user_fields key with
  | Some f =>
      if bool_decide (f = "id") then
        x ← into_string v (HubUser.ID u);
        Some (HubUser.mk x (HubUser.Username u) (HubUser.Nickname u) (HubUser.Role u) (HubUser.IsOwner u))
      else if bool_decide (f = "username") then
        x ← into_string v (HubUser.Username u);
        Some (HubUser.mk (HubUser.ID u) x (HubUser.Nickname u) (HubUser.Role u) (HubUser.IsOwner u))
      else if bool_decide (f = "nickname") then
        x ← into_string v (HubUser.Nickname u);
        Some (HubUser.mk (HubUser.ID u) (HubUser.Username u) x (HubUser.Role u) (HubUser.IsOwner u))
      else if bool_decide (f = "role") then
        x ← into_string v (HubUser.Role u);
        Some (HubUser.mk (HubUser.ID u) (HubUser.Username u) (HubUser.Nickname u) x (HubUser.IsOwner u))
      else
        x ← into_bool v (HubUser.IsOwner u);
        Some (HubUser.mk (HubUser.ID u) (HubUser.Username u) (HubUser.Nickname u) (HubUser.Role u) x)
  | None => Some u
  end.

Definition into_user (v : json) (u : HubUser.t) : option HubUser.t :=
  match v with
  | JNull => Some u
  | JObj ms => fold_members user_member ms u
  | _ => None
  end.

Definition chat_fields : list string :=
  ["type"; "seq"; "stream_id"; "room_id"; "user"; "text"; "sent_at"].
Definition chat_member (kv : string * json) (m : ChatMessage.t) : option ChatMessage.t :=
  let '(key, v) := kv in
  match field_of chat_fields key with
  | Some f =>
      if bool_decide (f = "type") then
        x ← into_string v (ChatMessage.Type_ m); Some (ChatMessage.set_Type x m)
      else if bool_decide (f = "seq") then
        x ← into_int64 v (ChatMessage.Seq m); Some (ChatMessage.set_Seq x m)
      else if bool_decide (f = "stream_id") then
        x ← into_string v (ChatMessage.StreamID m); Some (ChatMessage.set_StreamID x m)
      else if bool_decide (f = "room_id") then
        x ← into_string v (ChatMessage.RoomID m); Some (ChatMessage.set_RoomID x m)
      else if bool_decide (f = "user") then
        x ← into_user v (ChatMessage.User m); Some (ChatMessage.set_User x m)
      else if bool_decide (f = "text") then
        x ← into_string v (ChatMessage.Text m); Some (ChatMessage.set_Text x m)
      else
        x ← into_int64 v (ChatMessage.SentAt m); Some (ChatMessage.set_SentAt x m)
  | None => Some m
  end.

(** [json.Unmarshal] of a message into a zero [ChatMessage]; [None] is an error. *)
Definition unmarshal_chat (payload : string) : option ChatMessage.t :=
  match parse payload with
  | Some JNull => Some ChatMessage.zero
  | Some (JObj ms) => fold_members chat_member ms ChatMessage.zero
  | _ => None
  end.

(** ** Operations *)

Definition MessageRoomChat : string := "room.chat".

(** [cache.ParseRoomChatPendingKey] *)
Definition pending_prefix : string := "room:chat:ably_pending:".
Definition ParseRoomChatPendingKey (key : string) : option string :=
  if negb (HasPrefix key pending_prefix) then None
  else Some (TrimPrefix key pending_prefix).

(** The pause after attempt [i]; the products wrap like [int] and [Duration]. *)
Definition backoff (i r : Z) : Z :=
  let b := wrap64 (wrap64 (wrap64 (40 * wrap64 (2 ^ i)) + r) * Millisecond) in
  if 1500 * Millisecond <? b then 1500 * Millisecond else b.

Section operations.
Context `{!Backend, !Env}.

Definition deleteRoomChat (roomID : string) : SM Service unit :=
  has ← present roomChat;
  if (has : bool) then ignore (call_chat (λ c _, DeleteRoom c roomID)) else mret tt.

(** The loop of [publishAblyChat]: [n] attempts are left, [i] were made.  The
    result is [lastErr]. *)
Fixpoint publish_loop (n : nat) (i : Z) (attempts : Z) (roomID : string) (data : PubData)
    (lastErr : option error) : SM Service (option error) :=
  match n with
  | O => mret lastErr
  | S n =>
      err ← ctx_err;
      match err with
      | Some e => mret (Some e)
      | None =>
          r ← attempt (call_publish roomID MessageRoomChat data);
          match r with
          | inl _ => mret None
          | inr e =>
              if i + 1 <? attempts then
                r ← jitter;
                _ ← emit (EvSleep (backoff i r));
                done ← ctx_err;
                match done with
                | Some e => mret (Some e)
                | None => publish_loop n (i + 1) attempts roomID data (Some e)
                end
              else publish_loop n (i + 1) attempts roomID data (Some e)
          end
      end
  end.

Definition publish_attempts (limits : ChatLimits.t) : Z :=
  let attempts := wrap64 (1 + ChatLimits.AblyPublishRetry limits) in
  if attempts <? 1 then 1 else attempts.

Definition publishAblyChat (roomID : string) (data : PubData) : SM Service (option error) :=
  has ← present publisher;
  if negb has then mret None
  else
    limits ← gets chat;
    let attempts := publish_attempts limits in
    publish_loop (Z.to_nat attempts) 0 attempts roomID data None.

Definition SendChat (roomID : string) (sender : HubUser.t) (plain : string)
    : SM Service ChatSendResult.t :=
  has ← present roomChat;
  if negb has then throw ErrChatRequiresRedis
  else
    limits ← gets chat;
    let plain := TrimSpace plain in
    if bool_decide (plain = "") then throw ErrChatTextEmpty
    else if ChatLimits.MaxTextRunes limits <? Z.of_nat (RuneCountInString plain)
    then throw ErrChatTextTooLong
    else
      npend ← call_chat (λ c _, PendingCount c roomID);
      if ChatLimits.AblyPendingMax limits <=? npend then throw ErrChatPendingFull
      else
        ok ← call_chat (λ c _,
          AllowChatSend c roomID (HubUser.ID sender) (ChatLimits.RatePerSecond limits));
        if negb ok then throw ErrChatRateLimited
        else
          seq ← call_chat (λ c _, NextSeq c roomID);
          t ← now;
          let base := ChatMessage.mk "chat" seq "" roomID sender plain (Unix t) in
          let payload := marshal_chat base in
          if ChatLimits.MaxPayloadBytes limits <? len payload
          then throw ErrChatPayloadTooLarge
          else
            streamID ← call_chat (λ c t,
              AppendMessage c t roomID seq payload (ChatLimits.StreamMaxLen limits));
            let out := ChatMessage.set_StreamID streamID base in
            let ablyPayload := marshal_chat out in
            if ChatLimits.MaxPayloadBytes limits <? len ablyPayload then
              _ ← ignore (call_chat (λ c t, EnqueuePending c t roomID streamID));
              mret (ChatSendResult.mk out "deferred")
            else
              pubErr ← publishAblyChat roomID (PubRaw ablyPayload);
              match pubErr with
              | None => mret (ChatSendResult.mk out "ok")
              | Some _ =>
                  _ ← call_chat (λ c t, EnqueuePending c t roomID streamID);
                  mret (ChatSendResult.mk out "deferred")
              end.

(** The messages of the entries that decode, with their stream ids. *)
Definition decode_messages (raw : list RoomChatMessage.t) : list ChatMessage.t :=
  omap (λ m, ChatMessage.set_StreamID (RoomChatMessage.StreamID m) <$>
               unmarshal_chat (RoomChatMessage.Payload m)) raw.

Definition ListChat (roomID beforeID : string) (limit : Z)
    : SM Service (list ChatMessage.t * bool) :=
  has ← present roomChat;
  if negb has then throw ErrChatRequiresRedis
  else
    let limit := if limit <=? 0 then 50 else limit in
    let limit := if 200 <? limit then 200 else limit in
    raw ← call_chat (λ c _, ListMessagesRev c roomID beforeID (limit + 1));
    let hasMore := limit <? Z.of_nat (length raw) in
    let raw := if hasMore then take (Z.to_nat limit) raw else raw in
    mret (decode_messages raw, hasMore).

(** One entry of the outbox. *)
Definition drain_entry (roomID sid : string) : SM Service unit :=
  limits ← gets chat;
  p ← attempt (call_chat (λ c _, GetPayload c roomID sid));
  match p with
  | inr _ => ignore (call_chat (λ c _, RemovePending c roomID sid))
  | inl payload =>
      if bool_decide (TrimSpace payload = "")
      then ignore (call_chat (λ c _, RemovePending c roomID sid))
      else match unmarshal_chat payload with
      | None => ignore (call_chat (λ c _, RemovePending c roomID sid))
      | Some w =>
          let w := ChatMessage.set_StreamID sid w in
          let ablyPayload := marshal_chat w in
          if ChatLimits.MaxPayloadBytes limits <? len ablyPayload then mret tt
          else
            err ← publishAblyChat roomID (PubRaw ablyPayload);
            match err with
            | Some _ => mret tt
            | None => ignore (call_chat (λ c _, RemovePending c roomID sid))
            end
      end
  end.

Fixpoint drain_entries (roomID : string) (ids : list string) : SM Service unit :=
  match ids with
  | [] => mret tt
  | sid :: ids => _ ← drain_entry roomID sid; drain_entries roomID ids
  end.

Definition drainRoomPending (roomID : string) : SM Service unit :=
  ids ← call_chat (λ c _, PendingStreamIDs c roomID 30);
  drain_entries roomID ids.

(** The keys of one page of the scan. *)
Fixpoint drain_keys (keys : list string) : SM Service unit :=
  match keys with
  | [] => mret tt
  | key :: keys =>
      _ ← match ParseRoomChatPendingKey key with
          | None => mret tt
          | Some rid => ignore (drainRoomPending rid)
          end;
      drain_keys keys
  end.

(** The scan goes on until the backend returns the cursor 0. *)
Fixpoint scan_pending (fuel : nat) (cursor : Z) : SM Service unit :=
  match fuel with
  | O => λ s, (Halt OutOfFuel, s)
  | S k =>
      '(keys, next) ← call_chat (λ c _, ScanPendingRooms c cursor 40);
      _ ← drain_keys keys;
      if next =? 0 then mret tt else scan_pending k next
  end.

Definition ProcessGlobalChatPending (fuel : nat) : SM Service unit :=
  hasChat ← present roomChat;
  hasPub ← present publisher;
  if negb hasChat || negb hasPub then mret tt
  else scan_pending fuel 0.
End operations.
