(* ===== verification/ChatWire.v ===== *)
(** * The wire format of chat messages

    What [json.Unmarshal] reads back from [json.Marshal] of a chat message
    ([internal/room/chat.go], [ChatMessage]). *)

From S2P Require Import Prelude GoStrings GoNum GoJson JsonFacts Model Chat.
From Stdlib Require Import Ascii.
#[local] Open Scope N_scope.

(** ** Messages *)

Definition user_rendering (u : HubUser.t) : list rendering :=
  [str_member "id" (HubUser.ID u); str_member "username" (HubUser.Username u)] ++
  opt_member "nickname" (HubUser.Nickname u) ++
  [str_member "role" (HubUser.Role u);
   ("is_owner", JBool (HubUser.IsOwner u), chars (if HubUser.IsOwner u then "true" else "false"))].
Definition chat_rendering (m : ChatMessage.t) : list rendering :=
  [str_member "type" (ChatMessage.Type_ m); int_member "seq" (ChatMessage.Seq m)] ++
  opt_member "stream_id" (ChatMessage.StreamID m) ++
  [str_member "room_id" (ChatMessage.RoomID m);
   ("user", JObj (member_of <$> user_rendering (ChatMessage.User m)), marshal_user (ChatMessage.User m));
   str_member "text" (ChatMessage.Text m); int_member "sent_at" (ChatMessage.SentAt m)].

Lemma marshal_user_text u : marshal_user u = braces (text_of <$> user_rendering u).
Proof. unfold marshal_user, user_rendering. by rewrite !fmap_app, omitempty_text. Qed.
Lemma marshal_chat_text m : to_bytes (marshal_chat m) = braces (text_of <$> chat_rendering m).
Proof.
  unfold marshal_chat, chat_rendering. by rewrite to_of_bytes, !fmap_app, omitempty_text.
Qed.

Lemma user_renders d u : renders (d + 1) (JObj (member_of <$> user_rendering u)) (marshal_user u).
Proof.
  rewrite marshal_user_text. apply renders_object; [done|]. unfold user_rendering. render_members.
Qed.
Lemma chat_renders m : renders 2 (JObj (member_of <$> chat_rendering m)) (to_bytes (marshal_chat m)).
Proof.
  rewrite marshal_chat_text. apply (renders_object 1); [done|]. unfold chat_rendering. render_members.
  apply (user_renders 0).
Qed.

(** What is left of a message whose strings are not all valid UTF-8. *)
Definition clean_user (u : HubUser.t) : HubUser.t :=
  HubUser.mk (clean (HubUser.ID u)) (clean (HubUser.Username u)) (clean (HubUser.Nickname u))
    (clean (HubUser.Role u)) (HubUser.IsOwner u).
Definition clean_message (m : ChatMessage.t) : ChatMessage.t :=
  ChatMessage.mk (clean (ChatMessage.Type_ m)) (ChatMessage.Seq m) (clean (ChatMessage.StreamID m))
    (clean (ChatMessage.RoomID m)) (clean_user (ChatMessage.User m)) (clean (ChatMessage.Text m))
    (ChatMessage.SentAt m).

Lemma into_user_user u : into_user (JObj (member_of <$> user_rendering u)) HubUser.zero = Some (clean_user u).
Proof.
  destruct u as [id name nick role own]. unfold user_rendering, opt_member, clean_user.
  cbn [HubUser.ID HubUser.Username HubUser.Nickname HubUser.Role HubUser.IsOwner].
  case_bool_decide as Hn; [subst nick|]; reflexivity.
Qed.

Lemma chat_type s m :
  chat_member (member_of (str_member "type" s)) m = Some (ChatMessage.set_Type (clean s) m).
Proof. reflexivity. Qed.
Lemma chat_stream s m :
  chat_member (member_of (str_member "stream_id" s)) m = Some (ChatMessage.set_StreamID (clean s) m).
Proof. reflexivity. Qed.
Lemma chat_room s m :
  chat_member (member_of (str_member "room_id" s)) m = Some (ChatMessage.set_RoomID (clean s) m).
Proof. reflexivity. Qed.
Lemma chat_text s m :
  chat_member (member_of (str_member "text" s)) m = Some (ChatMessage.set_Text (clean s) m).
Proof. reflexivity. Qed.
Lemma chat_int z m : (min_int64 ≤ z ≤ max_int64)%Z →
  chat_member (member_of (int_member "seq" z)) m = Some (ChatMessage.set_Seq z m) ∧
  chat_member (member_of (int_member "sent_at" z)) m = Some (ChatMessage.set_SentAt z m).
Proof.
  intros Hz. split.
  - transitivity (x ← parse_int64 (dec_Z z); Some (ChatMessage.set_Seq x m)); [reflexivity|].
    by rewrite (parse_dec_Z z Hz).
  - transitivity (x ← parse_int64 (dec_Z z); Some (ChatMessage.set_SentAt x m)); [reflexivity|].
    by rewrite (parse_dec_Z z Hz).
Qed.
Lemma chat_user u l m :
  ChatMessage.User m = HubUser.zero →
  chat_member (member_of ("user", JObj (member_of <$> user_rendering u), l)) m =
    Some (ChatMessage.set_User (clean_user u) m).
Proof.
  intros Hz. transitivity (x ← into_user (JObj (member_of <$> user_rendering u)) (ChatMessage.User m);
    Some (ChatMessage.set_User x m)); [reflexivity|]. by rewrite Hz, into_user_user.
Qed.

Lemma unmarshal_marshal m :
  in_int64 (ChatMessage.Seq m) → in_int64 (ChatMessage.SentAt m) →
  unmarshal_chat (marshal_chat m) = Some (clean_message m).
Proof.
  intros Hseq Hsent.
  unfold unmarshal_chat. rewrite (parse_renders 2 _ _ (chat_renders m)) by done. cbv iota.
  destruct m as [ty seq sid rid u text sent]. cbn in Hseq, Hsent.
  unfold chat_rendering. cbn [ChatMessage.Type_ ChatMessage.Seq ChatMessage.StreamID
    ChatMessage.RoomID ChatMessage.User ChatMessage.Text ChatMessage.SentAt app].
  rewrite (fold_members_cons _ _ _ _ _ (chat_type _ _)).
  rewrite (fold_members_cons _ _ _ _ _ (proj1 (chat_int _ _ Hseq))).
  rewrite fmap_app, fold_members_app.
  set (m0 := ChatMessage.set_Seq seq _).
  assert (fold_members chat_member (member_of <$> opt_member "stream_id" sid) m0 =
    Some (ChatMessage.set_StreamID (clean sid) m0)) as ->.
  { unfold opt_member. case_bool_decide as Hs; [by subst sid|].
    by rewrite (fold_members_cons _ _ _ _ _ (chat_stream _ _)). }
  cbn [mbind option_bind].
  rewrite (fold_members_cons _ _ _ _ _ (chat_room _ _)).
  erewrite fold_members_cons by (apply chat_user; reflexivity).
  rewrite (fold_members_cons _ _ _ _ _ (chat_text _ _)).
  by rewrite (fold_members_cons _ _ _ _ _ (proj2 (chat_int _ _ Hsent))).
Qed.

(** C30: a chat message read back from the JSON it was stored or published as is
    the message itself, whatever its text; strings that are not valid UTF-8, and
    only those, come back with their invalid bytes replaced. *)
Theorem chat_message_roundtrip m :
  in_int64 (ChatMessage.Seq m) → in_int64 (ChatMessage.SentAt m) →
  unmarshal_chat (marshal_chat m) = Some (clean_message m) ∧
  ((∀ s, s ∈ [ChatMessage.Type_ m; ChatMessage.StreamID m; ChatMessage.RoomID m;
              ChatMessage.Text m; HubUser.ID (ChatMessage.User m);
              HubUser.Username (ChatMessage.User m); HubUser.Nickname (ChatMessage.User m);
              HubUser.Role (ChatMessage.User m)] → ValidString s = true) →
   unmarshal_chat (marshal_chat m) = Some m).
Proof.
  intros Hseq Hsent. pose proof (unmarshal_marshal m Hseq Hsent) as Hm.
  split; [done|]. intros Hv. rewrite Hm. f_equal.
  destruct m as [ty seq sid rid [id name nick role own] text sent].
  unfold clean_message, clean_user.
  cbn [ChatMessage.Type_ ChatMessage.Seq ChatMessage.StreamID ChatMessage.RoomID ChatMessage.User
    ChatMessage.Text ChatMessage.SentAt HubUser.ID HubUser.Username HubUser.Nickname HubUser.Role
    HubUser.IsOwner] in *.
  rewrite !clean_valid by (apply Hv; set_solver). done.
Qed.

(** ** A message of every kind of character *)

Definition sample : ChatMessage.t :=
  ChatMessage.mk "chat" (-7) "1700000000000-0" "r1" (HubUser.mk "u1" "ann" "" "user" true)
    ("<&> \ " +:+ of_bytes (encode_rune 8232 ++ encode_rune 128512 ++ [byte_at 1; byte_at 10]))
    1700000000.

Lemma chat_message_roundtrip_witness :
  unmarshal_chat (marshal_chat sample) = Some sample.
Proof.
  refine (proj2 (chat_message_roundtrip sample _ _) _).
  - split; discriminate.
  - split; discriminate.
  - intros s Hs. repeat (apply elem_of_cons in Hs as [->|Hs]; [vm_compute; reflexivity|]).
    by apply not_elem_of_nil in Hs.
Defined.
