(* ===== verification/MemCaches.v ===== *)
(** * The in-memory caches

    [internal/cache/memory]: the room state cache (Module [MemStates]), the
    private-room access sets ([MemAccess]) and the session cache
    ([MemSessions]).  Every method runs under the mutex of its cache, so it is
    one atomic step; it first returns [ctx.Err()] when that is set. *)

From S2P Require Import Prelude GoNum Model Interfaces.

(** [if err := ctx.Err(); err != nil { return err }; ...] *)
Definition guard_ctx {S A} (c : ctx) (m : SM S A) : SM S A :=
  match c with Some e => throw e | None => m end.

(** A method of a cache whose view is the map it keeps. *)
Lemma method_law_guard {S V A} (wf : S → Prop) (view : S → V) c (m : SM S A) post :
  (∀ s, wf s → let '(r, s') := m s in wf s' ∧ post (view s) r (view s')) →
  method_law wf view c (guard_ctx c m) post.
Proof.
  intros H s Hs. destruct c as [e|]; simpl; [done|].
  specialize (H s Hs). by destruct (m s).
Qed.

Module MemStates.
(** [RoomStateCache.states]; the cached values are copies of the caller's. *)
Record t := mk { states : gmap string RoomState.t }.

Definition New : t := mk ∅.

Definition SetRoomState (c : ctx) (now : time) (roomID : string)
    (state : RoomState.t) : SM t unit :=
  guard_ctx c (λ s,
    let copyState := state in
    let copyState := if IsZero (RoomState.UpdatedAt copyState)
                     then RoomState.set_UpdatedAt now copyState else copyState in
    let copyState := RoomState.set_RoomID roomID copyState in
    (Ok tt, mk (<[roomID := copyState]> (states s)))).

Definition GetRoomState (c : ctx) (roomID : string) : SM t RoomState.t :=
  guard_ctx c (λ s,
    match states s !! roomID with
    | None => (Err ErrNotFound, s)
    | Some state => (Ok state, s)
    end).

Definition DeleteRoomState (c : ctx) (roomID : string) : SM t unit :=
  guard_ctx c (λ s, (Ok tt, mk (delete roomID (states s)))).

#[global] Instance iface : RoomStateCache t := {
  SetRoomState := SetRoomState;
  GetRoomState := GetRoomState;
  DeleteRoomState := DeleteRoomState;
}.

#[global] Instance contract : RoomStateContract t.
Proof.
  refine (Build_RoomStateContract t _ (λ _, True) states _ _ _);
    intros; apply method_law_guard; intros s _; simpl; [done| |done].
  by destruct (states s !! r).
Defined.
End MemStates.

Module MemAccess.
(** [RoomAccess.rooms] *)
Record t := mk { rooms : gmap string (gset string) }.

Definition New : t := mk ∅.

Definition GrantRoomAccess (c : ctx) (roomID userID : string) : SM t unit :=
  guard_ctx c (λ s,
    if bool_decide (roomID = "") || bool_decide (userID = "") then (Ok tt, s)
    else
      let m := match rooms s !! roomID with Some m => m | None => ∅ end in
      (Ok tt, mk (<[roomID := {[userID]} ∪ m]> (rooms s)))).

Definition HasRoomAccess (c : ctx) (roomID userID : string) : SM t bool :=
  guard_ctx c (λ s,
    if bool_decide (roomID = "") || bool_decide (userID = "") then (Ok false, s)
    else match rooms s !! roomID with
    | None => (Ok false, s)
    | Some m => (Ok (bool_decide (userID ∈ m)), s)
    end).

Definition DeleteRoomAccess (c : ctx) (roomID : string) : SM t unit :=
  guard_ctx c (λ s, (Ok tt, mk (delete roomID (rooms s)))).

#[global] Instance iface : RoomAccessCache t := {
  GrantRoomAccess := GrantRoomAccess;
  HasRoomAccess := HasRoomAccess;
  DeleteRoomAccess := DeleteRoomAccess;
}.

#[global] Instance contract : RoomAccessContract t.
Proof.
  refine (Build_RoomAccessContract t _ (λ _, True) rooms _ _ _);
    intros; apply method_law_guard; intros s _; simpl.
  - rewrite !bool_decide_eq_false_2 by done. simpl. by destruct (rooms s !! r).
  - rewrite !bool_decide_eq_false_2 by done. simpl.
    destruct (rooms s !! r); simpl; [done|].
    split; [done|]. split; [|done]. by rewrite bool_decide_eq_false_2 by set_solver.
  - done.
Defined.

#[global] Instance grants : AccessGrants t.
Proof.
  refine (Build_AccessGrants t _ (λ s r u, u ∈ default ∅ (rooms s !! r)) _ _ _).
  - intros [e|] r u s r' u'; simpl; [auto|]. destruct (_ || _); simpl; [auto|].
    destruct (decide (r' = r)) as [->|Hne]; [rewrite lookup_insert_eq|rewrite lookup_insert_ne by done; auto].
    destruct (rooms s !! r); set_solver.
  - intros [e|] r u s; simpl; [done|]. destruct (_ || _); simpl; [done|].
    destruct (rooms s !! r); simpl; split; try done. by intros [= ?%bool_decide_eq_true].
  - intros [e|] r s r' u'; simpl; [auto|]. destruct (decide (r' = r)) as [->|Hne];
      [rewrite lookup_delete_eq; set_solver|by rewrite lookup_delete_ne].
Defined.
End MemAccess.

Module MemSessions.
(** [sessionEntry]: the value with its expiry. *)
Record entry := mk_entry { value : string; expiresAt : time }.
Record t := mk {
  refreshTokens : gmap string entry;
  blacklist : gmap string time;
}.

Definition New : t := mk ∅ ∅.
Definition set_refreshTokens (m : gmap string entry) (s : t) : t := mk m (blacklist s).
Definition set_blacklist (m : gmap string time) (s : t) : t := mk (refreshTokens s) m.

(** [!expiresAt.IsZero() && !expiresAt.After(now)] *)
Definition expired (exp now : time) : bool := negb (IsZero exp) && negb (After exp now).

Definition SetRefreshToken (c : ctx) (now : time) (userID token : string) (ttl : Z)
    : SM t unit :=
  guard_ctx c (λ s,
    (Ok tt, set_refreshTokens
       (<[userID := mk_entry token (time_Add now ttl)]> (refreshTokens s)) s)).

Definition GetRefreshToken (c : ctx) (now : time) (userID : string) : SM t string :=
  guard_ctx c (λ s,
    match refreshTokens s !! userID with
    | None => (Ok "", s)
    | Some e =>
        if expired (expiresAt e) now
        then (Ok "", set_refreshTokens (delete userID (refreshTokens s)) s)
        else (Ok (value e), s)
    end).

Definition DeleteRefreshToken (c : ctx) (userID : string) : SM t unit :=
  guard_ctx c (λ s, (Ok tt, set_refreshTokens (delete userID (refreshTokens s)) s)).

Definition BlacklistToken (c : ctx) (now : time) (jti : string) (ttl : Z) : SM t unit :=
  guard_ctx c (λ s, (Ok tt, set_blacklist (<[jti := time_Add now ttl]> (blacklist s)) s)).

Definition IsBlacklisted (c : ctx) (now : time) (jti : string) : SM t bool :=
  guard_ctx c (λ s,
    match blacklist s !! jti with
    | None => (Ok false, s)
    | Some exp =>
        if expired exp now then (Ok false, set_blacklist (delete jti (blacklist s)) s)
        else (Ok true, s)
    end).

#[global] Instance iface : SessionCache t := {
  SetRefreshToken := SetRefreshToken;
  GetRefreshToken := GetRefreshToken;
  DeleteRefreshToken := DeleteRefreshToken;
  BlacklistToken := BlacklistToken;
  IsBlacklisted := IsBlacklisted;
}.

(** What the entries answer at a time. *)
Definition token_at (s : t) (now : time) (userID : string) : string :=
  match refreshTokens s !! userID with
  | Some e => if before_deadline (expiresAt e) now then value e else ""
  | None => ""
  end.
Definition black_at (s : t) (now : time) (jti : string) : bool :=
  match blacklist s !! jti with Some d => before_deadline d now | None => false end.

Lemma expired_deadline d now : expired d now = negb (before_deadline d now).
Proof. unfold expired, before_deadline, After. by destruct (IsZero d), (now <? d). Qed.
Lemma before_deadline_mono d now now' :
  before_deadline d now = false → now ≤ now' → before_deadline d now' = false.
Proof.
  unfold before_deadline. destruct (IsZero d); [done|]. intros Hd Hle. simpl in *.
  apply Z.ltb_ge in Hd. apply Z.ltb_ge. lia.
Qed.

#[global] Instance sessions_contract : SessionContract t.
Proof.
  refine (Build_SessionContract t _ token_at black_at _ _ _ _ _); unfold token_at, black_at.
  - intros [e|] now u tok ttl s; simpl; (split; [done|]); (split; [done|]); intros t u'.
    + done.
    + destruct (decide (u' = u)) as [->|Hne].
      * rewrite bool_decide_true by done. by rewrite lookup_insert_eq.
      * rewrite bool_decide_false by done. by rewrite lookup_insert_ne.
  - intros [e|] now u s; simpl; [by auto|]. destruct (refreshTokens s !! u) as [e|] eqn:E; [|by auto].
    rewrite expired_deadline. destruct (before_deadline (expiresAt e) now) eqn:Hd; simpl; [by auto|].
    split; [done|]. split; [done|]. intros t u'. destruct (decide (u' = u)) as [->|Hne].
    + rewrite lookup_delete_eq, E. split; [by left|]. intros Hle.
      by rewrite (before_deadline_mono _ _ _ Hd Hle).
    + rewrite lookup_delete_ne by done. by auto.
  - intros [e|] u s; simpl; (split; [done|]); (split; [done|]); intros t u'.
    + done.
    + destruct (decide (u' = u)) as [->|Hne].
      * rewrite bool_decide_true by done. by rewrite lookup_delete_eq.
      * rewrite bool_decide_false by done. by rewrite lookup_delete_ne.
  - intros [e|] now j ttl s; simpl; (split; [done|]); (split; [done|]); intros t j'.
    + done.
    + destruct (decide (j' = j)) as [->|Hne].
      * rewrite bool_decide_true by done. by rewrite lookup_insert_eq.
      * rewrite bool_decide_false by done. by rewrite lookup_insert_ne.
  - intros [e|] now j s; simpl; [by auto|]. destruct (blacklist s !! j) as [d|] eqn:E; [|by auto].
    rewrite expired_deadline. destruct (before_deadline d now) eqn:Hd; simpl; [by auto|].
    split; [done|]. split; [done|]. intros t j' Hle. destruct (decide (j' = j)) as [->|Hne].
    + rewrite lookup_delete_eq, E. by rewrite (before_deadline_mono _ _ _ Hd Hle).
    + by rewrite lookup_delete_ne by done.
Defined.
#[global] Instance sessions_tokens : SessionTokens t := contract_tokens.
End MemSessions.
