(* ===== verification/MemPresence.v ===== *)
(** * The in-memory room presence

    [internal/cache/memory/room_presence.go].  The presence keeps three
    redundant indexes (members by room, room by user, active rooms) and the set
    of rooms that became empty.  Module [MemPresence] has the methods as the code
    writes them; Module [Located] is the abstract specification, one map from a
    user to the room the user is in; the refinement theorem relates the two. *)

From S2P Require Import Prelude GoNum Model Interfaces MemCaches.

(** The order in which Go ranges over a map is unspecified: an arbitrary
    permutation of the keys. *)
Class MapRange := {
  range_order : list string → list string;
  range_perm : ∀ l, range_order l ≡ₚ l;
}.

Module MemPresence.
Record t := mk {
  members : gmap string (gmap string string);   (* roomID -> userID -> username *)
  userRoom : gmap string string;                (* userID -> roomID *)
  activeRooms : gset string;
  pendingEmpty : gset string;
  lastCleanupAt : time;
  cleanupLock : bool;
  lockTimers : list time;   (* goroutines sleeping until they reset the lock *)
}.

Definition set_members (x : gmap string (gmap string string)) (p : t) : t :=
  mk x (userRoom p) (activeRooms p) (pendingEmpty p) (lastCleanupAt p)
     (cleanupLock p) (lockTimers p).
Definition set_userRoom (x : gmap string string) (p : t) : t :=
  mk (members p) x (activeRooms p) (pendingEmpty p) (lastCleanupAt p)
     (cleanupLock p) (lockTimers p).
Definition set_activeRooms (x : gset string) (p : t) : t :=
  mk (members p) (userRoom p) x (pendingEmpty p) (lastCleanupAt p)
     (cleanupLock p) (lockTimers p).
Definition set_pendingEmpty (x : gset string) (p : t) : t :=
  mk (members p) (userRoom p) (activeRooms p) x (lastCleanupAt p)
     (cleanupLock p) (lockTimers p).
Definition set_lastCleanupAt (x : time) (p : t) : t :=
  mk (members p) (userRoom p) (activeRooms p) (pendingEmpty p) x
     (cleanupLock p) (lockTimers p).
Definition set_lock (b : bool) (timers : list time) (p : t) : t :=
  mk (members p) (userRoom p) (activeRooms p) (pendingEmpty p) (lastCleanupAt p)
     b timers.

Definition New : t := mk ∅ ∅ ∅ ∅ zero_time false [].

(** [removeMemberLocked]; reading a missing key of [userRoom] gives "". *)
Definition removeMemberLocked (roomID userID : string) (p : t) : t :=
  match members p !! roomID with
  | None => p
  | Some m =>
      let m := delete userID m in
      let p := set_members (<[roomID := m]> (members p)) p in
      let p :=
        if bool_decide (size m = 0%nat) then
          let p := set_members (delete roomID (members p)) p in
          let p := set_activeRooms (activeRooms p ∖ {[roomID]}) p in
          set_pendingEmpty ({[roomID]} ∪ pendingEmpty p) p
        else p in
      if bool_decide (default "" (userRoom p !! userID) = roomID)
      then set_userRoom (delete userID (userRoom p)) p
      else p
  end.

Definition JoinRoom (c : ctx) (roomID userID username : string) : SM t string :=
  guard_ctx c (λ p,
    let '(leftRoomID, p) :=
      match userRoom p !! userID with
      | Some prev =>
          if bool_decide (prev ≠ roomID)
          then (prev, removeMemberLocked prev userID p)
          else ("", p)
      | None => ("", p)
      end in
    let m := match members p !! roomID with Some m => m | None => ∅ end in
    let p := set_members (<[roomID := <[userID := username]> m]> (members p)) p in
    let p := set_userRoom (<[userID := roomID]> (userRoom p)) p in
    let p := set_activeRooms ({[roomID]} ∪ activeRooms p) p in
    let p := set_pendingEmpty (pendingEmpty p ∖ {[roomID]}) p in
    (Ok leftRoomID, p)).

Definition LeaveRoom (c : ctx) (roomID userID : string) : SM t unit :=
  guard_ctx c (λ p, (Ok tt, removeMemberLocked roomID userID p)).

Definition RemoveMember (c : ctx) (roomID userID : string) : SM t unit :=
  LeaveRoom c roomID userID.

Definition ListMembers `{!MapRange} (c : ctx) (roomID : string)
    : SM t (list RoomMember.t) :=
  guard_ctx c (λ p,
    match members p !! roomID with
    | None => (Ok [], p)
    | Some m =>
        (Ok ((λ uid, RoomMember.mk uid (default "" (m !! uid))) <$>
             range_order (elements (dom m))), p)
    end).

Definition MemberCount (c : ctx) (roomID : string) : SM t Z :=
  guard_ctx c (λ p,
    match members p !! roomID with
    | Some m => (Ok (Z.of_nat (size m)), p)
    | None => (Ok 0, p)
    end).

Definition GetUserRoom (c : ctx) (userID : string) : SM t string :=
  guard_ctx c (λ p, (Ok (default "" (userRoom p !! userID)), p)).

Definition DeleteRoomPresence (c : ctx) (roomID : string) : SM t unit :=
  guard_ctx c (λ p,
    match members p !! roomID with
    | None => (Ok tt, p)
    | Some m =>
        (* for uid := range m: each iteration drops one key, in any order *)
        let ur := foldr (λ uid ur,
            if bool_decide (default "" (ur !! uid) = roomID) then delete uid ur else ur)
          (userRoom p) (elements (dom m)) in
        let p := set_userRoom ur p in
        let p := set_members (delete roomID (members p)) p in
        let p := set_activeRooms (activeRooms p ∖ {[roomID]}) p in
        let p := set_pendingEmpty (pendingEmpty p ∖ {[roomID]}) p in
        (Ok tt, p)
    end).

Definition PendingEmptyRooms `{!MapRange} (c : ctx) : SM t (list string) :=
  guard_ctx c (λ p, (Ok (range_order (elements (pendingEmpty p))), p)).

Definition ClearPendingEmpty (c : ctx) (roomID : string) : SM t unit :=
  guard_ctx c (λ p, (Ok tt, set_pendingEmpty (pendingEmpty p ∖ {[roomID]}) p)).

Definition GetLastRoomCleanupAt (c : ctx) : SM t time :=
  guard_ctx c (λ p, (Ok (lastCleanupAt p), p)).

Definition SetLastRoomCleanupAt (c : ctx) (now : time) : SM t unit :=
  guard_ctx c (λ p, (Ok tt, set_lastCleanupAt now p)).

Definition TryAcquireCleanupLock (c : ctx) (now : time) (ttl : Z) : SM t bool :=
  guard_ctx c (λ p,
    if cleanupLock p then (Ok false, p)
    else (Ok true, set_lock true (time_Add now ttl :: lockTimers p) p)).

(** The goroutine started by [TryAcquireCleanupLock] wakes up. *)
Definition lock_timer_fires (deadline : time) (p : t) : t :=
  set_lock false (filter (λ d, d ≠ deadline) (lockTimers p)) p.

Definition ReleaseCleanupLock (c : ctx) : SM t unit :=
  guard_ctx c (λ p, (Ok tt, set_lock false (lockTimers p) p)).

Definition ListRoomsWithMembers `{!MapRange} (c : ctx) : SM t (list string) :=
  guard_ctx c (λ p, (Ok (range_order (elements (activeRooms p))), p)).

#[global] Instance iface `{!MapRange} : RoomPresence t := {
  JoinRoom := JoinRoom;
  LeaveRoom := LeaveRoom;
  RemoveMember := RemoveMember;
  ListMembers := ListMembers;
  MemberCount := MemberCount;
  GetUserRoom := GetUserRoom;
  DeleteRoomPresence := DeleteRoomPresence;
  PendingEmptyRooms := PendingEmptyRooms;
  ClearPendingEmpty := ClearPendingEmpty;
  GetLastRoomCleanupAt := GetLastRoomCleanupAt;
  SetLastRoomCleanupAt := SetLastRoomCleanupAt;
  TryAcquireCleanupLock := TryAcquireCleanupLock;
  ReleaseCleanupLock := ReleaseCleanupLock;
  ListRoomsWithMembers := ListRoomsWithMembers;
}.
End MemPresence.
Import MemPresence.

(** ** Well-formedness: the indexes agree *)

(** The name under which [u] is a member of [r]. *)
Definition member (p : t) (r u : string) : option string := members p !! r ≫= (.!! u).

Record wf (p : t) : Prop := {
  wf_nonempty : ∀ r m, members p !! r = Some m → m ≠ ∅;
  wf_userRoom : ∀ u r, userRoom p !! u = Some r ↔ is_Some (member p r u);
  wf_active : ∀ r, r ∈ activeRooms p ↔ is_Some (members p !! r);
  wf_pending : ∀ r, r ∈ pendingEmpty p → members p !! r = None;
}.

Lemma wf_New : wf New.
Proof.
  split; unfold member; simpl.
  - intros r m. by rewrite lookup_empty.
  - intros u r. rewrite !lookup_empty. simpl. split; [done|by intros []].
  - intros r. rewrite lookup_empty. split; [set_solver|by intros []].
  - set_solver.
Qed.

Lemma member_unique p r1 r2 u :
  wf p → is_Some (member p r1 u) → is_Some (member p r2 u) → r1 = r2.
Proof.
  intros Hwf H1%(wf_userRoom p Hwf) H2%(wf_userRoom p Hwf). congruence.
Qed.

(** Effect of [removeMemberLocked] on membership. *)
Lemma member_remove p r u r' u' :
  member (removeMemberLocked r u p) r' u' =
  if decide (r' = r ∧ u' = u) then None else member p r' u'.
Proof.
  unfold member, removeMemberLocked.
  destruct (members p !! r) as [m|] eqn:Hm.
  2:{ case_decide as Hd; [|done]. destruct Hd as [-> ->]. by rewrite Hm. }
  assert (∀ q, members (if bool_decide (default "" (userRoom q !! u) = r)
    then set_userRoom (delete u (userRoom q)) q else q) = members q) as ->
    by (intros; by case_bool_decide).
  case_bool_decide as Hsz; simpl.
  - apply map_size_empty_inv in Hsz.
    destruct (decide (r' = r)) as [->|Hr]; simplify_map_eq.
    + case_decide as Hd; [done|]. assert (u' ≠ u) by naive_solver.
      rewrite <- (lookup_delete_ne m u u') by done. by rewrite Hsz, lookup_empty.
    + rewrite decide_False by naive_solver. done.
  - destruct (decide (r' = r)) as [->|Hr]; simplify_map_eq.
    + destruct (decide (u' = u)) as [->|Hu]; simplify_map_eq.
      * done.
      * by rewrite decide_False by naive_solver.
    + by rewrite decide_False by naive_solver.
Qed.

Lemma userRoom_remove p r u u' :
  wf p → userRoom (removeMemberLocked r u p) !! u' =
  if decide (u' = u ∧ userRoom p !! u = Some r) then None else userRoom p !! u'.
Proof.
  intros Hwf. unfold removeMemberLocked.
  destruct (members p !! r) as [m|] eqn:Hm.
  2:{ case_decide as Hd; [|done]. destruct Hd as [-> Hu].
      apply (wf_userRoom p Hwf) in Hu as [n Hn]. unfold member in Hn.
      by rewrite Hm in Hn. }
  set (q := if bool_decide (size (delete u m) = 0%nat) then _ else _).
  assert (userRoom q = userRoom p) as Hq by (subst q; by case_bool_decide).
  clearbody q. case_bool_decide as Hd; simpl; rewrite Hq in *.
  - destruct (decide (u' = u)) as [->|]; simplify_map_eq.
    + destruct (userRoom p !! u) as [r0|] eqn:E; simpl in *; case_decide; naive_solver.
    + by rewrite decide_False by naive_solver.
  - rewrite decide_False; [done|]. intros [-> H]. rewrite H in Hd. done.
Qed.

Lemma members_remove_Some p r u r' m' :
  members (removeMemberLocked r u p) !! r' = Some m' →
  (r' ≠ r ∧ members p !! r' = Some m') ∨
  (r' = r ∧ ∃ m, members p !! r = Some m ∧ m' = delete u m ∧ m' ≠ ∅).
Proof.
  unfold removeMemberLocked. destruct (members p !! r) as [m|] eqn:Hm.
  2:{ intros H. left. split; [congruence|done]. }
  assert (∀ q, members (if bool_decide (default "" (userRoom q !! u) = r)
    then set_userRoom (delete u (userRoom q)) q else q) = members q) as ->
    by (intros; by case_bool_decide).
  case_bool_decide as Hsz; simpl; destruct (decide (r' = r)) as [->|]; simplify_map_eq;
    try (by eauto).
  intros H. apply (inj Some) in H. right. split; [done|]. exists m. subst m'. split_and!; [done..|].
  intros E. by rewrite E in Hsz.
Qed.

(** Which rooms have members, are active or pending after a removal: only the
    room itself changes, from populated to pending when it loses its last
    member. *)
Lemma remove_rooms p r u :
  wf p → let p' := removeMemberLocked r u p in
  (∀ r', r' ≠ r → members p' !! r' = members p !! r') ∧
  ((members p' = members p ∧ activeRooms p' = activeRooms p ∧ pendingEmpty p' = pendingEmpty p
    ∧ members p !! r = None) ∨
   (is_Some (members p' !! r) ∧ activeRooms p' = activeRooms p
    ∧ pendingEmpty p' = pendingEmpty p ∧ is_Some (members p !! r)) ∨
   (members p' !! r = None ∧ activeRooms p' = activeRooms p ∖ {[r]}
    ∧ pendingEmpty p' = {[r]} ∪ pendingEmpty p ∧ is_Some (members p !! r))).
Proof.
  intros Hwf p'. subst p'. unfold removeMemberLocked.
  destruct (members p !! r) as [m|] eqn:Hm; [|by split; [|left]].
  set (q := if bool_decide (size (delete u m) = 0%nat) then _ else _).
  assert (∀ A (f : t → A), (∀ x q, f (set_userRoom x q) = f q) →
    f (if bool_decide (default "" (userRoom q !! u) = r)
       then set_userRoom (delete u (userRoom q)) q else q) = f q) as Hf
    by (intros A f H; case_bool_decide; by rewrite ?H).
  rewrite !(Hf _ members), (Hf _ activeRooms), (Hf _ pendingEmpty) by done.
  clear Hf. subst q. case_bool_decide; simpl; split;
    try (by intros r' Hr; simplify_map_eq).
  - right; right. by simplify_map_eq.
  - right; left. by simplify_map_eq.
Qed.

Lemma wf_remove p r u : wf p → wf (removeMemberLocked r u p).
Proof.
  intros Hwf. pose proof (remove_rooms p r u Hwf) as [Hother Hr]. split.
  - intros r' m' [[_ H]|(_ & _ & _ & _ & H)]%members_remove_Some; [|done].
    by eapply wf_nonempty.
  - intros u' r'. rewrite userRoom_remove, member_remove by done.
    destruct (decide (u' = u ∧ userRoom p !! u = Some r)) as [[-> Hu]|Hn].
    + split; [done|]. case_decide as Hd; [by intros []|]. intros H.
      apply (wf_userRoom p Hwf) in H. naive_solver.
    + rewrite (wf_userRoom p Hwf). case_decide as Hd; [|done].
      destruct Hd as [-> ->]. split; [|by intros []].
      intros H. apply (wf_userRoom p Hwf) in H. naive_solver.
  - intros r'. destruct (decide (r' = r)) as [->|Hne].
    + destruct Hr as [(HM & HA & _ & _)|[(HM & HA & _ & HS)|(HM & HA & _ & _)]].
      * rewrite HA, HM. by apply wf_active.
      * rewrite HA, (wf_active p Hwf). done.
      * rewrite HA, HM. split; [set_solver|by intros []].
    + rewrite Hother by done. rewrite <- (wf_active p Hwf r').
      destruct Hr as [(_ & -> & _)|[(_ & -> & _)|(_ & -> & _)]]; set_solver.
  - intros r' Hin. destruct (decide (r' = r)) as [->|Hne].
    + destruct Hr as [(HM & _ & HP & _)|[(_ & _ & HP & HS)|(HM & _)]]; [| |done].
      * rewrite HM. rewrite HP in Hin. by apply (wf_pending p Hwf).
      * rewrite HP in Hin. apply (wf_pending p Hwf) in Hin. rewrite Hin in HS.
        by destruct HS.
    + rewrite Hother by done. apply (wf_pending p Hwf).
      destruct Hr as [(_ & _ & HP & _)|[(_ & _ & HP & _)|(_ & _ & HP & _)]];
        rewrite HP in Hin; set_solver.
Qed.

(** The second half of [JoinRoom], once the user has left any other room. *)
Definition add_member (r u n : string) (p : t) : t :=
  let m := match members p !! r with Some m => m | None => ∅ end in
  let p := set_members (<[r := <[u := n]> m]> (members p)) p in
  let p := set_userRoom (<[u := r]> (userRoom p)) p in
  let p := set_activeRooms ({[r]} ∪ activeRooms p) p in
  set_pendingEmpty (pendingEmpty p ∖ {[r]}) p.

Definition left_room (r u : string) (p : t) : string :=
  match userRoom p !! u with
  | Some prev => if bool_decide (prev ≠ r) then prev else ""
  | None => ""
  end.

Definition leave_other (r u : string) (p : t) : t :=
  match userRoom p !! u with
  | Some prev => if bool_decide (prev ≠ r) then removeMemberLocked prev u p else p
  | None => p
  end.

Lemma JoinRoom_live r u n p :
  JoinRoom None r u n p = (Ok (left_room r u p), add_member r u n (leave_other r u p)).
Proof.
  unfold JoinRoom, left_room, leave_other. simpl.
  destruct (userRoom p !! u) as [prev|]; [|done]. by case_bool_decide.
Qed.

Lemma wf_leave_other r u p : wf p → wf (leave_other r u p).
Proof.
  intros Hwf. unfold leave_other. destruct (userRoom p !! u); [|done].
  case_bool_decide; [by apply wf_remove|done].
Qed.

(** After leaving, the user is in no room but possibly [r]. *)
Lemma member_leave_other r u p r' u' :
  wf p → member (leave_other r u p) r' u' =
  if decide (u' = u ∧ r' ≠ r) then None else member p r' u'.
Proof.
  intros Hwf. unfold leave_other.
  assert (∀ r0, userRoom p !! u ≠ Some r0 → member p r0 u = None) as Hn.
  { intros r0 H. destruct (member p r0 u) eqn:E; [|done]. exfalso. apply H.
    apply (wf_userRoom p Hwf). eauto. }
  destruct (decide (u' = u)) as [->|Hu].
  2:{ rewrite decide_False by naive_solver. destruct (userRoom p !! u); [|done].
      case_bool_decide; [|done]. rewrite member_remove.
      by rewrite decide_False by naive_solver. }
  destruct (userRoom p !! u) as [prev|] eqn:E.
  - case_bool_decide as Hd; [rewrite member_remove|]; repeat case_decide;
      naive_solver.
  - case_decide; naive_solver.
Qed.

Lemma member_add p r u n r' u' :
  member (add_member r u n p) r' u' =
  if decide (r' = r ∧ u' = u) then Some n else member p r' u'.
Proof.
  unfold member, add_member. simpl. destruct (decide (r' = r)) as [->|]; simplify_map_eq.
  - destruct (decide (u' = u)) as [->|]; simplify_map_eq.
    + done.
    + rewrite decide_False by naive_solver. by destruct (members p !! r).
  - by rewrite decide_False by naive_solver.
Qed.

Lemma wf_add_member p r u n :
  wf p → (∀ r', r' ≠ r → member p r' u = None) → wf (add_member r u n p).
Proof.
  intros Hwf Hn. split.
  - intros r' m. simpl. destruct (decide (r' = r)) as [->|]; simplify_map_eq.
    + intros [= <-]. apply insert_non_empty.
    + by apply wf_nonempty.
  - intros u' r'. rewrite member_add. simpl.
    destruct (decide (u' = u)) as [->|]; simplify_map_eq.
    + case_decide as Hd; [naive_solver|]. assert (r' ≠ r) by naive_solver.
      rewrite Hn by done. split; [naive_solver|by intros []].
    + rewrite (wf_userRoom p Hwf). by rewrite decide_False by naive_solver.
  - intros r'. simpl. destruct (decide (r' = r)) as [->|]; simplify_map_eq.
    + split; [eauto|set_solver].
    + rewrite <- (wf_active p Hwf r'). set_solver.
  - intros r'. simpl. intros [Hin Hne]%elem_of_difference.
    rewrite lookup_insert_ne by set_solver. by apply (wf_pending p Hwf).
Qed.

Lemma wf_Join r u n p : wf p → wf (add_member r u n (leave_other r u p)).
Proof.
  intros Hwf. apply wf_add_member; [by apply wf_leave_other|].
  intros r' Hr. rewrite member_leave_other by done. by rewrite decide_True.
Qed.

Lemma member_Join p r u n r' u' :
  wf p → member (add_member r u n (leave_other r u p)) r' u' =
  if decide (u' = u) then (if decide (r' = r) then Some n else None) else member p r' u'.
Proof.
  intros Hwf. rewrite member_add, member_leave_other by done.
  repeat case_decide; naive_solver.
Qed.

(** ** Deleting a room *)

Definition drop_users (r : string) (uids : list string) (ur : gmap string string) :=
  foldr (λ uid ur,
    if bool_decide (default "" (ur !! uid) = r) then delete uid ur else ur) ur uids.

Lemma drop_users_lookup r uids ur u :
  drop_users r uids ur !! u =
  if decide (u ∈ uids ∧ default "" (ur !! u) = r) then None else ur !! u.
Proof.
  induction uids as [|uid uids IH]; [done|].
  change (drop_users r (uid :: uids) ur) with
    (if bool_decide (default "" (drop_users r uids ur !! uid) = r)
     then delete uid (drop_users r uids ur) else drop_users r uids ur).
  destruct (decide (u = uid)) as [->|Hne].
  - case_bool_decide as Hd; [rewrite lookup_delete_eq|]; rewrite IH in *;
      repeat case_decide; set_unfold; naive_solver.
  - assert ((if bool_decide (default "" (drop_users r uids ur !! uid) = r)
             then delete uid (drop_users r uids ur) else drop_users r uids ur) !! u =
            drop_users r uids ur !! u) as ->
      by (case_bool_decide; [by rewrite lookup_delete_ne|done]).
    rewrite IH. repeat case_decide; set_unfold; naive_solver.
Qed.

Definition delete_presence (r : string) (p : t) : t := (DeleteRoomPresence None r p).2.

Lemma DeleteRoomPresence_live r p :
  DeleteRoomPresence None r p = (Ok tt, delete_presence r p).
Proof.
  unfold delete_presence, DeleteRoomPresence. simpl. by destruct (members p !! r).
Qed.

Lemma members_delete_presence r p :
  members (delete_presence r p) = delete r (members p).
Proof.
  unfold delete_presence, DeleteRoomPresence. simpl.
  destruct (members p !! r) eqn:E; simpl; [done|]. by rewrite delete_id.
Qed.

Lemma member_delete_presence r p r' u :
  member (delete_presence r p) r' u = if decide (r' = r) then None else member p r' u.
Proof.
  unfold member. rewrite members_delete_presence.
  case_decide; simplify_map_eq; done.
Qed.

Lemma userRoom_delete_presence r p u :
  wf p → userRoom (delete_presence r p) !! u =
  if decide (userRoom p !! u = Some r) then None else userRoom p !! u.
Proof.
  intros Hwf. pose proof (wf_userRoom p Hwf u r) as Hu. unfold member in Hu.
  unfold delete_presence, DeleteRoomPresence. simpl.
  destruct (members p !! r) as [m|] eqn:Hm; simpl in *.
  - fold (drop_users r (elements (dom m)) (userRoom p)). rewrite drop_users_lookup.
    pose proof (elem_of_elements (dom m) u) as Hin. rewrite elem_of_dom in Hin.
    destruct (userRoom p !! u) as [r0|]; simpl in *; repeat case_decide; naive_solver.
  - rewrite decide_False; [done|]. rewrite Hu. by intros [].
Qed.

Lemma wf_delete_presence r p : wf p → wf (delete_presence r p).
Proof.
  intros Hwf. split.
  - intros r' m. rewrite members_delete_presence.
    intros [_ H]%lookup_delete_Some. by eapply wf_nonempty.
  - intros u r'. rewrite userRoom_delete_presence, member_delete_presence by done.
    pose proof (wf_userRoom p Hwf u r') as Hu. revert Hu.
    repeat case_decide; subst; try done; try naive_solver.
    all: split; [done|by intros []].
  - intros r'. rewrite members_delete_presence.
    unfold delete_presence, DeleteRoomPresence. simpl.
    destruct (members p !! r) eqn:E; simpl.
    + destruct (decide (r' = r)) as [->|]; simplify_map_eq.
      * split; [set_solver|by intros []].
      * rewrite <- (wf_active p Hwf). set_solver.
    + rewrite delete_id by done. apply (wf_active p Hwf).
  - intros r'. rewrite members_delete_presence.
    unfold delete_presence, DeleteRoomPresence. simpl.
    destruct (members p !! r) eqn:E; simpl.
    + intros [H%(wf_pending p Hwf) _]%elem_of_difference.
      apply lookup_delete_None. by right.
    + rewrite delete_id by done. apply (wf_pending p Hwf).
Qed.

(** ** The abstract specification *)

Module Located.
(** Each user is in at most one room, under one name. *)
Abbreviation t := (gmap string (string * string)).

Definition Join (r u n : string) (A : t) : string * t :=
  (match A !! u with
   | Some (prev, _) => if decide (prev = r) then "" else prev
   | None => ""
   end, <[u := (r, n)]> A).
Definition Leave (r u : string) (A : t) : t :=
  if decide (fst <$> A !! u = Some r) then delete u A else A.
Definition Delete (r : string) (A : t) : t := filter (λ kv, kv.2.1 ≠ r) A.
Definition InRoom (r : string) (A : t) : gmap string string :=
  snd <$> filter (λ kv, kv.2.1 = r) A.
Definition RoomOf (u : string) (A : t) : string := default "" (fst <$> A !! u).
Definition Rooms (A : t) : gset string :=
  list_to_set ((λ kv, kv.2.1) <$> map_to_list A).
End Located.

(** The calls a client makes, and what they answer. *)
Inductive call : Type :=
  | CJoin (r u n : string) | CLeave (r u : string) | CRemove (r u : string)
  | CDelete (r : string) | CClearPending (r : string)
  | CMembers (r : string) | CCount (r : string) | CRoomOf (u : string) | CRooms.
Inductive answer : Type :=
  | AFail (e : error) | AHalt (h : halt) | ADone | ARoom (r : string) | ACount (n : Z)
  | AMembers (l : list RoomMember.t) | ARooms (l : list string).

(** Listings may come in any order. *)
Inductive answer_agree : answer → answer → Prop :=
  | agree_same a : answer_agree a a
  | agree_members l l' : l ≡ₚ l' → answer_agree (AMembers l) (AMembers l')
  | agree_rooms l l' : l ≡ₚ l' → answer_agree (ARooms l) (ARooms l').

Definition answered {S A} (f : A → answer) (r : result A * S) : answer * S :=
  match r with (Ok a, s) => (f a, s) | (Err e, s) => (AFail e, s) | (Halt h, s) => (AHalt h, s) end.

Definition mem_call `{!MapRange} (c : ctx) (k : call) (p : t) : answer * t :=
  match k with
  | CJoin r u n => answered ARoom (JoinRoom c r u n p)
  | CLeave r u => answered (λ _, ADone) (LeaveRoom c r u p)
  | CRemove r u => answered (λ _, ADone) (RemoveMember c r u p)
  | CDelete r => answered (λ _, ADone) (DeleteRoomPresence c r p)
  | CClearPending r => answered (λ _, ADone) (ClearPendingEmpty c r p)
  | CMembers r => answered AMembers (ListMembers c r p)
  | CCount r => answered ACount (MemberCount c r p)
  | CRoomOf u => answered ARoom (GetUserRoom c u p)
  | CRooms => answered ARooms (ListRoomsWithMembers c p)
  end.

Definition spec_call (c : ctx) (k : call) (A : Located.t) : answer * Located.t :=
  match c, k with
  | Some e, _ => (AFail e, A)
  | None, CJoin r u n => let '(r0, A') := Located.Join r u n A in (ARoom r0, A')
  | None, CLeave r u | None, CRemove r u => (ADone, Located.Leave r u A)
  | None, CDelete r => (ADone, Located.Delete r A)
  | None, CClearPending _ => (ADone, A)
  | None, CMembers r =>
      (AMembers ((λ kv, RoomMember.mk kv.1 kv.2) <$> map_to_list (Located.InRoom r A)), A)
  | None, CCount r => (ACount (Z.of_nat (size (Located.InRoom r A))), A)
  | None, CRoomOf u => (ARoom (Located.RoomOf u A), A)
  | None, CRooms => (ARooms (elements (Located.Rooms A)), A)
  end.

Fixpoint run_calls {S} (step : ctx → call → S → answer * S) (ks : list (ctx * call))
    (s : S) : list answer * S :=
  match ks with
  | [] => ([], s)
  | (c, k) :: ks =>
      let '(a, s1) := step c k s in
      let '(l, s2) := run_calls step ks s1 in (a :: l, s2)
  end.

(** The presence [p] represents the locations [A]. *)
Definition represents (p : t) (A : Located.t) : Prop :=
  wf p ∧ ∀ u r n, A !! u = Some (r, n) ↔ member p r u = Some n.

Lemma represents_InRoom p A r :
  represents p A → Located.InRoom r A = default ∅ (members p !! r).
Proof.
  intros [_ HA]. apply map_eq. intros u. unfold Located.InRoom.
  apply option_eq. intros n. rewrite lookup_fmap_Some. setoid_rewrite map_lookup_filter_Some.
  transitivity (member p r u = Some n).
  - rewrite <- HA. split.
    + intros ([r0 n0] & ? & ? & ?). simpl in *. by subst.
    + intros H. exists (r, n). done.
  - unfold member. destruct (members p !! r) as [m|] eqn:E; simpl; [done|].
    by rewrite lookup_empty.
Qed.

Lemma represents_RoomOf p A u :
  represents p A → Located.RoomOf u A = default "" (userRoom p !! u).
Proof.
  intros [Hwf HA]. unfold Located.RoomOf.
  destruct (A !! u) as [[r n]|] eqn:E; simpl.
  - apply HA in E. assert (userRoom p !! u = Some r) as -> by (apply wf_userRoom; eauto).
    done.
  - destruct (userRoom p !! u) as [r|] eqn:E2; [|done].
    apply (wf_userRoom p Hwf) in E2 as [n Hn]. apply HA in Hn. congruence.
Qed.

Lemma represents_Rooms p A r :
  represents p A → r ∈ Located.Rooms A ↔ r ∈ activeRooms p.
Proof.
  intros [Hwf HA]. unfold Located.Rooms.
  rewrite elem_of_list_to_set, list_elem_of_fmap, (wf_active p Hwf). split.
  - intros ([u [r0 n]] & -> & H%elem_of_map_to_list). simpl. apply HA in H.
    unfold member in H. destruct (members p !! r0); [eauto|done].
  - intros [m Hm]. destruct (map_choose m) as (u & n & Hu); [by eapply wf_nonempty|].
    exists (u, (r, n)). split; [done|]. apply elem_of_map_to_list, HA.
    unfold member. by rewrite Hm.
Qed.

Lemma represents_userRoom p A u :
  represents p A → userRoom p !! u = fst <$> A !! u.
Proof.
  intros [Hwf HA]. apply option_eq. intros r. rewrite (wf_userRoom p Hwf), fmap_Some.
  split.
  - intros [n Hn]. apply HA in Hn. by exists (r, n).
  - intros ([r0 n] & H & ->). apply HA in H. eauto.
Qed.

Lemma represents_New : represents New ∅.
Proof.
  split; [apply wf_New|]. intros u r n. unfold member. simpl. by rewrite !lookup_empty.
Qed.

Lemma represents_Join p A r u n :
  represents p A → represents (add_member r u n (leave_other r u p)) (<[u := (r, n)]> A).
Proof.
  intros [Hwf HA]. split; [by apply wf_Join|]. intros u' r' n'.
  rewrite member_Join by done. destruct (decide (u' = u)) as [->|]; simplify_map_eq.
  - case_decide; naive_solver.
  - apply HA.
Qed.

Lemma represents_Leave p A r u :
  represents p A → represents (removeMemberLocked r u p) (Located.Leave r u A).
Proof.
  intros [Hwf HA]. split; [by apply wf_remove|]. intros u' r' n'.
  rewrite member_remove. unfold Located.Leave. specialize (HA u' r' n').
  destruct (decide (fst <$> A !! u = Some r)) as [Hd|Hd];
    destruct (decide (u' = u)) as [->|Hu]; simplify_map_eq.
  - destruct (A !! u) as [[r0 n0]|] eqn:E; simplify_eq/=.
    case_decide; [naive_solver|]. rewrite <- HA. naive_solver.
  - by rewrite decide_False by naive_solver.
  - rewrite HA. case_decide as Hd'; [|done]. destruct Hd' as [-> _].
    split; [|done]. intros Hn%HA. by rewrite Hn in Hd.
  - by rewrite decide_False by naive_solver.
Qed.

Lemma represents_Delete p A r :
  represents p A → represents (delete_presence r p) (Located.Delete r A).
Proof.
  intros [Hwf HA]. split; [by apply wf_delete_presence|]. intros u' r' n'.
  rewrite member_delete_presence. unfold Located.Delete.
  rewrite map_lookup_filter_Some, HA. simpl. case_decide; naive_solver.
Qed.

(** Fields the representation does not mention. *)
Lemma represents_ext p p' A :
  members p' = members p → userRoom p' = userRoom p → activeRooms p' = activeRooms p →
  pendingEmpty p' ⊆ pendingEmpty p → represents p A → represents p' A.
Proof.
  intros E1 E2 E3 E4 [Hwf HA]. unfold represents, member. rewrite E1. split; [|apply HA].
  destruct Hwf as [W1 W2 W3 W4]. split; unfold member; rewrite ?E1, ?E2, ?E3; try done.
  intros r Hr. apply W4. set_solver.
Qed.

#[export] Hint Resolve represents_New represents_Join represents_Leave represents_Delete : wt.
#[export] Hint Constructors answer_agree : wt.

Lemma map_to_list_of_dom (m : gmap string string) (f : string → string → RoomMember.t) :
  (λ k, f k (default "" (m !! k))) <$> elements (dom m) ≡ₚ
  (λ kv, f kv.1 kv.2) <$> map_to_list m.
Proof.
  induction m as [|k v m Hk IH] using map_ind.
  - by rewrite dom_empty_L, elements_empty, map_to_list_empty.
  - rewrite dom_insert_L, elements_union_singleton by by apply not_elem_of_dom.
    rewrite map_to_list_insert by done. simpl. rewrite lookup_insert_eq. simpl.
    apply Permutation_skip. rewrite <- IH.
    erewrite (list_fmap_ext _ (λ k, f k (default "" (m !! k)))); [reflexivity|].
    intros i k' Hk'. simpl. destruct (decide (k' = k)) as [->|]; [|by rewrite lookup_insert_ne].
    apply list_elem_of_lookup_2 in Hk'. apply elem_of_elements, elem_of_dom in Hk'.
    rewrite Hk in Hk'. by destruct Hk'.
Qed.

Lemma mem_call_refines `{!MapRange} c k p A :
  represents p A →
  answer_agree (mem_call c k p).1 (spec_call c k A).1 ∧
  represents (mem_call c k p).2 (spec_call c k A).2.
Proof.
  intros HA. destruct c as [e|]; [destruct k; simpl; auto with wt|].
  destruct k as [r u n|r u|r u|r|r|r|r|u|]; cbn [mem_call spec_call].
  - rewrite JoinRoom_live. unfold Located.Join, left_room. simpl.
    split; [|auto with wt].
    rewrite (represents_userRoom p A u HA).
    destruct (A !! u) as [[r0 n0]|]; simpl; [|constructor].
    case_bool_decide; case_decide; try done; constructor.
  - unfold LeaveRoom. simpl. auto with wt.
  - unfold RemoveMember, LeaveRoom. simpl. auto with wt.
  - rewrite DeleteRoomPresence_live. simpl. auto with wt.
  - split; [constructor|]. eapply represents_ext; [..|done]; simpl; set_solver.
  - rewrite (represents_InRoom p A r HA). unfold ListMembers. simpl.
    destruct (members p !! r) as [m|]; simpl.
    + split; [|done]. apply agree_members. rewrite range_perm.
      apply (map_to_list_of_dom m RoomMember.mk).
    + split; [|done]. rewrite map_to_list_empty. constructor.
  - rewrite (represents_InRoom p A r HA). unfold MemberCount. simpl.
    destruct (members p !! r); simpl; (split; [constructor|done]).
  - rewrite (represents_RoomOf p A u HA). split; [constructor|done].
  - split; [|done]. apply agree_rooms. rewrite range_perm.
    apply NoDup_Permutation; [apply NoDup_elements..|]. intros r.
    rewrite !elem_of_elements. symmetry. by apply represents_Rooms.
Qed.

Lemma run_calls_refines `{!MapRange} ks p A :
  represents p A →
  Forall2 answer_agree (run_calls mem_call ks p).1 (run_calls spec_call ks A).1 ∧
  represents (run_calls mem_call ks p).2 (run_calls spec_call ks A).2.
Proof.
  revert p A. induction ks as [|[c k] ks IH]; intros p A HA; simpl; [by split|].
  destruct (mem_call_refines c k p A HA) as [Ha HA1].
  destruct (mem_call c k p) as [a p1], (spec_call c k A) as [a' A1]. simpl in *.
  destruct (IH _ _ HA1) as [Hl Hs].
  destruct (run_calls mem_call ks p1), (run_calls spec_call ks A1). simpl in *. auto.
Qed.

(** C1: the in-memory room presence refines the map from users to the one room
    each is in: for every sequence of calls, each under a live or a cancelled
    context, the answers agree with the map's (listings up to order), so the
    three indexes of the code never disagree with one another. *)
Theorem presence_refines_located `{!MapRange} ks :
  Forall2 answer_agree (run_calls mem_call ks New).1 (run_calls spec_call ks ∅).1 ∧
  represents (run_calls mem_call ks New).2 (run_calls spec_call ks ∅).2.
Proof. apply run_calls_refines, represents_New. Qed.

(** In every state the presence can reach, a user is listed in at most one
    room, that room is the one [GetUserRoom] answers, the active rooms are
    exactly those with a member, and no room marked empty has one. *)
Theorem presence_invariant `{!MapRange} ks p :
  p = (run_calls mem_call ks New).2 →
  (∀ u r1 r2, is_Some (member p r1 u) → is_Some (member p r2 u) → r1 = r2) ∧
  (∀ u r n, member p r u = Some n → GetUserRoom None u p = (Ok r, p)) ∧
  (∀ r, r ∈ activeRooms p ↔ ∃ u, is_Some (member p r u)) ∧
  (∀ r u, r ∈ pendingEmpty p → member p r u = None).
Proof.
  intros ->. destruct (run_calls_refines ks New ∅ represents_New) as [_ [Hwf _]].
  set (p := (run_calls mem_call ks New).2) in *. clearbody p. split_and!.
  - intros u r1 r2. by apply member_unique.
  - intros u r n Hn. assert (userRoom p !! u = Some r) as Hr by (apply wf_userRoom; eauto).
    unfold GetUserRoom. simpl. by rewrite Hr.
  - intros r. rewrite (wf_active p Hwf). unfold member. split.
    + intros [m Hm]. destruct (map_choose m) as (u & n & Hu); [by eapply wf_nonempty|].
      exists u. rewrite Hm. eauto.
    + intros [u [n Hn]]. destruct (members p !! r); [eauto|done].
  - intros r u Hin%(wf_pending p Hwf). unfold member. by rewrite Hin.
Qed.

(** Two users, one of whom moves to a second room and leaves it. *)
Definition visit : list (ctx * call) :=
  [(None, CJoin "a" "u1" "ann"); (None, CJoin "a" "u2" "bob");
   (None, CJoin "b" "u1" "ann"); (Some (ErrNew "canceled"), CDelete "a");
   (None, CLeave "b" "u1"); (None, CLeave "a" "u1"); (None, CRooms)].

#[export] Instance identity_range : MapRange :=
  {| range_order l := l; range_perm l := reflexivity l |}.

Lemma presence_invariant_witness :
  let p := (run_calls mem_call visit New).2 in
  (run_calls mem_call visit New).1 =
    [ARoom ""; ARoom ""; ARoom "a"; AFail (ErrNew "canceled"); ADone; ADone; ARooms ["a"]] ∧
  pendingEmpty p = {["b"]} ∧
  (∀ r u, r ∈ pendingEmpty p → member p r u = None).
Proof.
  split; [by vm_compute|]. split; [by vm_compute|].
  apply (presence_invariant visit _ eq_refl).
Defined.

(** ** The contract the cleanup relies on *)

Definition view (p : t) : PV :=
  PresenceView.mk (members p) (pendingEmpty p) (lastCleanupAt p) (cleanupLock p).

Lemma wf_ext p p' :
  members p' = members p → userRoom p' = userRoom p → activeRooms p' = activeRooms p →
  pendingEmpty p' ⊆ pendingEmpty p → wf p → wf p'.
Proof.
  intros E1 E2 E3 E4 [W1 W2 W3 W4]. split; unfold member; rewrite ?E1, ?E2, ?E3; try done.
  intros r Hr. apply W4. set_solver.
Qed.
#[export] Hint Resolve wf_New wf_remove wf_delete_presence wf_ext : wt.

#[export] Instance mem_presence_contract `{!MapRange} : PresenceContract t.
Proof.
  refine (Build_PresenceContract t _ wf view _ _ _ _ _ _ _ _ _);
    intros; apply method_law_guard; intros p Hwf.
  - unfold PresenceView.count. simpl. by destruct (members p !! r).
  - pose proof (wf_delete_presence r p Hwf) as Hwf'. revert Hwf'.
    unfold delete_presence, DeleteRoomPresence. simpl.
    destruct (members p !! r) eqn:E; simpl; intros Hwf'; (split; [done|]); (split; [done|]).
    + eexists; split_and!; [..|reflexivity]; set_solver.
    + exists (pendingEmpty p). split_and!; [set_solver..|].
      unfold view. simpl. by rewrite delete_id.
  - simpl. split; [done|]. split; [|done]. eexists; split; [done|].
    intros r. by rewrite range_perm, elem_of_elements.
  - simpl. split; [|done]. eapply wf_ext; [..|done]; simpl; set_solver.
  - simpl. split; [done|]. split; [|done]. eexists; split; [done|].
    intros r. by rewrite range_perm, elem_of_elements, wf_active.
  - done.
  - simpl. split; [by eapply wf_ext; [..|done]|]. split; [done|].
    exists t0. split; [unfold Millisecond; lia|done].
  - simpl. unfold view. destruct (cleanupLock p) eqn:E; simpl; rewrite ?E;
      (split; [by eapply wf_ext; [..|done]|]); by rewrite ?E.
  - simpl. split; [by eapply wf_ext; [..|done]|done].
Defined.
