(* ===== verification/PubSub.v ===== *)
(** * Publish and subscribe in memory

    [internal/cache/memory/pubsub.go] as a step relation.  The goroutines that are
    in a call, or that a call started, form a pool; one of them makes a step at a
    time, a step being what runs under the mutex or one channel operation.  Every
    channel keeps, beside its buffer, what was addressed to it, what its subscriber
    received and what was given up, to state what becomes of the messages. *)

From S2P Require Import Prelude.
From stdpp Require Import relations.

(** ** State *)

(** [make(chan []byte, 16)] *)
Definition capacity : nat := 16.

Record chan := mkChan {
  topic : string; buf : list string; closed : bool;
  addressed : list string; got : list string; dropped : list string;
}.
Definition new_chan (t : string) : chan := mkChan t [] false [] [] [].

(** Contexts and channels are numbered.  [once] has the channels whose
    [unsubscribe] ran; [panicked] is a send on a closed channel. *)
Record shared := mkShared {
  subscribers : gmap string (gset nat);
  chans : gmap nat chan;
  once : gset nat;
  cancelled : gset nat;
  panicked : bool;
}.
Definition NewPubSub : shared := mkShared ∅ ∅ ∅ ∅ false.

(** Where a goroutine stands: in the loop of [Publish] over the channels it copied,
    in the goroutine that waits for a full channel, in the one that waits for the
    end of a subscription's context, between the removal of a channel and its
    [close]. *)
Inductive thread : Type :=
  | Publishing (ctx : nat) (msg : string) (channels : list nat)
  | Waiting (ctx : nat) (msg : string) (out : nat)
  | Watching (ctx : nat) (ch : nat)
  | Closing (ch : nat).

#[export] Instance thread_eq_dec : EqDecision thread.
Proof. solve_decision. Defined.

Definition set_chans (f : gmap nat chan → gmap nat chan) (s : shared) : shared :=
  mkShared (subscribers s) (f (chans s)) (once s) (cancelled s) (panicked s).
Definition on_chan (ch : nat) (f : chan → chan) : shared → shared := set_chans (alter f ch).
Definition set_panicked (s : shared) : shared :=
  mkShared (subscribers s) (chans s) (once s) (cancelled s) true.

Definition push (m : string) (k : chan) : chan :=
  mkChan (topic k) (buf k ++ [m]) (closed k) (addressed k) (got k) (dropped k).
Definition take_first (k : chan) : chan :=
  match buf k with
  | m :: rest => mkChan (topic k) rest (closed k) (addressed k) (got k ++ [m]) (dropped k)
  | [] => k
  end.
Definition drop_msg (m : string) (k : chan) : chan :=
  mkChan (topic k) (buf k) (closed k) (addressed k) (got k) (dropped k ++ [m]).
Definition address (m : string) (k : chan) : chan :=
  mkChan (topic k) (buf k) (closed k) (addressed k ++ [m]) (got k) (dropped k).
Definition close_chan (k : chan) : chan :=
  mkChan (topic k) (buf k) true (addressed k) (got k) (dropped k).
Definition each (f : chan → chan) (chs : list nat) : shared → shared :=
  set_chans (λ m, foldr (alter f) m chs).

(** The map of subscribers after a subscription and after [unsubscribe]; a channel
    name with no subscriber is removed. *)
Definition add_subscriber (t : string) (ch : nat) (m : gmap string (gset nat)) : gmap string (gset nat) :=
  <[t := {[ch]} ∪ default ∅ (m !! t)]> m.
Definition remove_subscriber (t : string) (ch : nat) (m : gmap string (gset nat)) : gmap string (gset nat) :=
  let rest := default ∅ (m !! t) ∖ {[ch]} in
  if decide (rest = ∅) then delete t m else <[t := rest]> m.

Definition subscribed (t : string) (ch : nat) (s : shared) : shared :=
  mkShared (add_subscriber t ch (subscribers s)) (<[ch := new_chan t]> (chans s))
    (once s) (cancelled s) (panicked s).
Definition unsubscribed (t : string) (ch : nat) (s : shared) : shared :=
  mkShared (remove_subscriber t ch (subscribers s)) (chans s)
    ({[ch]} ∪ once s) (cancelled s) (panicked s).
Definition cancel (c : nat) (s : shared) : shared :=
  mkShared (subscribers s) (chans s) (once s) ({[c]} ∪ cancelled s) (panicked s).

(** ** Steps *)

(** A call from outside: what it starts, and the state after its first step.  A
    [select] with a cancelled context only returns an error, which changes
    nothing. *)
Inductive call : shared → list thread → shared → Prop :=
  | call_publish c t m chs s :
      c ∉ cancelled s → chs ≡ₚ elements (default ∅ (subscribers s !! t)) →
      call s [Publishing c m chs] (each (address m) chs s)
  | call_subscribe c t ch s :
      c ∉ cancelled s → chans s !! ch = None →
      call s [Watching c ch] (subscribed t ch s)
  | call_unsubscribe ch k s :
      chans s !! ch = Some k → ch ∉ once s →
      call s [Closing ch] (unsubscribed (topic k) ch s)
  | call_receive ch s : call s [] (on_chan ch take_first s)
  | call_cancel c s : call s [] (cancel c s).

(** A step of a goroutine: what is left of it, with what it starts.  A [select]
    takes any case that is ready: a closed channel is ready and panics, a buffered
    one is ready while it is not full; [default] is for when none is. *)
Inductive thread_step : thread → shared → list thread → shared → Prop :=
  | publish_done c m s : thread_step (Publishing c m []) s [] s
  | publish_cancelled c m ch chs s :
      c ∈ cancelled s →
      thread_step (Publishing c m (ch :: chs)) s [] (each (drop_msg m) (ch :: chs) s)
  | publish_send c m ch chs k s :
      chans s !! ch = Some k → closed k = false → (length (buf k) < capacity)%nat →
      thread_step (Publishing c m (ch :: chs)) s [Publishing c m chs] (on_chan ch (push m) s)
  | publish_panics c m ch chs k s :
      chans s !! ch = Some k → closed k = true →
      thread_step (Publishing c m (ch :: chs)) s [Publishing c m (ch :: chs)] (set_panicked s)
  | publish_default c m ch chs k s :
      c ∉ cancelled s → chans s !! ch = Some k → closed k = false → (capacity ≤ length (buf k))%nat →
      thread_step (Publishing c m (ch :: chs)) s [Publishing c m chs; Waiting c m ch] s
  | wait_cancelled c m ch s :
      c ∈ cancelled s → thread_step (Waiting c m ch) s [] (on_chan ch (drop_msg m) s)
  | wait_send c m ch k s :
      chans s !! ch = Some k → closed k = false → (length (buf k) < capacity)%nat →
      thread_step (Waiting c m ch) s [] (on_chan ch (push m) s)
  | wait_panics c m ch k s :
      chans s !! ch = Some k → closed k = true →
      thread_step (Waiting c m ch) s [Waiting c m ch] (set_panicked s)
  | watch_unsubscribe c ch k s :
      c ∈ cancelled s → chans s !! ch = Some k → ch ∉ once s →
      thread_step (Watching c ch) s [Closing ch] (unsubscribed (topic k) ch s)
  | watch_done c ch s :
      c ∈ cancelled s → ch ∈ once s → thread_step (Watching c ch) s [] s
  | close_step ch k s :
      chans s !! ch = Some k → closed k = false →
      thread_step (Closing ch) s [] (on_chan ch close_chan s)
  | close_panics ch k s :
      chans s !! ch = Some k → closed k = true →
      thread_step (Closing ch) s [Closing ch] (set_panicked s).

(** A panic ends the process. *)
Record world := mkWorld { state : shared; pool : list thread }.
Inductive step : world → world → Prop :=
  | step_call s s' ts ts' : panicked s = false → call s ts' s' →
      step (mkWorld s ts) (mkWorld s' (ts ++ ts'))
  | step_thread s s' ts1 t ts2 ts' : panicked s = false → thread_step t s ts' s' →
      step (mkWorld s (ts1 ++ t :: ts2)) (mkWorld s' (ts1 ++ ts' ++ ts2)).
Definition start : world := mkWorld NewPubSub [].
Definition reachable : world → Prop := rtc step start.

(** ** The invariant *)

(** What a pool still has to deliver to a channel, and the channels its goroutines
    know. *)
Definition pend (ch : nat) (t : thread) : list string :=
  match t with
  | Publishing _ m chs => replicate (length (filter (λ x, x = ch) chs)) m
  | Waiting _ m out => if decide (out = ch) then [m] else []
  | _ => []
  end.
Definition pending (ch : nat) (ts : list thread) : list string := ts ≫= pend ch.
Definition known (t : thread) : list nat :=
  match t with
  | Publishing _ _ chs => chs
  | Waiting _ _ ch | Watching _ ch | Closing ch => [ch]
  end.
Definition closers (ch : nat) (ts : list thread) : nat := length (filter (λ t, t = Closing ch) ts).

Record chan_ok (s : shared) (ts : list thread) (ch : nat) (k : chan) : Prop := {
  (* every message is received, buffered, on its way or given up *)
  balance : got k ++ buf k ++ pending ch ts ++ dropped k ≡ₚ addressed k;
  fits : (length (buf k) ≤ capacity)%nat;
  (* closed, or about to be, exactly when it is unsubscribed *)
  closing : (closers ch ts + Nat.b2n (closed k) = (if decide (ch ∈ once s) then 1 else 0))%nat;
}.
Record wf (s : shared) (ts : list thread) : Prop := {
  wf_chan : ∀ ch k, chans s !! ch = Some k → chan_ok s ts ch k;
  wf_subs : ∀ t S, subscribers s !! t = Some S →
    S ≠ ∅ ∧ ∀ ch, ch ∈ S → (ch ∉ once s) ∧ (topic <$> (chans s !! ch)) = Some t;
  wf_known : ∀ ch t, t ∈ ts → ch ∈ known t → is_Some (chans s !! ch);
  wf_once : ∀ ch, ch ∈ once s → is_Some (chans s !! ch);
  wf_panic : panicked s = true → once s ≠ ∅;
}.

#[export] Instance pending_perm ch : Proper ((≡ₚ) ==> (≡ₚ)) (pending ch).
Proof. intros ts ts' H. unfold pending. by rewrite H. Qed.
#[export] Instance closers_perm ch : Proper ((≡ₚ) ==> (=)) (closers ch).
Proof. intros ts ts' H. unfold closers. by rewrite H. Qed.
#[export] Instance wf_perm s : Proper ((≡ₚ) ==> iff) (wf s).
Proof.
  assert (∀ ts ts', ts ≡ₚ ts' → wf s ts → wf s ts') as Hw.
  { intros ts ts' H [Hc Hs Hk Ho Hp]. split; try done.
    - intros ch k Hch. destruct (Hc ch k Hch) as [Hb Hf Hcl]. split; [by rewrite <- H|done|by rewrite <- H].
    - intros ch t Ht. apply Hk. by rewrite H. }
  intros ts ts' H. split; by apply Hw.
Qed.

Lemma pending_cons ch t ts : pending ch (t :: ts) = pend ch t ++ pending ch ts.
Proof. done. Qed.
Lemma pending_app ch ts ts' : pending ch (ts ++ ts') = pending ch ts ++ pending ch ts'.
Proof. apply bind_app. Qed.
Lemma closers_cons ch t ts :
  closers ch (t :: ts) = ((if decide (t = Closing ch) then 1 else 0) + closers ch ts)%nat.
Proof. unfold closers. rewrite list.filter_cons. by case_decide. Qed.
Lemma closers_app ch ts ts' : closers ch (ts ++ ts') = (closers ch ts + closers ch ts')%nat.
Proof. unfold closers. by rewrite list.filter_app, length_app. Qed.

(** A change of one channel is looked up where it happened. *)
Lemma lookup_on_chan ch f s x k : chans (on_chan ch f s) !! x = Some k →
  ∃ k0, chans s !! x = Some k0 ∧ k = if decide (x = ch) then f k0 else k0.
Proof.
  cbn. destruct (decide (x = ch)) as [->|Hx].
  - rewrite lookup_alter_eq. destruct (chans s !! ch) as [k0|]; [|done]. intros [= <-]. by exists k0.
  - rewrite lookup_alter_ne by done. intros Hk. by exists k.
Qed.
Lemma known_on_chan ch f s x : is_Some (chans (on_chan ch f s) !! x) ↔ is_Some (chans s !! x).
Proof. cbn. apply lookup_alter_is_Some. Qed.

(** A step that changes channels one by one, and some goroutines [ts] of the pool. *)
Lemma wf_update s s' ts ts' F (g : nat → chan → chan) :
  wf s (ts ++ F) →
  (∀ x, chans s' !! x = g x <$> chans s !! x) → subscribers s' = subscribers s → once s' = once s →
  panicked s' = panicked s →
  (∀ t x, t ∈ ts' → x ∈ known t → is_Some (chans s !! x)) →
  (∀ x k, chans s !! x = Some k → topic (g x k) = topic k ∧
     (∀ rest, got k ++ buf k ++ (pending x ts ++ rest) ++ dropped k ≡ₚ addressed k →
        got (g x k) ++ buf (g x k) ++ (pending x ts' ++ rest) ++ dropped (g x k) ≡ₚ addressed (g x k)) ∧
     ((length (buf k) ≤ capacity)%nat → (length (buf (g x k)) ≤ capacity)%nat) ∧
     (closers x ts' + Nat.b2n (closed (g x k)) = closers x ts + Nat.b2n (closed k))%nat) →
  wf s' (ts' ++ F).
Proof.
  intros [Hc Hs Hk Ho Hp] Hg Esub Eonce Epan Hknown Hx. split.
  - intros ch k Hch. rewrite Hg in Hch. apply fmap_Some in Hch as (k0 & Hk0 & ->).
    destruct (Hc ch k0 Hk0) as [Hb Hf Hcl]. destruct (Hx ch k0 Hk0) as (_ & Hb' & Hf' & Hcl').
    rewrite pending_app in Hb. rewrite closers_app in Hcl. split.
    + rewrite pending_app. by apply Hb'.
    + by apply Hf'.
    + rewrite closers_app, Eonce. lia.
  - intros t S. rewrite Esub, Eonce. intros HS. destruct (Hs t S HS) as [Hne Hin]. split; [done|].
    intros ch Hch. destruct (Hin ch Hch) as [Hon Ht]. split; [done|]. rewrite Hg.
    destruct (chans s !! ch) as [k|] eqn:Ek; [|done]. cbn in *. rewrite <- Ht. f_equal. by apply Hx.
  - intros ch t [Ht|Ht]%elem_of_app Hin; rewrite Hg, fmap_is_Some; [by eapply Hknown|].
    apply (Hk ch t); [|done]. apply elem_of_app. by right.
  - intros ch. rewrite Eonce, Hg, fmap_is_Some. apply Ho.
  - by rewrite Epan, Eonce.
Qed.

Lemma on_chan_lookup ch f s x :
  chans (on_chan ch f s) !! x = (if decide (x = ch) then f else id) <$> chans s !! x.
Proof.
  cbn. case_decide as Hx; [by subst x; rewrite lookup_alter_eq|].
  rewrite lookup_alter_ne by done. by rewrite option_fmap_id.
Qed.
Lemma each_lookup f chs s x :
  chans (each f chs s) !! x = Nat.iter (length (filter (λ y, y = x) chs)) f <$> chans s !! x.
Proof.
  cbn. induction chs as [|y chs IH]; [by rewrite option_fmap_id|]. cbn [foldr].
  rewrite list.filter_cons. case_decide as Hy.
  - subst y. rewrite lookup_alter_eq, IH. by destruct (chans s !! x).
  - rewrite lookup_alter_ne by done. exact IH.
Qed.

(** A step of one goroutine on one channel. *)
Lemma wf_on_chan ch f s t ts' F :
  wf s (t :: F) → (∀ t', t' ∈ ts' → known t' ⊆ known t) →
  (∀ x, x ≠ ch → pending x ts' ≡ₚ pend x t ∧ closers x ts' = closers x [t]) →
  (∀ k, chans s !! ch = Some k → topic (f k) = topic k ∧
     (∀ rest, got k ++ buf k ++ (pend ch t ++ rest) ++ dropped k ≡ₚ addressed k →
        got (f k) ++ buf (f k) ++ (pending ch ts' ++ rest) ++ dropped (f k) ≡ₚ addressed (f k)) ∧
     ((length (buf k) ≤ capacity)%nat → (length (buf (f k)) ≤ capacity)%nat) ∧
     (closers ch ts' + Nat.b2n (closed (f k)) = closers ch [t] + Nat.b2n (closed k))%nat) →
  wf (on_chan ch f s) (ts' ++ F).
Proof.
  intros Hw Hkn Hother Hch.
  apply (wf_update s _ [t] ts' F (λ x, if decide (x = ch) then f else id)); try done; [apply on_chan_lookup| |].
  - intros t' x Ht' Hx. apply (wf_known _ _ Hw x t); [by left|]. by eapply Hkn.
  - intros x k Hk. unfold pending at 1. cbn [mbind list_bind]. rewrite app_nil_r.
    case_decide as Hx; [subst x; by apply Hch|]. destruct (Hother x Hx) as [Hp Hc]. cbn [id].
    split_and!; try done; [|by rewrite Hc]. intros rest. by rewrite Hp.
Qed.

Lemma iter_drop n m k :
  Nat.iter n (drop_msg m) k =
    mkChan (topic k) (buf k) (closed k) (addressed k) (got k) (dropped k ++ replicate n m).
Proof.
  induction n as [|n IH]; [cbn; rewrite app_nil_r; by destruct k|].
  change (Nat.iter (S n) ?f k) with (f (Nat.iter n f k)). rewrite IH. unfold drop_msg. cbn.
  by rewrite <- app_assoc, replicate_cons_app.
Qed.
Lemma iter_address n m k :
  Nat.iter n (address m) k =
    mkChan (topic k) (buf k) (closed k) (addressed k ++ replicate n m) (got k) (dropped k).
Proof.
  induction n as [|n IH]; [cbn; rewrite app_nil_r; by destruct k|].
  change (Nat.iter (S n) ?f k) with (f (Nat.iter n f k)). rewrite IH. unfold address. cbn.
  by rewrite <- app_assoc, replicate_cons_app.
Qed.

(** A part moves to the end of a list of four. *)
Lemma perm_move {A} (a b r c d : list A) : a ++ b ++ c ++ d ++ r ≡ₚ a ++ b ++ (r ++ c) ++ d.
Proof. do 2 apply Permutation_app_head. rewrite app_assoc, <- (app_assoc r). apply Permutation_app_comm. Qed.

(** What is known of a goroutine's channel. *)
Lemma wf_head s t F : wf s (t :: F) → ∀ ch, ch ∈ known t → is_Some (chans s !! ch).
Proof. intros Hw ch Hch. apply (wf_known _ _ Hw ch t); [by left|done]. Qed.
Lemma closed_once s ts ch k : wf s ts → chans s !! ch = Some k → closed k = true → ch ∈ once s.
Proof.
  intros Hw Hk Hc. pose proof (closing _ _ _ _ (wf_chan _ _ Hw ch k Hk)) as H. rewrite Hc in H. cbn in H.
  case_decide; [done|lia].
Qed.

(** Steps that leave the state as it is. *)
Lemma wf_pool s ts ts' F : wf s (ts ++ F) → (∀ t x, t ∈ ts' → x ∈ known t → is_Some (chans s !! x)) →
  (∀ x, pending x ts' ≡ₚ pending x ts ∧ closers x ts' = closers x ts) → wf s (ts' ++ F).
Proof.
  intros Hw Hkn Hx. apply (wf_update s s ts ts' F (λ _, id)); try done.
  - intros x. by rewrite option_fmap_id.
  - intros x k Hk. destruct (Hx x) as [Hp Hc]. cbn [id]. split_and!; try done; [|by rewrite Hc].
    intros rest. by rewrite Hp.
Qed.

Lemma wf_panicked s ts : wf s ts → once s ≠ ∅ → wf (set_panicked s) ts.
Proof. intros [Hc Hs Hk Ho Hp] Hon. split; try done. intros ch k Hch. by destruct (Hc ch k Hch). Qed.

Lemma pend_other x c m ch chs : x ≠ ch → pend x (Publishing c m (ch :: chs)) = pend x (Publishing c m chs).
Proof. intros Hx. unfold pend. rewrite list.filter_cons. by case_decide. Qed.
Lemma pend_same c m ch chs : pend ch (Publishing c m (ch :: chs)) = m :: pend ch (Publishing c m chs).
Proof. unfold pend. rewrite list.filter_cons. by case_decide. Qed.
Lemma closers_one x t : closers x [t] = (if decide (t = Closing x) then 1 else 0)%nat.
Proof. rewrite closers_cons. change (closers x []) with 0%nat. lia. Qed.

(** A message moves from a goroutine into the buffer. *)
Lemma wf_send s ch m t ts' F : wf s (t :: F) →
  (∀ k, chans s !! ch = Some k → (length (buf k) < capacity)%nat) →
  (∀ t', t' ∈ ts' → known t' ⊆ known t) →
  (∀ x, pend x t ≡ₚ (if decide (x = ch) then [m] else []) ++ pending x ts' ∧ closers x ts' = closers x [t]) →
  wf (on_chan ch (push m) s) (ts' ++ F).
Proof.
  intros Hw Hlen Hkn Hx. apply (wf_on_chan _ _ _ t); [done..| |].
  - intros x Hne. destruct (Hx x) as [Hp Hc]. rewrite decide_False in Hp by done. by rewrite Hp.
  - intros k Hk. destruct (Hx ch) as [Hp Hc]. rewrite decide_True in Hp by done. cbn. split_and!; try done.
    + intros rest. rewrite Hp. intros <-. by rewrite <- !app_assoc.
    + intros _. rewrite length_app. cbn. specialize (Hlen k Hk). lia.
    + by rewrite Hc.
Qed.

(** [unsubscribe], once per channel. *)
Lemma wf_unsubscribed s ch k ts F :
  wf s (ts ++ F) → (∀ x, pending x ts = [] ∧ closers x ts = 0%nat) →
  chans s !! ch = Some k → ch ∉ once s → wf (unsubscribed (topic k) ch s) ([Closing ch] ++ F).
Proof.
  intros [Hc Hs Hk Ho Hp] Hts Hch Hon. split.
  - intros x kx Hx. destruct (Hc x kx Hx) as [Hb Hf Hcl]. split; [|done|].
    + rewrite pending_app in *. by rewrite (proj1 (Hts x)) in Hb.
    + rewrite closers_app in *. rewrite (proj2 (Hts x)) in Hcl. rewrite closers_one. cbn [once unsubscribed].
      destruct (decide (x = ch)) as [->|Hne].
      * rewrite decide_False in Hcl by done. rewrite decide_True by done. rewrite decide_True by set_solver. lia.
      * rewrite (decide_False (P := Closing ch = Closing x)) by congruence.
        destruct (decide (x ∈ once s)); [rewrite decide_True by set_solver|rewrite decide_False by set_solver]; lia.
  - intros t S. cbn. unfold remove_subscriber. case_decide as Hempty.
    + destruct (decide (t = topic k)) as [->|Ht]; [by rewrite lookup_delete_eq|].
      rewrite lookup_delete_ne by done. intros HS. destruct (Hs t S HS) as [Hne Hin]. split; [done|].
      intros x Hx. destruct (Hin x Hx) as [Hx1 Hx2]. split; [|done].
      apply not_elem_of_union. split; [|done]. intros ->%elem_of_singleton. rewrite Hch in Hx2. by simplify_eq/=.
    + destruct (decide (t = topic k)) as [->|Ht].
      * rewrite lookup_insert_eq. intros [= <-]. split; [done|]. intros x [Hx Hxc]%elem_of_difference.
        destruct (subscribers s !! topic k) as [S'|] eqn:ES; [|set_solver]. cbn in Hx.
        destruct (Hs _ S' ES) as [_ Hin]. destruct (Hin x Hx). split; [set_solver|done].
      * rewrite lookup_insert_ne by done. intros HS. destruct (Hs t S HS) as [Hne Hin]. split; [done|].
        intros x Hx. destruct (Hin x Hx) as [Hx1 Hx2]. split; [|done].
        apply not_elem_of_union. split; [|done]. intros ->%elem_of_singleton. rewrite Hch in Hx2. by simplify_eq/=.
  - intros x t [->%list_elem_of_singleton|Ht]%elem_of_app Hx.
    + cbn in Hx. apply list_elem_of_singleton in Hx as ->. by exists k.
    + apply (Hk x t); [|done]. apply elem_of_app. by right.
  - intros x [->%elem_of_singleton|Hx]%elem_of_union; [by exists k|by apply Ho].
  - cbn. intros _. set_solver.
Qed.

Lemma wf_thread_step t s ts' s' F : thread_step t s ts' s' → wf s (t :: F) → wf s' (ts' ++ F).
Proof.
  intros Hstep Hw. pose proof (wf_head _ _ _ Hw) as Hhead. destruct Hstep.
  - apply (wf_pool _ [Publishing c m []] []); [done|by intros ? ? ?%elem_of_nil|done].
  - apply (wf_update s _ [Publishing c m (ch :: chs)] [] F
      (λ x, Nat.iter (length (filter (λ y, y = x) (ch :: chs))) (drop_msg m))); try done; [apply each_lookup| |].
    { by intros ? ? ?%elem_of_nil. }
    intros x k Hk. rewrite iter_drop. cbn [topic buf closed addressed got dropped]. split_and!; try done.
    intros rest <-. unfold pending. cbn [mbind list_bind]. rewrite app_nil_r. apply perm_move.
  - apply (wf_send _ _ _ (Publishing c m (ch :: chs))); [done|intros; by simplify_eq| |].
    + intros t' ->%list_elem_of_singleton. cbn. set_solver.
    + intros x. unfold pending. cbn [mbind list_bind]. rewrite app_nil_r, !closers_one. case_decide as Hx.
      * subst x. rewrite pend_same. by rewrite !decide_False.
      * rewrite pend_other by done. by rewrite !decide_False.
  - apply wf_panicked; [done|]. pose proof (closed_once _ _ _ _ Hw H H0). set_solver.
  - apply (wf_pool _ [Publishing c m (ch :: chs)]); [done| |].
    + intros t x [->| ->%list_elem_of_singleton]%elem_of_cons Hx; apply Hhead; cbn in *; set_solver.
    + intros x. rewrite !closers_cons, !decide_False by done. split; [|done]. unfold pending.
      cbn [mbind list_bind]. rewrite !app_nil_r.
      change (pend x (Waiting c m ch)) with (if decide (ch = x) then [m] else []). case_decide as Hx.
      * subst x. rewrite pend_same. symmetry. apply Permutation_cons_append.
      * rewrite pend_other by congruence. by rewrite app_nil_r.
  - apply (wf_on_chan _ _ _ (Waiting c m ch)); [done|by intros ? ?%elem_of_nil| |].
    + intros x Hx. rewrite closers_one, decide_False by done. split; [|done]. cbn. by rewrite decide_False by congruence.
    + intros k Hk. cbn. rewrite decide_True by done. split_and!; try done. intros rest <-. apply (perm_move _ _ [m]).
  - apply (wf_send _ _ _ (Waiting c m ch)); [done|intros; by simplify_eq|by intros ? ?%elem_of_nil|].
    intros x. rewrite closers_one, (decide_False (P := Waiting c m ch = Closing x)) by done. cbn. split; [|done].
    rewrite app_nil_r. destruct (decide (ch = x)), (decide (x = ch)); by try congruence.
  - apply wf_panicked; [done|]. pose proof (closed_once _ _ _ _ Hw H H0). set_solver.
  - apply (wf_unsubscribed _ _ _ [Watching c ch]); [done| |done..].
    intros x. by rewrite closers_one.
  - apply (wf_pool _ [Watching c ch] []); [done|by intros ? ? ?%elem_of_nil|]. intros x. by rewrite closers_one.
  - apply (wf_on_chan _ _ _ (Closing ch)); [done|by intros ? ?%elem_of_nil| |].
    + intros x Hx. rewrite closers_one, decide_False by congruence. done.
    + intros k' Hk'. simplify_eq. rewrite closers_one, decide_True by done. cbn. rewrite H0. split_and!; done.
  - apply wf_panicked; [done|]. pose proof (closed_once _ _ _ _ Hw H H0). set_solver.
Qed.

Lemma wf_fresh s F ch : wf s F → chans s !! ch = None → pending ch F = [] ∧ closers ch F = 0%nat.
Proof.
  intros Hw Hch. assert (∀ t, t ∈ F → ch ∉ known t) as Hkn.
  { intros t Ht Hin. destruct (wf_known _ _ Hw ch t Ht Hin). congruence. }
  clear Hw. induction F as [|t F IH]; [done|]. destruct IH as [IHp IHc]; [intros t' Ht'; apply Hkn; by right|].
  specialize (Hkn t ltac:(by left)). rewrite pending_cons, closers_cons, IHp, IHc, app_nil_r. split.
  - destruct t as [c m chs|c m out|c x|x]; cbn in *; try done.
    + induction chs as [|y chs IHy]; [done|]. rewrite list.filter_cons, decide_False by set_solver. set_solver.
    + rewrite decide_False; [done|set_solver].
  - rewrite decide_False; [done|]. intros ->. cbn in Hkn. set_solver.
Qed.

Lemma wf_subscribed s t ch ts F : wf s F → chans s !! ch = None →
  (∀ x, pending x ts = [] ∧ closers x ts = 0%nat) → (∀ t', t' ∈ ts → known t' ⊆ [ch]) →
  wf (subscribed t ch s) (ts ++ F).
Proof.
  intros Hw Hch Hts Hkn. destruct (wf_fresh s F ch Hw Hch) as [Hpf Hcf]. destruct Hw as [Hc Hs Hk Ho Hp].
  assert (ch ∉ once s) as Hon by (intros Hin; destruct (Ho ch Hin); congruence). split.
  - intros x k Hx. cbn in Hx. destruct (decide (x = ch)) as [->|Hne].
    + rewrite lookup_insert_eq in Hx. injection Hx as <-. split; [|cbn; lia|].
      * rewrite pending_app, Hpf. by rewrite (proj1 (Hts ch)).
      * rewrite closers_app, Hcf, (proj2 (Hts ch)). cbn. by rewrite decide_False.
    + rewrite lookup_insert_ne in Hx by done. destruct (Hc x k Hx) as [Hb Hf Hcl]. split; [|done|].
      * by rewrite pending_app, (proj1 (Hts x)).
      * by rewrite closers_app, (proj2 (Hts x)).
  - intros t' S. cbn. unfold add_subscriber. destruct (decide (t' = t)) as [->|Ht].
    + rewrite lookup_insert_eq. intros [= <-]. split; [set_solver|]. intros x [->%elem_of_singleton|Hx]%elem_of_union.
      * by rewrite lookup_insert_eq.
      * destruct (subscribers s !! t) as [S'|] eqn:ES; [|by apply elem_of_empty in Hx].
        destruct (Hs t S' ES) as [_ Hin]. destruct (Hin x Hx) as [H1 H2]. split; [done|].
        rewrite lookup_insert_ne; [done|]. intros ->. by rewrite Hch in H2.
    + rewrite lookup_insert_ne by done. intros HS. destruct (Hs t' S HS) as [Hne Hin]. split; [done|].
      intros x Hx. destruct (Hin x Hx) as [H1 H2]. split; [done|].
      rewrite lookup_insert_ne; [done|]. intros ->. by rewrite Hch in H2.
  - intros x t' [Ht'|Ht']%elem_of_app Hx; cbn; apply lookup_insert_is_Some'.
    + left. specialize (Hkn t' Ht' x Hx). by apply list_elem_of_singleton in Hkn.
    + right. by apply (Hk x t').
  - intros x Hx. cbn. apply lookup_insert_is_Some'. right. by apply Ho.
  - done.
Qed.

Lemma wf_call s ts' s' F : call s ts' s' → wf s F → wf s' (ts' ++ F).
Proof.
  intros Hcall Hw. destruct Hcall.
  - assert (∀ x, x ∈ chs → is_Some (chans s !! x)) as Hin.
    { intros x. rewrite H0, elem_of_elements. destruct (subscribers s !! t) as [S|] eqn:ES; [|set_solver].
      intros Hx. destruct (wf_subs _ _ Hw t S ES) as [_ Hsub]. destruct (Hsub x Hx) as [_ Ht].
      apply fmap_Some in Ht as (k & Hk & _). by exists k. }
    apply (wf_update s _ [] [Publishing c m chs] F
      (λ x, Nat.iter (length (filter (λ y, y = x) chs)) (address m))); try done; [apply each_lookup| |].
    { intros t' x ->%list_elem_of_singleton Hx. by apply Hin. }
    intros x k Hk. rewrite iter_address, closers_one. cbn [topic buf closed addressed got dropped].
    rewrite decide_False by done. split_and!; try done. intros rest <-. unfold pending. cbn [mbind list_bind pend].
    rewrite app_nil_r. rewrite <- (perm_move _ _ _ rest (dropped k)). cbn. by rewrite <- !app_assoc.
  - apply wf_subscribed; [done|done| |by intros t' ->%list_elem_of_singleton].
    intros x. by rewrite closers_one.
  - apply (wf_unsubscribed _ _ _ []); [done| |done..]. done.
  - apply (wf_update s _ [] [] F (λ x, if decide (x = ch) then take_first else id)); try done;
      [apply on_chan_lookup|by intros ? ? ?%elem_of_nil|].
    intros x k Hk. case_decide; [|done]. unfold take_first. destruct (buf k) as [|m rest] eqn:Eb; [by rewrite Eb|].
    cbn. split_and!; try done; [|lia]. intros r. by rewrite <- !app_assoc.
  - destruct Hw as [Hc Hs Hk Ho Hp]. split; try done. intros x k Hx. by destruct (Hc x k Hx).
Qed.

Lemma wf_start : wf NewPubSub [].
Proof. split; try done. intros ? ? ?%elem_of_nil. done. Qed.

Lemma wf_reachable w : reachable w → wf (state w) (pool w).
Proof.
  unfold reachable. intros Hr. remember start as w0 eqn:E0. assert (wf (state w0) (pool w0)) as H0.
  { subst w0. apply wf_start. }
  clear E0. induction Hr as [w|w1 w2 w3 Hstep _ IH]; [done|]. apply IH. clear IH.
  destruct Hstep as [s s' ts ts' _ Hc|s s' ts1 t ts2 ts' _ Ht]; cbn in *.
  - rewrite Permutation_app_comm. by eapply wf_call.
  - rewrite (Permutation_app_comm ts1), <- app_assoc. eapply wf_thread_step; [done|].
    by rewrite (Permutation_app_comm ts2), <- Permutation_middle in *.
Qed.

(** ** What subscribers get *)

(** A pool whose goroutines only wait for contexts to end. *)
Definition at_rest (ts : list thread) : Prop := Forall (λ t, ∃ c ch, t = Watching c ch) ts.
Lemma at_rest_pending ch ts : at_rest ts → pending ch ts = [].
Proof. induction 1 as [|t ts (c & x & ->) _ IH]; [done|]. by rewrite pending_cons, IH. Qed.

(** C28: however the goroutines interleave, every message addressed to a subscriber is
    at any time in one place: received, in its buffer of at most sixteen, carried by
    a goroutine, or given up because its publisher's context ended.  So none is
    received twice, and when nothing is under way and no context ended, each was
    received or is buffered.  The map names no channel twice, none of another
    topic, none that is closed, and no topic without subscribers; a channel is
    closed once. *)
Theorem pubsub_delivery s ts : reachable (mkWorld s ts) →
  (∀ ch k, chans s !! ch = Some k →
     got k ++ buf k ++ pending ch ts ++ dropped k ≡ₚ addressed k ∧
     (length (buf k) ≤ capacity)%nat ∧
     (closers ch ts + Nat.b2n (closed k) ≤ 1)%nat ∧
     (at_rest ts → dropped k = [] → got k ++ buf k ≡ₚ addressed k)) ∧
  (∀ t S ch, subscribers s !! t = Some S → ch ∈ S →
     ∃ k, chans s !! ch = Some k ∧ topic k = t ∧ closed k = false) ∧
  (∀ t, subscribers s !! t ≠ Some ∅) ∧
  (panicked s = true → ∃ ch, ch ∈ once s).
Proof.
  intros Hw%wf_reachable. cbn in Hw. split; [|split; [|split]].
  - intros ch k Hk. destruct (wf_chan _ _ Hw ch k Hk) as [Hb Hf Hcl]. split_and!; [done|done| |].
    + by case_decide; lia.
    + intros Hr Hd. by rewrite (at_rest_pending ch ts Hr), Hd, !app_nil_r in Hb.
  - intros t S ch HS Hch. destruct (wf_subs _ _ Hw t S HS) as [_ Hin]. destruct (Hin ch Hch) as [Hon Ht].
    apply fmap_Some in Ht as (k & Hk & ->). exists k. split_and!; try done.
    destruct (closed k) eqn:Ec; [|done]. by destruct Hon; eapply closed_once.
  - intros t Ht. by destruct (wf_subs _ _ Hw t ∅ Ht).
  - intros Hp. apply set_choose_L. by apply (wf_panic _ _ Hw).
Qed.

(** A run: a subscription, a message, its delivery. *)
Module ToyPubSub.
Definition after_subscribe : shared := subscribed "r1" 0 NewPubSub.
Definition after_publish : shared := each (address "hi") [0%nat] after_subscribe.
Definition after_send : shared := on_chan 0 (push "hi") after_publish.
Definition after_receive : shared := on_chan 0 take_first after_send.
Definition after_unsubscribe : shared := unsubscribed "r1" 0 after_publish.
Definition after_close : shared := on_chan 0 close_chan after_unsubscribe.
Definition watcher : thread := Watching 1 0.

Lemma published : reachable (mkWorld after_publish [watcher; Publishing 1 "hi" [0%nat]]).
Proof.
  eapply rtc_l; [apply step_call; [done|apply (call_subscribe 1 "r1" 0); done]|].
  apply rtc_once. apply (step_call after_subscribe after_publish [watcher] [Publishing 1 "hi" [0%nat]]); [done|]. apply (call_publish 1 "r1"); [set_solver|].
  vm_compute. done.
Qed.
Lemma received : reachable (mkWorld after_receive [watcher]).
Proof.
  apply (transitivity (R := rtc step) published).
  eapply rtc_l; [apply (step_thread _ after_send [watcher] _ [] [Publishing 1 "hi" []]); [done|]|].
  { eapply publish_send; [reflexivity|done|cbn; unfold capacity; lia]. }
  eapply rtc_l; [apply (step_thread after_send after_send [watcher] (Publishing 1 "hi" []) [] []); [done|apply publish_done]|].
  apply rtc_once. apply (step_call after_send after_receive [watcher] []); [done|]. apply call_receive.
Qed.
(** The subscriber leaves between the copy of the channels and the send. *)
Lemma crashed : reachable (mkWorld (set_panicked after_close) [watcher; Publishing 1 "hi" [0%nat]]).
Proof.
  apply (transitivity (R := rtc step) published).
  eapply rtc_l; [apply (step_call _ after_unsubscribe _ [Closing 0]); [done|]|].
  { eapply (call_unsubscribe 0 (address "hi" (new_chan "r1"))); [reflexivity|set_solver]. }
  eapply rtc_l; [apply (step_thread _ after_close [watcher; Publishing 1 "hi" [0%nat]] _ [] []); [done|]|].
  { eapply close_step; reflexivity. }
  apply rtc_once. apply (step_thread after_close _ [watcher] (Publishing 1 "hi" [0%nat]) [] [Publishing 1 "hi" [0%nat]]); [done|]. eapply publish_panics; reflexivity.
Qed.
End ToyPubSub.

Lemma pubsub_delivery_witness :
  reachable (mkWorld ToyPubSub.after_receive [ToyPubSub.watcher]) ∧
  (topic <$> (chans ToyPubSub.after_receive !! 0%nat)) = Some "r1" ∧
  ∃ k, chans ToyPubSub.after_receive !! 0%nat = Some k ∧ got k ++ buf k ≡ₚ addressed k ∧ got k = ["hi"].
Proof.
  split; [exact ToyPubSub.received|]. split; [reflexivity|].
  eexists. split; [reflexivity|]. split; [|reflexivity].
  refine (proj2 (proj2 (proj2 (proj1 (pubsub_delivery _ _ ToyPubSub.received) 0%nat _ eq_refl))) _ _);
    [|reflexivity].
  repeat constructor. by exists 1%nat, 0%nat.
Defined.

(** A publisher copies the channels and sends outside the mutex, so one that is
    unsubscribed in between is sent to when it is closed: the process panics,
    although no context has ended and every call was made as documented. *)
Theorem pubsub_can_panic :
  ∃ s ts, reachable (mkWorld s ts) ∧ panicked s = true ∧ cancelled s = ∅.
Proof. eexists _, _. split; [apply ToyPubSub.crashed|done]. Qed.

(** ** Publish and subscribe through Redis

    [internal/cache/redis/pubsub.go].  [Publish] is one command; [Subscribe] starts
    a goroutine that forwards the messages of the third-party subscription to a
    channel of its own.  A run is a list of what happens: messages arriving, the
    context or the caller cancelling, steps of the forwarder, receives. *)

Module RedisPubSub.

(** Where the forwarder stands: in the outer [select], in the inner one with a
    payload, or returned, its channel closed. *)
Inductive forwarder : Type := Looping | Holding (payload : string) | Returned.
Record t := mk {
  msgs : list string; msgs_open : bool;
  at_ : forwarder; out : list string; cancelled : bool;
  delivered : list string; got : list string;
}.
Definition Subscribe : t := mk [] true Looping [] false [] [].

(** Either case of a [select] that is ready. *)
Inductive action : Type :=
  | Deliver (m : string) | CloseMsgs | Cancel
  | TakeDone | TakeMsg | SendOut | Receive.

Definition act (a : action) (s : t) : option t :=
  let '(mk ms op f o c d g) := s in
  match a, f with
  | Deliver m, _ => if op then Some (mk (ms ++ [m]) op f o c (d ++ [m]) g) else None
  | CloseMsgs, _ => Some (mk ms false f o c d g)
  | Cancel, _ => Some (mk ms op f o true d g)
  | TakeDone, (Looping | Holding _) => if c then Some (mk ms op Returned o c d g) else None
  | TakeMsg, Looping =>
      match ms with
      | m :: ms => Some (mk ms op (Holding m) o c d g)
      | [] => if op then None else Some (mk [] op Returned o c d g)
      end
  | SendOut, Holding m =>
      if (length o <? capacity)%nat then Some (mk ms op Looping (o ++ [m]) c d g) else None
  | Receive, _ =>
      match o with
      | m :: o => Some (mk ms op f o c d (g ++ [m]))
      | [] => match f with Returned => Some s | _ => None end
      end
  | _, _ => None
  end.
Fixpoint run (l : list action) (s : t) : option t :=
  match l with [] => Some s | a :: l => s ← act a s; run l s end.

Definition held (s : t) : list string := match at_ s with Holding m => [m] | _ => [] end.
(** In order: received, buffered, held, waiting; after the end a part is lost. *)
Definition in_order (s : t) : Prop :=
  (length (out s) ≤ capacity)%nat ∧
  ∃ lost, delivered s = got s ++ out s ++ held s ++ lost ++ msgs s ∧ (at_ s ≠ Returned → lost = []).

Lemma act_in_order a s s' : act a s = Some s' → in_order s → in_order s'.
Proof.
  destruct s as [ms op f o c d g]. intros Ha (Hl & lost & Hd & Hlost). unfold in_order, held in *.
  cbn [msgs msgs_open at_ out cancelled delivered got] in *.
  destruct a; cbn [act] in Ha.
  - destruct op; [|done]. simplify_eq. cbn. split; [done|]. exists lost. by rewrite <- !app_assoc.
  - simplify_eq. cbn. split; [done|]. by exists lost.
  - simplify_eq. cbn. split; [done|]. by exists lost.
  - destruct f as [|m|]; [| |done]; (destruct c; [|done]); simplify_eq; cbn; (split; [done|]).
    + by exists lost.
    + exists (m :: lost). by split.
  - destruct f as [|m|]; [|done..]. specialize (Hlost ltac:(done)). subst lost.
    destruct ms as [|m ms]; [destruct op; [done|]|]; simplify_eq; cbn; (split; [done|]); by exists [].
  - destruct f as [|m|]; [done| |done]. specialize (Hlost ltac:(done)). subst lost.
    destruct (Nat.ltb_spec (length o) capacity); [|done]. simplify_eq. cbn. rewrite length_app. cbn.
    split; [lia|]. exists []. split; [|done]. by rewrite <- !app_assoc.
  - destruct o as [|m o]; [destruct f; [done..|]|]; simplify_eq; cbn in *; (split; [lia|]); exists lost;
      [done|]. by rewrite <- !app_assoc.
Qed.

(** The subscriber receives the messages of the subscription in the order they
    were delivered, none twice and none left out before the one it is at, whatever
    the interleaving with a cancellation; the buffer holds at most sixteen; until
    the forwarder returns nothing is lost. *)
Theorem redis_subscription_in_order l s : run l Subscribe = Some s →
  got s ++ out s `prefix_of` delivered s ∧ (length (out s) ≤ capacity)%nat ∧
  (at_ s ≠ Returned → got s ++ out s ++ held s ++ msgs s = delivered s).
Proof.
  intros Hrun. assert (in_order s) as (Hl & lost & Hd & Hlost).
  { assert (in_order Subscribe) as H0 by (split; [cbn; lia|by exists []]). revert H0 Hrun.
    generalize Subscribe. induction l as [|a l IH]; intros s0 H0 Hrun; cbn in Hrun; [by simplify_eq|].
    destruct (act a s0) as [s1|] eqn:Ea; [|done]. apply (IH s1); [by eapply act_in_order|done]. }
  split; [|split; [done|]].
  - exists (held s ++ lost ++ msgs s). by rewrite Hd, <- !app_assoc.
  - intros Hr. by rewrite Hd, (Hlost Hr).
Qed.

Lemma redis_subscription_in_order_witness :
  ∃ s, run [Deliver "a"; Deliver "b"; TakeMsg; SendOut; TakeMsg; Cancel; Receive; TakeDone; Receive] Subscribe = Some s ∧
    got s ++ out s `prefix_of` delivered s ∧ got s = ["a"] ∧ delivered s = ["a"; "b"].
Proof.
  eexists. split; [reflexivity|]. split; [|split; reflexivity].
  apply (redis_subscription_in_order
    [Deliver "a"; Deliver "b"; TakeMsg; SendOut; TakeMsg; Cancel; Receive; TakeDone; Receive]). reflexivity.
Defined.
End RedisPubSub.
