(* ===== verification/Postgres.v ===== *)
(** * The PostgreSQL stores

    [internal/store/postgres/stores.go].  The database is a third-party service:
    the classes [SqlRooms] and [SqlUsers] take its answers to the statements of
    the source as parameters, and [SqlRoomsLaws] states what PostgreSQL
    documents of them (primary key, row counts, filtering, ordering and paging).
    Modules [PgRooms] and [PgUsers] are the stores; [TableDB] is one concrete
    database, for examples. *)

From stdpp Require Import sorting.
From S2P Require Import Prelude GoNum Model Interfaces MemCaches.
#[local] Open Scope Z_scope.

(** ** Helpers *)

Definition normalizePage (limit offset : Z) : Z * Z :=
  let limit := if (limit <=? 0) || (100 <? limit) then 50 else limit in
  let offset := if offset <? 0 then 0 else offset in
  (limit, offset).

Definition Microsecond : Z := 1000.
(** [time.Now().UTC().Truncate(time.Microsecond)] of a clock reading. *)
Definition utcNow (t : time) : time := t - (t - zero_time) mod Microsecond.

Definition wrapNotFound (err : error) : error :=
  if errors_Is err ErrNoRows then ErrNotFound else err.

(** [errors.As(err, &pgErr)] *)
Fixpoint as_pg (e : error) : option string :=
  match e with
  | PgError code => Some code
  | ErrWrap _ inner => as_pg inner
  | _ => None
  end.

Definition wrapConstraint (err : error) : error :=
  match as_pg err with
  | Some code => if bool_decide (code = "23505") then ErrWrap "%w: %v" ErrConflict else err
  | None => err
  end.

(** [res.RowsAffected()] *)
Definition requireRows {S} (rows : Z) : SM S unit :=
  if rows =? 0 then throw ErrNotFound else mret tt.

(** Map the error of a call, as [return wrap(err)]. *)
Definition map_err {S A} (f : error → error) (m : SM S A) : SM S A := λ s,
  match m s with
  | (Err e, s') => (Err (f e), s')
  | (r, s') => (r, s')
  end.

(** A row's columns are copied in the order of the SELECT; the role and the
    visibility are strings. *)
Definition scanUser {S} (row : SM S User.t) : SM S User.t := map_err wrapNotFound row.
Definition scanRoom {S} (row : SM S Room.t) : SM S Room.t := map_err wrapNotFound row.

(** ** Sorted lists *)

Lemma StronglySorted_drop {A} (R : relation A) n l :
  StronglySorted R l → StronglySorted R (drop n l).
Proof. intros Hl. revert n. induction Hl; intros [|n]; simpl; try constructor; auto. Qed.

Lemma StronglySorted_take {A} (R : relation A) n l :
  StronglySorted R l → StronglySorted R (take n l).
Proof.
  intros Hl. revert n. induction Hl as [|a l Hl IH HF]; intros [|n]; simpl; try constructor; auto.
  by apply Forall_take.
Qed.

(** ** The statements *)

(** The WHERE clause of the listing: an ILIKE pattern on the name, an owner. *)
Record RoomFilter := mkFilter { f_name : option string; f_owner : option string }.

Class SqlRooms (DB : Type) := {
  ilike : string → string → bool;
  insert_room : ctx → Room.t → SM DB unit;
  select_room : ctx → string → SM DB Room.t;
  count_rooms : ctx → RoomFilter → SM DB Z;
  (* ORDER BY created_at DESC LIMIT limit OFFSET offset *)
  select_rooms : ctx → RoomFilter → Z → Z → SM DB (list Room.t);
  (* every column but id and created_at; the number of rows *)
  update_room : ctx → Room.t → SM DB Z;
  delete_room : ctx → string → SM DB Z;
}.

Class SqlUsers (DB : Type) := {
  insert_user : ctx → User.t → SM DB unit;
  select_user_by_id : ctx → string → SM DB User.t;
  select_user_by_lower_username : ctx → string → SM DB User.t;
  select_user_by_lower_email : ctx → string → SM DB User.t;
  update_user : ctx → User.t → SM DB Z;
}.

(** [uuid.NewString()], by the number of ids drawn before. *)
Class UuidSource := { uuid_at : nat → string }.

(** ** The stores *)

Module PgRooms.
Record t (DB : Type) := mk { db : DB; drawn : nat }.
Arguments mk {DB} _ _.
Arguments db {DB} _.
Arguments drawn {DB} _.

Section rooms.
Context {DB : Type} `{!SqlRooms DB, !UuidSource}.

Definition on_db {A} (m : SM DB A) : SM (t DB) A := λ s,
  let '(r, d) := m (db s) in (r, mk d (drawn s)).
Definition NewString : SM (t DB) string := λ s,
  (Ok (uuid_at (drawn s)), mk (db s) (S (drawn s))).

Definition Create (c : ctx) (clock : time) (room : Room.t) : SM (t DB) Room.t :=
  let now := utcNow clock in
  id ← (if bool_decide (Room.ID room = "") then NewString else mret (Room.ID room));
  let visibility := if bool_decide (Room.Visibility room = "")
                    then RoomVisibilityPublic else Room.Visibility room in
  let created := if IsZero (Room.CreatedAt room) then now else Room.CreatedAt room in
  let room := Room.mk id (Room.Name room) (Room.OwnerID room) visibility
                (Room.PasswordHash room) (Room.CurrentVideo room) created now in
  _ ← map_err wrapConstraint (on_db (insert_room c room));
  mret room.

Definition GetByID (c : ctx) (id : string) : SM (t DB) Room.t :=
  scanRoom (on_db (select_room c id)).

Definition filter_of (opts : ListRoomsOpts.t) : RoomFilter :=
  mkFilter
    (if bool_decide (ListRoomsOpts.Query opts = "") then None
     else Some ("%" +:+ ListRoomsOpts.Query opts +:+ "%"))
    (if bool_decide (ListRoomsOpts.OwnerID opts = "") then None
     else Some (ListRoomsOpts.OwnerID opts)).

Definition List (c : ctx) (opts : ListRoomsOpts.t) : SM (t DB) (list Room.t * Z) :=
  let '(limit, offset) := normalizePage (ListRoomsOpts.Limit opts)
                            (ListRoomsOpts.Offset opts) in
  total ← on_db (count_rooms c (filter_of opts));
  rooms ← on_db (select_rooms c (filter_of opts) limit offset);
  mret (rooms, total).

Definition Update (c : ctx) (clock : time) (room : Room.t) : SM (t DB) Room.t :=
  let room := Room.mk (Room.ID room) (Room.Name room) (Room.OwnerID room)
                (Room.Visibility room) (Room.PasswordHash room)
                (Room.CurrentVideo room) (Room.CreatedAt room) (utcNow clock) in
  rows ← map_err wrapConstraint (on_db (update_room c room));
  _ ← requireRows rows;
  mret room.

Definition Delete (c : ctx) (id : string) : SM (t DB) unit :=
  rows ← on_db (delete_room c id);
  requireRows rows.

#[global] Instance iface : RoomStore (t DB) := {
  RoomCreate := Create;
  RoomGetByID := GetByID;
  RoomList := List;
  RoomUpdate := Update;
  RoomDelete := Delete;
}.
End rooms.
End PgRooms.

Module PgUsers.
Record t (DB : Type) := mk { db : DB; drawn : nat }.
Arguments mk {DB} _ _.
Arguments db {DB} _.
Arguments drawn {DB} _.

Section users.
Context {DB : Type} `{!SqlUsers DB, !UuidSource}.

Definition on_db {A} (m : SM DB A) : SM (t DB) A := λ s,
  let '(r, d) := m (db s) in (r, mk d (drawn s)).
Definition NewString : SM (t DB) string := λ s,
  (Ok (uuid_at (drawn s)), mk (db s) (S (drawn s))).

Definition GetByID (c : ctx) (id : string) : SM (t DB) User.t :=
  scanUser (on_db (select_user_by_id c id)).
Definition GetByUsername (c : ctx) (username : string) : SM (t DB) User.t :=
  scanUser (on_db (select_user_by_lower_username c username)).
Definition GetByEmail (c : ctx) (email : string) : SM (t DB) User.t :=
  scanUser (on_db (select_user_by_lower_email c email)).

Definition Create (c : ctx) (clock : time) (user : User.t) : SM (t DB) User.t :=
  let now := utcNow clock in
  id ← (if bool_decide (User.ID user = "") then NewString else mret (User.ID user));
  let role := if bool_decide (User.Role user = "") then UserRoleUser else User.Role user in
  let created := if IsZero (User.CreatedAt user) then now else User.CreatedAt user in
  let user := User.mk id (User.Email user) (User.Username user) (User.PasswordHash user)
                (User.Nickname user) (User.AvatarURL user) role created now in
  _ ← map_err wrapConstraint (on_db (insert_user c user));
  mret user.

Definition Update (c : ctx) (clock : time) (user : User.t) : SM (t DB) User.t :=
  let user := User.mk (User.ID user) (User.Email user) (User.Username user)
                (User.PasswordHash user) (User.Nickname user) (User.AvatarURL user)
                (User.Role user) (User.CreatedAt user) (utcNow clock) in
  rows ← map_err wrapConstraint (on_db (update_user c user));
  _ ← requireRows rows;
  mret user.

#[global] Instance iface : UserStore (t DB) := {
  UserGetByID := GetByID;
  UserGetByUsername := GetByUsername;
  UserGetByEmail := GetByEmail;
  UserCreate := Create;
  UserUpdate := Update;
}.
End users.
End PgUsers.

(** ** What PostgreSQL documents of the statements *)

(** The rows a filter selects. *)
Definition matches `{SqlRooms DB} (f : RoomFilter) (room : Room.t) : bool :=
  match f_name f with None => true | Some p => ilike p (Room.Name room) end &&
  match f_owner f with None => true | Some o => bool_decide (Room.OwnerID room = o) end.

(** Newest first; rooms of the same age in any order. *)
Definition not_older (a b : Room.t) : Prop := Room.CreatedAt b ≤ Room.CreatedAt a.
Definition newest_first (l : list Room.t) : Prop := StronglySorted not_older l.

Class SqlRoomsLaws (DB : Type) `{SqlRooms DB} := {
  db_wf : DB → Prop;
  table : DB → gmap string Room.t;
  table_key : ∀ d r room, db_wf d → table d !! r = Some room → Room.ID room = r;
  insert_room_law : ∀ c room,
    method_law db_wf table c (insert_room c room)
      (λ t res t', match t !! Room.ID room with
                   | Some _ => res = Err (PgError "23505") ∧ t' = t
                   | None => res = Ok tt ∧ t' = <[Room.ID room := room]> t
                   end);
  select_room_law : ∀ c r,
    method_law db_wf table c (select_room c r)
      (λ t res t', res = match t !! r with Some room => Ok room | None => Err ErrNoRows end
                   ∧ t' = t);
  count_rooms_law : ∀ c f,
    method_law db_wf table c (count_rooms c f)
      (λ t res t', res = Ok (Z.of_nat (size (filter (λ kv, matches f kv.2 = true) t)))
                   ∧ t' = t);
  select_rooms_law : ∀ c f limit offset,
    method_law db_wf table c (select_rooms c f limit offset)
      (λ t res t', (∃ all, newest_first all ∧
          all ≡ₚ snd <$> map_to_list (filter (λ kv, matches f kv.2 = true) t) ∧
          res = Ok (take (Z.to_nat limit) (drop (Z.to_nat offset) all))) ∧ t' = t);
  update_room_law : ∀ c room,
    method_law db_wf table c (update_room c room)
      (λ t res t', match t !! Room.ID room with
                   | None => res = Ok 0 ∧ t' = t
                   | Some old => res = Ok 1 ∧
                       t' = <[Room.ID room :=
                              Room.mk (Room.ID room) (Room.Name room) (Room.OwnerID room)
                                (Room.Visibility room) (Room.PasswordHash room)
                                (Room.CurrentVideo room) (Room.CreatedAt old)
                                (Room.UpdatedAt room)]> t
                   end);
  delete_room_law : ∀ c r,
    method_law db_wf table c (delete_room c r)
      (λ t res t', res = Ok (if decide (is_Some (t !! r)) then 1 else 0) ∧ t' = delete r t);
}.

(** The unique constraints another row of the table keeps a user from: the name,
    and the address without regard to case when there is one. *)
Definition taken (lower : string → string) (t : gmap string User.t) (user : User.t) : Prop :=
  ∃ id other, t !! id = Some other ∧ id ≠ User.ID user ∧
    (User.Username other = User.Username user ∨
     User.Email other ≠ "" ∧ User.Email user ≠ "" ∧
     lower (User.Email other) = lower (User.Email user)).

(** [SELECT ... WHERE LOWER(column) = LOWER(value)], one row of it. *)
Definition select_lower (lower : string → string) (column : User.t → string) (x : string)
    (t : gmap string User.t) (res : result User.t) : Prop :=
  (∃ u, res = Ok u ∧ t !! User.ID u = Some u ∧ lower (column u) = lower x) ∨
  (res = Err ErrNoRows ∧ ∀ id u, t !! id = Some u → lower (column u) ≠ lower x).

(** The row after an UPDATE of every column but [id] and [created_at]. *)
Definition updated_user (old user : User.t) : User.t :=
  User.mk (User.ID user) (User.Email user) (User.Username user) (User.PasswordHash user)
    (User.Nickname user) (User.AvatarURL user) (User.Role user)
    (User.CreatedAt old) (User.UpdatedAt user).

Class SqlUsersLaws (DB : Type) `{SqlUsers DB} := {
  udb_wf : DB → Prop;
  utable : DB → gmap string User.t;
  sql_lower : string → string;
  select_user_key : ∀ c id d u d', select_user_by_id c id d = (Ok u, d') → User.ID u = id;
  select_user_law : ∀ c id,
    method_law udb_wf utable c (select_user_by_id c id)
      (λ t res t', res = match t !! id with Some u => Ok u | None => Err ErrNoRows end ∧ t' = t);
  select_username_law : ∀ c x,
    method_law udb_wf utable c (select_user_by_lower_username c x)
      (λ t res t', t' = t ∧ select_lower sql_lower User.Username x t res);
  select_email_law : ∀ c x,
    method_law udb_wf utable c (select_user_by_lower_email c x)
      (λ t res t', t' = t ∧ select_lower sql_lower User.Email x t res);
  insert_user_law : ∀ c user,
    method_law udb_wf utable c (insert_user c user)
      (λ t res t',
         res = Err (PgError "23505") ∧ t' = t ∧
           (is_Some (t !! User.ID user) ∨ taken sql_lower t user) ∨
         res = Ok tt ∧ t' = <[User.ID user := user]> t ∧
           t !! User.ID user = None ∧ ¬ taken sql_lower t user);
  update_user_law : ∀ c user,
    method_law udb_wf utable c (update_user c user)
      (λ t res t',
         match t !! User.ID user with
         | None => res = Ok 0 ∧ t' = t
         | Some old =>
             res = Err (PgError "23505") ∧ t' = t ∧ taken sql_lower t user ∨
             res = Ok 1 ∧ t' = <[User.ID user := updated_user old user]> t ∧
               ¬ taken sql_lower t user
         end);
}.

Section store.
Context `{!SqlRooms DB, !UuidSource, !SqlRoomsLaws DB}.

(** The laws carry over to the store, statement by statement. *)
Lemma wp_on_db {A} c (m : SM DB A) post Q (s : PgRooms.t DB) :
  method_law db_wf table c m post → db_wf (PgRooms.db s) →
  (∀ r d, db_wf d →
     match c with
     | Some e => r = Err e ∧ table d = table (PgRooms.db s)
     | None => post (table (PgRooms.db s)) r (table d)
     end → Q r (PgRooms.mk d (PgRooms.drawn s))) →
  wp (PgRooms.on_db m) Q s.
Proof.
  intros Hm Hw HQ. specialize (Hm _ Hw). unfold wp, PgRooms.on_db.
  destruct (m (PgRooms.db s)) as [r d]. destruct Hm. by apply HQ.
Qed.

Lemma wp_map_err {S A} f (m : SM S A) Q s :
  wp m (λ r s', match r with Err e => Q (Err (f e)) s' | _ => Q r s' end) s →
  wp (map_err f m) Q s.
Proof. unfold wp, map_err. by destruct (m s) as [[a|e|h] s']. Qed.

Lemma method_law_wp {S V A} (wf : S → Prop) (view : S → V) c (m : SM S A) post :
  (∀ s, wf s → wp m (λ r s', wf s' ∧
     match c with
     | Some e => r = Err e ∧ view s' = view s
     | None => post (view s) r (view s')
     end) s) →
  method_law wf view c m post.
Proof. intros H1 s Hs. specialize (H1 s Hs). unfold wp in H1. by destruct (m s). Qed.

Lemma elem_of_listed f (t : gmap string Room.t) all room :
  all ≡ₚ snd <$> map_to_list (filter (λ kv : string * Room.t, matches f kv.2 = true) t) →
  room ∈ all ↔ ∃ r, t !! r = Some room ∧ matches f room = true.
Proof.
  intros ->. rewrite list_elem_of_fmap. split.
  - intros ([r room'] & -> & Hin%elem_of_map_to_list). simpl.
    apply map_lookup_filter_Some in Hin. eauto.
  - intros (r & Hr & Hm). exists (r, room). split; [done|].
    apply elem_of_map_to_list, map_lookup_filter_Some. done.
Qed.

Lemma normalizePage_range limit offset :
  1 ≤ (normalizePage limit offset).1 ≤ 100 ∧ 0 ≤ (normalizePage limit offset).2 ∧
  (50 ≤ limit → 50 ≤ (normalizePage limit offset).1).
Proof.
  unfold normalizePage. simpl.
  destruct (Z.leb_spec limit 0), (Z.ltb_spec 100 limit), (Z.ltb_spec offset 0); simpl; lia.
Qed.

Lemma no_filter opts room :
  ListRoomsOpts.Query opts = "" → ListRoomsOpts.OwnerID opts = "" →
  matches (PgRooms.filter_of opts) room = true.
Proof. intros Hq Ho. unfold matches, PgRooms.filter_of. by rewrite Hq, Ho. Qed.

Lemma List_run c opts (s : PgRooms.t DB) :
  db_wf (PgRooms.db s) →
  wp (PgRooms.List c opts) (λ r s', db_wf (PgRooms.db s') ∧
    table (PgRooms.db s') = table (PgRooms.db s) ∧
    match c with
    | Some e => r = Err e
    | None =>
        let f := PgRooms.filter_of opts in
        let '(limit, offset) :=
          normalizePage (ListRoomsOpts.Limit opts) (ListRoomsOpts.Offset opts) in
        ∃ all, newest_first all ∧
          all ≡ₚ snd <$> map_to_list (filter (λ kv, matches f kv.2 = true)
                                        (table (PgRooms.db s))) ∧
          r = Ok (take (Z.to_nat limit) (drop (Z.to_nat offset) all),
                  Z.of_nat (length all))
    end) s.
Proof.
  intros Hw. unfold PgRooms.List. destruct (normalizePage _ _) as [limit offset].
  apply wp_bind. eapply wp_on_db; [apply count_rooms_law|done|].
  intros r d Hd. destruct c as [e|]; intros [-> Ht]; [done|].
  apply wp_bind. eapply wp_on_db; [apply (select_rooms_law None)|done|].
  intros r d' Hd' [(all & Hnew & Hall & ->) Ht']. apply wp_ret. simpl in *.
  rewrite Ht in *. split_and!; [done|done|]. exists all. split_and!; [done..|].
  apply Permutation_length in Hall. rewrite length_fmap, length_map_to_list in Hall.
  by rewrite Hall.
Qed.

#[global] Instance pg_rooms_contract : RoomStoreContract (PgRooms.t DB).
Proof.
  refine (Build_RoomStoreContract _ _ (λ s, db_wf (PgRooms.db s))
    (λ s, table (PgRooms.db s)) _ _).
  - intros c opts. apply method_law_wp. intros s Hw.
    eapply wp_mono; [by apply List_run|]. intros r s' (Hw' & Ht & Hr). split; [done|].
    destruct c as [e|]; [done|].
    pose proof (normalizePage_range (ListRoomsOpts.Limit opts) (ListRoomsOpts.Offset opts))
      as (_ & _ & H50).
    destruct (normalizePage _ _) as [limit offset] eqn:Hn. simpl in *.
    destruct Hr as (all & _ & Hall & ->). split; [|done]. eexists _, _. split; [done|]. split.
    + intros room (i & Hin)%list_elem_of_lookup_1.
      apply lookup_take_Some in Hin as [Hin _]. rewrite lookup_drop in Hin.
      apply list_elem_of_lookup_2, (elem_of_listed _ _ _ _ Hall) in Hin as (k & Hk & _).
      by rewrite (table_key _ _ _ Hw Hk).
    + intros Hl Ho Hq Hown Hsize k room Hk.
      split; [|by apply (table_key _ _ _ Hw)].
      assert (offset = 0) as ->.
      { unfold normalizePage in Hn. rewrite Ho in Hn. simpl in Hn. congruence. }
      assert (length all ≤ 50)%nat as Hlen.
      { rewrite Hall, length_fmap, length_map_to_list.
        etrans; [apply map_size_filter|done]. }
      rewrite drop_0, take_ge by lia.
      apply (elem_of_listed _ _ _ _ Hall). exists k. split; [done|by apply no_filter].
  - intros c r. apply method_law_wp. intros s Hw. unfold RoomDelete, PgRooms.iface, PgRooms.Delete.
    apply wp_bind. eapply wp_on_db; [apply delete_room_law|done|].
    intros res d Hd. destruct c as [e|]; intros [-> Ht]; [done|].
    case_decide; unfold wp, requireRows; simpl; done.
Defined.
End store.

Section users.
Context `{!SqlUsers DB, !UuidSource, !SqlUsersLaws DB}.

Definition users_wf (s : PgUsers.t DB) : Prop := udb_wf (PgUsers.db s).
Definition users_table (s : PgUsers.t DB) : gmap string User.t := utable (PgUsers.db s).

Lemma wp_on_users {A} (m : SM DB A) post Q (s : PgUsers.t DB) :
  method_law udb_wf utable None m post → users_wf s →
  (∀ r s', users_wf s' → post (users_table s) r (users_table s') → Q r s') →
  wp (PgUsers.on_db m) Q s.
Proof.
  intros Hm Hw HQ. specialize (Hm _ Hw). unfold wp, PgUsers.on_db.
  destruct (m (PgUsers.db s)) as [r d]. destruct Hm. by apply HQ.
Qed.

Lemma select_lower_law (m : SM DB User.t) column x :
  method_law udb_wf utable None m (λ t res t', t' = t ∧ select_lower sql_lower column x t res) →
  method_law users_wf users_table None (map_err wrapNotFound (PgUsers.on_db m))
    (λ v res v', v' = v ∧
       ((∃ u, res = Ok u ∧ v !! User.ID u = Some u ∧ sql_lower (column u) = sql_lower x) ∨
        (res = Err ErrNotFound ∧ ∀ id u, v !! id = Some u → sql_lower (column u) ≠ sql_lower x))).
Proof.
  intros Hm. apply method_law_wp. intros s Hw. apply wp_map_err.
  eapply wp_on_users; [exact Hm|done|]. intros r s' Hw' [Ht [(u & -> & Hu & Hl)|[-> Hno]]];
    (split; [done|]); (split; [done|]); [left; by exists u|by right].
Qed.

#[global] Instance pg_users_contract : UserStoreContract (PgUsers.t DB).
Proof.
  refine (Build_UserStoreContract _ _ users_wf users_table sql_lower _ _ _ _ _ _).
  - intros c id s u s'. cbn. unfold PgUsers.GetByID, scanUser, map_err, PgUsers.on_db.
    destruct (select_user_by_id c id (PgUsers.db s)) as [[a|e|h] d] eqn:E; [|done..].
    intros [= <- <-]. by eapply select_user_key.
  - intros id. apply method_law_wp. intros s Hw. apply wp_map_err.
    eapply wp_on_users; [apply select_user_law|done|]. intros r s' Hw' [-> Ht].
    by destruct (users_table s !! id).
  - intros name. apply select_lower_law, select_username_law.
  - intros email. apply select_lower_law, select_email_law.
  - intros now user. apply method_law_wp. intros s Hw. cbn. unfold PgUsers.Create.
    apply wp_bind. apply (wp_mono _ (λ r s1, users_wf s1 ∧ users_table s1 = users_table s ∧
      ∃ id, r = Ok id)). { case_bool_decide; split_and!; try done; by eexists. }
    intros r s1 (Hw1 & Ht1 & id & ->).
    apply wp_bind, wp_map_err. eapply wp_on_users; [apply insert_user_law|done|].
    intros r s2 Hw2. rewrite Ht1. intros [(-> & Ht & _)|(-> & Ht & Hfree & _)]; cbv iota.
    + split; [done|]. right. by eexists.
    + apply wp_ret. split; [done|]. left. eexists. split; [done|]. cbn in *. split_and!; done.
  - intros now user. apply method_law_wp. intros s Hw. cbn. unfold PgUsers.Update.
    apply wp_bind, wp_map_err. eapply wp_on_users; [apply update_user_law|done|].
    intros r s1 Hw1. cbn [User.ID]. destruct (users_table s !! User.ID user) as [old|].
    + intros [(-> & Ht & _)|(-> & Ht & _)]; (split; [done|]); [right; by eexists|].
      left. eexists. exists old. eexists. split; [reflexivity|]. split; [done|].
      split; [done|]. split; [|split; [|split; [|split; [|exact Ht]]]]; done.
    + intros [-> Ht]. split; [done|]. right. by eexists.
Defined.
End users.

(** ** A concrete database *)

Module TableDB.
#[global] Instance not_older_dec : RelDecision not_older.
Proof. intros a b. unfold not_older. solve_decision. Defined.
#[global] Instance not_older_total : Total not_older.
Proof. intros a b. unfold not_older. lia. Qed.
#[global] Instance not_older_trans : Transitive not_older.
Proof. intros a b c. unfold not_older. lia. Qed.

Record t := mk { rows : gmap string Room.t }.

Definition exact_match (pattern name : string) : bool :=
  bool_decide (pattern = "%" +:+ name +:+ "%").
Definition selected (f : RoomFilter) (d : t) : gmap string Room.t :=
  filter (λ kv : string * Room.t,
    match f_name f with None => true | Some p => exact_match p (Room.Name kv.2) end &&
    match f_owner f with None => true | Some o => bool_decide (Room.OwnerID kv.2 = o) end
    = true) (rows d).

#[global] Instance sql : SqlRooms t := {
  ilike := exact_match;
  insert_room c room := guard_ctx c (λ d,
    match rows d !! Room.ID room with
    | Some _ => (Err (PgError "23505"), d)
    | None => (Ok tt, mk (<[Room.ID room := room]> (rows d)))
    end);
  select_room c r := guard_ctx c (λ d,
    (match rows d !! r with Some room => Ok room | None => Err ErrNoRows end, d));
  count_rooms c f := guard_ctx c (λ d, (Ok (Z.of_nat (size (selected f d))), d));
  select_rooms c f limit offset := guard_ctx c (λ d,
    (Ok (take (Z.to_nat limit) (drop (Z.to_nat offset)
           (merge_sort not_older (snd <$> map_to_list (selected f d))))), d));
  update_room c room := guard_ctx c (λ d,
    match rows d !! Room.ID room with
    | None => (Ok 0, d)
    | Some old =>
        (Ok 1, mk (<[Room.ID room :=
           Room.mk (Room.ID room) (Room.Name room) (Room.OwnerID room)
             (Room.Visibility room) (Room.PasswordHash room) (Room.CurrentVideo room)
             (Room.CreatedAt old) (Room.UpdatedAt room)]> (rows d)))
    end);
  delete_room c r := guard_ctx c (λ d,
    (Ok (if decide (is_Some (rows d !! r)) then 1 else 0), mk (delete r (rows d))));
}.

Definition keyed (d : t) : Prop := ∀ r room, rows d !! r = Some room → Room.ID room = r.

#[global] Instance laws : SqlRoomsLaws t.
Proof.
  refine (Build_SqlRoomsLaws t _ keyed rows _ _ _ _ _ _ _).
  { intros d r room Hd. apply Hd. }
  all: intros; apply method_law_guard; intros d Hd; simpl.
  - destruct (rows d !! Room.ID room) eqn:E; simpl; [done|]. split; [|done].
    intros k v; simpl; intros [[<- <-]|[_ Hk]]%lookup_insert_Some; [done|by apply Hd].
  - done.
  - done.
  - split; [done|]. split; [|done]. eexists. split_and!; [| |done].
    + apply StronglySorted_merge_sort; apply _.
    + apply merge_sort_Permutation.
  - destruct (rows d !! Room.ID room) eqn:E; simpl; [|done]. split; [|done].
    intros k v; simpl; intros [[<- <-]|[_ Hk]]%lookup_insert_Some; [done|by apply Hd].
  - split; [|done]. intros k v; simpl; intros [_ Hk]%lookup_delete_Some. by apply Hd.
Defined.
End TableDB.

(** A table of users; [lower] leaves its argument alone. *)
Module TableUsers.
Record t := mk { rows : gmap string User.t }.

Definition find (p : User.t → bool) (d : t) : option User.t :=
  head (filter (λ u, p u = true) (snd <$> map_to_list (rows d))).
Definition select (p : User.t → bool) : SM t User.t := λ d,
  (match find p d with Some u => Ok u | None => Err ErrNoRows end, d).
Definition clash (user other : User.t) : bool :=
  negb (bool_decide (User.ID other = User.ID user)) &&
  (bool_decide (User.Username other = User.Username user) ||
   negb (bool_decide (User.Email other = "")) && negb (bool_decide (User.Email user = "")) &&
   bool_decide (User.Email other = User.Email user)).

#[global] Instance sql : SqlUsers t := {
  insert_user c user := guard_ctx c (λ d,
    if bool_decide (is_Some (rows d !! User.ID user)) || bool_decide (is_Some (find (clash user) d))
    then (Err (PgError "23505"), d)
    else (Ok tt, mk (<[User.ID user := user]> (rows d))));
  select_user_by_id c id := guard_ctx c (λ d,
    (match rows d !! id with
     | Some u => if bool_decide (User.ID u = id) then Ok u else Err ErrNoRows
     | None => Err ErrNoRows
     end, d));
  select_user_by_lower_username c x := guard_ctx c (select (λ u, bool_decide (User.Username u = x)));
  select_user_by_lower_email c x := guard_ctx c (select (λ u, bool_decide (User.Email u = x)));
  update_user c user := guard_ctx c (λ d,
    match rows d !! User.ID user with
    | None => (Ok 0, d)
    | Some old =>
        if bool_decide (is_Some (find (clash user) d)) then (Err (PgError "23505"), d)
        else (Ok 1, mk (<[User.ID user := updated_user old user]> (rows d)))
    end);
}.

Definition keyed (d : t) : Prop := ∀ id u, rows d !! id = Some u → User.ID u = id.

Lemma find_Some p d u : keyed d → find p d = Some u → rows d !! User.ID u = Some u ∧ p u = true.
Proof.
  intros Hd Hf. unfold find in Hf. apply head_Some_elem_of, list_elem_of_filter in Hf as [Hp Hin].
  split; [|done]. apply list_elem_of_fmap in Hin as ([id v] & -> & Hin%elem_of_map_to_list).
  simpl. by rewrite (Hd _ _ Hin).
Qed.
Lemma find_None p d id u : find p d = None → rows d !! id = Some u → p u = false.
Proof.
  intros Hf Hu. unfold find in Hf. destruct (p u) eqn:E; [|done].
  assert (u ∈ filter (λ u, p u = true) (snd <$> map_to_list (rows d))) as Hin.
  { apply list_elem_of_filter. split; [done|]. apply list_elem_of_fmap. exists (id, u).
    split; [done|]. by apply elem_of_map_to_list. }
  destruct (filter _ _); [by apply not_elem_of_nil in Hin|done].
Qed.

Lemma select_select column d x : keyed d →
  select_lower id column x (rows d) (select (λ u, bool_decide (column u = x)) d).1.
Proof.
  intros Hd. unfold select, select_lower. cbn [fst]. destruct (find _ d) as [u|] eqn:E.
  - left. exists u. apply (find_Some _ _ _ Hd) in E as [Hu Hx]. apply bool_decide_eq_true in Hx.
    split_and!; done.
  - right. split; [done|]. intros k u Hu Hx. pose proof (find_None _ _ _ _ E Hu) as Hp.
    by apply bool_decide_eq_false in Hp.
Qed.

Lemma clash_taken d user : keyed d →
  is_Some (find (clash user) d) ↔ taken id (rows d) user.
Proof.
  intros Hd. split.
  - intros [o Ho]. apply (find_Some _ _ _ Hd) in Ho as [Hu Hc]. exists (User.ID o), o.
    unfold clash in Hc. split; [done|]. apply andb_true_iff in Hc as [H1 H2].
    apply negb_true_iff, bool_decide_eq_false in H1. split; [done|].
    apply orb_true_iff in H2 as [H2|H2]; [left; by apply bool_decide_eq_true in H2|right].
    apply andb_true_iff in H2 as [[H2 H3]%andb_true_iff H4].
    apply negb_true_iff, bool_decide_eq_false in H2, H3. by apply bool_decide_eq_true in H4.
  - intros (k & o & Hu & Hne & Hc). destruct (find (clash user) d) eqn:E; [done|].
    pose proof (find_None _ _ _ _ E Hu) as Hf. unfold clash in Hf.
    rewrite <- (Hd _ _ Hu) in Hne. rewrite (bool_decide_false (User.ID o = _)) in Hf by done.
    cbn [negb andb] in Hf. apply orb_false_iff in Hf as [H1 H2]. apply bool_decide_eq_false in H1.
    destruct Hc as [?|(He1 & He2 & He3)]; [done|].
    rewrite !(bool_decide_false (_ = "")) in H2 by done. rewrite bool_decide_true in H2 by done. done.
Qed.

Lemma keyed_insert d user row : keyed d → User.ID row = User.ID user →
  keyed (mk (<[User.ID user := row]> (rows d))).
Proof.
  intros Hd Hr k v; simpl; intros [[<- <-]|[_ Hk]]%lookup_insert_Some; [done|by apply Hd].
Qed.

#[global] Instance laws : SqlUsersLaws t.
Proof.
  refine (Build_SqlUsersLaws t _ keyed rows id _ _ _ _ _ _).
  { intros [e|] id d u d'; simpl; [done|]. destruct (rows d !! id); [|done].
    case_bool_decide; [|done]. by intros [= <- _]. }
  all: intros; apply method_law_guard; intros d Hd; simpl.
  - split; [done|]. split; [|done]. destruct (rows d !! id) as [u|] eqn:E; [|done].
    by rewrite bool_decide_true by (by apply Hd).
  - split; [done|]. split; [done|]. by apply (select_select User.Username).
  - split; [done|]. split; [done|]. by apply (select_select User.Email).
  - pose proof (clash_taken d user Hd) as Hc.
    destruct (decide (is_Some (rows d !! User.ID user))) as [Hs|Hs];
      [rewrite bool_decide_true by done|rewrite bool_decide_false by done]; simpl; [auto 7|].
    case_bool_decide as Hf; simpl; [rewrite <- Hc; auto 7|]. split; [by apply keyed_insert|].
    right. split_and!; [done..| |by rewrite <- Hc]. by apply eq_None_not_Some.
  - pose proof (clash_taken d user Hd) as Hc. destruct (rows d !! User.ID user); simpl; [|done].
    case_bool_decide as Hf; simpl; [rewrite <- Hc; auto 7|]. split; [by apply keyed_insert|].
    right. split_and!; [done..|by rewrite <- Hc].
Defined.
End TableUsers.

(** ** The store's properties *)

Section properties.
Context `{!SqlRooms DB, !UuidSource, !SqlRoomsLaws DB}.
Implicit Types s : PgRooms.t DB.

(** The row a creation inserts. *)
Definition created_row (id : string) (clock : time) (room : Room.t) : Room.t :=
  Room.mk id (Room.Name room) (Room.OwnerID room)
    (if bool_decide (Room.Visibility room = "") then RoomVisibilityPublic
     else Room.Visibility room)
    (Room.PasswordHash room) (Room.CurrentVideo room)
    (if IsZero (Room.CreatedAt room) then utcNow clock else Room.CreatedAt room)
    (utcNow clock).
Definition created_id (room : Room.t) (s : PgRooms.t DB) : string :=
  if bool_decide (Room.ID room = "") then uuid_at (PgRooms.drawn s) else Room.ID room.

Lemma Create_run clock room s :
  db_wf (PgRooms.db s) →
  wp (PgRooms.Create None clock room) (λ r s',
    let id := created_id room s in
    db_wf (PgRooms.db s') ∧
    match table (PgRooms.db s) !! id with
    | Some _ => r = Err (ErrWrap "%w: %v" ErrConflict) ∧
                table (PgRooms.db s') = table (PgRooms.db s)
    | None => r = Ok (created_row id clock room) ∧
              table (PgRooms.db s') = <[id := created_row id clock room]> (table (PgRooms.db s))
    end) s.
Proof.
  intros Hw. unfold PgRooms.Create, created_id. apply wp_bind.
  set (Q := λ (r : result string) (s' : PgRooms.t DB),
    PgRooms.db s' = PgRooms.db s ∧ r = Ok (created_id room s)).
  apply (wp_mono _ Q).
  { unfold Q, created_id. by case_bool_decide. }
  intros r s1 [Hdb ->]. unfold created_id.
  set (id := if bool_decide (Room.ID room = "") then _ else _).
  apply wp_bind, wp_map_err. eapply wp_on_db; [apply (insert_room_law None)|by rewrite Hdb|].
  intros r d Hd. rewrite Hdb. simpl. destruct (table (PgRooms.db s) !! id); intros [-> Ht]; done.
Qed.

Lemma GetByID_run id s :
  db_wf (PgRooms.db s) →
  wp (PgRooms.GetByID None id) (λ r s', db_wf (PgRooms.db s') ∧
    table (PgRooms.db s') = table (PgRooms.db s) ∧
    r = match table (PgRooms.db s) !! id with Some room => Ok room | None => Err ErrNotFound end) s.
Proof.
  intros Hw. apply wp_map_err. eapply wp_on_db; [apply (select_room_law None)|done|].
  intros r d Hd [-> Ht]. by destruct (table (PgRooms.db s) !! id).
Qed.

(** The row an update leaves: the column [created_at] is not set. *)
Definition updated_row (clock : time) (old room : Room.t) : Room.t :=
  Room.mk (Room.ID room) (Room.Name room) (Room.OwnerID room) (Room.Visibility room)
    (Room.PasswordHash room) (Room.CurrentVideo room) (Room.CreatedAt old) (utcNow clock).

Lemma Update_run clock room s :
  db_wf (PgRooms.db s) →
  wp (PgRooms.Update None clock room) (λ r s', db_wf (PgRooms.db s') ∧
    match table (PgRooms.db s) !! Room.ID room with
    | None => r = Err ErrNotFound ∧ table (PgRooms.db s') = table (PgRooms.db s)
    | Some old => (∃ room', r = Ok room' ∧ Room.ID room' = Room.ID room) ∧
        table (PgRooms.db s') = <[Room.ID room := updated_row clock old room]> (table (PgRooms.db s))
    end) s.
Proof.
  intros Hw. apply wp_bind, wp_map_err.
  eapply wp_on_db; [apply (update_room_law None)|done|].
  intros r d Hd. simpl. destruct (table (PgRooms.db s) !! Room.ID room); intros [-> Ht];
    unfold wp, requireRows; simpl; [|done]. split; [done|]. split; [by eexists|done].
Qed.

Lemma Delete_run id s :
  db_wf (PgRooms.db s) →
  wp (PgRooms.Delete None id) (λ r s', db_wf (PgRooms.db s') ∧
    table (PgRooms.db s') = delete id (table (PgRooms.db s)) ∧
    r = if decide (is_Some (table (PgRooms.db s) !! id)) then Ok tt else Err ErrNotFound) s.
Proof.
  intros Hw. apply wp_bind. eapply wp_on_db; [apply (delete_room_law None)|done|].
  intros r d Hd [-> Ht]. case_decide; unfold wp, requireRows; simpl; done.
Qed.

(** C24: A created room has the name, owner, password and video asked for, is public
    unless asked otherwise, and is the one read back; a second room of that id is a
    conflict that changes nothing.  An update replaces that row, and no other, by
    the new values, with the creation time kept and the time of the update, and is
    read back so.  A deletion takes that row out, and no other; after it the room is
    not found by lookups, updates and further deletions. *)
Theorem room_lifecycle clock clock' room s room' s' :
  db_wf (PgRooms.db s) → RoomCreate None clock room s = (Ok room', s') →
  Room.ID room' ≠ "" →
  let id := Room.ID room' in
  let table_of x := table (PgRooms.db x) in
  (Room.Name room' = Room.Name room ∧ Room.OwnerID room' = Room.OwnerID room ∧
   Room.PasswordHash room' = Room.PasswordHash room ∧
   Room.CurrentVideo room' = Room.CurrentVideo room ∧
   Room.Visibility room' =
     (if decide (Room.Visibility room = "") then "public" else Room.Visibility room)) ∧
  table_of s' = <[id := room']> (table_of s) ∧
  (RoomGetByID None id s').1 = Ok room' ∧
  (∃ e, (RoomCreate None clock' room' s').1 = Err e ∧ errors_Is e ErrConflict = true) ∧
  table_of (RoomCreate None clock' room' s').2 = table_of s' ∧
  (∀ new, Room.ID new = id →
   let row := Room.mk id (Room.Name new) (Room.OwnerID new) (Room.Visibility new)
     (Room.PasswordHash new) (Room.CurrentVideo new) (Room.CreatedAt room') (utcNow clock') in
   let '(r, edited) := RoomUpdate None clock' new s' in
   (∃ answer, r = Ok answer) ∧ table_of edited = <[id := row]> (table_of s') ∧
   (RoomGetByID None id edited).1 = Ok row) ∧
  (RoomDelete None id s').1 = Ok tt ∧
  (let gone := (RoomDelete None id s').2 in
   table_of gone = delete id (table_of s') ∧
   (RoomGetByID None id gone).1 = Err ErrNotFound ∧
   (RoomUpdate None clock' room' gone).1 = Err ErrNotFound ∧
   (RoomDelete None id gone).1 = Err ErrNotFound).
Proof.
  simpl. intros Hw Hc Hne. pose proof (Create_run clock room s Hw) as H1.
  unfold wp in H1. rewrite Hc in H1. simpl in H1. destruct H1 as [Hw' H1].
  destruct (table (PgRooms.db s) !! created_id room s) eqn:E; destruct H1 as [H1 Ht]; [done|].
  injection H1 as ->. simpl in *. set (id := created_id room s) in *.
  set (row := created_row id clock room) in *.
  assert (table (PgRooms.db s') !! id = Some row) as Hid by (rewrite Ht; apply lookup_insert_eq).
  pose proof (GetByID_run id s' Hw') as (_ & _ & H2). rewrite Hid in H2.
  pose proof (Create_run clock' row s' Hw') as [_ H3].
  assert (created_id row s' = id) as Hcid by (unfold created_id; by rewrite bool_decide_false).
  rewrite Hcid, Hid in H3. destruct H3 as [H3 H3'].
  pose proof (Delete_run id s' Hw') as (Hw4 & Ht4 & H4).
  rewrite decide_True in H4 by (rewrite Hid; eauto).
  pose proof (GetByID_run id _ Hw4) as (_ & _ & H5). rewrite Ht4, lookup_delete_eq in H5.
  pose proof (Update_run clock' row _ Hw4) as [_ H6].
  change (Room.ID row) with id in H6. rewrite Ht4, lookup_delete_eq in H6.
  pose proof (Delete_run id _ Hw4) as (_ & _ & H7).
  rewrite Ht4, lookup_delete_eq, decide_False in H7 by (by intros []).
  split; [split_and!; try done; subst row; simpl; rewrite bool_decide_decide; by case_decide|].
  split; [exact Ht|]. split; [exact H2|].
  split; [by exists (ErrWrap "%w: %v" ErrConflict)|]. split; [exact H3'|].
  split; [|split; [exact H4|split; [exact Ht4|split; [exact H5|split; [apply H6|exact H7]]]]].
  intros new Hnew. pose proof (Update_run clock' new s' Hw') as [Hw8 H8].
  rewrite Hnew, Hid in H8. destruct (PgRooms.Update None clock' new s') as [r edited].
  cbn [fst snd] in Hw8, H8. destruct H8 as [(answer & -> & _) H8].
  assert (updated_row clock' row new = Room.mk id (Room.Name new) (Room.OwnerID new)
    (Room.Visibility new) (Room.PasswordHash new) (Room.CurrentVideo new) (Room.CreatedAt row)
    (utcNow clock')) as Hrow by (unfold updated_row; by rewrite Hnew).
  rewrite Hrow in H8. split; [by eexists|]. split; [exact H8|].
  pose proof (GetByID_run id edited Hw8) as (_ & _ & H9). by rewrite H8, lookup_insert_eq in H9.
Qed.

(** What a listing asks for, in the words of its options: names that match the text
    anywhere, and rooms of the owner, each when given. *)
Definition asked_for (opts : ListRoomsOpts.t) (room : Room.t) : Prop :=
  (ListRoomsOpts.Query opts = "" ∨
   ilike ("%" +:+ ListRoomsOpts.Query opts +:+ "%") (Room.Name room) = true) ∧
  (ListRoomsOpts.OwnerID opts = "" ∨ Room.OwnerID room = ListRoomsOpts.OwnerID opts).
#[global] Instance asked_for_dec opts room : Decision (asked_for opts room).
Proof. unfold asked_for. apply _. Defined.

Lemma matches_asked opts room :
  matches (PgRooms.filter_of opts) room = true ↔ asked_for opts room.
Proof.
  unfold matches, PgRooms.filter_of, asked_for. cbn [f_name f_owner]. rewrite andb_true_iff.
  repeat case_bool_decide; rewrite ?bool_decide_eq_true; naive_solver.
Qed.

End properties.

(** ** Concrete runs *)

Module Demo.
#[global] Instance uuids : UuidSource := {| uuid_at n := "uuid-" +:+ digit (Z.of_nat n) |}.
Definition empty : PgRooms.t TableDB.t := PgRooms.mk (TableDB.mk ∅) 0.
Definition draft : Room.t := Room.mk "" "movies" "ann" "" "" "" zero_time zero_time.
Definition noon : time := 1700000000 * Second + 1234.
Definition stored : Room.t :=
  Room.mk "uuid-0" "movies" "ann" RoomVisibilityPublic "" ""
    (1700000000 * Second + 1000) (1700000000 * Second + 1000).
Definition after : PgRooms.t TableDB.t := (RoomCreate None noon draft empty).2.

Lemma keyed_empty : db_wf (PgRooms.db empty).
Proof. intros r room H. simpl in H. by rewrite lookup_empty in H. Qed.
Lemma keyed_after : db_wf (PgRooms.db after).
Proof. apply (Create_run noon draft empty keyed_empty). Qed.
End Demo.

(** The room renamed at noon. *)
Definition renamed : Room.t := Room.mk "uuid-0" "films" "ann" "private" "$x" "" zero_time zero_time.

Lemma room_lifecycle_witness :
  RoomCreate None Demo.noon Demo.draft Demo.empty = (Ok Demo.stored, Demo.after) ∧
  (RoomDelete None (Room.ID Demo.stored) Demo.after).1 = Ok tt ∧
  (RoomGetByID None (Room.ID Demo.stored)
     (RoomDelete None (Room.ID Demo.stored) Demo.after).2).1 = Err ErrNotFound ∧
  table (PgRooms.db (RoomUpdate None Demo.noon renamed Demo.after).2) =
    {["uuid-0" := Room.mk "uuid-0" "films" "ann" "private" "$x" ""
                   (1700000000 * Second + 1000) (1700000000 * Second + 1000)]}.
Proof.
  assert (RoomCreate None Demo.noon Demo.draft Demo.empty = (Ok Demo.stored, Demo.after)) as H
    by reflexivity.
  split; [exact H|].
  destruct (room_lifecycle Demo.noon Demo.noon Demo.draft Demo.empty Demo.stored Demo.after
    Demo.keyed_empty H) as (_ & _ & _ & _ & _ & Hu & Hd & _ & Hg & _); [discriminate|].
  split; [exact Hd|]. split; [exact Hg|].
  specialize (Hu renamed eq_refl). destruct (RoomUpdate None Demo.noon renamed Demo.after) as [r edited].
  destruct Hu as (_ & Hu & _). cbn [snd]. rewrite Hu. vm_compute. reflexivity.
Defined.

