(* ===== verification/StoreSuite.v ===== *)
(** * The conformance suite of the stores

    [internal/store/testutil/store_suite.go]: what every implementation of
    [store.UserStore] and [store.RoomStore] is tested for.  The PostgreSQL stores
    pass on every database that behaves as documented ([stores_conform]). *)

From S2P Require Import Prelude GoStrings GoNum Model Interfaces Postgres.
#[local] Open Scope Z_scope.

(** [t.Fatalf] ends the test. *)
Definition Fatalf {S A} (message : string) : SM S A := throw (ErrNew message).
(** [if err != nil { t.Fatalf(message, err) }] *)
Definition must {S A} (message : string) (m : SM S A) : SM S A := map_err (ErrWrap message) m.
Definition expect {S} (cond : bool) (message : string) : SM S unit :=
  if cond then mret tt else Fatalf message.

Section suite.
Context `{!UserStore U, !RoomStore Ro}.
(** [uuid.NewString] and the readings of the clock. *)
Variables (id : string) (clock : nat → time).

Definition set_Nickname (n : string) (u : User.t) : User.t :=
  User.mk (User.ID u) (User.Email u) (User.Username u) (User.PasswordHash u) n (User.AvatarURL u)
    (User.Role u) (User.CreatedAt u) (User.UpdatedAt u).
Definition set_Name (n : string) (r : Room.t) : Room.t :=
  Room.mk (Room.ID r) n (Room.OwnerID r) (Room.Visibility r) (Room.PasswordHash r)
    (Room.CurrentVideo r) (Room.CreatedAt r) (Room.UpdatedAt r).

(** The test "users"; [Create] writes to the user it is given. *)
Definition users_test : SM U unit :=
  let now := clock 0 in
  let user := User.mk id "alice@example.test" "alice" "hash" "Alice" "" UserRoleUser now now in
  user ← must "create user" (UserCreate None (clock 1) user);
  byID ← must "get user by id" (UserGetByID None (User.ID user));
  _ ← expect (bool_decide (User.Username byID = User.Username user)) "username mismatch";
  byUsername ← must "get user by username" (UserGetByUsername None (User.Username user));
  _ ← expect (bool_decide (User.ID byUsername = User.ID user)) "id mismatch";
  let byID := set_Nickname "Alice Updated" byID in
  _ ← must "update user" (UserUpdate None (clock 2) byID);
  updated ← must "get updated user" (UserGetByID None (User.ID user));
  expect (bool_decide (User.Nickname updated = "Alice Updated")) "nickname not updated".

Definition rooms_test : SM Ro unit :=
  let now := clock 0 in
  let room := Room.mk id "Movie Night" "owner-1" RoomVisibilityPublic "" "" now now in
  room ← must "create room" (RoomCreate None (clock 1) room);
  got ← must "get room" (RoomGetByID None (Room.ID room));
  _ ← expect (bool_decide (Room.Name got = Room.Name room)) "room name mismatch";
  let got := set_Name "Updated Room" got in
  _ ← must "update room" (RoomUpdate None (clock 2) got);
  '(rooms, total) ← must "list rooms" (RoomList None (ListRoomsOpts.mk 10 0 "" ""));
  _ ← expect (bool_decide (total = 1) && bool_decide (length rooms = 1%nat) &&
              bool_decide (Room.Name <$> head rooms = Some "Updated Room")) "unexpected rooms result";
  _ ← must "delete room" (RoomDelete None (Room.ID room));
  gone ← attempt (RoomGetByID None (Room.ID room));
  expect (match gone with inl _ => false | inr err => errors_Is err ErrNotFound end) "expected ErrNotFound".

(** Each test gets stores of its own. *)
Definition RunStoreSuite (newSuite : string → U * Ro) : list (string * result unit) :=
  [("users", (users_test (newSuite "users").1).1); ("rooms", (rooms_test (newSuite "rooms").2).1)].
End suite.

(** ** The PostgreSQL stores *)

Section conform.
Context `{!SqlUsers UDB, !SqlUsersLaws UDB, !SqlRooms RDB, !SqlRoomsLaws RDB, !UuidSource}.

Lemma wp_must {S A B} message (m : SM S A) (k : A → SM S B) (P : A → S → Prop) Q s :
  wp m (λ r s', match r with Ok a => P a s' | _ => False end) s →
  (∀ a s', P a s' → wp (k a) Q s') → wp (x ← must message m; k x) Q s.
Proof.
  unfold must. intros Hm Hk. apply wp_bind, wp_map_err. eapply wp_mono; [exact Hm|].
  intros [a|e|h] s' HP; [by apply Hk|done|done].
Qed.
Lemma wp_expect {S B} cond message (k : unit → SM S B) Q (s : S) :
  cond = true → wp (k tt) Q s → wp (x ← expect cond message; k x) Q s.
Proof. by intros ->. Qed.

(** A table of one user, reached from an empty one. *)
Definition only_user (u : User.t) (s : PgUsers.t UDB) : Prop := users_wf s ∧ users_table s = {[User.ID u := u]}.

Lemma create_only clock user (s : PgUsers.t UDB) : users_wf s → users_table s = ∅ →
  wp (UserCreate None clock user) (λ r s', match r with
    | Ok u => only_user u s' ∧ User.Username u = User.Username user
    | _ => False end) s.
Proof.
  intros Hw Ht. cbn [UserCreate PgUsers.iface]. unfold PgUsers.Create. apply wp_bind.
  apply (wp_mono _ (λ r s1, users_wf s1 ∧ users_table s1 = ∅ ∧ ∃ id, r = Ok id)).
  { case_bool_decide; (split; [done|]); (split; [done|]); by eexists. }
  intros r s1 (Hw1 & Ht1 & id & ->). apply wp_bind, wp_map_err.
  eapply wp_on_users; [apply insert_user_law|done|]. intros r s2 Hw2. rewrite Ht1.
  intros [(_ & _ & [[? Hx]|(i & o & Hx & _)])|(-> & Ht2 & _)]; try by rewrite lookup_empty in Hx.
  apply wp_ret. split; [|done]. split; [done|]. by rewrite Ht2, insert_empty.
Qed.
Lemma get_only u s : only_user u s →
  wp (UserGetByID None (User.ID u)) (λ r s', match r with Ok x => x = u ∧ only_user u s' | _ => False end) s.
Proof.
  intros [Hw Ht]. cbn [UserGetByID PgUsers.iface]. apply wp_map_err.
  eapply wp_on_users; [apply select_user_law|done|]. intros r s' Hw'. rewrite Ht, lookup_singleton_eq. intros [-> Ht'].
  split; [done|by split].
Qed.
Lemma find_only u s : only_user u s →
  wp (UserGetByUsername None (User.Username u)) (λ r s', match r with Ok x => x = u ∧ only_user u s' | _ => False end) s.
Proof.
  intros [Hw Ht]. cbn [UserGetByUsername PgUsers.iface]. apply wp_map_err.
  eapply wp_on_users; [apply select_username_law|done|]. intros r s' Hw'. rewrite Ht. intros [Ht' [(x & -> & Hx & _)|[_ Hno]]].
  - apply lookup_singleton_Some in Hx as [_ <-]. split; [done|by split].
  - by destruct (Hno (User.ID u) u (lookup_singleton_eq _ _)).
Qed.
Lemma update_only clock u user s : only_user u s → User.ID user = User.ID u →
  wp (UserUpdate None clock user) (λ r s', match r with
    | Ok _ => ∃ row, only_user row s' ∧ User.ID row = User.ID u ∧ User.Nickname row = User.Nickname user
    | _ => False end) s.
Proof.
  intros [Hw Ht] Hid. cbn [UserUpdate PgUsers.iface]. unfold PgUsers.Update. apply wp_bind, wp_map_err.
  eapply wp_on_users; [apply update_user_law|done|]. intros r s' Hw'. cbn [User.ID].
  rewrite Ht, Hid, lookup_singleton_eq. intros [(_ & _ & i & o & Hx & Hne & _)|(-> & Ht' & _)].
  - apply lookup_singleton_Some in Hx as [<- _]. cbn in Hne. congruence.
  - unfold wp, requireRows. cbn.
    match type of Ht' with _ = <[_ := ?row]> _ => exists row end.
    split; [|done]. split; [done|]. transitivity (users_table s'); [done|]. by rewrite Ht', insert_singleton_eq.
Qed.

(** The same of rooms. *)
Definition only_room (room : Room.t) (s : PgRooms.t RDB) : Prop :=
  db_wf (PgRooms.db s) ∧ table (PgRooms.db s) = {[Room.ID room := room]}.

Lemma list_only room s opts : only_room room s → ListRoomsOpts.Query opts = "" → ListRoomsOpts.OwnerID opts = "" →
  ListRoomsOpts.Offset opts = 0 →
  wp (RoomList None opts) (λ r s', r = Ok ([room], 1) ∧ only_room room s') s.
Proof.
  intros [Hw Ht] Hq Ho Hoff. pose proof (normalizePage_range (ListRoomsOpts.Limit opts) (ListRoomsOpts.Offset opts)) as (Hl & _ & _).
  eapply wp_mono; [apply (List_run None opts s Hw)|]. intros r s' (Hw' & Ht' & H1). rewrite Hoff in *.
  destruct (normalizePage _ _) as [limit offset] eqn:En. assert (offset = 0) as -> by (unfold normalizePage in En; by injection En).
  cbn [fst] in Hl. destruct H1 as (all & _ & Hall & ->). rewrite Ht in Hall.
  rewrite map_filter_singleton_True in Hall by (by apply no_filter).
  rewrite map_to_list_singleton in Hall. apply Permutation_singleton_r in Hall as ->.
  split; [|split; congruence]. cbn [drop Z.to_nat length]. by destruct (Z.to_nat limit) as [|n] eqn:E; [lia|destruct n].
Qed.

Lemma create_only_room clock room s : db_wf (PgRooms.db s) → table (PgRooms.db s) = ∅ →
  wp (RoomCreate None clock room) (λ r s', match r with
    | Ok x => only_room x s' ∧ Room.Name x = Room.Name room
    | _ => False end) s.
Proof.
  intros Hw Ht. eapply wp_mono; [apply (Create_run clock room s Hw)|]. intros r s'. cbv zeta.
  rewrite Ht, lookup_empty. intros (Hw' & -> & Ht'). split; [|done]. split; [done|]. by rewrite Ht', insert_empty.
Qed.
Lemma get_only_room room s : only_room room s →
  wp (RoomGetByID None (Room.ID room)) (λ r s', match r with Ok x => x = room ∧ only_room room s' | _ => False end) s.
Proof.
  intros [Hw Ht]. eapply wp_mono; [apply (GetByID_run _ s Hw)|]. intros r s' (Hw' & Ht' & ->).
  rewrite Ht, lookup_singleton_eq. split; [done|split; congruence].
Qed.
Lemma update_only_room clock old room s : only_room old s → Room.ID room = Room.ID old →
  wp (RoomUpdate None clock room) (λ r s', match r with
    | Ok _ => ∃ row, only_room row s' ∧ Room.ID row = Room.ID old ∧ Room.Name row = Room.Name room
    | _ => False end) s.
Proof.
  intros [Hw Ht] Hid. eapply wp_mono; [apply (Update_run clock room s Hw)|]. intros r s' [Hw' H1].
  rewrite Ht, Hid, lookup_singleton_eq in H1. destruct H1 as [(room' & -> & _) Ht'].
  exists (updated_row clock old room). split; [|done]. split; [done|]. by rewrite Ht', insert_singleton_eq, <- Hid.
Qed.
Lemma delete_only_room room s : only_room room s →
  wp (RoomDelete None (Room.ID room)) (λ r s', match r with
    | Ok _ => db_wf (PgRooms.db s') ∧ table (PgRooms.db s') = ∅
    | _ => False end) s.
Proof.
  intros [Hw Ht]. eapply wp_mono; [apply (Delete_run _ s Hw)|]. intros r s' (Hw' & Ht' & ->).
  rewrite Ht in *. rewrite decide_True by (by rewrite lookup_singleton_eq). split; [done|].
  by rewrite Ht', delete_singleton_eq.
Qed.

(** The PostgreSQL stores pass the suite that every store is tested with, on any
    database that behaves as documented and whatever the clock and the id are:
    accounts and rooms are created, found, updated, listed and deleted as the tests
    expect. *)
Theorem stores_conform id clock (newSuite : string → PgUsers.t UDB * PgRooms.t RDB) :
  (∀ name, users_wf (newSuite name).1 ∧ users_table (newSuite name).1 = ∅) →
  (∀ name, db_wf (PgRooms.db (newSuite name).2) ∧ table (PgRooms.db (newSuite name).2) = ∅) →
  RunStoreSuite id clock newSuite = [("users", Ok tt); ("rooms", Ok tt)].
Proof.
  intros Hu Hr. unfold RunStoreSuite.
  assert (wp (users_test id clock) (λ r _, r = Ok tt) (newSuite "users").1) as H1.
  { destruct (Hu "users") as [Hw Ht]. unfold users_test.
    eapply wp_must; [by apply create_only|]. intros u s [Hs Hn].
    eapply wp_must; [by apply get_only|]. intros ? s1 [-> Hs1]. apply wp_expect; [by apply bool_decide_true|].
    eapply wp_must; [by apply find_only|]. intros ? s2 [-> Hs2]. apply wp_expect; [by apply bool_decide_true|].
    eapply wp_must; [eapply update_only; [exact Hs2|done]|]. intros ? s3 (row & Hs3 & Hid & Hnick).
    rewrite <- Hid. eapply wp_must; [by apply get_only|]. intros ? s4 [-> _].
    unfold expect. by rewrite bool_decide_true. }
  assert (wp (rooms_test id clock) (λ r _, r = Ok tt) (newSuite "rooms").2) as H2.
  { destruct (Hr "rooms") as [Hw Ht]. unfold rooms_test.
    eapply wp_must; [by apply create_only_room|]. intros room s [Hs Hn].
    eapply wp_must; [by apply get_only_room|]. intros ? s1 [-> Hs1]. apply wp_expect; [by apply bool_decide_true|].
    eapply wp_must; [eapply update_only_room; [exact Hs1|done]|]. intros ? s2 (row & Hs2 & Hid & Hname).
    eapply (wp_must _ _ _ (λ x s', x = ([row], 1) ∧ only_room row s')).
    { eapply wp_mono; [by apply (list_only row)|]. by intros r s' [-> Hl]. }
    intros ? s3 [-> Hs3]. apply wp_expect; [destruct row; cbn in Hname; by subst|].
    rewrite <- Hid. eapply wp_must; [by apply delete_only_room|]. intros ? s4 [Hw4 Ht4].
    apply wp_bind, wp_attempt. eapply wp_mono; [apply (GetByID_run _ s4 Hw4)|]. intros r s5 (_ & _ & ->).
    by rewrite Ht4, lookup_empty. }
  unfold wp in H1, H2. by rewrite H1, H2.
Qed.
End conform.

(** The tables of [Postgres] as the database. *)
Module SuiteRun.
Definition stores : string → PgUsers.t TableUsers.t * PgRooms.t TableDB.t := λ _,
  (PgUsers.mk (TableUsers.mk ∅) 0, PgRooms.mk (TableDB.mk ∅) 0).
Definition clock (n : nat) : time := (1700000000 + Z.of_nat n) * Second.
End SuiteRun.

Lemma stores_conform_witness :
  RunStoreSuite "id" SuiteRun.clock SuiteRun.stores = [("users", Ok tt); ("rooms", Ok tt)].
Proof.
  apply stores_conform; intros name; (split; [|reflexivity]).
  - intros i u H. cbn in H. by rewrite lookup_empty in H.
  - intros i u H. cbn in H. by rewrite lookup_empty in H.
Defined.
