(* ===== verification/Hub.v ===== *)
(** * The room service

    [internal/room/hub.go]: snapshots and projected state, joining and leaving,
    playback control, closing rooms, kicking members, and the cleanup of empty
    rooms with its throttle and lock. *)

From S2P Require Import Prelude GoStrings GoNum Model Interfaces Service Playback Chat.

(** ** Pure helpers *)

Module HubHelpers.
(** [mergeUniqueRoomIDs]: the trimmed nonempty ids, first occurrences, in order. *)
Fixpoint merge_from (seen : gset string) (ids : list string) : list string :=
  match ids with
  | [] => []
  | id :: ids =>
      let id := TrimSpace id in
      if bool_decide (id = "") then merge_from seen ids
      else if bool_decide (id ∈ seen) then merge_from seen ids
      else id :: merge_from ({[id]} ∪ seen) ids
  end.
Definition mergeUniqueRoomIDs (parts : list (list string)) : list string :=
  merge_from ∅ (concat parts).

(** [roomByIDFromList]: later rooms overwrite earlier ones of the same id. *)
Definition roomByIDFromList (rooms : list Room.t) : gmap string Room.t :=
  foldl (λ m r, if bool_decide (Room.ID r = "") then m else <[Room.ID r := r]> m)
    ∅ rooms.

(** [roomExistenceLabel]: the rounded age, or [None] for the label "unknown". *)
Definition roomExistenceLabel (roomID : string) (byID : gmap string Room.t)
    (now : time) : option Z :=
  match byID !! roomID with
  | None => None
  | Some r => if IsZero (Room.CreatedAt r) then None
              else Some (Round (time_Sub now (Room.CreatedAt r)) Second)
  end.
End HubHelpers.
Import HubHelpers.

(** The state [ApplyControl] writes and the message it sends, computed from
    what it read: the time, the previous state and the input. *)
Module Control.
(** [store.ErrNotFound] leaves [prev] nil. *)
Definition mode_of (prev : option RoomState.t) (msg : ControlInput.t) : PlaybackMode :=
  let mode := PlaybackModeSequential in
  let mode := match prev with
    | Some p => if negb (bool_decide (RoomState.PlaybackMode p = ""))
                then RoomState.PlaybackMode p else mode
    | None => mode end in
  if bool_decide (ControlInput.PlaybackMode msg = PlaybackModeSequential)
     || bool_decide (ControlInput.PlaybackMode msg = PlaybackModeLoop)
  then ControlInput.PlaybackMode msg else mode.

(** The [switch msg.Action]: video, queue, position and action after it. *)
Definition step (prev : option RoomState.t) (msg : ControlInput.t) (mode : PlaybackMode)
    : string * list string * float64 * PlaybackAction :=
  let queue := ControlInput.Queue msg in
  let videoID := TrimSpace (ControlInput.VideoID msg) in
  let pos := ControlInput.Position msg in
  let act := ControlInput.Action msg in
  if bool_decide (act = PlaybackActionNext) then
    let baseVID := match prev with
      | Some p => if bool_decide (videoID = "") then RoomState.VideoID p else videoID
      | None => videoID end in
    let queue := match prev with
      | Some p => if bool_decide (length queue = 0%nat) then queue ++ RoomState.Queue p else queue
      | None => queue end in
    match Advance.nextInQueue baseVID queue mode with
    | Some nextID => (nextID, queue, f_zero, PlaybackActionPause)
    | None => (videoID, queue, pos, act)
    end
  else if bool_decide (act = PlaybackActionSwitch) then
    (if bool_decide (videoID = "") then default videoID (head queue) else videoID,
     queue, pos, act)
  else (videoID, queue, pos, act).

Definition next_version (prev : option RoomState.t) : Z :=
  match prev with Some p => wrap64 (RoomState.ControlVersion p + 1) | None => 1 end.

Definition new_state (roomID userID : string) (now : time) (prev : option RoomState.t)
    (msg : ControlInput.t) : RoomState.t :=
  let mode := mode_of prev msg in
  let '(videoID, queue, pos, act) := step prev msg mode in
  let queue := if bool_decide (length queue = 0%nat) && negb (bool_decide (videoID = ""))
               then [videoID] else queue in
  let duration := Advance.resolveControlDuration msg prev videoID in
  RoomState.mk roomID videoID queue [] act pos mode duration (next_version prev)
    userID now zero_time.

Definition sync_message (user : HubUser.t) (st : RoomState.t) : Message.t :=
  Message.mk "sync" (RoomState.Action st) "" (RoomState.Position st)
    (RoomState.VideoID st) (RoomState.Queue st) (Unix (RoomState.UpdatedAt st))
    (RoomState.ControlVersion st) (RoomState.PlaybackMode st)
    (Unix (RoomState.UpdatedAt st)) (Some user).

Definition stale (prev : option RoomState.t) (msg : ControlInput.t) : bool :=
  match prev with
  | Some p => (0 <? ControlInput.ClientVersion msg)
              && (ControlInput.ClientVersion msg <? RoomState.ControlVersion p)
  | None => false
  end.

Definition authorized (user : HubUser.t) : bool :=
  bool_decide (HubUser.Role user = UserRoleAdmin) || HubUser.IsOwner user.
End Control.
Import Control.

Definition event_message (ev : string) (user : option HubUser.t) : Message.t :=
  Message.mk "room_event" "" ev f_zero "" [] 0 0 "" 0 user.

Section hub.
Context `{!Backend, !Env}.

(** ** Reading *)

Definition memberCount (roomID : string) : SM Service Z :=
  has ← present presence;
  if negb has then mret 0
  else
    n ← attempt (call_presence (λ c _, MemberCount c roomID));
    mret (match n with inl n => n | inr _ => 0 end).

Definition ProjectedRoomState (roomID : string) : SM Service (option RoomState.t) :=
  state ← call_states (λ c _, GetRoomState c roomID);
  t ← now;
  mret (Advance.projectState t (Some state)).

Definition Snapshot (roomID : string) : SM Service Snapshot.t :=
  state ← attempt (ProjectedRoomState roomID);
  let state := match state with inl st => st | inr _ => None end in
  n ← memberCount roomID;
  mret (match state with
    | None => Snapshot.mk roomID None [] n
    | Some st =>
        let queue := RoomState.Queue st in
        let queue := if bool_decide (length queue = 0%nat)
                        && negb (bool_decide (RoomState.VideoID st = ""))
                     then [RoomState.VideoID st] else queue in
        Snapshot.mk roomID (Some st) queue n
    end).

Definition EnrichRoomFromCache (room : Room.t) : SM Service Room.t :=
  st ← attempt (call_states (λ c _, GetRoomState c (Room.ID room)));
  mret (match st with
    | inr _ => room
    | inl st => if bool_decide (RoomState.VideoID st = "") then room
                else Room.set_CurrentVideo (RoomState.VideoID st) room
    end).

(** ** Members *)

Definition Join (roomID : string) (user : HubUser.t) : SM Service string :=
  has ← present presence;
  if negb has then mret ""
  else call_presence (λ c _, JoinRoom c roomID (HubUser.ID user) (HubUser.Username user)).

Definition Leave (roomID userID : string) : SM Service unit :=
  has ← present presence;
  if negb has then mret tt
  else call_presence (λ c _, LeaveRoom c roomID userID).

Definition PublishRoomEvent (roomID ev : string) (user : option HubUser.t)
    : SM Service unit :=
  has ← present publisher;
  if negb has then mret tt
  else call_publish roomID "room.event" (PubMessage (event_message ev user)).

Definition KickMember (roomID targetUserID : string) (actor : option HubUser.t)
    : SM Service unit :=
  has ← present presence;
  _ ← when has (call_presence (λ c _, RemoveMember c roomID targetUserID));
  PublishRoomEvent roomID "user_kicked"
    (Some (HubUser.mk targetUserID "" "" "" false)).

(** ** Playback control *)

(** [ApplyControl] once the previous state has been read. *)
Definition control_write (roomID : string) (user : HubUser.t) (msg : ControlInput.t)
    (t : time) (prev : option RoomState.t) : SM Service (Message.t * option error) :=
  if stale prev msg then throw ErrStaleControl
  else
    let state := new_state roomID (HubUser.ID user) t prev msg in
    _ ← call_states (λ c t, SetRoomState c t roomID state);
    let sync := sync_message user state in
    has ← present publisher;
    if negb has then mret (sync, None)
    else
      e ← attempt (call_publish roomID "room.sync" (PubMessage sync));
      mret (sync, match e with inl _ => None | inr err => Some err end).

(** Its first half: the clock and the read; [store.ErrNotFound] is no state. *)
Definition control_read (roomID : string) : SM Service (time * option RoomState.t) :=
  t ← now;
  r ← attempt (call_states (λ c _, GetRoomState c roomID));
  match r with
  | inl st => mret (t, Some st)
  | inr err => if errors_Is err ErrNotFound then mret (t, None) else throw err
  end.

Definition ApplyControl (roomID : string) (user : HubUser.t) (msg : ControlInput.t)
    : SM Service (Message.t * option error) :=
  if negb (authorized user) then throw ErrForbidden
  else
    '(t, prev) ← control_read roomID;
    control_write roomID user msg t prev.

(** ** Closing rooms *)

(** The last part of [CloseRoom] and of [closeEmptyRoom]: presence, access, chat,
    and the notification. *)
Definition forget_room (roomID : string) (user : option HubUser.t) : SM Service unit :=
  hasPresence ← present presence;
  _ ← when hasPresence (ignore (call_presence (λ c _, DeleteRoomPresence c roomID)));
  hasAccess ← present roomAccess;
  _ ← when hasAccess (ignore (call_access (λ c _, DeleteRoomAccess c roomID)));
  _ ← deleteRoomChat roomID;
  PublishRoomEvent roomID "room_closed" user.

Definition CloseRoom (roomID : string) (user : option HubUser.t) : SM Service unit :=
  _ ← call_states (λ c _, DeleteRoomState c roomID);
  forget_room roomID user.

Definition Destroy (roomID : string) (user : option HubUser.t) : SM Service unit :=
  CloseRoom roomID user.

Definition closeEmptyRoom (roomID : string) : SM Service unit :=
  r ← attempt (call_rooms (λ c _, RoomDelete c roomID));
  _ ← match r with
      | inr err => if negb (errors_Is err ErrNotFound) then throw err else mret tt
      | inl _ => mret tt
      end;
  _ ← ignore (call_states (λ c _, DeleteRoomState c roomID));
  forget_room roomID None.

(** ** Cleanup *)

(** The loop over the candidates; the cleaned and skipped entries, in order. *)
Fixpoint cleanup_rooms (byID : gmap string Room.t) (t : time) (candidates : list string)
    : SM Service (list CleanupEntry.t * list CleanupEntry.t) :=
  match candidates with
  | [] => mret ([], [])
  | roomID :: candidates =>
      r ← attempt (call_presence (λ c _, MemberCount c roomID));
      match r with
      | inr _ => cleanup_rooms byID t candidates
      | inl n =>
          let entry := CleanupEntry.mk roomID (roomExistenceLabel roomID byID t) n in
          if negb (n =? 0) then
            _ ← ignore (call_presence (λ c _, ClearPendingEmpty c roomID));
            '(cleaned, skipped) ← cleanup_rooms byID t candidates;
            mret (cleaned, entry :: skipped)
          else
            _ ← closeEmptyRoom roomID;
            _ ← ignore (call_presence (λ c _, ClearPendingEmpty c roomID));
            '(cleaned, skipped) ← cleanup_rooms byID t candidates;
            mret (entry :: cleaned, skipped)
      end
  end.

Fixpoint emit_all (es : list event) : SM Service unit :=
  match es with [] => mret tt | e :: es => _ ← emit e; emit_all es end.

Definition logEmptyRoomCleanupResults (cleaned skipped : list CleanupEntry.t)
    (pendingN activeN dbN candidatesN : nat) (trigger : CleanupTrigger.t) : SM Service unit :=
  _ ← emit_all (EvCleaned <$> cleaned);
  _ ← emit_all (EvSkipped <$> skipped);
  emit (EvCleanupSummary trigger pendingN activeN dbN candidatesN
          (length cleaned) (length skipped)).

Definition RunEmptyRoomCleanup (trig : CleanupTrigger.t) : SM Service unit :=
  hasPresence ← present presence;
  hasRooms ← present rooms;
  if negb hasPresence || negb hasRooms then mret tt
  else
    pending ← call_presence (λ c _, PendingEmptyRooms c);
    active ← call_presence (λ c _, ListRoomsWithMembers c);
    '(dbRooms, _) ← call_rooms (λ c _, RoomList c (ListRoomsOpts.mk 500 0 "" ""));
    let dbIDs := Room.ID <$> dbRooms in
    let byID := roomByIDFromList dbRooms in
    t ← now;
    let candidates := mergeUniqueRoomIDs [pending; active; dbIDs] in
    '(cleaned, skipped) ← cleanup_rooms byID t candidates;
    logEmptyRoomCleanupResults cleaned skipped (length pending) (length active)
      (length dbIDs) (length candidates) trig.

Definition loginCleanupInterval : Z := 5 * Minute.

(** [defer func() { _ = release() }()]: it runs however the body ends. *)
Definition with_defer {A} (release : SM Service unit) (body : SM Service A)
    : SM Service A := λ s,
  let '(r, s1) := body s in (r, (release s1).2).

Definition MaybeRunGlobalCleanup (scan_fuel : nat) : SM Service unit :=
  hasPresence ← present presence;
  hasRooms ← present rooms;
  if negb hasPresence || negb hasRooms then mret tt
  else
    last ← call_presence (λ c _, GetLastRoomCleanupAt c);
    recent ← (if IsZero last then mret false
              else t ← now; mret (time_Sub t last <? loginCleanupInterval));
    if (recent : bool) then mret tt
    else
      ok ← call_presence (λ c t, TryAcquireCleanupLock c t (2 * Minute));
      if negb ok then mret tt
      else with_defer (ignore (call_presence (λ c _, ReleaseCleanupLock c))) (
        lastAge ← (if IsZero last then mret None
                   else t ← now; mret (Some (Round (time_Sub t last) Second)));
        _ ← RunEmptyRoomCleanup
              (CleanupTrigger.mk lastAge loginCleanupInterval true true);
        _ ← ignore (ProcessGlobalChatPending scan_fuel);
        t ← now;
        call_presence (λ c _, SetLastRoomCleanupAt c t)).
End hub.
