(* ===== verification/Fixtures.v ===== *)
(** * A concrete wiring of the room service

    The in-memory caches, the room store over a table, and a publisher that
    always succeeds, under an environment in which every context stays live and
    the clock advances a second per tick: the inputs of the witnesses of the
    service's theorems. *)

From S2P Require Import Prelude GoNum Model Interfaces Service MemCaches MemPresence Postgres.

(** A chat backend that is down. *)
#[export] Instance down_chat : RoomChat unit := {
  PendingCount _ _ := throw (ErrNew "down");
  NextSeq _ _ := throw (ErrNew "down");
  AppendMessage _ _ _ _ _ _ := throw (ErrNew "down");
  ListMessagesRev _ _ _ _ := throw (ErrNew "down");
  GetPayload _ _ _ := throw (ErrNew "down");
  EnqueuePending _ _ _ _ := throw (ErrNew "down");
  RemovePending _ _ _ := throw (ErrNew "down");
  PendingStreamIDs _ _ _ := throw (ErrNew "down");
  DeleteRoom _ _ := throw (ErrNew "down");
  AllowChatSend _ _ _ _ := throw (ErrNew "down");
  ScanPendingRooms _ _ _ := throw (ErrNew "down");
}.

#[export] Instance ok_publisher : Publisher unit := {
  PublishRoomMessage _ _ _ _ := mret tt;
}.
#[export] Instance ok_publisher_contract : PublisherContract unit.
Proof. split. intros. done. Qed.

#[export] Instance test_backend : Backend := {
  StatesT := MemStates.t;
  PresenceT := MemPresence.t;
  RoomsT := PgRooms.t TableDB.t;
  AccessT := MemAccess.t;
  ChatT := unit;
  PubT := unit;
}.

#[export] Instance live_env : Env := {
  ctx_at _ := None;
  now_at n := (1700000000 + Z.of_nat n) * Second;
  jitter_at _ := 0;
}.

Definition test_limits : ChatLimits.t := ChatLimits.mk 2000 2 (10 * Second) 500 61440 2000 10.

(** The service as [main] wires it, with the in-memory backends and no chat. *)
Definition test_service : Service :=
  NewService MemStates.New (Some MemPresence.New) (Some (PgRooms.mk (TableDB.mk ∅) 0))
    (Some MemAccess.New) (Some tt) None test_limits.

Definition owner : HubUser.t := HubUser.mk "u1" "ann" "" UserRoleUser true.
Definition guest : HubUser.t := HubUser.mk "u2" "bob" "" UserRoleUser false.
