(* ===== verification/HubControl.v ===== *)
(** * Playback control is correct

    The theorems on [Service.ApplyControl], against the contract of the room
    state cache: who may control a room, when a control is refused as stale,
    what is stored and published, how the version evolves over any sequence of
    operations, what the "next" action does, and what two concurrent controls
    can do to one another. *)

From S2P Require Import Prelude GoStrings GoNum Model Interfaces Service Playback.
From S2P Require Import Chat Hub MemCaches MemPresence Postgres Fixtures.
Import Hub.Control.

(** ** The control, over the map of room states *)

(** What a control does to the map of states, given the clock reading [t], what
    the cache answers to the read and to the write, and the time [t'] of the
    write. *)
Definition control_spec (t t' : time) (c_get c_set : ctx) (roomID : string)
    (user : HubUser.t) (msg : ControlInput.t) (v : gmap string RoomState.t)
    : (RoomState.t + error) * gmap string RoomState.t :=
  if negb (authorized user) then (inr ErrForbidden, v)
  else match c_get with
  | Some e => (inr e, v)
  | None =>
      let prev := v !! roomID in
      if stale prev msg then (inr ErrStaleControl, v)
      else match c_set with
      | Some e => (inr e, v)
      | None =>
          let st := new_state roomID (HubUser.ID user) t prev msg in
          (inl st, <[roomID := stamp_state t' roomID st]> v)
      end
  end.

Lemma control_spec_accepted t t' c1 c2 roomID user msg v st v' :
  control_spec t t' c1 c2 roomID user msg v = (inl st, v') →
  authorized user = true ∧ stale (v !! roomID) msg = false ∧
  st = new_state roomID (HubUser.ID user) t (v !! roomID) msg ∧
  v' = <[roomID := stamp_state t' roomID st]> v.
Proof.
  unfold control_spec. destruct (authorized user); simpl; [|done].
  destruct c1; [done|]. destruct (stale _ _); [done|]. destruct c2; [done|].
  intros [= <- <-]. done.
Qed.

Lemma control_spec_refused t t' c1 c2 roomID user msg v e v' :
  control_spec t t' c1 c2 roomID user msg v = (inr e, v') → v' = v.
Proof.
  unfold control_spec. destruct (authorized user); simpl; [|by intros [= _ <-]].
  destruct c1; [by intros [= _ <-]|]. destruct (stale _ _); [by intros [= _ <-]|].
  destruct c2; [by intros [= _ <-]|done].
Qed.

(** ** What a control promises, in the words of the protocol *)

(** Who may control a room, and when a client is behind the state found. *)
Definition may_control (user : HubUser.t) : Prop :=
  HubUser.Role user = "admin" ∨ HubUser.IsOwner user = true.
Definition outdated (prev : option RoomState.t) (msg : ControlInput.t) : Prop :=
  ∃ p, prev = Some p ∧ 0 < ControlInput.ClientVersion msg < RoomState.ControlVersion p.

(** The mode in force: the one sent when it is a mode, else the one stored. *)
Definition mode_in_force (prev : option RoomState.t) (msg : ControlInput.t) : string :=
  if decide (ControlInput.PlaybackMode msg ∈ ["sequential"; "loop"])
  then ControlInput.PlaybackMode msg
  else match RoomState.PlaybackMode <$> prev with
       | None | Some "" => "sequential"
       | Some mode => mode
       end.
(** The queue in force: the one sent; "next" falls back on the stored one. *)
Definition queue_in_force (prev : option RoomState.t) (msg : ControlInput.t) : list string :=
  if decide (ControlInput.Action msg = "next" ∧ ControlInput.Queue msg = [])
  then default [] (RoomState.Queue <$> prev) else ControlInput.Queue msg.
(** The video "next" moves to: after the one sent, or else after the stored one. *)
Definition moves_to (prev : option RoomState.t) (msg : ControlInput.t) : option string :=
  let video := TrimSpace (ControlInput.VideoID msg) in
  if decide (ControlInput.Action msg = "next") then
    after_next (if decide (video = "") then default "" (RoomState.VideoID <$> prev) else video)
      (queue_in_force prev msg) (mode_in_force prev msg)
  else None.

(** The state a control leaves, written at [t'] by a client whose clock read [t]. *)
Definition controlled (roomID userID : string) (t t' : time) (prev : option RoomState.t)
    (msg : ControlInput.t) (st : RoomState.t) : Prop :=
  let video := TrimSpace (ControlInput.VideoID msg) in
  let d := ControlInput.VideoDuration msg in
  RoomState.RoomID st = roomID ∧ RoomState.UpdatedBy st = userID ∧
  RoomState.UpdatedAt st = (if decide (t = zero_time) then t' else t) ∧
  RoomState.BaseUpdatedAt st = zero_time ∧ RoomState.QueueMeta st = [] ∧
  RoomState.ControlVersion st =
    match prev with None => 1 | Some p => wrap64 (RoomState.ControlVersion p + 1) end ∧
  RoomState.PlaybackMode st = mode_in_force prev msg ∧
  match moves_to prev msg with
  | Some next => RoomState.VideoID st = next ∧ RoomState.Position st = f_zero ∧
                 RoomState.Action st = "pause"
  | None =>
      RoomState.VideoID st =
        (if decide (ControlInput.Action msg = "switch" ∧ video = "")
         then default "" (head (ControlInput.Queue msg)) else video) ∧
      RoomState.Position st = ControlInput.Position msg ∧
      RoomState.Action st = ControlInput.Action msg
  end ∧
  RoomState.Queue st =
    (if decide (queue_in_force prev msg = [] ∧ RoomState.VideoID st ≠ "")
     then [RoomState.VideoID st] else queue_in_force prev msg) ∧
  RoomState.VideoDuration st =
    if f_gt d f_zero then d
    else match prev with
    | Some p =>
        if decide (RoomState.VideoID st ≠ "" ∧ RoomState.VideoID st = RoomState.VideoID p ∧
                   f_gt (RoomState.VideoDuration p) f_zero = true)
        then RoomState.VideoDuration p else f_zero
    | None => f_zero
    end.

(** Its announcement. *)
Definition announces (user : HubUser.t) (t : time) (st : RoomState.t) (m : Message.t) : Prop :=
  Message.Type_ m = "sync" ∧ Message.Event m = "" ∧ Message.User m = Some user ∧
  Message.Action m = RoomState.Action st ∧ Message.Position m = RoomState.Position st ∧
  Message.VideoID m = RoomState.VideoID st ∧ Message.Queue m = RoomState.Queue st ∧
  Message.PlaybackMode m = RoomState.PlaybackMode st ∧
  Message.ControlVersion m = RoomState.ControlVersion st ∧
  Message.Timestamp m = Unix t ∧ Message.UpdatedAt m = Unix t.

Lemma authorized_may user : authorized user = true ↔ may_control user.
Proof.
  unfold authorized, may_control. rewrite orb_true_iff, bool_decide_eq_true. done.
Qed.
Lemma stale_outdated prev msg : stale prev msg = true ↔ outdated prev msg.
Proof.
  unfold stale, outdated. destruct prev as [p|]; [|naive_solver].
  rewrite andb_true_iff, !Z.ltb_lt. naive_solver.
Qed.
Lemma mode_of_in_force prev msg : mode_of prev msg = mode_in_force prev msg.
Proof.
  unfold mode_of, mode_in_force, PlaybackModeSequential, PlaybackModeLoop.
  rewrite <- bool_decide_or. rewrite bool_decide_decide.
  destruct (decide (_ ∨ _)) as [Hm|Hm], (decide (_ ∈ _)) as [Hi|Hi]; try (set_solver +Hm Hi).
  destruct prev as [p|]; simpl; [|done].
  by destruct (RoomState.PlaybackMode p); [|rewrite bool_decide_false by done].
Qed.
Lemma step_moves prev msg mode :
  mode = mode_in_force prev msg →
  step prev msg mode =
    (let video := TrimSpace (ControlInput.VideoID msg) in
     match moves_to prev msg with
     | Some next => (next, queue_in_force prev msg, f_zero, "pause")
     | None =>
         (if decide (ControlInput.Action msg = "switch" ∧ video = "")
          then default "" (head (ControlInput.Queue msg)) else video,
          queue_in_force prev msg, ControlInput.Position msg, ControlInput.Action msg)
     end).
Proof.
  intros ->. unfold step, moves_to, queue_in_force, PlaybackActionNext, PlaybackActionSwitch.
  case_bool_decide as Ha; [rewrite (decide_True (P := _ = "next")) by done
                          |rewrite (decide_False (P := _ = "next")) by done].
  - rewrite nextInQueue_after.
    assert ((match prev with
      | Some p => if bool_decide (TrimSpace (ControlInput.VideoID msg) = "")
                  then RoomState.VideoID p else TrimSpace (ControlInput.VideoID msg)
      | None => TrimSpace (ControlInput.VideoID msg) end) =
      (if decide (TrimSpace (ControlInput.VideoID msg) = "")
       then default "" (RoomState.VideoID <$> prev) else TrimSpace (ControlInput.VideoID msg))) as ->.
    { rewrite bool_decide_decide. by destruct prev; simpl; case_decide. }
    assert ((match prev with
      | Some p => if bool_decide (length (ControlInput.Queue msg) = 0%nat)
                  then ControlInput.Queue msg ++ RoomState.Queue p else ControlInput.Queue msg
      | None => ControlInput.Queue msg end) =
      (if decide (ControlInput.Action msg = "next" ∧ ControlInput.Queue msg = [])
       then default [] (RoomState.Queue <$> prev) else ControlInput.Queue msg)) as ->.
    { destruct (ControlInput.Queue msg) as [|v q].
      - rewrite decide_True by done. by destruct prev.
      - rewrite decide_False by naive_solver. by destruct prev. }
    case_match; [done|]. by rewrite (decide_False (P := _ = "switch" ∧ _)) by (rewrite Ha; naive_solver).
  - rewrite (decide_False (P := _ ∧ ControlInput.Queue msg = [])) by naive_solver.
    case_bool_decide as Hs.
    + case_bool_decide as Hv; [rewrite decide_True by done; by rewrite Hv|].
      by rewrite decide_False by naive_solver.
    + by rewrite decide_False by naive_solver.
Qed.

Lemma queue_not_empty (q : list string) vid :
  (if bool_decide (length q = 0%nat) && negb (bool_decide (vid = "")) then [vid] else q) =
  (if decide (q = [] ∧ vid ≠ "") then [vid] else q).
Proof.
  destruct q as [|v q]; simpl; [|done].
  case_bool_decide; simpl; case_decide; naive_solver.
Qed.
Lemma duration_of_video msg prev vid :
  Advance.resolveControlDuration msg prev vid =
  let d := ControlInput.VideoDuration msg in
  if f_gt d f_zero then d
  else match prev with
  | Some p =>
      if decide (vid ≠ "" ∧ vid = RoomState.VideoID p ∧
                 f_gt (RoomState.VideoDuration p) f_zero = true)
      then RoomState.VideoDuration p else f_zero
  | None => f_zero
  end.
Proof.
  unfold Advance.resolveControlDuration. cbv zeta.
  destruct (f_gt (ControlInput.VideoDuration msg) f_zero); [done|]. destruct prev as [p|]; [|done].
  destruct (f_gt (RoomState.VideoDuration p) f_zero);
    repeat case_bool_decide; simpl; case_decide; naive_solver.
Qed.

(** Filing a state sets its room and at most its time. *)
Lemma stamp_state_fields t r st :
  let st' := stamp_state t r st in
  RoomState.RoomID st' = r ∧ RoomState.VideoID st' = RoomState.VideoID st ∧
  RoomState.Queue st' = RoomState.Queue st ∧ RoomState.QueueMeta st' = RoomState.QueueMeta st ∧
  RoomState.Action st' = RoomState.Action st ∧ RoomState.Position st' = RoomState.Position st ∧
  RoomState.PlaybackMode st' = RoomState.PlaybackMode st ∧
  RoomState.VideoDuration st' = RoomState.VideoDuration st ∧
  RoomState.ControlVersion st' = RoomState.ControlVersion st ∧
  RoomState.UpdatedBy st' = RoomState.UpdatedBy st ∧
  RoomState.UpdatedAt st' =
    (if decide (RoomState.UpdatedAt st = zero_time) then t else RoomState.UpdatedAt st) ∧
  RoomState.BaseUpdatedAt st' = RoomState.BaseUpdatedAt st.
Proof.
  unfold stamp_state, IsZero. destruct (Z.eqb_spec (RoomState.UpdatedAt st) zero_time);
    simpl; case_decide; done.
Qed.

Lemma new_state_controlled roomID userID t t' prev msg :
  controlled roomID userID t t' prev msg
    (stamp_state t' roomID (new_state roomID userID t prev msg)).
Proof.
  destruct (stamp_state_fields t' roomID (new_state roomID userID t prev msg))
    as (E1 & E2 & E3 & E4 & E5 & E6 & E7 & E8 & E9 & E10 & E11 & E12).
  unfold controlled. rewrite E1, E2, E3, E4, E5, E6, E7, E8, E9, E10, E11, E12.
  clear. unfold new_state. rewrite mode_of_in_force, (step_moves prev msg _ eq_refl). cbv zeta.
  set (vid0 := if decide (ControlInput.Action msg = "switch" ∧ TrimSpace (ControlInput.VideoID msg) = "")
               then _ else _).
  destruct (moves_to prev msg) as [vid|];
    cbn [RoomState.RoomID RoomState.VideoID RoomState.Queue RoomState.QueueMeta RoomState.Action
         RoomState.Position RoomState.PlaybackMode RoomState.VideoDuration RoomState.ControlVersion
         RoomState.UpdatedBy RoomState.UpdatedAt RoomState.BaseUpdatedAt];
    [|generalize vid0; clear vid0; intros vid]; (do 7 (split; [done|])); (split; [by split_and!|]);
    (split; [apply queue_not_empty|apply duration_of_video]).
Qed.

Lemma new_state_announced roomID user t t' prev msg :
  announces user t (stamp_state t' roomID (new_state roomID (HubUser.ID user) t prev msg))
    (sync_message user (new_state roomID (HubUser.ID user) t prev msg)).
Proof.
  set (st := new_state _ _ _ _ _).
  assert (RoomState.UpdatedAt st = t) as Ht.
  { unfold st, new_state. by destruct (step _ _ _) as [[[? ?] ?] ?]. }
  destruct (stamp_state_fields t' roomID st) as (_ & E1 & E2 & _ & E3 & E4 & E5 & _ & E6 & _).
  unfold announces, sync_message. rewrite E1, E2, E3, E4, E5, E6, Ht. done.
Qed.

(** The publications of a successful control: one, of its message. *)
Definition sync_events (has_publisher : bool) (roomID : string) (m : Message.t)
    (err : option error) : list event :=
  if has_publisher
  then [EvPublish roomID "room.sync" (PubMessage m)
          (match err with None => Ok tt | Some e => Err e end)]
  else [].

(** What a projection keeps of a state. *)
Lemma projectState_exists t st :
  ∃ out, Advance.projectState t (Some st) = Some out ∧
    RoomState.Queue out = RoomState.Queue st ∧
    RoomState.ControlVersion out = RoomState.ControlVersion st ∧
    (RoomState.Action st ≠ PlaybackActionPlay →
       RoomState.Action out = RoomState.Action st ∧ RoomState.VideoID out = RoomState.VideoID st).
Proof.
  unfold Advance.projectState. rewrite ProjectedPlayback_reached. unfold reached_end.
  case_bool_decide as Ha; simpl.
  - repeat case_match; eexists; (split; [done|]); simpl; split_and!; done.
  - eexists. split; [done|]. simpl. done.
Qed.

Section control.
Context `{!Backend, !Env, !RoomStateContract StatesT, !PublisherContract PubT}.

Definition room_states (s : Service) : gmap string RoomState.t := rs_view (states s).
Definition has_publisher (s : Service) : bool :=
  match publisher s with Some _ => true | None => false end.

(** A failure of the cache is never reported as "not found". *)
Definition ctx_not_found : Prop := ∀ n e, ctx_at n = Some e → errors_Is e ErrNotFound = false.

(** The outcome of a control, from the map's. *)
Definition control_outcome (roomID : string) (user : HubUser.t) (s : Service)
    (o : RoomState.t + error) (r : result (Message.t * option error)) (s' : Service) : Prop :=
  match o with
  | inr e => r = Err e ∧ events s' = events s
  | inl st => ∃ err, r = Ok (sync_message user st, err) ∧
      (has_publisher s = false → err = None) ∧
      events s' = events s ++ sync_events (has_publisher s) roomID (sync_message user st) err
  end.

Lemma control_read_run roomID s :
  ctx_not_found → rs_wf (states s) →
  wp (control_read roomID) (λ r s',
    rs_wf (states s') ∧ publisher s' = publisher s ∧ events s' = events s ∧
    tick s' = S (S (tick s)) ∧ room_states s' = room_states s ∧
    r = match ctx_at (S (tick s)) with
        | Some e => Err e
        | None => Ok (now_at (tick s), room_states s !! roomID)
        end) s.
Proof.
  intros Hctx Hwf. unfold control_read.
  apply wp_bind. unfold now, wp at 1. simpl. apply wp_bind, wp_attempt.
  eapply wp_call_states; [apply (GetRoomState_law _ roomID)|done|].
  intros r x Hx. simpl. unfold outcome, room_states. simpl.
  destruct (ctx_at (S (tick s))) as [e|] eqn:Hc; intros [-> Hv].
  - by rewrite (Hctx _ _ Hc).
  - by destruct (rs_view (states s) !! roomID).
Qed.

Lemma control_write_run roomID user msg t prev s :
  rs_wf (states s) →
  wp (control_write roomID user msg t prev) (λ r s',
    let st := new_state roomID (HubUser.ID user) t prev msg in
    let '(o, v') :=
      if stale prev msg then (inr ErrStaleControl, room_states s)
      else match ctx_at (tick s) with
      | Some e => (inr e, room_states s)
      | None => (inl st, <[roomID := stamp_state (now_at (tick s)) roomID st]> (room_states s))
      end in
    rs_wf (states s') ∧ has_publisher s' = has_publisher s ∧
    room_states s' = v' ∧ control_outcome roomID user s o r s') s.
Proof.
  intros Hwf. unfold control_write. destruct (stale prev msg); [done|].
  set (st := new_state _ _ _ _ _). apply wp_bind.
  eapply wp_call_states; [apply (SetRoomState_law _ _ roomID st)|done|].
  intros r x Hx. unfold outcome, control_outcome, has_publisher.
  destruct (ctx_at (tick s)) as [e|]; intros [-> Hv]; [done|].
  apply wp_bind. unfold wp at 1. simpl. destruct (publisher s) as [p|] eqn:Hp; simpl.
  - apply wp_bind, wp_attempt. eapply wp_publish; [exact Hp|].
    intros x' res [->|[e ->]]; unfold wp; simpl; unfold room_states; simpl;
      (split_and!; [done..|]); eexists; done.
  - unfold wp. simpl. unfold room_states. simpl. rewrite Hp.
    split_and!; try done. exists None. by rewrite app_nil_r.
Qed.

Lemma ApplyControl_run roomID user msg s :
  ctx_not_found → rs_wf (states s) →
  wp (ApplyControl roomID user msg) (λ r s',
    let '(o, v') := control_spec (now_at (tick s)) (now_at (S (S (tick s))))
      (ctx_at (S (tick s))) (ctx_at (S (S (tick s)))) roomID user msg (room_states s) in
    rs_wf (states s') ∧ has_publisher s' = has_publisher s ∧
    room_states s' = v' ∧ control_outcome roomID user s o r s') s.
Proof.
  intros Hctx Hwf. unfold ApplyControl, control_spec.
  destruct (authorized user); simpl; [|done].
  apply wp_bind. eapply wp_mono; [by apply control_read_run|].
  intros r s1 (Hw & Hp & He & Ht & Hv & ->).
  assert (has_publisher s1 = has_publisher s) as Hp' by (unfold has_publisher; by rewrite Hp).
  destruct (ctx_at (S (tick s))) as [e|]; [done|].
  eapply wp_mono; [by apply control_write_run|].
  intros r s2. rewrite Ht, Hv. unfold control_outcome. rewrite Hp', He. done.
Qed.

(** ** Sequences of operations *)

Inductive op : Type :=
  | OpControl (roomID : string) (user : HubUser.t) (msg : ControlInput.t)
  | OpSnapshot (roomID : string)
  | OpJoin (roomID : string) (user : HubUser.t)
  | OpLeave (roomID userID : string)
  | OpKick (roomID userID : string)
  | OpClose (roomID : string) (user : option HubUser.t).

(** One operation; the message of an accepted control, with its room. *)
Definition run_op (o : op) (s : Service) : list (string * Message.t) * Service :=
  match o with
  | OpControl roomID user msg =>
      let '(r, s') := ApplyControl roomID user msg s in
      (match r with Ok (m, _) => [(roomID, m)] | _ => [] end, s')
  | OpSnapshot roomID => ([], (Snapshot roomID s).2)
  | OpJoin roomID user => ([], (Join roomID user s).2)
  | OpLeave roomID userID => ([], (Leave roomID userID s).2)
  | OpKick roomID userID => ([], (KickMember roomID userID None s).2)
  | OpClose roomID user => ([], (CloseRoom roomID user s).2)
  end.

Fixpoint run_ops (os : list op) (s : Service) : list (string * Message.t) * Service :=
  match os with
  | [] => ([], s)
  | o :: os =>
      let '(ms, s1) := run_op o s in
      let '(ms', s2) := run_ops os s1 in (ms ++ ms', s2)
  end.

Definition accepted_in (r : string) (ms : list (string * Message.t)) : list Message.t :=
  omap (λ rm, if bool_decide (rm.1 = r) then Some rm.2 else None) ms.

(** The control messages published to room [r], oldest first. *)
Definition synced_event (r : string) (ev : event) : option Message.t :=
  match ev with
  | EvPublish r' name (PubMessage m) _ =>
      if bool_decide (r' = r) && bool_decide (name = "room.sync") then Some m else None
  | _ => None
  end.
Definition synced (r : string) (s : Service) : list Message.t := omap (synced_event r) (events s).

(** The operation leaves the state of room [r] and its control messages alone. *)
Definition playback_post (r : string) (s s' : Service) : Prop :=
  rs_wf (states s') ∧ room_states s' !! r = room_states s !! r ∧
  synced r s' = synced r s ∧ has_publisher s' = has_publisher s.
Definition same_playback (r : string) (s s' : Service) : Prop :=
  rs_wf (states s) → playback_post r s s'.

#[local] Instance same_playback_preorder r : PreOrder (same_playback r).
Proof.
  split.
  - intros s Hw. done.
  - intros s1 s2 s3 H12 H23 Hw. destruct (H12 Hw) as (W2 & E2 & Y2 & P2).
    destruct (H23 W2) as (W3 & E3 & Y3 & P3). split_and!; congruence.
Qed.

Lemma same_playback_refl_fields r s s' :
  states s' = states s → events s' = events s → has_publisher s' = has_publisher s →
  same_playback r s s'.
Proof. intros E1 E2 E3 Hw. unfold playback_post, room_states, synced. by rewrite E1, E2, E3. Qed.

Lemma keeps_call_opt {T A} r (get : Service → option T) put (m : ctx → time → SM T A) :
  (∀ x s, states (put x s) = states s ∧ events (put x s) = events s ∧
          publisher (put x s) = publisher s) →
  keeps (same_playback r) (call_opt get put m).
Proof.
  intros Hput s. unfold call_opt. destruct (get s) as [c|]; [|reflexivity].
  destruct (m _ _ c) as [res x]. destruct (Hput (Some x) s) as (E1 & E2 & E3).
  apply same_playback_refl_fields; [done..|]. unfold has_publisher. simpl. by rewrite E3.
Qed.

Lemma keeps_publish r roomID name data :
  roomID ≠ r ∨ name ≠ "room.sync" →
  keeps (same_playback r) (call_publish roomID name data).
Proof.
  intros Hne s Hw. unfold call_publish, call_opt, playback_post, has_publisher.
  destruct (publisher s) as [p|] eqn:Hp.
  2:{ simpl. unfold synced. simpl. rewrite omap_app, Hp. simpl.
      destruct data; simpl; rewrite ?bool_decide_false_iff; [|by rewrite app_nil_r].
      case_bool_decide; case_bool_decide; simpl; rewrite ?app_nil_r; naive_solver. }
  destruct (PublishRoomMessage _ _ _ _ p) as [res x]. simpl.
  unfold room_states, synced. simpl. rewrite omap_app. simpl.
  split_and!; [done|done| |done].
  destruct data; simpl; [|by rewrite app_nil_r].
  case_bool_decide; case_bool_decide; simpl; rewrite ?app_nil_r; naive_solver.
Qed.

Lemma keeps_get r roomID :
  keeps (same_playback r) (call_states (λ c _, GetRoomState c roomID)).
Proof.
  intros s Hw.
  change (wp (call_states (λ c _, GetRoomState c roomID)) (λ _, playback_post r s) s).
  eapply wp_call_states; [apply (GetRoomState_law _ roomID)|done|].
  intros res x Hx Ho. unfold playback_post, room_states, synced. simpl. split_and!; try done.
  unfold outcome in Ho. destruct (ctx_at (tick s)); by destruct Ho as [_ ->].
Qed.

Lemma keeps_delete r roomID :
  roomID ≠ r →
  keeps (same_playback r) (call_states (λ c _, DeleteRoomState c roomID)).
Proof.
  intros Hne s Hw.
  change (wp (call_states (λ c _, DeleteRoomState c roomID)) (λ _, playback_post r s) s).
  eapply wp_call_states; [apply (DeleteRoomState_law _ roomID)|done|].
  intros res x Hx Ho. unfold playback_post, room_states, synced. simpl. split_and!; try done.
  unfold outcome in Ho. destruct (ctx_at (tick s)); destruct Ho as [_ ->]; [done|].
  by rewrite lookup_delete_ne.
Qed.

Lemma keeps_now r : keeps (same_playback r) now.
Proof. intros s. by apply same_playback_refl_fields. Qed.

#[local] Hint Resolve keeps_get keeps_delete keeps_now keeps_publish : core.

Ltac keeps_tac :=
  unfold present, call_presence, call_access, call_chat, call_rooms;
  repeat first [keeps_step | solve [auto] | by apply keeps_call_opt].

Lemma keeps_event r roomID ev user :
  keeps (same_playback r) (PublishRoomEvent roomID ev user).
Proof. unfold PublishRoomEvent. keeps_tac. Qed.
#[local] Hint Resolve keeps_event : core.

(** A control on a room: the change to that room, whatever the outcome. *)
Lemma synced_sync_events r roomID m err s s' :
  events s' = events s ++ sync_events (has_publisher s) roomID m err →
  synced r s' = synced r s ++
    (if has_publisher s then accepted_in r [(roomID, m)] else []).
Proof.
  intros E. unfold synced. rewrite E, omap_app. f_equal.
  unfold sync_events, accepted_in. destruct (has_publisher s); [|done].
  simpl. by case_bool_decide.
Qed.

(** The version a control on [r] finds. *)
Definition version (r : string) (s : Service) : Z :=
  match room_states s !! r with Some st => RoomState.ControlVersion st | None => 0 end.

(** A state and a message describe the same playback. *)
Definition describes (m : Message.t) (st : RoomState.t) : Prop :=
  ∃ user, HubUser.ID user = RoomState.UpdatedBy st ∧
    Message.Type_ m = "sync" ∧ Message.User m = Some user ∧
    Message.VideoID m = RoomState.VideoID st ∧ Message.Queue m = RoomState.Queue st ∧
    Message.Action m = RoomState.Action st ∧ Message.Position m = RoomState.Position st ∧
    Message.PlaybackMode m = RoomState.PlaybackMode st ∧
    Message.ControlVersion m = RoomState.ControlVersion st.

Lemma describes_new roomID user t t' prev msg :
  describes (sync_message user (new_state roomID (HubUser.ID user) t prev msg))
    (stamp_state t' roomID (new_state roomID (HubUser.ID user) t prev msg)).
Proof.
  unfold stamp_state. set (st := new_state _ _ _ _ _).
  assert (RoomState.UpdatedBy st = HubUser.ID user) as Hu.
  { unfold st, new_state. by destruct (step _ _ _) as [[[? ?] ?] ?]. }
  exists user. case_match; simpl; split_and!; done.
Qed.

Lemma new_state_version roomID u t prev msg :
  RoomState.ControlVersion (new_state roomID u t prev msg) = next_version prev.
Proof. unfold new_state. by destruct (step _ _ _) as [[[? ?] ?] ?]. Qed.
Lemma stamp_state_version t r st :
  RoomState.ControlVersion (stamp_state t r st) = RoomState.ControlVersion st.
Proof. unfold stamp_state. by case_match. Qed.

(** One control: refused, and nothing changed, or accepted as the next version. *)
Inductive control_effect (r : string) (s : Service) : list Message.t → Service → Prop :=
  | control_refused s' : playback_post r s s' → control_effect r s [] s'
  | control_accepted m st s' :
      rs_wf (states s') → has_publisher s' = has_publisher s →
      room_states s' !! r = Some st → describes m st →
      (version r s < max_int64 → min_int64 ≤ version r s →
       RoomState.ControlVersion st = version r s + 1) →
      synced r s' = synced r s ++ (if has_publisher s then [m] else []) →
      control_effect r s [m] s'.

Lemma ApplyControl_effect r roomID user msg s :
  ctx_not_found → rs_wf (states s) →
  control_effect r s (accepted_in r (run_op (OpControl roomID user msg) s).1)
    (run_op (OpControl roomID user msg) s).2.
Proof.
  intros Hctx Hw. pose proof (ApplyControl_run roomID user msg s Hctx Hw) as H1.
  unfold wp in H1. simpl. destruct (ApplyControl roomID user msg s) as [res s'].
  cbn [fst snd] in *.
  destruct (control_spec _ _ _ _ _ _ _ _) as [o v'] eqn:Hspec.
  destruct H1 as (Hw' & Hp & Hv & Ho). destruct o as [st|e]; simpl in Ho.
  - destruct Ho as (err & -> & _ & He). apply (synced_sync_events r) in He.
    apply control_spec_accepted in Hspec as (_ & _ & -> & ->).
    unfold accepted_in in *. simpl in *. case_bool_decide; subst.
    + eapply control_accepted; [done|done| |apply describes_new| |done].
      * rewrite Hv. apply lookup_insert_eq.
      * intros. rewrite stamp_state_version, new_state_version. unfold version in *.
        destruct (room_states s !! r); simpl; [|done].
        apply wrap64_id. unfold min_int64, max_int64 in *. lia.
    + apply control_refused. split_and!; try done.
      * rewrite Hv. by rewrite lookup_insert_ne.
      * rewrite He. destruct (has_publisher s); by rewrite ?app_nil_r.
  - destruct Ho as [-> He]. apply control_spec_refused in Hspec as ->.
    simpl. apply control_refused. split_and!; try done; [by rewrite Hv|].
    unfold synced. by rewrite He.
Qed.

Lemma run_op_effect r o s :
  (∀ user, o ≠ OpClose r user) → ctx_not_found → rs_wf (states s) →
  control_effect r s (accepted_in r (run_op o s).1) (run_op o s).2.
Proof.
  intros Hc Hctx Hw.
  destruct o as [roomID user msg|roomID|roomID user|roomID u|roomID u|roomID user];
    [by apply ApplyControl_effect|..]; simpl; apply control_refused.
  - enough (keeps (same_playback r) (Snapshot roomID)) as HK by by apply HK.
    unfold Snapshot, ProjectedRoomState, memberCount. keeps_tac.
  - enough (keeps (same_playback r) (Join roomID user)) as HK by by apply HK.
    unfold Join. keeps_tac.
  - enough (keeps (same_playback r) (Leave roomID u)) as HK by by apply HK.
    unfold Leave. keeps_tac.
  - enough (keeps (same_playback r) (KickMember roomID u None)) as HK by by apply HK.
    unfold KickMember. keeps_tac.
  - enough (keeps (same_playback r) (CloseRoom roomID user)) as HK by by apply HK.
    unfold CloseRoom, forget_room, deleteRoomChat. keeps_tac.
    apply keeps_delete. intros ->. by eapply Hc.
Qed.

(** The last accepted control is the one stored. *)
Definition last_stored (r : string) (s : Service) (acks : list Message.t) (s' : Service) : Prop :=
  match list.last acks with
  | None => room_states s' !! r = room_states s !! r
  | Some m => ∃ st, room_states s' !! r = Some st ∧ describes m st
  end.

Lemma run_ops_effect r os s :
  ctx_not_found → rs_wf (states s) → (∀ user, OpClose r user ∉ os) →
  0 ≤ version r s → version r s + Z.of_nat (length os) ≤ max_int64 →
  let '(ms, s') := run_ops os s in
  let acks := accepted_in r ms in
  rs_wf (states s') ∧ has_publisher s' = has_publisher s ∧
  (∀ i m, acks !! i = Some m → Message.ControlVersion m = version r s + 1 + Z.of_nat i) ∧
  version r s' = version r s + Z.of_nat (length acks) ∧
  synced r s' = synced r s ++ (if has_publisher s then acks else []) ∧
  last_stored r s acks s'.
Proof.
  intros Hctx. revert s. induction os as [|o os IH]; intros s Hw Hc Hv Hmax.
  { simpl. split_and!; try done; try lia. by destruct (has_publisher s); rewrite app_nil_r. }
  simpl in Hmax. cbn [run_ops].
  assert (∀ user, o ≠ OpClose r user) as Ho by (intros user ->; apply (Hc user); left).
  pose proof (run_op_effect r o s Ho Hctx Hw) as Heff.
  destruct (run_op o s) as [ms1 s1]. simpl in Heff.
  specialize (IH s1). destruct (run_ops os s1) as [ms2 s2].
  cbv zeta in *.
  assert (accepted_in r (ms1 ++ ms2) = accepted_in r ms1 ++ accepted_in r ms2) as ->
    by apply omap_app.
  assert (∀ user, OpClose r user ∉ os) as Hc' by (intros user Hin; apply (Hc user); by right).
  destruct Heff as [s1 (Hw1 & Hr & Hs & Hp)|m st s1 Hw1 Hp Hr Hd Hver Hs].
  - assert (version r s1 = version r s) as Hv1 by (unfold version; by rewrite Hr).
    unfold last_stored in *. rewrite Hv1, Hs, Hp, Hr in IH. simpl. apply IH; try done; lia.
  - assert (RoomState.ControlVersion st = version r s + 1) as Hst
      by (apply Hver; unfold min_int64, max_int64 in *; lia).
    assert (version r s1 = version r s + 1) as Hv1 by (unfold version at 1; by rewrite Hr).
    destruct IH as (Hw2 & Hp2 & Hi & Hv2 & Hs2 & Hl); [done|done|lia|lia|].
    split_and!; [done|by rewrite Hp2| | | |].
    + intros [|i] m'; simpl.
      * intros [= <-]. destruct Hd as (? & ? & ? & ? & ? & ? & ? & ? & ? & ->). lia.
      * intros Hi'. rewrite (Hi i m' Hi'). lia.
    + simpl. lia.
    + rewrite Hs2, Hs, Hp. destruct (has_publisher s); simpl; [|by rewrite !app_nil_r].
      by rewrite <- app_assoc.
    + unfold last_stored in *. simpl. rewrite last_cons.
      destruct (list.last (accepted_in r ms2)); [done|].
      exists st. by rewrite Hl.
Qed.

(** ** The properties *)

(** C22: [ApplyControl] is the protocol: a sender who is neither an admin nor the
    owner is refused, a failure of the cache is reported, a client behind the stored
    version is refused, and each of these changes no state and publishes nothing.
    Otherwise one state is stored, the control's: by the sender, one version up, with
    the mode, queue, video, position, action and length that the input, the clock and
    the state found determine; its announcement is returned and, with a publisher,
    published once. *)
Theorem ApplyControl_correct roomID user msg s :
  ctx_not_found → rs_wf (states s) →
  let '(r, s') := ApplyControl roomID user msg s in
  let prev := room_states s !! roomID in
  let refused e := r = Err e ∧ room_states s' = room_states s ∧ events s' = events s in
  (¬ may_control user → refused ErrForbidden) ∧
  (may_control user →
   match ctx_at (S (tick s)) with
   | Some e => refused e
   | None =>
       (outdated prev msg → refused ErrStaleControl) ∧
       (¬ outdated prev msg →
        match ctx_at (S (S (tick s))) with
        | Some e => refused e
        | None => ∃ st m err, r = Ok (m, err) ∧
            controlled roomID (HubUser.ID user) (now_at (tick s)) (now_at (S (S (tick s))))
              prev msg st ∧
            announces user (now_at (tick s)) st m ∧
            room_states s' = <[roomID := st]> (room_states s) ∧
            (publisher s = None → err = None) ∧
            events s' = events s ++ sync_events (has_publisher s) roomID m err
        end)
   end).
Proof.
  intros Hctx Hw. pose proof (ApplyControl_run roomID user msg s Hctx Hw) as H1.
  unfold wp in H1. destruct (ApplyControl roomID user msg s) as [r s'].
  simpl in H1. cbv zeta. unfold control_spec in H1.
  pose proof (authorized_may user) as Hmay. pose proof (stale_outdated (room_states s !! roomID) msg) as Hout.
  destruct (authorized user); cbn [negb] in H1.
  2:{ split; [intros _; by destruct H1 as (_ & _ & Hv & Hr & He)|by intros ?%Hmay]. }
  split; [by intros Hn; destruct Hn; apply Hmay|]. intros _.
  destruct (ctx_at (S (tick s))); [by destruct H1 as (_ & _ & Hv & Hr & He)|].
  destruct (stale _ _).
  { split; [intros _; by destruct H1 as (_ & _ & Hv & Hr & He)|by intros Hn; destruct Hn; apply Hout]. }
  split; [by intros ?%Hout|]. intros _.
  destruct (ctx_at (S (S (tick s)))); [by destruct H1 as (_ & _ & Hv & Hr & He)|].
  destruct H1 as (_ & _ & Hv & err & Hr & Hnone & He).
  do 3 eexists. split; [exact Hr|]. split; [apply new_state_controlled|].
  split; [apply new_state_announced|]. split; [exact Hv|]. split; [|exact He].
  intros Hp. apply Hnone. unfold has_publisher. by rewrite Hp.
Qed.

(** C3: over any sequence of controls, snapshots, joins, leaves, kicks and
    closings of other rooms, with any failures of the caches, the controls
    accepted on a room are numbered consecutively from the version found, the
    stored version counts them, the messages published to the room are those of
    the accepted controls in order, and the last one describes the stored
    state. *)
Theorem controls_linearize r os s :
  ctx_not_found → rs_wf (states s) → (∀ user, OpClose r user ∉ os) →
  0 ≤ version r s → version r s + Z.of_nat (length os) ≤ max_int64 →
  let '(ms, s') := run_ops os s in
  let acks := accepted_in r ms in
  (∀ i m, acks !! i = Some m → Message.ControlVersion m = version r s + 1 + Z.of_nat i) ∧
  version r s' = version r s + Z.of_nat (length acks) ∧
  synced r s' = synced r s ++ (if has_publisher s then acks else []) ∧
  last_stored r s acks s'.
Proof.
  intros Hctx Hw Hc Hv Hmax. pose proof (run_ops_effect r os s Hctx Hw Hc Hv Hmax) as H1.
  destruct (run_ops os s) as [ms s']. by destruct H1 as (_ & _ & ? & ? & ? & ?).
Qed.

(** C4: once a control has been accepted as version [n], and as long as the room is
    not closed, a control by any user whose client last saw an older version is
    never accepted and leaves the room's state as it is, whatever else happens in
    between.  (Closing the room deletes its state and with it the version: the next
    control starts again at 1, from whatever version its client says it saw.) *)
Theorem stale_control_refused r os s m user msg :
  ctx_not_found → rs_wf (states s) → (∀ u, OpClose r u ∉ os) →
  0 ≤ version r s → version r s + Z.of_nat (length os) ≤ max_int64 →
  m ∈ accepted_in r (run_ops os s).1 →
  0 < ControlInput.ClientVersion msg < Message.ControlVersion m →
  let s' := (run_ops os s).2 in
  (∃ e, (ApplyControl r user msg s').1 = Err e) ∧
  room_states (ApplyControl r user msg s').2 = room_states s'.
Proof.
  intros Hctx Hw Hc Hv Hmax Hin Hcv.
  pose proof (run_ops_effect r os s Hctx Hw Hc Hv Hmax) as H1.
  destruct (run_ops os s) as [ms s']. simpl in *.
  destruct H1 as (Hw' & _ & Hi & Hv' & _).
  apply list_elem_of_lookup in Hin as [i Hm]. pose proof (Hi _ _ Hm) as Hver.
  apply lookup_lt_Some in Hm.
  pose proof (ApplyControl_run r user msg s' Hctx Hw') as H2. unfold wp in H2.
  destruct (control_spec _ _ _ _ _ _ _ _) as [o v'] eqn:Hspec.
  destruct H2 as (_ & _ & Hst & Ho). destruct o as [st|e].
  - exfalso. apply control_spec_accepted in Hspec as (_ & Hstale & _).
    unfold stale, version in *. destruct (room_states s' !! r) as [p|]; [|lia].
    apply andb_false_iff in Hstale as [Hs|Hs]; apply Z.ltb_ge in Hs; lia.
  - apply control_spec_refused in Hspec as ->. destruct Ho as [Hr _]. eauto.
Qed.

(** C36: two controls on one room whose reads both come before their writes are
    both accepted under the same version, and the second write replaces the
    first one's state, although the version is there so that "stale clients
    cannot overwrite newer state". *)
Theorem concurrent_controls_lose_update r u1 u2 m1 m2 s :
  rs_wf (states s) → (∀ n, ctx_at n = None) →
  stale (room_states s !! r) m1 = false → stale (room_states s !! r) m2 = false →
  ∃ t1 p1 s1 t2 p2 s2 a1 e1 s3 a2 e2 s4,
    control_read r s = (Ok (t1, p1), s1) ∧ control_read r s1 = (Ok (t2, p2), s2) ∧
    control_write r u1 m1 t1 p1 s2 = (Ok (a1, e1), s3) ∧
    control_write r u2 m2 t2 p2 s3 = (Ok (a2, e2), s4) ∧
    Message.ControlVersion a1 = Message.ControlVersion a2 ∧
    ∃ st, room_states s4 !! r = Some st ∧ describes a2 st.
Proof.
  intros Hw Hlive Hs1 Hs2.
  assert ctx_not_found as Hctx by (intros n e; by rewrite Hlive).
  pose proof (control_read_run r s Hctx Hw) as H1. unfold wp in H1.
  destruct (control_read r s) as [r1 s1]. simpl in H1.
  destruct H1 as (Hw1 & Hp1 & He1 & _ & Hv1 & ->). rewrite Hlive.
  pose proof (control_read_run r s1 Hctx Hw1) as H2. unfold wp in H2.
  destruct (control_read r s1) as [r2 s2] eqn:E2. simpl in H2.
  destruct H2 as (Hw2 & Hp2 & He2 & _ & Hv2 & ->). rewrite Hlive, Hv1 in E2.
  pose proof (control_write_run r u1 m1 (now_at (tick s)) (room_states s !! r) s2 Hw2) as H3.
  unfold wp in H3. cbv zeta in H3. rewrite Hs1, Hlive in H3.
  destruct (control_write r u1 m1 _ _ s2) as [r3 s3] eqn:E3.
  destruct H3 as (Hw3 & _ & Hv3 & err1 & Hr3 & _). simpl in Hr3, Hv3, Hw3. subst r3.
  pose proof (control_write_run r u2 m2 (now_at (tick s1)) (room_states s !! r) s3 Hw3) as H4.
  unfold wp in H4. cbv zeta in H4. rewrite Hs2, Hlive in H4.
  destruct (control_write r u2 m2 _ _ s3) as [r4 s4] eqn:E4.
  destruct H4 as (Hw4 & _ & Hv4 & err2 & Hr4 & _). simpl in Hr4, Hv4. subst r4.
  do 12 eexists. split_and!; [reflexivity|exact E2|exact E3|exact E4| |].
  - simpl. by rewrite !new_state_version.
  - eexists. split; [rewrite Hv4; apply lookup_insert_eq|apply describes_new].
Qed.

(** The action "next", sent without a video and a queue by someone allowed to
    control the room, moves a duplicate-free stored queue to the video after the
    current one, paused at its start and wrapping round in loop mode.  At the end
    of a sequential queue it keeps the queue but clears the current video and
    stores the action as it came. *)
Theorem next_follows_queue r user msg s p i m err s' :
  ctx_not_found → rs_wf (states s) →
  room_states s !! r = Some p → NoDup (RoomState.Queue p) →
  RoomState.Queue p !! i = Some (RoomState.VideoID p) →
  ControlInput.Action msg = PlaybackActionNext → ControlInput.Queue msg = [] →
  TrimSpace (ControlInput.VideoID msg) = "" →
  ApplyControl r user msg s = (Ok (m, err), s') →
  let q := RoomState.Queue p in
  Message.Queue m = q ∧
  match (if bool_decide (mode_of (Some p) msg = PlaybackModeLoop)
         then q !! (S i mod length q)%nat else q !! S i) with
  | Some next => Message.VideoID m = next ∧ Message.Position m = f_zero ∧
                 Message.Action m = PlaybackActionPause
  | None => Message.VideoID m = "" ∧ Message.Position m = ControlInput.Position msg ∧
            Message.Action m = PlaybackActionNext
  end.
Proof.
  intros Hctx Hw Hp Hnd Hi Hact Hq Hvid Hrun q.
  pose proof (ApplyControl_run r user msg s Hctx Hw) as H1. unfold wp in H1.
  rewrite Hrun in H1. destruct (control_spec _ _ _ _ _ _ _ _) as [o v'] eqn:Hspec.
  destruct H1 as (_ & _ & _ & Ho). destruct o as [st|e]; [|by destruct Ho].
  apply control_spec_accepted in Hspec as (_ & _ & -> & _).
  destruct Ho as (err' & [= -> _] & _). rewrite Hp.
  unfold new_state, step. rewrite Hact, Hq, Hvid.
  rewrite bool_decide_true by done. rewrite !bool_decide_true by done. simpl.
  assert (RoomState.VideoID p ∈ q) as Hin by (by eapply list_elem_of_lookup_2).
  assert (length q ≠ 0%nat) as Hlen.
  { intros Hz%length_zero_iff_nil. rewrite Hz in Hin. by apply not_elem_of_nil in Hin. }
  fold q. rewrite (nextInQueue_known _ _ _ Hin).
  set (mode := mode_of (Some p) msg).
  assert (Project.NextVideoAfterEnd (RoomState.VideoID p) q mode =
    if bool_decide (mode = PlaybackModeLoop)
    then q !! (S i mod length q)%nat else q !! S i) as Hnext.
  { case_bool_decide as Hm; [rewrite Hm; by apply NextVideoAfterEnd_loop|].
    by apply NextVideoAfterEnd_seq. }
  rewrite Hnext.
  destruct (if bool_decide (mode = PlaybackModeLoop) then _ else _) as [nx|]; simpl;
    rewrite (bool_decide_false (length q = 0%nat)) by done; done.
Qed.

Lemma memberCount_run `{!PresenceContract PresenceT} r s :
  (∀ p, presence s = Some p → rp_wf p) →
  wp (memberCount r) (λ res s', res = Ok
    match presence s, ctx_at (tick s) with
    | Some p, None => PresenceView.count (rp_view p) r
    | _, _ => 0
    end) s.
Proof.
  intros Hp. apply wp_present. destruct (presence s) as [p|] eqn:E; [|done]. simpl negb. cbv iota.
  apply wp_bind, wp_attempt.
  eapply (wp_call_opt rp_wf rp_view); [exact E|apply MemberCount_law|by apply Hp|].
  intros res x Hx. unfold outcome. by destruct (ctx_at (tick s)); intros [-> _].
Qed.

(** A snapshot taken after an accepted control, by a reader the cache
    answers, shows that control: the projection to the reading time of the very
    state the message describes, so the same queue and version and, unless the
    video plays on, the same video and action; with the number of members. *)
Theorem snapshot_after_control `{!PresenceContract PresenceT} r user msg s m err s1 :
  ctx_not_found → rs_wf (states s) →
  (∀ p, presence s1 = Some p → rp_wf p) →
  ApplyControl r user msg s = (Ok (m, err), s1) →
  (∀ n, (tick s1 ≤ n)%nat → ctx_at n = None) →
  ∃ snap st out, (Snapshot r s1).1 = Ok snap ∧ describes m st ∧
    Advance.projectState (now_at (S (tick s1))) (Some st) = Some out ∧
    Snapshot.State snap = Some out ∧
    RoomState.Queue out = Message.Queue m ∧
    RoomState.ControlVersion out = Message.ControlVersion m ∧
    (Message.Action m ≠ PlaybackActionPlay →
       RoomState.Action out = Message.Action m ∧ RoomState.VideoID out = Message.VideoID m) ∧
    Snapshot.ViewerCount snap =
      match presence s1 with Some p => PresenceView.count (rp_view p) r | None => 0 end.
Proof.
  intros Hctx Hw Hpw Hrun Hlive.
  pose proof (ApplyControl_effect r r user msg s Hctx Hw) as Heff.
  simpl in Heff. rewrite Hrun in Heff. simpl in Heff.
  unfold accepted_in in Heff. simpl in Heff. rewrite bool_decide_true in Heff by done.
  inversion Heff as [|? st ? Hw1 _ Hst Hd _ _]; subst.
  destruct (projectState_exists (now_at (S (tick s1))) st) as (out & Hout & Hq & Hver & Hact).
  assert (wp (Snapshot r) (λ res s', ∃ snap,
    res = Ok snap ∧ Snapshot.State snap = Some out ∧
    Snapshot.ViewerCount snap =
      match presence s1 with Some p => PresenceView.count (rp_view p) r | None => 0 end) s1)
    as (snap & Hsnap & Hstate & Hcount).
  { unfold Snapshot, ProjectedRoomState. apply wp_bind, wp_attempt, wp_bind.
    eapply wp_call_states; [apply (GetRoomState_law _ r)|done|].
    intros res x Hx. unfold outcome. rewrite Hlive by lia. intros [-> Hv].
    unfold room_states in Hst. rewrite Hst. apply wp_now.
    change (tick (next_tick (set_states x s1))) with (S (tick s1)). rewrite Hout.
    apply wp_ret, wp_bind.
    eapply wp_mono; [apply memberCount_run, Hpw|].
    intros res s2 ->. simpl. rewrite Hlive by lia.
    apply wp_ret. destruct (presence s1); by eexists. }
  exists snap, st, out.
  destruct Hd as (u & Hd). destruct Hd as (Hu & Ht & Hus & Hvid & Hqu & Ha & Hpos & Hm & Hcv).
  split_and!; try done; try congruence.
  - exists u. done.
  - intros Hne. rewrite Ha, Hvid. apply Hact. by rewrite <- Ha.
Qed.
End control.

(** ** Witnesses *)

Definition play (v : string) (q : list string) (cv : Z) : ControlInput.t :=
  ControlInput.mk PlaybackActionPlay f_zero v q "" cv f_zero.
Definition next : ControlInput.t :=
  ControlInput.mk PlaybackActionNext f_zero "" [] "" 0 f_zero.

Lemma live_ctx_not_found : ctx_not_found.
Proof. intros n e. done. Qed.
Lemma mem_states_wf (s : @Service test_backend) : rs_wf (states s).
Proof. exact I. Qed.

(** The owner plays, a guest is refused, a stale client is refused, the owner
    goes to the next video. *)
Definition session : list op :=
  [OpJoin "r" owner; OpControl "r" owner (play "a" ["a"; "b"] 0);
   OpControl "r" guest (play "b" [] 0); OpSnapshot "r";
   OpControl "r" owner next; OpControl "r" owner (play "a" [] 1);
   OpClose "other" None].

Lemma ApplyControl_correct_witness :
  ∃ st m, (ApplyControl "r" owner (play " a " [] 0) test_service).1 = Ok (m, None) ∧
    announces owner (now_at 0) st m ∧ Message.Queue m = ["a"] ∧
    room_states (ApplyControl "r" owner (play " a " [] 0) test_service).2 = {["r" := st]}.
Proof.
  pose proof (ApplyControl_correct "r" owner (play " a " [] 0) test_service live_ctx_not_found
    (mem_states_wf _)) as H.
  assert (match (ApplyControl "r" owner (play " a " [] 0) test_service).1 with
          | Ok (m, None) => Message.Queue m = ["a"] | _ => False end) as Hm
    by (vm_compute; reflexivity).
  destruct (ApplyControl "r" owner (play " a " [] 0) test_service) as [r s'].
  destruct H as [_ H]. destruct (H (or_intror eq_refl)) as [_ Hok].
  destruct Hok as (st & m & err & Hr & _ & Ha & Hs & _).
  { intros (p & Hp & _). by change (@None RoomState.t = Some p) in Hp. }
  simpl in Hm. rewrite Hr in Hm. destruct err as [|]; [destruct Hm|].
  exists st, m. split; [exact Hr|]. split; [exact Ha|]. split; [exact Hm|]. exact Hs.
Defined.

Lemma no_close_in_session u : OpClose "r" u ∉ session.
Proof. intros Hin. unfold session in Hin. set_unfold. naive_solver. Qed.

Lemma controls_linearize_witness :
  (Message.ControlVersion <$> accepted_in "r" (run_ops session test_service).1) = [1; 2] ∧
  (Message.VideoID <$> accepted_in "r" (run_ops session test_service).1) = ["a"; "b"] ∧
  let '(ms, s') := run_ops session test_service in
  synced "r" s' = accepted_in "r" ms ∧ last_stored "r" test_service (accepted_in "r" ms) s'.
Proof.
  split; [vm_compute; reflexivity|]. split; [vm_compute; reflexivity|].
  pose proof (controls_linearize "r" session test_service live_ctx_not_found (mem_states_wf _)
    no_close_in_session) as H.
  destruct (run_ops session test_service) as [ms s'].
  destruct H as (_ & _ & Hs & Hl); [vm_compute; discriminate..|]. split; [exact Hs|exact Hl].
Defined.

Lemma stale_control_refused_witness :
  ∃ m, m ∈ accepted_in "r" (run_ops session test_service).1 ∧
  Message.ControlVersion m = 2 ∧
  ∃ e, (ApplyControl "r" owner (play "a" [] 1) (run_ops session test_service).2).1 = Err e.
Proof.
  assert (Message.ControlVersion <$> accepted_in "r" (run_ops session test_service).1 = [1; 2])
    as Hvs by (vm_compute; reflexivity).
  destruct (accepted_in "r" (run_ops session test_service).1) as [|m1 [|m2 l]] eqn:E;
    [discriminate..|].
  injection Hvs as _ Hv _. exists m2. split; [right; left|]. split; [exact Hv|].
  apply (stale_control_refused "r" session test_service m2 owner (play "a" [] 1));
    [exact live_ctx_not_found|apply mem_states_wf|exact no_close_in_session
    |vm_compute; discriminate|vm_compute; discriminate| |].
  - rewrite E. right. left.
  - rewrite Hv. split; reflexivity.
Defined.

Lemma concurrent_controls_lose_update_witness :
  ∃ t1 p1 s1 t2 p2 s2 a1 e1 s3 a2 e2 s4,
    control_read "r" test_service = (Ok (t1, p1), s1) ∧
    control_read "r" s1 = (Ok (t2, p2), s2) ∧
    control_write "r" owner (play "a" [] 0) t1 p1 s2 = (Ok (a1, e1), s3) ∧
    control_write "r" owner (play "b" [] 0) t2 p2 s3 = (Ok (a2, e2), s4) ∧
    Message.ControlVersion a1 = Message.ControlVersion a2 ∧
    ∃ st, room_states s4 !! "r" = Some st ∧ describes a2 st.
Proof.
  apply (concurrent_controls_lose_update "r" owner owner (play "a" [] 0) (play "b" [] 0)
    test_service (mem_states_wf _)); reflexivity.
Defined.

(** The service after the owner started "b" of the queue a, b. *)
Definition at_b : Service := (ApplyControl "r" owner (play "b" ["a"; "b"] 0) test_service).2.

Definition stored_b : RoomState.t :=
  RoomState.mk "r" "b" ["a"; "b"] [] PlaybackActionPlay f_zero PlaybackModeSequential f_zero 1
    "u1" (now_at 0) zero_time.

Lemma next_follows_queue_witness :
  ∃ m err s', ApplyControl "r" owner next at_b = (Ok (m, err), s') ∧
    Message.Queue m = ["a"; "b"] ∧ Message.VideoID m = "" ∧
    Message.Action m = PlaybackActionNext.
Proof.
  assert (room_states at_b !! "r" = Some stored_b) as Hp by (vm_compute; reflexivity).
  assert (match (ApplyControl "r" owner next at_b).1 with Ok _ => true | _ => false end = true)
    as Hok by (vm_compute; reflexivity).
  destruct (ApplyControl "r" owner next at_b) as [res s'] eqn:E. simpl in Hok.
  destruct res as [[m err]|e|h]; [|discriminate..].
  exists m, err, s'. split; [reflexivity|].
  pose proof (next_follows_queue "r" owner next at_b stored_b 1 m err s' live_ctx_not_found (mem_states_wf _) Hp)
    as (H1 & H2 & _ & H3); try reflexivity; [|exact E|].
  - repeat constructor; set_solver.
  - split_and!; assumption.
Defined.

Definition with_guest : Service := (Join "r" guest test_service).2.

Lemma snapshot_after_control_witness :
  ∃ m err s1 snap, ApplyControl "r" owner next with_guest = (Ok (m, err), s1) ∧
    (Snapshot "r" s1).1 = Ok snap ∧ Snapshot.ViewerCount snap = 1.
Proof.
  assert (match (ApplyControl "r" owner next with_guest).1 with Ok _ => true | _ => false end
    = true) as Hok by (vm_compute; reflexivity).
  assert (presence (ApplyControl "r" owner next with_guest).2 =
    Some (add_member "r" "u2" "bob" MemPresence.New)) as Hp by (vm_compute; reflexivity).
  destruct (ApplyControl "r" owner next with_guest) as [res s1] eqn:E. simpl in Hok, Hp.
  destruct res as [[m err]|e|h]; [|discriminate..].
  destruct (snapshot_after_control "r" owner next with_guest m err s1)
    as (snap & st & out & H & _ & _ & _ & _ & _ & _ & Hn).
  - exact live_ctx_not_found.
  - apply mem_states_wf.
  - intros p. rewrite Hp. intros [= <-]. apply (wf_Join "r" "u2" "bob" MemPresence.New), wf_New.
  - exact E.
  - reflexivity.
  - exists m, err, s1, snap. split; [reflexivity|]. split; [exact H|].
    rewrite Hn, Hp. vm_compute. reflexivity.
Defined.
