(* ===== verification/Redis.v ===== *)
(** * Redis

    Redis is a third-party service reached through a third-party client.  The
    class [RedisServer] is its protocol: a command, at the server's clock, gives
    a reply.  [RedisLaws] states what Redis documents of the commands the source
    uses, on the keys that have not expired: [spec] for the replies and the new
    keyspace.  [Keyspace] is one concrete server, for examples.  The rest of the
    file is the client side: how the source reads the replies, pipelines and the
    Lua script being several commands in one atomic step. *)

From S2P Require Import Prelude GoStrings GoNum GoParse Interfaces MemCaches.
From stdpp Require Import sorting.
#[local] Open Scope Z_scope.

(** ** Values and commands *)

(** A stream: the last id it gave, and its entries, the newest first.  An id is a
    time in milliseconds and a number; "ms-n" as text. *)
Abbreviation stream_id := (Z * Z)%type.
Record stream := mk_stream {
  last_id : stream_id;
  stream_entries : list (stream_id * gmap string string);
}.
#[export] Instance stream_eq_dec : EqDecision stream.
Proof. solve_decision. Defined.

(** [VZset]: the source only uses scores that are whole seconds. *)
Inductive rvalue : Type :=
  | VStr (s : string)
  | VHash (m : gmap string string)
  | VSet (x : gset string)
  | VZset (m : gmap string Z)
  | VStream (x : stream).
#[export] Instance rvalue_eq_dec : EqDecision rvalue.
Proof. solve_decision. Defined.

(** A key's value and when it expires. *)
Abbreviation entry := (rvalue * option time)%type.
Abbreviation keyspace := (gmap string entry).

(** The keys a client can still see at [now]. *)
Definition alive (now : time) (e : entry) : bool :=
  match e.2 with Some t => now <? t | None => true end.
Definition live (now : time) (v : keyspace) : keyspace :=
  filter (λ kv, alive now kv.2 = true) v.

(** Lifetimes are in nanoseconds here, whatever unit the command has. *)
Inductive rcmd : Type :=
  | TTL (k : string)
  | GET (k : string)
  | SET (k v : string) (ttl : option Z)
  | SETNX (k v : string) (ttl : option Z)
  | EXISTS (k : string)
  | DEL (k : string)
  | INCRBY (k : string) (d : Z)
  | EXPIRE (k : string) (ttl : Z)
  | HSET (k : string) (fields : list (string * string))
  | HGETALL (k : string)
  | HDEL (k f : string)
  | HLEN (k : string)
  | SADD (k x : string)
  | SREM (k x : string)
  | SMEMBERS (k : string)
  | SISMEMBER (k x : string)
  | ZADD (k : string) (score : Z) (x : string)
  | ZREM (k x : string)
  | ZCARD (k : string)
  | ZRANGE (k : string) (start stop : Z)
  | XADD (k : string) (maxlen : option Z) (fields : gmap string string)   (* id "*", MAXLEN ~ *)
  | XREVRANGE (k : string) (before : option string) (count : Z)           (* from "+" or "(id" to "-" *)
  | XRANGE (k first last : string)
  | SCAN (cursor : Z) (prefix : string) (count : Z).                      (* MATCH prefix* *)

Inductive reply : Type :=
  | RInt (n : Z)
  | RBulk (s : string)
  | RNil
  | ROk
  | RList (l : list string)
  | RMap (m : gmap string string)
  | RStream (l : list (string * gmap string string))
  | RScan (next : Z) (l : list string)
  | RErr (msg : string).
#[export] Instance reply_eq_dec : EqDecision reply.
Proof. solve_decision. Defined.

(** ** What the commands do *)

Definition wrongtype : reply := RErr "WRONGTYPE".
Definition deadline (now : time) (ttl : option Z) : option time := (λ d, now + d) <$> ttl.
Definition positive_ttl (ttl : option Z) : bool :=
  match ttl with Some d => 0 <? d | None => true end.

(** An empty hash or set is no key. *)
Definition put_hash (k : string) (m : gmap string string) (e : option time) (L : keyspace) : keyspace :=
  if decide (m = ∅) then delete k L else <[k := (VHash m, e)]> L.
Definition put_set (k : string) (x : gset string) (e : option time) (L : keyspace) : keyspace :=
  if decide (x = ∅) then delete k L else <[k := (VSet x, e)]> L.

Definition put_zset (k : string) (m : gmap string Z) (e : option time) (L : keyspace) : keyspace :=
  if decide (m = ∅) then delete k L else <[k := (VZset m, e)]> L.

(** The order of a sorted set: by score, then by the bytes of the member. *)
Definition zle (a b : string * Z) : Prop :=
  a.2 < b.2 ∨ (a.2 = b.2 ∧ String.leb a.1 b.1 = true).
#[export] Instance zle_dec : RelDecision zle.
Proof. intros a b. unfold zle. apply _. Defined.
Definition zset_list (m : gmap string Z) : list string := (merge_sort zle (map_to_list m)).*1.
(** Positions from the end are negative. *)
Definition zslice (start stop : Z) (l : list string) : list string :=
  let n := Z.of_nat (length l) in
  let at_ i := if i <? 0 then Z.max 0 (n + i) else i in
  take (Z.to_nat (at_ stop + 1 - at_ start)) (drop (Z.to_nat (at_ start)) l).

Definition show_id (i : stream_id) : string := FormatInt i.1 +:+ "-" +:+ FormatInt i.2.
(** Ids in the form the server prints. *)
Definition read_id (s : string) : option stream_id :=
  match cut_byte (Ascii.ascii_of_N 45) (to_bytes s) with
  | Some (a, b) =>
      i ← digits_from 0 a; j ← digits_from 0 b;
      if bool_decide (show_id (i, j) = s) then Some (i, j) else None
  | None => None
  end.
Definition id_lt (i j : stream_id) : bool := (i.1 <? j.1) || ((i.1 =? j.1) && (i.2 <? j.2)).
Definition id_le (i j : stream_id) : bool := negb (id_lt j i).
(** The id of a new entry: the server's time, or the last id plus one. *)
Definition next_id (now : time) (last : stream_id) : stream_id :=
  let ms := now / Millisecond in
  if last.1 <? ms then (ms, 0)
  else if last.2 <? 2 ^ 64 - 1 then (last.1, last.2 + 1) else (last.1 + 1, 0).
Definition shown (l : list (stream_id * gmap string string)) : list (string * gmap string string) :=
  (λ e, (show_id e.1, e.2)) <$> l.
Definition bad_id : reply := RErr "Invalid stream ID specified as stream command argument".

Definition exec (now : time) (cmd : rcmd) (L : keyspace) : reply * keyspace :=
  match cmd with
  | TTL k =>
      (match L !! k with
       | None => RInt (-2)
       | Some (_, None) => RInt (-1)
       | Some (_, Some t) => RInt ((t - now) / Second)
       end, L)
  | GET k =>
      (match L !! k with
       | None => RNil
       | Some (VStr s, _) => RBulk s
       | Some _ => wrongtype
       end, L)
  | SET k v ttl =>
      if positive_ttl ttl then (ROk, <[k := (VStr v, deadline now ttl)]> L)
      else (RErr "invalid expire time", L)
  | SETNX k v ttl =>
      match L !! k with
      | Some _ => (RInt 0, L)
      | None => if positive_ttl ttl then (RInt 1, <[k := (VStr v, deadline now ttl)]> L)
                else (RErr "invalid expire time", L)
      end
  | EXISTS k => (RInt (match L !! k with Some _ => 1 | None => 0 end), L)
  | DEL k => (RInt (match L !! k with Some _ => 1 | None => 0 end), delete k L)
  | INCRBY k d =>
      match L !! k with
      | None => (RInt d, <[k := (VStr (FormatInt d), None)]> L)
      | Some (VStr s, e) =>
          match ParseInt s with
          | Some n =>
              if (min_int64 <=? n + d) && (n + d <=? max_int64)
              then (RInt (n + d), <[k := (VStr (FormatInt (n + d)), e)]> L)
              else (RErr "increment or decrement would overflow", L)
          | None => (RErr "value is not an integer or out of range", L)
          end
      | Some _ => (wrongtype, L)
      end
  | EXPIRE k ttl =>
      match L !! k with
      | None => (RInt 0, L)
      | Some (x, _) => if 0 <? ttl then (RInt 1, <[k := (x, Some (now + ttl))]> L)
                       else (RInt 1, delete k L)
      end
  | HSET k fields =>
      match L !! k with
      | None => (RInt (Z.of_nat (size (list_to_map fields : gmap string string))),
                 put_hash k (list_to_map (rev fields)) None L)
      | Some (VHash m, e) =>
          let m' := foldl (λ m f, <[f.1 := f.2]> m) m fields in
          (RInt (Z.of_nat (size m') - Z.of_nat (size m)), put_hash k m' e L)
      | Some _ => (wrongtype, L)
      end
  | HGETALL k =>
      (match L !! k with
       | None => RMap ∅
       | Some (VHash m, _) => RMap m
       | Some _ => wrongtype
       end, L)
  | HDEL k f =>
      match L !! k with
      | None => (RInt 0, L)
      | Some (VHash m, e) =>
          (RInt (match m !! f with Some _ => 1 | None => 0 end), put_hash k (delete f m) e L)
      | Some _ => (wrongtype, L)
      end
  | HLEN k =>
      (match L !! k with
       | None => RInt 0
       | Some (VHash m, _) => RInt (Z.of_nat (size m))
       | Some _ => wrongtype
       end, L)
  | SADD k x =>
      match L !! k with
      | None => (RInt 1, put_set k {[x]} None L)
      | Some (VSet xs, e) =>
          (RInt (if decide (x ∈ xs) then 0 else 1), put_set k ({[x]} ∪ xs) e L)
      | Some _ => (wrongtype, L)
      end
  | SREM k x =>
      match L !! k with
      | None => (RInt 0, L)
      | Some (VSet xs, e) =>
          (RInt (if decide (x ∈ xs) then 1 else 0), put_set k (xs ∖ {[x]}) e L)
      | Some _ => (wrongtype, L)
      end
  | SMEMBERS k =>
      (match L !! k with
       | None => RList []
       | Some (VSet xs, _) => RList (elements xs)
       | Some _ => wrongtype
       end, L)
  | SISMEMBER k x =>
      (match L !! k with
       | None => RInt 0
       | Some (VSet xs, _) => RInt (if decide (x ∈ xs) then 1 else 0)
       | Some _ => wrongtype
       end, L)
  | ZADD k score x =>
      match L !! k with
      | None => (RInt 1, put_zset k {[x := score]} None L)
      | Some (VZset m, e) =>
          (RInt (match m !! x with Some _ => 0 | None => 1 end), put_zset k (<[x := score]> m) e L)
      | Some _ => (wrongtype, L)
      end
  | ZREM k x =>
      match L !! k with
      | None => (RInt 0, L)
      | Some (VZset m, e) =>
          (RInt (match m !! x with Some _ => 1 | None => 0 end), put_zset k (delete x m) e L)
      | Some _ => (wrongtype, L)
      end
  | ZCARD k =>
      (match L !! k with
       | None => RInt 0
       | Some (VZset m, _) => RInt (Z.of_nat (size m))
       | Some _ => wrongtype
       end, L)
  | ZRANGE k start stop =>
      (match L !! k with
       | None => RList []
       | Some (VZset m, _) => RList (zslice start stop (zset_list m))
       | Some _ => wrongtype
       end, L)
  | XADD k maxlen fields =>
      match L !! k with
      | None =>
          let i := next_id now (0, 0) in
          (RBulk (show_id i), <[k := (VStream (mk_stream i [(i, fields)]), None)]> L)
      | Some (VStream x, e) =>
          let i := next_id now (last_id x) in
          (RBulk (show_id i), <[k := (VStream (mk_stream i ((i, fields) :: stream_entries x)), e)]> L)
      | Some _ => (wrongtype, L)
      end
  | XREVRANGE k before count =>
      (match before ≫= read_id, before with
       | None, Some _ => bad_id
       | b, _ =>
           match L !! k with
           | None => RStream []
           | Some (VStream x, _) =>
               RStream (shown (take (Z.to_nat count) (filter (λ e,
                 match b with Some i => id_lt e.1 i | None => true end = true) (stream_entries x))))
           | Some _ => wrongtype
           end
       end, L)
  | XRANGE k first last =>
      (match read_id first, read_id last with
       | Some a, Some b =>
           match L !! k with
           | None => RStream []
           | Some (VStream x, _) =>
               RStream (shown (rev (filter (λ e, id_le a e.1 && id_le e.1 b = true) (stream_entries x))))
           | Some _ => wrongtype
           end
       | _, _ => bad_id
       end, L)
  | SCAN _ prefix _ =>
      (RScan 0 (filter (λ k, HasPrefix k prefix = true) (map_to_list L).*1), L)
  end.

(** What is left open: the order of the members of a set, how the remaining
    lifetime is rounded to seconds, ids in other forms than the server's own, and
    which of the matching keys one step of a scan names. *)
Definition agrees (cmd : rcmd) (r0 r : reply) : Prop :=
  match cmd, r0, r with
  | TTL _, RInt n0, RInt n => n = n0 ∨ (0 ≤ n0 ∧ n = n0 + 1)
  | XREVRANGE _ (Some i) n, _, _ =>
      r0 = r ∨ (read_id i = None ∧
                match r with RStream l => Z.of_nat (length l) ≤ Z.max 0 n | _ => True end)
  | XRANGE _ i j, _, _ => read_id i = None ∨ read_id j = None ∨ r0 = r
  | SCAN _ _ _, RScan _ l0, RScan _ l => l ⊆ l0
  | _, RList l0, RList l => match cmd with ZRANGE _ _ _ => l0 = l | _ => l0 ≡ₚ l end
  | _, _, _ => r0 = r
  end.

(** The keys after a command; an approximate MAXLEN leaves at least that many of
    the newest entries. *)
Definition trim_stream (k : string) (n : nat) (L : keyspace) : keyspace :=
  match L !! k with
  | Some (VStream x, e) =>
      <[k := (VStream (mk_stream (last_id x) (take n (stream_entries x))), e)]> L
  | _ => L
  end.
Definition settles (cmd : rcmd) (L L' : keyspace) : Prop :=
  match cmd with
  | XADD k (Some m) _ => ∃ n, m ≤ Z.of_nat n ∧ L' = trim_stream k n L
  | _ => L' = L
  end.

(** ** The server *)

(** Its clock is part of its state: any time may pass before it executes a
    command. *)
Class RedisServer (R : Type) := {
  command : rcmd → R → reply * R;
}.
Class RedisLaws (R : Type) `{RedisServer R} := {
  clock : R → time;
  keys : R → keyspace;
  command_law : ∀ cmd s, let '(r, s') := command cmd s in
    clock s ≤ clock s' ∧
    let '(r0, L) := exec (clock s') cmd (live (clock s') (keys s)) in
    agrees cmd r0 r ∧ settles cmd L (live (clock s') (keys s'));
}.

(** ** The client *)

Section client.
Context `{!RedisServer R}.

(** One command; a failing connection changes nothing here. *)
Definition redis {A} (c : ctx) (cmd : rcmd) (decode : reply → result A) : SM R A :=
  guard_ctx c (λ s, let '(r, s') := command cmd s in (decode r, s')).

Definition reply_error {A} (r : reply) : result A :=
  match r with
  | RErr m => Err (ErrNew m)
  | RNil => Err ErrRedisNil
  | _ => Err (ErrNew "redis: unexpected reply")
  end.
Definition as_unit (r : reply) : result unit :=
  match r with RErr m => Err (ErrNew m) | _ => Ok tt end.
Definition as_int (r : reply) : result Z :=
  match r with RInt n => Ok n | r => reply_error r end.
Definition as_bool (r : reply) : result bool :=
  match r with RInt n => Ok (negb (n =? 0)) | r => reply_error r end.
Definition as_string (r : reply) : result string :=
  match r with RBulk s => Ok s | r => reply_error r end.
Definition as_list (r : reply) : result (list string) :=
  match r with RList l => Ok l | r => reply_error r end.
Definition as_stream (r : reply) : result (list (string * gmap string string)) :=
  match r with RStream l => Ok l | r => reply_error r end.
Definition as_scan (r : reply) : result (list string * Z) :=
  match r with RScan n l => Ok (l, n) | r => reply_error r end.
Definition as_map (r : reply) : result (gmap string string) :=
  match r with RMap m => Ok m | r => reply_error r end.
(** [TTL] in nanoseconds: -2 and -1 are kept as they are. *)
Definition as_duration (r : reply) : result Z :=
  match r with RInt n => Ok (if n <? 0 then n else n * Second) | r => reply_error r end.

(** [SET] and [EXPIRE] of a [time.Duration]: no lifetime when it is not positive
    for [SET], whole seconds, at least one, for [EXPIRE].  The code hands [SET] no
    duration of -1ns, which go-redis would take for [KeepTTL]. *)
Definition set_ttl (d : Z) : option Z :=
  if d <=? 0 then None
  else if Z.rem d Second =? 0 then Some d
  else Some (Z.max Millisecond (Z.quot d Millisecond * Millisecond)).
Definition expire_ttl (d : Z) : Z :=
  if (0 <? d) && (d <? Second) then Second else Z.quot d Second * Second.

(** [TxPipeline]: the commands in one atomic step; the error is the first one. *)
Fixpoint exec_all (cmds : list rcmd) (s : R) : list reply * R :=
  match cmds with
  | [] => ([], s)
  | cmd :: cmds =>
      let '(r, s1) := command cmd s in
      let '(rs, s2) := exec_all cmds s1 in (r :: rs, s2)
  end.
Definition first_error (rs : list reply) : option error :=
  head (omap (λ r, match r with RErr m => Some (ErrNew m) | _ => None end) rs).
Definition pipeline (c : ctx) (cmds : list rcmd) : SM R (list reply) :=
  guard_ctx c (λ s,
    let '(rs, s') := exec_all cmds s in
    (match first_error rs with Some e => Err e | None => Ok rs end, s')).
End client.

(** ** Lemmas on the keys alive *)

Definition all_alive (now : time) (L : keyspace) : Prop :=
  map_Forall (λ _ e, alive now e = true) L.

Lemma live_lookup now v k e : live now v !! k = Some e ↔ v !! k = Some e ∧ alive now e = true.
Proof. unfold live. by rewrite map_lookup_filter_Some. Qed.

Lemma live_all_alive now v : all_alive now (live now v).
Proof. intros k e He. by apply live_lookup in He as [_ He]. Qed.

Lemma live_id now L : all_alive now L → live now L = L.
Proof. intros HL. apply map_filter_id. intros k e. apply HL. Qed.

(** Keys alive later were alive before. *)
Lemma live_live now now' v : now ≤ now' → live now' (live now v) = live now' v.
Proof.
  intros Hle. apply map_eq. intros k. apply option_eq. intros e.
  rewrite !live_lookup. split; [naive_solver|]. intros [Hk Ha]. split_and!; try done.
  unfold alive in *. destruct (e.2) as [t|]; [|done]. apply Z.ltb_lt in Ha. apply Z.ltb_lt. lia.
Qed.

Lemma all_alive_insert now L k x e :
  all_alive now L → alive now (x, e) = true → all_alive now (<[k := (x, e)]> L).
Proof. intros. by apply map_Forall_insert_2. Qed.
Lemma all_alive_delete now L k : all_alive now L → all_alive now (delete k L).
Proof. intros. by apply map_Forall_delete. Qed.
Lemma all_alive_put_hash now L k m e :
  all_alive now L → alive now (VHash m, e) = true → all_alive now (put_hash k m e L).
Proof. unfold put_hash. intros. case_decide; auto using all_alive_insert, all_alive_delete. Qed.
Lemma all_alive_put_set now L k x e :
  all_alive now L → alive now (VSet x, e) = true → all_alive now (put_set k x e L).
Proof. unfold put_set. intros. case_decide; auto using all_alive_insert, all_alive_delete. Qed.
Lemma all_alive_put_zset now L k m e :
  all_alive now L → alive now (VZset m, e) = true → all_alive now (put_zset k m e L).
Proof. unfold put_zset. intros. case_decide; auto using all_alive_insert, all_alive_delete. Qed.
Lemma alive_deadline now x ttl : positive_ttl ttl = true → alive now (x, deadline now ttl) = true.
Proof.
  unfold alive, deadline. destruct ttl as [d|]; [|done]. simpl. intros ?%Z.ltb_lt. apply Z.ltb_lt. lia.
Qed.
Lemma alive_value now x y e : alive now (x, e) = true → alive now (y, e) = true.
Proof. done. Qed.

#[export] Hint Resolve all_alive_insert all_alive_delete all_alive_put_hash all_alive_put_set all_alive_put_zset
  alive_deadline live_all_alive : wt.

(** A command leaves no expired key. *)
Lemma exec_all_alive now cmd L : all_alive now L → all_alive now (exec now cmd L).2.
Proof.
  intros HL.
  assert (∀ k x e y, L !! k = Some (x, e) → alive now (y, e) = true) as Hsame.
  { intros k x e y Hk. exact (HL k (x, e) Hk). }
  destruct cmd; simpl; repeat case_match; simpl; subst; eauto with wt.
  all: try (apply all_alive_put_hash || apply all_alive_put_set || apply all_alive_put_zset || apply all_alive_insert; eauto; fail).
  apply all_alive_insert; [done|]. unfold alive. simpl. apply Z.ltb_lt. lia.
Qed.

(** Keeping every entry is always allowed. *)
Lemma settles_all cmd L : settles cmd L L.
Proof.
  unfold settles. destruct cmd; try done. destruct maxlen as [m|]; [|done].
  unfold trim_stream. destruct (L !! k) as [[[| | | |x] e]|] eqn:E; try (exists (Z.to_nat m); split; [lia|done]).
  exists (Z.to_nat m + length (stream_entries x))%nat. split; [lia|].
  rewrite take_ge by lia. destruct x as [i l]. simpl. by rewrite insert_id.
Qed.

(** ** Sorted sets *)

Lemma string_leb_trans s1 s2 s3 :
  String.leb s1 s2 = true → String.leb s2 s3 = true → String.leb s1 s3 = true.
Proof.
  unfold String.leb. revert s2 s3.
  induction s1 as [|a s1 IH]; intros [|b s2] [|c s3]; simpl; try done. specialize (IH s2 s3).
  unfold Ascii.compare.
  destruct (N.compare_spec (Ascii.N_of_ascii a) (Ascii.N_of_ascii b)) as [Hab|Hab|Hab],
    (N.compare_spec (Ascii.N_of_ascii b) (Ascii.N_of_ascii c)) as [Hbc|Hbc|Hbc],
    (N.compare_spec (Ascii.N_of_ascii a) (Ascii.N_of_ascii c)) as [Hac|Hac|Hac]; try done; lia.
Qed.
#[export] Instance zle_trans : Transitive zle.
Proof.
  intros a b c [?|[? ?]] [?|[? ?]]; unfold zle; [left; lia..|].
  right. split; [congruence|]. by eapply string_leb_trans.
Qed.
#[export] Instance zle_total : Total zle.
Proof.
  intros [a x] [b y]. unfold zle. cbn. destruct (Z.lt_trichotomy x y) as [?|[->|?]]; auto.
  destruct (String.leb_total a b); auto.
Qed.
#[export] Instance zle_antisymm : AntiSymm (=) zle.
Proof.
  intros [a x] [b y] [?|[? Ha]] [?|[? Hb]]; cbn in *; try lia. subst. f_equal. by apply String.leb_antisym.
Qed.

Lemma StronglySorted_filter {A} (R : relation A) (P : A → Prop) `{!∀ x, Decision (P x)} l :
  StronglySorted R l → StronglySorted R (filter P l).
Proof.
  induction 1 as [|a l Hl IH Ha]; [constructor|]. rewrite list.filter_cons. case_decide; [|done].
  constructor; [done|]. apply list.Forall_forall. intros x Hx. apply list_elem_of_filter in Hx as [_ Hx].
  by eapply list.Forall_forall in Ha.
Qed.

(** Taking a member out. *)
Lemma zset_list_delete x m : zset_list (delete x m) = filter (λ y, y ≠ x) (zset_list m).
Proof.
  unfold zset_list.
  assert (merge_sort zle (map_to_list (delete x m)) =
    filter (λ p : string * Z, p.1 ≠ x) (merge_sort zle (map_to_list m))) as ->.
  { apply (StronglySorted_unique zle); [apply StronglySorted_merge_sort; apply _| |].
    - apply StronglySorted_filter, StronglySorted_merge_sort; apply _.
    - rewrite merge_sort_Permutation. apply NoDup_Permutation.
      + apply NoDup_map_to_list.
      + apply list.NoDup_filter. rewrite merge_sort_Permutation. apply NoDup_map_to_list.
      + intros [y n]. rewrite list_elem_of_filter, merge_sort_Permutation, !elem_of_map_to_list.
        rewrite lookup_delete_Some. cbn. naive_solver. }
  induction (merge_sort zle (map_to_list m)) as [|[y n] l IH]; [done|]. cbn [fmap list_fmap fst].
  rewrite !list.filter_cons. cbn [fst]. destruct (decide (y ≠ x)); cbn [fmap list_fmap fst]; by rewrite IH.
Qed.
Lemma zset_list_elem x m : x ∈ zset_list m ↔ is_Some (m !! x).
Proof.
  unfold zset_list. rewrite list_elem_of_fmap. setoid_rewrite merge_sort_Permutation. split.
  - intros ([y n] & -> & Hy). apply elem_of_map_to_list in Hy. by exists n.
  - intros [n Hn]. exists (x, n). split; [done|]. by apply elem_of_map_to_list.
Qed.
Lemma zset_list_NoDup m : NoDup (zset_list m).
Proof. unfold zset_list. rewrite merge_sort_Permutation. apply NoDup_fst_map_to_list. Qed.
Lemma zset_list_length m : length (zset_list m) = size m.
Proof. unfold zset_list. by rewrite length_fmap, merge_sort_Permutation, length_map_to_list. Qed.
(** Putting one in. *)
Lemma zset_list_insert x n m :
  ∃ l1 l2, l1 ++ l2 = filter (λ y, y ≠ x) (zset_list m) ∧ zset_list (<[x := n]> m) = l1 ++ x :: l2.
Proof.
  assert (x ∈ zset_list (<[x := n]> m)) as Hx by (apply zset_list_elem; rewrite lookup_insert_eq; by eexists).
  apply list_elem_of_split in Hx as (l1 & l2 & Hl). exists l1, l2. split; [|done].
  assert (delete x (<[x := n]> m) = delete x m) as Hdel by apply delete_insert_eq.
  rewrite <- zset_list_delete, <- Hdel, zset_list_delete, Hl.
  pose proof (zset_list_NoDup (<[x := n]> m)) as Hnd. rewrite Hl in Hnd.
  rewrite list.filter_app, list.filter_cons, decide_False by tauto.
  apply list.NoDup_app in Hnd as (_ & Hd & Hnd). apply list.NoDup_cons in Hnd as [Hx _].
  assert (∀ l : list string, x ∉ l → filter (λ y, y ≠ x) l = l) as Hall.
  { clear. induction l as [|y l IH]; [done|]. intros [? ?]%not_elem_of_cons.
    rewrite list.filter_cons, decide_True by done. f_equal. by apply IH. }
  rewrite (Hall l2) by done. rewrite Hall; [done|]. intros Hx1. apply (Hd x Hx1). by left.
Qed.

(** ** A concrete server *)

Module Keyspace.
Record t := mk { now : time; data : keyspace }.
(** A command takes a second. *)
#[global] Instance server : RedisServer t := {|
  command cmd s :=
    let '(r, L) := exec (now s + Second) cmd (live (now s + Second) (data s)) in
    (r, mk (now s + Second) L)
|}.
End Keyspace.

#[export] Instance keyspace_laws : RedisLaws Keyspace.t.
Proof.
  refine (Build_RedisLaws _ _ Keyspace.now Keyspace.data _).
  intros cmd s. unfold command, Keyspace.server.
  pose proof (exec_all_alive (Keyspace.now s + Second) cmd _ (live_all_alive _ (Keyspace.data s))).
  destruct (exec _ cmd _) as [r L] eqn:E.
  cbn [Keyspace.now Keyspace.data snd] in *. rewrite E. split; [unfold Second; lia|]. split.
  - destruct cmd; simpl in *; try done; repeat case_match; simplify_eq/=; auto.
  - rewrite live_id by done. apply settles_all.
Defined.

(** ** What a client sees

    The commands of a client change the keys it can see as [exec] says, at a
    clock that only moves on. *)

Section seen.
Context `{!RedisServer R, !RedisLaws R}.

Definition seen (s : R) : keyspace := live (clock s) (keys s).

Lemma command_seen cmd s r s' : command cmd s = (r, s') →
  clock s ≤ clock s' ∧
  agrees cmd (exec (clock s') cmd (live (clock s') (seen s))).1 r ∧
  settles cmd (exec (clock s') cmd (live (clock s') (seen s))).2 (seen s').
Proof.
  intros E. pose proof (command_law cmd s) as H. rewrite E in H.
  destruct H as [Hle H]. unfold seen. rewrite live_live by done.
  by destruct (exec _ _ _) as [r0 L].
Qed.

Lemma redis_seen {A} cmd (dec : reply → result A) s :
  ∃ r s', redis None cmd dec s = (dec r, s') ∧ clock s ≤ clock s' ∧
    agrees cmd (exec (clock s') cmd (live (clock s') (seen s))).1 r ∧
    settles cmd (exec (clock s') cmd (live (clock s') (seen s))).2 (seen s').
Proof.
  destruct (command cmd s) as [r s'] eqn:E. exists r, s'.
  unfold redis, guard_ctx. rewrite E. by apply command_seen in E.
Qed.

Lemma wp_redis {A} cmd (dec : reply → result A) Q s :
  (∀ r s', clock s ≤ clock s' →
    agrees cmd (exec (clock s') cmd (live (clock s') (seen s))).1 r →
    settles cmd (exec (clock s') cmd (live (clock s') (seen s))).2 (seen s') → Q (dec r) s') →
  wp (redis None cmd dec) Q s.
Proof.
  intros HQ. destruct (redis_seen cmd dec s) as (r & s' & E & H1 & H2 & H3).
  unfold wp. rewrite E. by apply HQ.
Qed.

(** Time passes. *)
Definition later (s s' : R) : Prop := clock s ≤ clock s'.
#[export] Instance later_preorder : PreOrder later.
Proof. split; unfold later; [intros s|intros s1 s2 s3]; lia. Qed.

Lemma redis_later {A} c cmd (dec : reply → result A) : keeps later (redis c cmd dec).
Proof.
  intros s. destruct c; [simpl; reflexivity|].
  destruct (redis_seen cmd dec s) as (r & s' & -> & ? & _). done.
Qed.

(** A key with a deadline is there until then. *)
Lemma live_kept (t : time) (L : keyspace) k x (D : time) : L !! k = Some (x, Some D) → t < D → live t L !! k = Some (x, Some D).
Proof. intros. apply live_lookup. split; [done|]. by apply Z.ltb_lt. Qed.
Lemma live_none (t : time) (L : keyspace) k : L !! k = None → live t L !! k = None.
Proof.
  intros Hk. apply eq_None_not_Some. intros [e He]. apply live_lookup in He as [He _]. congruence.
Qed.
Lemma seen_alive s : all_alive (clock s) (seen s).
Proof. apply live_all_alive. Qed.
End seen.
#[global] Arguments seen : simpl never.
#[global] Arguments live : simpl never.
