(* ===== verification/RedisCaches.v ===== *)
(** * The Redis caches

    [internal/cache/redis]: sessions (Module [RedisSessions]), room access sets
    ([RedisAccess]) and the room presence ([RedisPresence]), over any server. *)

From S2P Require Import Prelude GoStrings GoNum GoParse Model Interfaces MemCaches MemPresence Redis.

(** [err == goredis.Nil] gives the zero value instead of an error. *)
Definition nil_as {S A} (zero : A) (m : SM S A) : SM S A := λ s,
  match m s with
  | (Err ErrRedisNil, s') => (Ok zero, s')
  | (r, s') => (r, s')
  end.

Module RedisSessions.
Section sessions.
Context `{!RedisServer R}.

Definition refreshTokenKey (userID : string) : string := "session:refresh:" +:+ userID.
Definition blacklistKey (jti : string) : string := "session:blacklist:" +:+ jti.

Definition SetRefreshToken (c : ctx) (now : time) (userID token : string) (ttl : Z) : SM R unit :=
  redis c (SET (refreshTokenKey userID) token (set_ttl ttl)) as_unit.
Definition GetRefreshToken (c : ctx) (now : time) (userID : string) : SM R string :=
  nil_as "" (redis c (GET (refreshTokenKey userID)) as_string).
Definition DeleteRefreshToken (c : ctx) (userID : string) : SM R unit :=
  redis c (DEL (refreshTokenKey userID)) as_unit.
Definition BlacklistToken (c : ctx) (now : time) (jti : string) (ttl : Z) : SM R unit :=
  redis c (SET (blacklistKey jti) "1" (set_ttl ttl)) as_unit.
Definition IsBlacklisted (c : ctx) (now : time) (jti : string) : SM R bool :=
  exists_ ← redis c (EXISTS (blacklistKey jti)) as_int; mret (0 <? exists_).

#[global] Instance iface : SessionCache R := {
  SetRefreshToken := SetRefreshToken;
  GetRefreshToken := GetRefreshToken;
  DeleteRefreshToken := DeleteRefreshToken;
  BlacklistToken := BlacklistToken;
  IsBlacklisted := IsBlacklisted;
}.
End sessions.

(** Whatever fails and whatever expires, the token given for a user is the last one
    filed. *)
Section tokens.
Context `{!RedisServer R, !RedisLaws R}.

Definition filed_in (L : keyspace) (u tok : string) : Prop :=
  ∃ e, L !! refreshTokenKey u = Some (VStr tok, e).
Lemma filed_live t L u tok : filed_in (live t L) u tok → filed_in L u tok.
Proof. intros [e He]. apply live_lookup in He as [He _]. by exists e. Qed.
#[local] Instance refreshTokenKey_inj : Inj (=) (=) refreshTokenKey.
Proof. intros u u'. apply (inj (String.append _)). Qed.

(** A command that writes no refresh key files nothing. *)
Lemma filed_kept {A} c cmd (dec : Redis.reply → result A) s u tok :
  (∀ t L, (exec t cmd L).2 !! refreshTokenKey u = L !! refreshTokenKey u ∨
          (exec t cmd L).2 !! refreshTokenKey u = None) → (∀ k m f, cmd ≠ XADD k m f) →
  filed_in (seen (redis c cmd dec s).2) u tok → filed_in (seen s) u tok.
Proof.
  intros Hc Hx. destruct c as [e|]; [done|].
  destruct (redis_seen cmd dec s) as (rep & s' & -> & _ & _ & Hset). cbn [snd]. intros [e He].
  assert (seen s' = (exec (clock s') cmd (live (clock s') (seen s))).2) as E.
  { destruct cmd; try done. by destruct (Hx k maxlen fields). }
  rewrite E in He. destruct (Hc (clock s') (live (clock s') (seen s))) as [Hk|Hk]; rewrite Hk in He; [|done].
  eapply filed_live. by exists e.
Qed.

#[global] Instance redis_tokens : SessionTokens R.
Proof.
  refine (Build_SessionTokens R _ (λ s, filed_in (seen s)) _ _ _ _ _).
  - intros c now u tok ttl s. cbn [Interfaces.SetRefreshToken iface]. unfold SetRefreshToken.
    destruct c as [e|]; [cbn; auto|]. destruct (redis_seen (SET (refreshTokenKey u) tok (set_ttl ttl)) as_unit s)
      as (rep & s' & -> & _ & Ha & Hset). cbn [settles exec] in Hset, Ha. intros u' x [e He].
    destruct (positive_ttl (set_ttl ttl)); cbn in Ha, Hset; subst rep; rewrite Hset in He; cbn [as_unit].
    + case_decide as Hu.
      * subst u'. rewrite lookup_insert_eq in He. congruence.
      * rewrite lookup_insert_ne in He by (intros ?%(inj _); congruence). eapply filed_live. by exists e.
    + eapply filed_live. by exists e.
  - intros c now u s. cbn [Interfaces.GetRefreshToken iface]. unfold GetRefreshToken, nil_as.
    pose proof (λ u' x, filed_kept c (GET (refreshTokenKey u)) as_string s u' x ltac:(intros; by left) ltac:(done)) as Hk.
    destruct c as [e|].
    { cbn in *. destruct e; (split; [intros x [=]; by left|auto]). }
    destruct (redis_seen (GET (refreshTokenKey u)) as_string s) as (rep & s' & E & _ & Ha & _).
    rewrite E in Hk |- *. cbn [snd exec fst] in Hk, Ha. destruct (live _ _ !! refreshTokenKey u) as [[v e]|] eqn:El.
    + destruct v as [y| | | |]; cbn in Ha; subst rep; cbn; (split; [|auto]); intros ? [= <-].
      right. eapply filed_live. by exists e.
    + cbn in Ha. subst rep. cbn. split; [|auto]. intros x [= <-]. by left.
  - intros c u s u' x. apply filed_kept; [|done]. intros t L. cbn [exec snd].
    destruct (decide (u = u')) as [->|Hu]; [right; apply lookup_delete_eq|left].
    apply lookup_delete_ne. by intros ?%(inj _).
  - intros c now j ttl s u' x. apply filed_kept; [|done]. intros t L. left. cbn [exec].
    destruct (positive_ttl _); cbn [snd]; [by rewrite lookup_insert_ne by discriminate|done].
  - intros c now j s u' x. cbn [Interfaces.IsBlacklisted iface]. unfold IsBlacklisted, mbind, SM_bind.
    pose proof (filed_kept c (EXISTS (blacklistKey j)) as_int s u' x ltac:(intros; by left) ltac:(done)) as Hk.
    destruct (redis c _ _ s) as [[n|e|h] s']; exact Hk.
Defined.
End tokens.
End RedisSessions.

Module RedisAccess.
Section access.
Context `{!RedisServer R}.

Definition roomAccessKeyTTL : Z := 30 * 24 * Hour.
Definition roomAccessKey (roomID : string) : string := "room:access:" +:+ roomID.

Definition GrantRoomAccess (c : ctx) (roomID userID : string) : SM R unit :=
  if bool_decide (roomID = "") || bool_decide (userID = "") then mret tt
  else
    _ ← pipeline c [SADD (roomAccessKey roomID) userID;
                    EXPIRE (roomAccessKey roomID) (expire_ttl roomAccessKeyTTL)];
    mret tt.
Definition HasRoomAccess (c : ctx) (roomID userID : string) : SM R bool :=
  if bool_decide (roomID = "") || bool_decide (userID = "") then mret false
  else redis c (SISMEMBER (roomAccessKey roomID) userID) as_bool.
Definition DeleteRoomAccess (c : ctx) (roomID : string) : SM R unit :=
  if bool_decide (roomID = "") then mret tt
  else redis c (DEL (roomAccessKey roomID)) as_unit.

#[global] Instance iface : RoomAccessCache R := {
  GrantRoomAccess := GrantRoomAccess;
  HasRoomAccess := HasRoomAccess;
  DeleteRoomAccess := DeleteRoomAccess;
}.
End access.

(** Whatever fails and whatever expires, only granting grants. *)
Section grants.
Context `{!RedisServer R, !RedisLaws R}.

Definition granted_in (L : keyspace) (r u : string) : Prop :=
  match L !! roomAccessKey r with Some (VSet xs, _) => u ∈ xs | _ => False end.

Lemma granted_command cmd (P : string → string → Prop) s r u :
  (∀ k m f, cmd ≠ XADD k m f) →
  (∀ t L r u, granted_in (exec t cmd L).2 r u → granted_in L r u ∨ P r u) →
  granted_in (seen (command cmd s).2) r u → granted_in (seen s) r u ∨ P r u.
Proof.
  intros Hx Hc. destruct (command cmd s) as [rep s'] eqn:E. apply command_seen in E as (_ & _ & Hs).
  cbn [snd]. intros Hg. assert (seen s' = (exec (clock s') cmd (live (clock s') (seen s))).2) as E.
  { destruct cmd; try done. by destruct (Hx k maxlen fields). }
  rewrite E in Hg. apply Hc in Hg as [Hg|Hg]; [left|by right]. unfold granted_in in *.
  destruct (live _ (seen s) !! _) as [[v e]|] eqn:El; [|done]. apply live_lookup in El as [El _].
  by rewrite El.
Qed.
Lemma granted_sadd r0 u0 t L r u :
  granted_in (exec t (SADD (roomAccessKey r0) u0) L).2 r u → granted_in L r u ∨ (r = r0 ∧ u = u0).
Proof.
  unfold granted_in. cbn [exec]. destruct (decide (r = r0)) as [->|Hr].
  - destruct (L !! roomAccessKey r0) as [[[] e]|] eqn:E; cbn [snd]; rewrite ?E; try (by auto);
      unfold put_set; case_decide; rewrite ?lookup_delete_eq, ?lookup_insert_eq; try done; set_solver.
  - assert (roomAccessKey r0 ≠ roomAccessKey r) by (intros ?%(inj (String.append _)); congruence).
    destruct (L !! roomAccessKey r0) as [[[] e]|]; cbn [snd]; try (by auto);
      unfold put_set; case_decide; rewrite ?lookup_delete_ne, ?lookup_insert_ne by done; by left.
Qed.
Lemma granted_expire k ttl t L r u : granted_in (exec t (EXPIRE k ttl) L).2 r u → granted_in L r u.
Proof.
  unfold granted_in. cbn [exec]. destruct (decide (k = roomAccessKey r)) as [->|Hk].
  - destruct (L !! roomAccessKey r) as [[v e]|] eqn:E; [|cbn [snd]; by rewrite E].
    destruct (0 <? ttl); cbn [snd]; [by rewrite lookup_insert_eq|by rewrite lookup_delete_eq].
  - destruct (L !! k) as [[v e]|]; [|done]. destruct (0 <? ttl); cbn [snd];
      [by rewrite lookup_insert_ne|by rewrite lookup_delete_ne].
Qed.
Lemma granted_del k t L r u : granted_in (exec t (DEL k) L).2 r u → granted_in L r u.
Proof.
  unfold granted_in. cbn [exec snd]. destruct (decide (k = roomAccessKey r)) as [->|Hk];
    [by rewrite lookup_delete_eq|by rewrite lookup_delete_ne].
Qed.

#[global] Instance redis_grants : AccessGrants R.
Proof.
  refine (Build_AccessGrants R _ (λ s, granted_in (seen s)) _ _ _).
  - intros c r u s r' u'. cbn [Interfaces.GrantRoomAccess iface]. unfold GrantRoomAccess.
    destruct (_ || _); [by left|]. destruct c as [e|]; [by left|].
    unfold mbind, SM_bind, pipeline, guard_ctx. cbn [exec_all].
    pose proof (granted_command (SADD (roomAccessKey r) u) (λ r' u', r' = r ∧ u' = u) s r' u'
      ltac:(done) (granted_sadd r u)) as H1.
    destruct (command (SADD _ _) s) as [rep1 s1]. cbn [snd] in H1.
    pose proof (granted_command (EXPIRE (roomAccessKey r) (expire_ttl roomAccessKeyTTL)) (λ _ _, False) s1 r' u'
      ltac:(done) ltac:(intros; left; by eapply granted_expire)) as H2.
    destruct (command (EXPIRE _ _) s1) as [rep2 s2]. cbn [snd] in H2.
    destruct (first_error _); cbn; intros Hg; apply H1; by destruct (H2 Hg).
  - intros c r u s. cbn [Interfaces.HasRoomAccess iface]. unfold HasRoomAccess.
    destruct (_ || _); [by split|]. destruct c as [e|]; [by split|]. unfold redis, guard_ctx. split.
    + destruct (command _ s) as [rep s'] eqn:E. apply command_seen in E as (_ & Ha & _). cbn [fst exec] in *.
      unfold granted_in. destruct (live _ (seen s) !! _) as [[v e]|] eqn:El.
      2: { cbn in Ha. by subst rep. }
      apply live_lookup in El as [-> _]. destruct v; cbn in Ha; subst rep; try done. case_decide; [done|]. by intros.
    + intros r' u'. pose proof (granted_command (SISMEMBER (roomAccessKey r) u) (λ _ _, False) s r' u'
        ltac:(done) ltac:(intros; by left)) as H.
      destruct (command _ s). cbn in *. intros Hg. by destruct (H Hg).
  - intros c r s r' u'. cbn [Interfaces.DeleteRoomAccess iface]. unfold DeleteRoomAccess.
    destruct (bool_decide _); [done|]. destruct c as [e|]; [done|]. unfold redis, guard_ctx.
    pose proof (granted_command (DEL (roomAccessKey r)) (λ _ _, False) s r' u'
      ltac:(done) ltac:(intros; left; by eapply granted_del)) as H.
    destruct (command _ s). cbn in *. intros Hg. by destruct (H Hg).
Defined.
End grants.
End RedisAccess.

Module RedisPresence.
Section presence.
Context `{!RedisServer R}.

Definition roomMemberTTL : Z := 7 * 24 * Hour.
Definition globalKeyTTL : Z := 30 * 24 * Hour.
Definition membersKey (roomID : string) : string := "room:members:" +:+ roomID.
Definition userRoomKey (userID : string) : string := "user:room:" +:+ userID.
Definition keyActiveRooms : string := "room:active".
Definition keyPendingEmpty : string := "room:pending_empty".
Definition keyLastCleanup : string := "global:last_room_cleanup_at".
Definition keyCleanupLock : string := "global:room_cleanup_lock".

(** [redis.call] inside the script: a reply, or the script fails with the error. *)
Definition call (cmd : rcmd) : SM R reply := λ s,
  match command cmd s with
  | (RErr m, s') => (Err (ErrNew m), s')
  | (r, s') => (Ok r, s')
  end.

(** [joinScriptMigrate]: the server runs the whole script as one step. *)
Definition joinScriptMigrate (userRoomKey newMembersKey activeKey pendingKey
    newRoom userId username : string) (memberTTL globalTTL : Z) : SM R string :=
  oldRoom ← call (GET userRoomKey);
  leftRoom ← match oldRoom with
    | RBulk oldRoom =>
        if bool_decide (oldRoom ≠ newRoom) then
          let oldMembersKey := "room:members:" +:+ oldRoom in
          _ ← call (HDEL oldMembersKey userId);
          n ← call (HLEN oldMembersKey);
          _ ← (if bool_decide (n = RInt 0) then
                 _ ← call (SREM activeKey oldRoom);
                 _ ← call (DEL oldMembersKey);
                 _ ← call (SADD pendingKey oldRoom);
                 _ ← call (EXPIRE pendingKey globalTTL);
                 mret tt
               else mret tt);
          mret oldRoom
        else mret ""
    | _ => mret ""
    end;
  _ ← call (HSET newMembersKey [(userId, username)]);
  _ ← call (EXPIRE newMembersKey memberTTL);
  _ ← call (SET userRoomKey newRoom (Some memberTTL));
  _ ← call (SADD activeKey newRoom);
  _ ← call (EXPIRE activeKey memberTTL);
  _ ← call (SREM pendingKey newRoom);
  mret leftRoom.

Definition JoinRoom (c : ctx) (roomID userID username : string) : SM R string :=
  guard_ctx c (joinScriptMigrate (userRoomKey userID) (membersKey roomID) keyActiveRooms
    keyPendingEmpty roomID userID username roomMemberTTL globalKeyTTL).

Definition removeMember (c : ctx) (roomID userID : string) : SM R unit :=
  _ ← pipeline c [HDEL (membersKey roomID) userID; DEL (userRoomKey userID)];
  n ← redis c (HLEN (membersKey roomID)) as_int;
  if n =? 0 then
    _ ← ignore (redis c (SREM keyActiveRooms roomID) as_unit);
    _ ← ignore (redis c (DEL (membersKey roomID)) as_unit);
    _ ← ignore (redis c (SADD keyPendingEmpty roomID) as_unit);
    _ ← ignore (redis c (EXPIRE keyPendingEmpty (expire_ttl globalKeyTTL)) as_unit);
    mret tt
  else mret tt.
Definition LeaveRoom (c : ctx) (roomID userID : string) : SM R unit := removeMember c roomID userID.
Definition RemoveMember (c : ctx) (roomID userID : string) : SM R unit := removeMember c roomID userID.

Definition PendingEmptyRooms (c : ctx) : SM R (list string) :=
  redis c (SMEMBERS keyPendingEmpty) as_list.
Definition ClearPendingEmpty (c : ctx) (roomID : string) : SM R unit :=
  redis c (SREM keyPendingEmpty roomID) as_unit.

Definition ListMembers `{!MapRange} (c : ctx) (roomID : string) : SM R (list RoomMember.t) :=
  m ← redis c (HGETALL (membersKey roomID)) as_map;
  mret ((λ uid, RoomMember.mk uid (default "" (m !! uid))) <$> range_order (elements (dom m))).
Definition MemberCount (c : ctx) (roomID : string) : SM R Z :=
  redis c (HLEN (membersKey roomID)) as_int.
Definition GetUserRoom (c : ctx) (userID : string) : SM R string :=
  nil_as "" (redis c (GET (userRoomKey userID)) as_string).

Definition DeleteRoomPresence `{!MapRange} (c : ctx) (roomID : string) : SM R unit :=
  members ← redis c (HGETALL (membersKey roomID)) as_map;
  _ ← pipeline c (((λ uid, DEL (userRoomKey uid)) <$> range_order (elements (dom members))) ++
        [DEL (membersKey roomID); SREM keyActiveRooms roomID; SREM keyPendingEmpty roomID]);
  mret tt.

(** [time.UnixMilli] and its inverse. *)
Definition UnixMilli (t : time) : Z := t / Millisecond.
Definition of_UnixMilli (ms : Z) : time := ms * Millisecond.

Definition GetLastRoomCleanupAt (c : ctx) : SM R time :=
  r ← attempt (redis c (GET keyLastCleanup) as_string);
  match r with
  | inr ErrRedisNil => mret zero_time
  | inr e => throw e
  | inl s => match ParseInt s with
             | Some ms => mret (of_UnixMilli ms)
             | None => throw (ErrNew "strconv.ParseInt")
             end
  end.
Definition SetLastRoomCleanupAt (c : ctx) (t : time) : SM R unit :=
  redis c (SET keyLastCleanup (FormatInt (UnixMilli t)) (set_ttl globalKeyTTL)) as_unit.

Definition TryAcquireCleanupLock (c : ctx) (now : time) (ttl : Z) : SM R bool :=
  redis c (SETNX keyCleanupLock "1" (set_ttl ttl)) as_bool.
Definition ReleaseCleanupLock (c : ctx) : SM R unit :=
  redis c (DEL keyCleanupLock) as_unit.
Definition ListRoomsWithMembers (c : ctx) : SM R (list string) :=
  redis c (SMEMBERS keyActiveRooms) as_list.

#[global] Instance iface `{!MapRange} : RoomPresence R := {
  JoinRoom := JoinRoom;
  LeaveRoom := LeaveRoom;
  RemoveMember := RemoveMember;
  ListMembers := ListMembers;
  MemberCount := MemberCount;
  GetUserRoom := GetUserRoom;
  DeleteRoomPresence := DeleteRoomPresence;
  PendingEmptyRooms := PendingEmptyRooms;
  ClearPendingEmpty := ClearPendingEmpty;
  GetLastRoomCleanupAt := GetLastRoomCleanupAt;
  SetLastRoomCleanupAt := SetLastRoomCleanupAt;
  TryAcquireCleanupLock := TryAcquireCleanupLock;
  ReleaseCleanupLock := ReleaseCleanupLock;
  ListRoomsWithMembers := ListRoomsWithMembers;
}.
End presence.
End RedisPresence.
