(* ===== verification/RedisStates.v ===== *)
(** * Room states in Redis

    [internal/cache/redis/room_state_cache.go]: the JSON of a state under one key
    per room, for seven days. *)

From S2P Require Import Prelude GoStrings GoNum GoFloat GoTime Model StateWire Interfaces MemCaches Redis RedisCaches.
From stdpp Require Import relations.
#[local] Open Scope Z_scope.

Definition roomStateTTL : Z := 7 * 24 * Hour.
Definition roomStateKey (roomID : string) : string := "room:state:" +:+ roomID.

(** The errors of [encoding/json]. *)
Definition ErrMarshal : error := ErrNew "json: unsupported value".
Definition ErrUnmarshal : error := ErrNew "json: cannot unmarshal".

Module RedisStates.
Section states.
Context `{!RedisServer R}.

Definition SetRoomState (c : ctx) (now : time) (roomID : string) (state : RoomState.t) : SM R unit :=
  let copyState := state in
  let copyState := if IsZero (RoomState.UpdatedAt copyState)
                   then RoomState.set_UpdatedAt now copyState else copyState in
  let copyState := RoomState.set_RoomID roomID copyState in
  match marshal_state copyState with
  | None => λ s, (Err ErrMarshal, s)
  | Some payload => redis c (SET (roomStateKey roomID) payload (set_ttl roomStateTTL)) as_unit
  end.

Definition GetRoomState (c : ctx) (roomID : string) : SM R RoomState.t := λ s,
  match redis c (GET (roomStateKey roomID)) as_string s with
  | (Err ErrRedisNil, s') => (Err ErrNotFound, s')
  | (Ok payload, s') =>
      match unmarshal_state payload with
      | Some state => (Ok state, s')
      | None => (Err ErrUnmarshal, s')
      end
  | (Err e, s') => (Err e, s')
  | (Halt h, s') => (Halt h, s')
  end.

Definition DeleteRoomState (c : ctx) (roomID : string) : SM R unit :=
  redis c (DEL (roomStateKey roomID)) as_unit.

#[global] Instance iface : RoomStateCache R := {
  SetRoomState := SetRoomState;
  GetRoomState := GetRoomState;
  DeleteRoomState := DeleteRoomState;
}.
End states.
End RedisStates.

(** ** What is kept *)

Section kept.
Context `{!RedisServer R, !RedisLaws R}.

(** Commands of any client that do not touch the key. *)
Definition leaves (k : string) (cmd : rcmd) : Prop :=
  (∀ t L, (exec t cmd L).2 !! k = L !! k) ∧ ∀ m f, cmd ≠ XADD k m f.
Definition untouched (k : string) : relation R :=
  rtc (λ s s', ∃ cmd, leaves k cmd ∧ s' = (command cmd s).2).

Lemma leaves_seen k cmd s : leaves k cmd →
  later s (command cmd s).2 ∧
  seen (command cmd s).2 !! k = live (clock (command cmd s).2) (seen s) !! k.
Proof.
  intros [Hk Hx]. destruct (command cmd s) as [r s'] eqn:E. apply command_seen in E as (Hle & _ & Hs).
  cbn [snd]. split; [done|]. rewrite <- (Hk (clock s') (live (clock s') (seen s))). set (L := (exec _ _ _).2) in *. clearbody L.
  destruct cmd; cbn [settles] in Hs; try by rewrite Hs. destruct maxlen as [m|]; [|by rewrite Hs].
  destruct Hs as (n & _ & ->). unfold trim_stream. destruct (L !! k0) as [[[| | | |x] e]|]; try done.
  apply lookup_insert_ne. intros ->. by destruct (Hx (Some m) fields).
Qed.

Lemma live_live_lookup (t t' : time) (L L' : keyspace) k : t ≤ t' → L !! k = live t L' !! k →
  live t' L !! k = live t' L' !! k.
Proof.
  intros Ht Hk. rewrite <- (live_live t t' L' Ht). apply option_eq. intros e. by rewrite (live_lookup t' L), (live_lookup t' (live t L')), Hk.
Qed.

Lemma untouched_seen k s s' : untouched k s s' →
  later s s' ∧ seen s' !! k = live (clock s') (seen s) !! k.
Proof.
  induction 1 as [s|s s1 s2 (cmd & Hc & ->) _ [Hl IH]].
  - split; [done|]. by rewrite (live_id _ _ (seen_alive s)).
  - destruct (leaves_seen k cmd s Hc) as [Hl1 Hs1]. split; [by etrans|]. rewrite IH.
    by apply (live_live_lookup (clock (command cmd s).2)).
Qed.

Lemma stamp_typed now r st : state_typed st → state_typed (stamp_state now r st).
Proof. unfold state_typed, stamp_state. by destruct (IsZero _), st. Qed.

Lemma set_ttl_state : set_ttl roomStateTTL = Some roomStateTTL.
Proof. reflexivity. Qed.

(** [GetRoomState] by what the key holds. *)
Lemma GetRoomState_reads r s :
  let '(g, s') := RedisStates.GetRoomState None r s in
  later s s' ∧
  g = match live (clock s') (seen s) !! roomStateKey r with
      | None => Err ErrNotFound
      | Some (VStr p, _) => match unmarshal_state p with Some st => Ok st | None => Err ErrUnmarshal end
      | Some _ => Err (ErrNew "WRONGTYPE")
      end.
Proof.
  unfold RedisStates.GetRoomState, later.
  destruct (redis_seen (GET (roomStateKey r)) as_string s) as (rep & s' & -> & Hl & Ha & _).
  cbn [exec fst agrees] in Ha.
  destruct (live (clock s') (seen s) !! roomStateKey r) as [[[p| | | |] e]|] eqn:El;
    cbn in Ha; subst rep; cbn [as_string reply_error wrongtype]; try (by rewrite El).
  destruct (unmarshal_state p) eqn:Eu; by rewrite El, ?Eu.
Qed.

(** Every reader gets the state for seven days, and none after that, as long as no
    command touches its key. *)
Definition seven_days : Z := 604800 * Second.
Definition keeps_state (r : string) (st : RoomState.t) (s1 : R) : Prop :=
  ∀ s2, untouched (roomStateKey r) s1 s2 →
    let '(g, s3) := RedisStates.GetRoomState None r s2 in
    g = if clock s3 <? clock s1 + seven_days then Ok (clean_state st) else Err ErrNotFound.

Lemma entry_keeps r st p s1 : state_typed st → marshal_state st = Some p →
  seen s1 !! roomStateKey r = Some (VStr p, Some (clock s1 + seven_days)) → keeps_state r st s1.
Proof.
  intros Ht Em He s2 Hs2. apply untouched_seen in Hs2 as [Hl2 Hs2].
  pose proof (GetRoomState_reads r s2) as Hg. destruct (RedisStates.GetRoomState None r s2) as [g s3].
  destruct Hg as [Hl3 ->]. unfold later in *. rewrite (live_live_lookup (clock s2) _ _ (seen s1)) by (done || apply Hs2).
  destruct (Z.ltb_spec (clock s3) (clock s1 + seven_days)) as [Hlt|Hge].
  - rewrite (live_kept _ _ _ _ _ He Hlt). by rewrite (unmarshal_marshal_state _ _ Ht Em).
  - assert (live (clock s3) (seen s1) !! roomStateKey r = None) as ->; [|done].
    apply eq_None_not_Some. intros [e El]. apply live_lookup in El as [El Ha].
    pose proof (eq_trans (eq_sym He) El) as E. injection E as <-. cbn in Ha. apply Z.ltb_lt in Ha. lia.
Qed.

(** [SetRoomState] of a state that can be encoded, under any context. *)
Lemma SetRoomState_keeps c now r st s : state_typed st → is_Some (marshal_state (stamp_state now r st)) →
  let '(res, s1) := RedisStates.SetRoomState c now r st s in
  match c with
  | None => res = Ok tt ∧ keeps_state r (stamp_state now r st) s1
  | Some e => res = Err e ∧ s1 = s
  end.
Proof.
  intros Ht [p Em]. unfold RedisStates.SetRoomState. fold (stamp_state now r st). rewrite Em, set_ttl_state.
  destruct c as [e|]; [done|].
  destruct (redis_seen (SET (roomStateKey r) p (Some roomStateTTL)) as_unit s) as (rep & s1 & -> & _ & Ha & Hs).
  cbn [exec] in Ha, Hs. change (positive_ttl (Some roomStateTTL)) with true in Ha, Hs.
  cbn [fst snd agrees settles deadline fmap option_fmap option_map] in Ha, Hs. subst rep. split; [done|].
  apply (entry_keeps r _ p); [by apply stamp_typed|done|]. by rewrite Hs, lookup_insert_eq.
Qed.

(** C25: a state the cache accepts is what every reader gets, for seven days (604800
    seconds) and as long as no command touches its key, whatever is done to the other
    keys of the server: under the id of its room, stamped with
    the time when it had none, its numbers and instants exact; after that there is
    none.  A state that cannot be encoded is refused and changes nothing. *)
Theorem redis_state_kept now r st s : state_typed st →
  match marshal_state (stamp_state now r st) with
  | None => RedisStates.SetRoomState None now r st s = (Err ErrMarshal, s)
  | Some _ =>
      let '(res, s1) := RedisStates.SetRoomState None now r st s in
      res = Ok tt ∧ keeps_state r (stamp_state now r st) s1
  end.
Proof.
  intros Ht. pose proof (SetRoomState_keeps None now r st s Ht) as H.
  destruct (marshal_state (stamp_state now r st)) as [p|] eqn:Em; [by apply H|].
  unfold RedisStates.SetRoomState. fold (stamp_state now r st). by rewrite Em.
Qed.
End kept.

(** ** An example *)

Module ToyStates.
Definition fresh : Keyspace.t := Keyspace.mk (1700000000 * Second) ∅.
Definition filed : Keyspace.t := (RedisStates.SetRoomState None 0 "r1" sample_state fresh).2.
(** Another client sets another key. *)
Definition later_on : Keyspace.t := (command (SET "other" "x" None) filed).2.
End ToyStates.

Lemma redis_state_kept_witness :
  (RedisStates.GetRoomState None "r1" ToyStates.later_on).1 = Ok sample_state.
Proof.
  pose proof (redis_state_kept 0 "r1" sample_state ToyStates.fresh sample_typed) as H.
  assert (marshal_state (stamp_state 0 "r1" sample_state) = Some sample_payload) as E by (vm_compute; reflexivity).
  rewrite E in H. fold ToyStates.filed in H.
  assert (∃ res, RedisStates.SetRoomState None 0 "r1" sample_state ToyStates.fresh = (res, ToyStates.filed)) as [res Es].
  { unfold ToyStates.filed. by destruct (RedisStates.SetRoomState _ _ _ _ _) as [res s1]; exists res. }
  rewrite Es in H. destruct H as [_ H]. specialize (H ToyStates.later_on).
  destruct (RedisStates.GetRoomState None "r1" ToyStates.later_on) as [g s3] eqn:Eg.
  cbn [fst]. rewrite H.
  - assert (clock s3 = clock ToyStates.filed + 2 * Second) as ->.
    { change s3 with (g, s3).2. rewrite <- Eg. vm_compute. reflexivity. }
    rewrite (proj2 (Z.ltb_lt _ _)) by (unfold seven_days, Second; lia).
    vm_compute. reflexivity.
  - apply rtc_once. exists (SET "other" "x" None). split; [|done]. split; [|done].
    intros t L. cbn [exec positive_ttl snd]. by apply lookup_insert_ne.
Defined.
