(* ===== verification/RedisMembers.v ===== *)
(** * The Redis presence, against the same specification

    [internal/cache/redis/room_presence.go] keeps the indexes of the in-memory
    presence in four kinds of keys.  As long as no key expires and a user only
    leaves the room he is in, every sequence of calls answers like the map
    [Located], as the in-memory presence does; a user who leaves another room
    can end up in two. *)

From S2P Require Import Prelude GoNum GoParse Model Interfaces MemCaches MemPresence Redis RedisCaches.
Import MemPresence RedisPresence.

Section members.
Context `{!RedisServer R, !RedisLaws R} (T : time).

(** ** The indexes in the keys

    Nothing is seen to expire before [T]. *)

Definition fresh (e : option time) : Prop := match e with None => True | Some d => T ≤ d end.
Definition mem (r : string) (p : t) : gmap string string := default ∅ (members p !! r).

Definition hash_at (v : option entry) (x : option (gmap string string)) : Prop :=
  match v with
  | None => x = None | Some (VHash m, e) => x = Some m ∧ m ≠ ∅ ∧ fresh e | _ => False
  end.
Definition str_at (v : option entry) (x : option string) : Prop :=
  match v with None => x = None | Some (VStr y, e) => x = Some y ∧ fresh e | _ => False end.
Definition set_at (v : option entry) (x : gset string) : Prop :=
  match v with
  | None => x = ∅ | Some (VSet y, e) => y = x ∧ x ≠ ∅ ∧ fresh e | _ => False
  end.

(** The two sets of rooms. *)
Definition set_key (b : bool) : string := if b then keyActiveRooms else keyPendingEmpty.
Definition rooms_in (b : bool) (p : t) : gset string := if b then activeRooms p else pendingEmpty p.
Definition put_rooms (b : bool) (x : gset string) (p : t) : t :=
  if b then set_activeRooms x p else set_pendingEmpty x p.
Definition put_members (r : string) (m : gmap string string) (p : t) : t :=
  set_members (if decide (m = ∅) then delete r (members p) else <[r := m]> (members p)) p.

Record shape (L : keyspace) (p : t) : Prop := {
  shape_members : ∀ r, hash_at (L !! membersKey r) (members p !! r);
  shape_user : ∀ u, str_at (L !! userRoomKey u) (userRoom p !! u);
  shape_rooms : ∀ b, set_at (L !! set_key b) (rooms_in b p);
}.

Lemma shape_ext L p p' :
  members p' = members p → userRoom p' = userRoom p → activeRooms p' = activeRooms p →
  pendingEmpty p' = pendingEmpty p → shape L p → shape L p'.
Proof.
  intros E1 E2 E3 E4 [H1 H2 H3]. split.
  - intros r. rewrite E1. apply H1.
  - intros u. rewrite E2. apply H2.
  - intros [|]; [specialize (H3 true)|specialize (H3 false)]; cbn in *; congruence.
Qed.

(** Keys of different kinds differ. *)
Lemma members_user r u : membersKey r ≠ userRoomKey u.
Proof. discriminate. Qed.
Lemma members_set r b : membersKey r ≠ set_key b.
Proof. destruct b; discriminate. Qed.
Lemma user_set u b : userRoomKey u ≠ set_key b.
Proof. destruct b; discriminate. Qed.
#[local] Instance membersKey_inj : Inj (=) (=) membersKey.
Proof. intros r r'. apply (inj (String.append _)). Qed.
#[local] Instance userRoomKey_inj : Inj (=) (=) userRoomKey.
Proof. intros u u'. apply (inj (String.append _)). Qed.
Lemma set_key_inj b b' : set_key b = set_key b' → b = b'.
Proof. by destruct b, b'. Qed.
#[local] Hint Resolve members_user members_set user_set : wt.

Lemma alive_fresh t e : t < T → fresh e → ∀ v, alive t (v, e) = true.
Proof. intros Ht He v. unfold alive. cbn. destruct e; [|done]. apply Z.ltb_lt. cbn in He. unfold time in *. lia. Qed.
Lemma shape_live t L p : t < T → shape L p → shape (live t L) p.
Proof.
  intros Ht [H1 H2 H3].
  assert (∀ k v e, L !! k = Some (v, e) → fresh e → live t L !! k = Some (v, e)) as Hk.
  { intros k v e Hk He. apply live_lookup. split; [done|]. by apply alive_fresh. }
  split.
  - intros r. specialize (H1 r). destruct (L !! membersKey r) as [[[] e]|] eqn:E; try done;
      [|by rewrite live_none].
    rewrite (Hk _ _ _ E) by apply H1. done.
  - intros u. specialize (H2 u). destruct (L !! userRoomKey u) as [[[] e]|] eqn:E; try done;
      [|by rewrite live_none].
    rewrite (Hk _ _ _ E) by apply H2. done.
  - intros b. specialize (H3 b). destruct (L !! set_key b) as [[[] e]|] eqn:E; try done;
      [|by rewrite live_none].
    rewrite (Hk _ _ _ E) by apply H3. done.
Qed.

(** What writing each kind of key does to the indexes. *)
Lemma shape_put_hash L p r m e : shape L p → fresh e → shape (put_hash (membersKey r) m e L) (put_members r m p).
Proof.
  intros [H1 H2 H3] He. unfold put_hash, put_members. split; cbn [members set_members userRoom].
  - intros r'. destruct (decide (r' = r)) as [->|Hr]; case_decide as Hm.
    + by rewrite !lookup_delete_eq.
    + rewrite !lookup_insert_eq. by split_and!.
    + rewrite !lookup_delete_ne by (try done; by intros ?%(inj _)). apply H1.
    + rewrite !lookup_insert_ne by (try done; by intros ?%(inj _)). apply H1.
  - intros u. case_decide; rewrite ?lookup_delete_ne, ?lookup_insert_ne by auto with wt; apply H2.
  - intros b. assert (∀ x, rooms_in b (set_members x p) = rooms_in b p) as -> by by destruct b.
    case_decide; rewrite ?lookup_delete_ne, ?lookup_insert_ne by auto with wt; apply H3.
Qed.
Lemma shape_put_rooms L p b x e : shape L p → fresh e → shape (put_set (set_key b) x e L) (put_rooms b x p).
Proof.
  intros [H1 H2 H3] He. unfold put_set. split.
  - intros r. assert (members (put_rooms b x p) = members p) as -> by by destruct b.
    case_decide; rewrite ?lookup_delete_ne, ?lookup_insert_ne by by intros ?%eq_sym%members_set. all: apply H1.
  - intros u. assert (userRoom (put_rooms b x p) = userRoom p) as -> by by destruct b.
    case_decide; rewrite ?lookup_delete_ne, ?lookup_insert_ne by by intros ?%eq_sym%user_set. all: apply H2.
  - intros b'. destruct (decide (b' = b)) as [->|Hb].
    + assert (rooms_in b (put_rooms b x p) = x) as -> by by destruct b.
      case_decide; [by rewrite lookup_delete_eq|rewrite lookup_insert_eq; by split_and!].
    + assert (rooms_in b' (put_rooms b x p) = rooms_in b' p) as -> by by destruct b, b'.
      case_decide; rewrite ?lookup_delete_ne, ?lookup_insert_ne by by intros ?%set_key_inj. all: apply H3.
Qed.
Lemma shape_put_user L p u r e :
  shape L p → fresh e → shape (<[userRoomKey u := (VStr r, e)]> L) (set_userRoom (<[u := r]> (userRoom p)) p).
Proof.
  intros [H1 H2 H3] He. split; cbn [userRoom set_userRoom].
  - intros r'. rewrite lookup_insert_ne by (intros E; by apply (members_user r' u)). apply H1.
  - intros u'. destruct (decide (u' = u)) as [->|Hu].
    + by rewrite !lookup_insert_eq.
    + rewrite !lookup_insert_ne by (try done; by intros ?%(inj _)). apply H2.
  - intros b. rewrite lookup_insert_ne by by apply user_set. destruct b; apply (H3 true) || apply (H3 false).
Qed.
Lemma shape_del_user L p u :
  shape L p → shape (delete (userRoomKey u) L) (set_userRoom (delete u (userRoom p)) p).
Proof.
  intros [H1 H2 H3]. split; cbn [userRoom set_userRoom].
  - intros r'. rewrite lookup_delete_ne by (intros E; by apply (members_user r' u)). apply H1.
  - intros u'. destruct (decide (u' = u)) as [->|Hu].
    + by rewrite !lookup_delete_eq.
    + rewrite !lookup_delete_ne by (try done; by intros ?%(inj _)). apply H2.
  - intros b. rewrite lookup_delete_ne by by apply user_set. destruct b; apply (H3 true) || apply (H3 false).
Qed.
Lemma shape_redate L p k v e d :
  shape L p → L !! k = Some (v, e) → T ≤ d → shape (<[k := (v, Some d)]> L) p.
Proof.
  intros [H1 H2 H3] Hk Hd. split.
  - intros r. destruct (decide (membersKey r = k)) as [<-|]; [|by rewrite lookup_insert_ne].
    specialize (H1 r). rewrite Hk in H1. rewrite lookup_insert_eq. destruct v; try done. naive_solver.
  - intros u. destruct (decide (userRoomKey u = k)) as [<-|]; [|by rewrite lookup_insert_ne].
    specialize (H2 u). rewrite Hk in H2. rewrite lookup_insert_eq. destruct v; try done. naive_solver.
  - intros b. destruct (decide (set_key b = k)) as [<-|]; [|by rewrite lookup_insert_ne].
    specialize (H3 b). rewrite Hk in H3. rewrite lookup_insert_eq. destruct v; try done. naive_solver.
Qed.

(** ** One command *)

Definition early (t : time) : Prop := T ≤ t + roomMemberTTL.
Definition holds (s : R) (p : t) : Prop := shape (seen s) p ∧ early (clock s).

(** What holds after a command, if it is executed before [T]. *)
Definition does (cmd : rcmd) (s : R) (Q : reply → R → Prop) : Prop :=
  clock (command cmd s).2 < T → Q (command cmd s).1 (command cmd s).2.

Lemma does_exec cmd s p (Q : reply → R → Prop) : holds s p →
  (∀ k m f, cmd ≠ XADD k m f) →
  (∀ r s', let L := live (clock s') (seen s) in
     shape L p → early (clock s') → agrees cmd (exec (clock s') cmd L).1 r →
     seen s' = (exec (clock s') cmd L).2 → Q r s') → does cmd s Q.
Proof.
  intros [Hs He] Hx HQ Ht. destruct (command cmd s) as [r s'] eqn:E. cbn [fst snd] in *.
  destruct (command_seen cmd s r s' E) as (Hle & Ha & Hset). apply HQ.
  - by apply shape_live.
  - unfold early, time in *. lia.
  - done.
  - destruct cmd; try done. by destruct (Hx k maxlen fields).
Qed.

Lemma members_cases L p r : shape L p →
  (L !! membersKey r = None ∧ members p !! r = None) ∨
  (∃ m e, L !! membersKey r = Some (VHash m, e) ∧ members p !! r = Some m ∧ m ≠ ∅ ∧ fresh e).
Proof.
  intros [H _ _]. specialize (H r). destruct (L !! membersKey r) as [[[] e]|]; try done; [|by left].
  right. by eexists _, e.
Qed.
Lemma rooms_cases L p b : shape L p →
  (L !! set_key b = None ∧ rooms_in b p = ∅) ∨
  (∃ e, L !! set_key b = Some (VSet (rooms_in b p), e) ∧ rooms_in b p ≠ ∅ ∧ fresh e).
Proof.
  intros [_ _ H]. specialize (H b). destruct (L !! set_key b) as [[[] e]|]; try done; [|by left].
  destruct H as (-> & ? & ?). right. by exists e.
Qed.
Lemma user_cases L p u : shape L p →
  (L !! userRoomKey u = None ∧ userRoom p !! u = None) ∨
  (∃ r e, L !! userRoomKey u = Some (VStr r, e) ∧ userRoom p !! u = Some r).
Proof.
  intros [_ H _]. specialize (H u). destruct (L !! userRoomKey u) as [[[] e]|]; try done; [|by left].
  destruct H as [-> ?]. right. by eexists _, e.
Qed.

(** Execute the command of the goal; give its reply to the rest. *)
Ltac execute := eapply does_exec; [done..|]; intros rep s' L HL He Ha Hset; cbn [exec] in *.
Ltac answer Ha HQ := cbn in Ha; rewrite <- Ha; apply HQ; (split; [|done]).

(** The commands on the members of a room. *)
Lemma does_HDEL r u s p (Q : reply → R → Prop) : holds s p →
  (∀ n s', holds s' (put_members r (delete u (mem r p)) p) → Q (RInt n) s') →
  does (HDEL (membersKey r) u) s Q.
Proof.
  intros Hs HQ. execute. unfold mem in HQ.
  destruct (members_cases L p r HL) as [[E Hm]|(m & e & E & Hm & _ & Hf)]; rewrite E, Hm in *;
    answer Ha HQ; rewrite Hset; cbn [snd default].
  - eapply shape_ext; [..|exact HL]; try done. unfold put_members. rewrite delete_empty. cbn.
    by apply delete_id.
  - by apply shape_put_hash.
Qed.
Lemma does_HLEN r s p (Q : reply → R → Prop) : holds s p →
  (∀ s', holds s' p → Q (RInt (Z.of_nat (size (mem r p)))) s') → does (HLEN (membersKey r)) s Q.
Proof.
  intros Hs HQ. execute. unfold mem in HQ.
  destruct (members_cases L p r HL) as [[E Hm]|(m & e & E & Hm & _ & Hf)]; rewrite E, Hm in *;
    answer Ha HQ; by rewrite Hset.
Qed.
Lemma does_HGETALL r s p (Q : reply → R → Prop) : holds s p →
  (∀ s', holds s' p → Q (RMap (mem r p)) s') → does (HGETALL (membersKey r)) s Q.
Proof.
  intros Hs HQ. execute. unfold mem in HQ.
  destruct (members_cases L p r HL) as [[E Hm]|(m & e & E & Hm & _ & Hf)]; rewrite E, Hm in *;
    answer Ha HQ; by rewrite Hset.
Qed.
Lemma does_HSET r u n s p (Q : reply → R → Prop) : holds s p →
  (∀ k s', holds s' (put_members r (<[u := n]> (mem r p)) p) → Q (RInt k) s') →
  does (HSET (membersKey r) [(u, n)]) s Q.
Proof.
  intros Hs HQ. execute. unfold mem in HQ.
  destruct (members_cases L p r HL) as [[E Hm]|(m & e & E & Hm & _ & Hf)]; rewrite E, Hm in *;
    answer Ha HQ; rewrite Hset; cbn [snd default]; by apply shape_put_hash.
Qed.
Lemma does_DEL_members r s p (Q : reply → R → Prop) : holds s p →
  (∀ n s', holds s' (put_members r ∅ p) → Q (RInt n) s') → does (DEL (membersKey r)) s Q.
Proof.
  intros Hs HQ. execute.
  answer Ha HQ. rewrite Hset. cbn [snd].
  pose proof (shape_put_hash L p r ∅ None HL I) as Hp. unfold put_hash in Hp. by rewrite decide_True in Hp.
Qed.
Lemma does_EXPIRE k ttl s p (Q : reply → R → Prop) : holds s p → roomMemberTTL ≤ ttl →
  (∀ n s', holds s' p → Q (RInt n) s') → does (EXPIRE k ttl) s Q.
Proof.
  intros Hs Ht HQ. execute.
  rewrite (proj2 (Z.ltb_lt 0 ttl)) in * by (unfold roomMemberTTL, Hour, Minute, Second in Ht; lia).
  destruct (L !! k) as [[v e]|] eqn:E; answer Ha HQ; rewrite Hset; cbn [snd]; [|done].
  eapply shape_redate; [done..|]. unfold early, time in *. lia.
Qed.

(** On the room of a user. *)
Lemma does_GET u s p (Q : reply → R → Prop) : holds s p →
  (∀ s', holds s' p → Q (match userRoom p !! u with Some r => RBulk r | None => RNil end) s') →
  does (GET (userRoomKey u)) s Q.
Proof.
  intros Hs HQ. execute.
  destruct (user_cases L p u HL) as [[E Hm]|(r & e & E & Hm)]; rewrite E, Hm in *;
    answer Ha HQ; by rewrite Hset.
Qed.
Lemma does_SET u r s p (Q : reply → R → Prop) : holds s p →
  (∀ s', holds s' (set_userRoom (<[u := r]> (userRoom p)) p) → Q ROk s') →
  does (SET (userRoomKey u) r (Some roomMemberTTL)) s Q.
Proof.
  intros Hs HQ. execute.
  change (positive_ttl (Some roomMemberTTL)) with true in *. answer Ha HQ.
  rewrite Hset. apply shape_put_user; [done|]. exact He.
Qed.
Lemma does_DEL_user u s p (Q : reply → R → Prop) : holds s p →
  (∀ n s', holds s' (set_userRoom (delete u (userRoom p)) p) → Q (RInt n) s') →
  does (DEL (userRoomKey u)) s Q.
Proof.
  intros Hs HQ. execute.
  answer Ha HQ. rewrite Hset. by apply shape_del_user.
Qed.

(** On a set of rooms. *)
Lemma does_SADD b r s p (Q : reply → R → Prop) : holds s p →
  (∀ n s', holds s' (put_rooms b ({[r]} ∪ rooms_in b p) p) → Q (RInt n) s') →
  does (SADD (set_key b) r) s Q.
Proof.
  intros Hs HQ. execute.
  destruct (rooms_cases L p b HL) as [[E Hm]|(e & E & Hm & Hf)]; rewrite E in *;
    answer Ha HQ; rewrite Hset; cbn [snd].
  - rewrite Hm, union_empty_r_L. by apply shape_put_rooms.
  - by apply shape_put_rooms.
Qed.
Lemma does_SREM b r s p (Q : reply → R → Prop) : holds s p →
  (∀ n s', holds s' (put_rooms b (rooms_in b p ∖ {[r]}) p) → Q (RInt n) s') →
  does (SREM (set_key b) r) s Q.
Proof.
  intros Hs HQ. execute.
  destruct (rooms_cases L p b HL) as [[E Hm]|(e & E & Hm & Hf)]; rewrite E in *;
    answer Ha HQ; rewrite Hset; cbn [snd].
  - eapply shape_ext; [..|exact HL]; destruct b; cbn in *; set_solver.
  - by apply shape_put_rooms.
Qed.
Lemma does_SMEMBERS b s p (Q : reply → R → Prop) : holds s p →
  (∀ l s', holds s' p → l ≡ₚ elements (rooms_in b p) → Q (RList l) s') → does (SMEMBERS (set_key b)) s Q.
Proof.
  intros Hs HQ. execute.
  destruct (rooms_cases L p b HL) as [[E Hm]|(e & E & Hm & Hf)]; rewrite E in *;
    cbn in Ha; destruct rep; try done; apply HQ; first [by rewrite Ha | split; [by rewrite Hset|done]|idtac].
  by rewrite Hm, elements_empty, <- Ha.
Qed.

(** ** Programs *)

Definition young {A} (m : SM R A) (s : R) (Q : result A → R → Prop) : Prop :=
  clock (m s).2 < T → Q (m s).1 (m s).2.

Lemma young_ret {A} (a : A) s (Q : result A → R → Prop) : Q (Ok a) s → young (mret a) s Q.
Proof. by intros HQ _. Qed.
Lemma young_bind {A B} (m : SM R A) (k : A → SM R B) s Q :
  (∀ a, keeps later (k a)) →
  young m s (λ r s1, match r with
                     | Ok a => young (k a) s1 Q
                     | Err e => Q (Err e) s1
                     | Halt h => Q (Halt h) s1
                     end) →
  young (a ← m; k a) s Q.
Proof.
  unfold young, mbind, SM_bind. intros Hk Hm Ht. destruct (m s) as [[a|e|h] s1]; cbn [fst snd] in *; [|auto..].
  apply Hm; [|done]. pose proof (Hk a s1) as Hle. unfold later, time in *. lia.
Qed.
Lemma young_ignore {A} (m : SM R A) s Q :
  young m s (λ r s1, match r with Halt h => Q (Halt h) s1 | _ => Q (Ok tt) s1 end) →
  young (ignore m) s Q.
Proof. unfold young, ignore. destruct (m s) as [[a|e|h] s1]; cbn [fst snd]; auto. Qed.
Lemma young_call cmd s Q :
  does cmd s (λ r s', Q (match r with RErr m => Err (ErrNew m) | r => Ok r end) s') →
  young (RedisPresence.call cmd) s Q.
Proof.
  unfold young, does, RedisPresence.call. destruct (command cmd s) as [r s']. cbn. intros HQ Ht.
  destruct r; cbn [fst snd] in *; by apply HQ.
Qed.
Lemma young_redis {A} cmd (dec : reply → result A) s Q :
  does cmd s (λ r s', Q (dec r) s') → young (redis None cmd dec) s Q.
Proof. unfold young, does, redis, guard_ctx. by destruct (command cmd s). Qed.

Fixpoint do_all (cmds : list rcmd) (s : R) (Q : list reply → R → Prop) : Prop :=
  match cmds with
  | [] => Q [] s
  | cmd :: cmds => does cmd s (λ r s1, do_all cmds s1 (λ rs, Q (r :: rs)))
  end.
Lemma exec_all_later cmds s : clock s ≤ clock (exec_all cmds s).2.
Proof.
  revert s. induction cmds as [|cmd cmds IH]; intros s; cbn [exec_all]; [cbn; lia|].
  destruct (command cmd s) as [r s1] eqn:E. apply command_seen in E as [Hle _]. specialize (IH s1).
  destruct (exec_all cmds s1). cbn in *. lia.
Qed.
Lemma do_all_exec cmds : ∀ s Q, do_all cmds s Q → clock (exec_all cmds s).2 < T →
  Q (exec_all cmds s).1 (exec_all cmds s).2.
Proof.
  induction cmds as [|cmd cmds IH]; intros s Q HQ Ht; [done|]. cbn [do_all exec_all] in *. unfold does in HQ.
  destruct (command cmd s) as [r s1]. pose proof (exec_all_later cmds s1) as Hle.
  cbn [fst snd] in *. specialize (IH s1 (λ rs, Q (r :: rs))). destruct (exec_all cmds s1) as [rs s2].
  cbn [fst snd] in *. apply IH; [|done]. apply HQ. lia.
Qed.
Lemma young_pipeline cmds s Q :
  do_all cmds s (λ rs s', Q (match first_error rs with Some e => Err e | None => Ok rs end) s') →
  young (pipeline None cmds) s Q.
Proof.
  intros HQ. unfold young, pipeline, guard_ctx. pose proof (do_all_exec cmds s _ HQ) as H.
  destruct (exec_all cmds s) as [rs s']. exact H.
Qed.

Lemma call_later cmd : keeps later (RedisPresence.call cmd).
Proof.
  intros s. unfold RedisPresence.call. destruct (command cmd s) as [r s'] eqn:E.
  apply command_seen in E as [Hle _]. by destruct r.
Qed.
Lemma pipeline_later c cmds : keeps later (pipeline c cmds).
Proof.
  intros s. destruct c; [by unfold later; cbn|]. pose proof (exec_all_later cmds s) as H.
  unfold pipeline, guard_ctx. by destruct (exec_all cmds s).
Qed.
Lemma nil_as_later {A} (z : A) m : keeps later m → keeps later (nil_as z m).
Proof.
  intros Hm s. specialize (Hm s). unfold nil_as. by destruct (m s) as [[a|[]|h] s'].
Qed.
#[local] Hint Resolve redis_later call_later pipeline_later : wt.

(** ** Leaving and joining *)

(** The member lists and the sets of rooms without user [u] in room [r]. *)
Definition drop_member (r u : string) (p : t) : t :=
  if decide (delete u (mem r p) = ∅) then
    set_pendingEmpty ({[r]} ∪ pendingEmpty p)
      (set_activeRooms (activeRooms p ∖ {[r]}) (put_members r ∅ p))
  else put_members r (delete u (mem r p)) p.

Ltac later := repeat first [keeps_step | solve [eauto with wt] | intros ?].

Lemma mem_put r m p : mem r (put_members r m p) = m.
Proof.
  unfold mem, put_members. cbn [members set_members]. case_decide as Hm.
  - by rewrite lookup_delete_eq.
  - by rewrite lookup_insert_eq.
Qed.
Lemma holds_ext s p p' :
  members p' = members p → userRoom p' = userRoom p → activeRooms p' = activeRooms p →
  pendingEmpty p' = pendingEmpty p → holds s p → holds s p'.
Proof. intros ? ? ? ? [??]. split; [|done]. by eapply shape_ext. Qed.
Lemma size_zero (m : gmap string string) : (Z.of_nat (size m) =? 0) = bool_decide (m = ∅).
Proof.
  case_bool_decide as Hm; [by subst|]. apply Z.eqb_neq. intros Hz. apply Hm, map_size_empty_inv. lia.
Qed.

Lemma removeMember_run r u s p : holds s p →
  young (removeMember None r u) s (λ res s', res = Ok tt ∧
    holds s' (set_userRoom (delete u (userRoom p)) (drop_member r u p))).
Proof.
  intros Hs. unfold removeMember. apply young_bind; [later|]. apply young_pipeline. cbn [do_all].
  eapply does_HDEL; [done|]. intros n1 s1 H1. eapply does_DEL_user; [done|]. intros n2 s2 H2.
  apply young_bind; [later|]. apply young_redis. eapply does_HLEN; [done|]. intros s3 H3. cbn [as_int].
  assert (∀ q x, mem r (set_userRoom x q) = mem r q) as -> by done. rewrite mem_put, size_zero.
  unfold drop_member. case_bool_decide as Hm; [rewrite decide_True by done|by rewrite decide_False by done].
  apply young_bind; [later|]. apply young_ignore, young_redis. eapply (does_SREM true); [done|]. intros n4 s4 H4.
  apply young_bind; [later|]. apply young_ignore, young_redis. eapply does_DEL_members; [done|]. intros n5 s5 H5.
  apply young_bind; [later|]. apply young_ignore, young_redis. eapply (does_SADD false); [done|]. intros n6 s6 H6.
  apply young_bind; [later|]. apply young_ignore, young_redis. eapply does_EXPIRE; [done|done|]. intros n7 s7 H7.
  apply young_ret. split; [done|]. eapply holds_ext; [..|exact H7]; try done.
  unfold put_members. rewrite Hm, !decide_True by done. cbn. by rewrite delete_delete_eq.
Qed.

(** [JoinRoom]: the script, in which the user's old room is overwritten. *)
Definition join_step (r u n : string) (p : t) : t :=
  let p := match userRoom p !! u with
           | Some prev => if bool_decide (prev ≠ r) then drop_member prev u p else p
           | None => p
           end in
  add_member r u n p.

Lemma join_end r u n ur s p (Q : result string → R → Prop) : holds s p →
  (∀ s', holds s' (add_member r u n p) → Q (Ok ur) s') →
  young (_ ← RedisPresence.call (HSET (membersKey r) [(u, n)]);
         _ ← RedisPresence.call (EXPIRE (membersKey r) roomMemberTTL);
         _ ← RedisPresence.call (SET (userRoomKey u) r (Some roomMemberTTL));
         _ ← RedisPresence.call (SADD keyActiveRooms r);
         _ ← RedisPresence.call (EXPIRE keyActiveRooms roomMemberTTL);
         _ ← RedisPresence.call (SREM keyPendingEmpty r);
         mret ur) s Q.
Proof.
  intros Hs HQ.
  apply young_bind; [later|]. apply young_call. eapply does_HSET; [done|]. intros n1 s1 H1.
  apply young_bind; [later|]. apply young_call. eapply does_EXPIRE; [done|done|]. intros n2 s2 H2.
  apply young_bind; [later|]. apply young_call. eapply does_SET; [done|]. intros s3 H3.
  apply young_bind; [later|]. apply young_call. eapply (does_SADD true); [done|]. intros n4 s4 H4.
  apply young_bind; [later|]. apply young_call. eapply does_EXPIRE; [done|done|]. intros n5 s5 H5.
  apply young_bind; [later|]. apply young_call. eapply (does_SREM false); [done|]. intros n6 s6 H6.
  apply young_ret, HQ. eapply holds_ext; [..|exact H6]; try done.
  unfold put_members. rewrite decide_False by apply insert_non_empty. unfold add_member, mem. cbn.
  by destruct (members p !! r).
Qed.

Lemma JoinRoom_run r u n s p : holds s p →
  young (JoinRoom None r u n) s (λ res s', res = Ok (left_room r u p) ∧ holds s' (join_step r u n p)).
Proof.
  intros Hs. unfold RedisPresence.JoinRoom, guard_ctx, joinScriptMigrate, left_room, join_step.
  apply young_bind; [later|]. apply young_call. eapply does_GET; [done|]. intros s1 H1.
  destruct (userRoom p !! u) as [prev|]; [|apply young_bind; [later|]; apply young_ret; eapply join_end; [done|by auto]].
  case_bool_decide as Hp; [|apply young_bind; [later|]; apply young_ret; eapply join_end; [done|by auto]].
  apply young_bind; [later|].
  apply young_bind; [later|]. apply young_call. eapply does_HDEL; [done|]. intros n2 s2 H2.
  apply young_bind; [later|]. apply young_call. eapply does_HLEN; [done|]. intros s3 H3. rewrite mem_put.
  apply young_bind; [later|]. unfold drop_member.
  assert (RInt (Z.of_nat (size (delete u (mem prev p)))) = RInt 0 ↔ delete u (mem prev p) = ∅) as Hz.
  { split; [intros [= E]; apply map_size_empty_inv; lia|intros ->; done]. }
  case_bool_decide as Hm; rewrite Hz in Hm; [rewrite decide_True by done|rewrite decide_False by done].
  2: { apply young_ret, young_ret. eapply join_end; [done|by auto]. }
  apply young_bind; [later|]. apply young_call. eapply (does_SREM true); [done|]. intros n4 s4 H4.
  apply young_bind; [later|]. apply young_call. eapply does_DEL_members; [done|]. intros n5 s5 H5.
  apply young_bind; [later|]. apply young_call. eapply (does_SADD false); [done|]. intros n6 s6 H6.
  apply young_bind; [later|]. apply young_call. eapply does_EXPIRE; [done|done|]. intros n7 s7 H7.
  apply young_ret, young_ret. eapply join_end; [|by auto]. eapply holds_ext; [..|exact H7]; try done.
  unfold put_members. rewrite Hm, !decide_True by done. cbn. by rewrite delete_delete_eq.
Qed.

(** ** Deleting *)

Definition del_users (l : list string) (ur : gmap string string) : gmap string string :=
  foldl (λ ur u, delete u ur) ur l.
Lemma del_users_lookup l : ∀ ur u, del_users l ur !! u = if decide (u ∈ l) then None else ur !! u.
Proof.
  induction l as [|x l IH]; intros ur u; [done|]. change (del_users (x :: l) ur) with (del_users l (delete x ur)).
  rewrite IH. destruct (decide (u = x)) as [->|Hu].
  - rewrite lookup_delete_eq. repeat case_decide; set_solver.
  - rewrite lookup_delete_ne by done. repeat case_decide; set_solver.
Qed.

Definition delete_step (r : string) (l : list string) (p : t) : t :=
  let p := set_userRoom (del_users l (userRoom p)) p in
  let p := put_members r ∅ p in
  let p := set_activeRooms (activeRooms p ∖ {[r]}) p in
  set_pendingEmpty (pendingEmpty p ∖ {[r]}) p.

Lemma del_users_run l rest (P : option error → R → Prop) : ∀ s p, holds s p →
  (∀ s', holds s' (set_userRoom (del_users l (userRoom p)) p) →
     do_all rest s' (λ rs s2, P (first_error rs) s2)) →
  do_all (((λ u, DEL (userRoomKey u)) <$> l) ++ rest) s (λ rs s2, P (first_error rs) s2).
Proof.
  induction l as [|u l IH]; intros s p Hs Hrest.
  { apply Hrest. by eapply holds_ext; [..|exact Hs]. }
  cbn [fmap list_fmap app do_all]. eapply does_DEL_user; [done|]. intros n s1 H1.
  apply (IH s1 _ H1). intros s' H'. apply Hrest. by eapply holds_ext; [..|exact H'].
Qed.
Lemma young_pipeline_tt cmds s (Q : result unit → R → Prop) :
  do_all cmds s (λ rs s', Q (match first_error rs with Some e => Err e | None => Ok tt end) s') →
  young (_ ← pipeline None cmds; mret tt) s Q.
Proof.
  intros HQ. unfold young, mbind, SM_bind, pipeline, guard_ctx. pose proof (do_all_exec cmds s _ HQ) as H.
  destruct (exec_all cmds s) as [rs s']. cbn [fst snd] in *. destruct (first_error rs); exact H.
Qed.
Lemma delete_run `{!MapRange} r s p : holds s p →
  young (DeleteRoomPresence None r) s (λ res s', res = Ok tt ∧
    ∃ l, l ≡ₚ elements (dom (mem r p)) ∧ holds s' (delete_step r l p)).
Proof.
  intros Hs. unfold RedisPresence.DeleteRoomPresence. apply young_bind; [later|].
  apply young_redis. eapply does_HGETALL; [done|]. intros s1 H1. cbn [as_map].
  set (l := range_order (elements (dom (mem r p)))).
  apply young_pipeline_tt, (del_users_run l _ (λ e s', match e with Some e => Err e | None => Ok tt end = Ok tt ∧
    ∃ l, l ≡ₚ elements (dom (mem r p)) ∧ holds s' (delete_step r l p)) s1 p H1). intros s2 H2.
  cbn [do_all]. eapply does_DEL_members; [done|]. intros n3 s3 H3.
  eapply (does_SREM true); [done|]. intros n4 s4 H4. eapply (does_SREM false); [done|]. intros n5 s5 H5.
  split; [done|]. exists l. split; [apply range_perm|]. by eapply holds_ext; [..|exact H5].
Qed.

(** ** The same map *)

(** The indexes agree up to what is marked as emptied. *)
Definition same_rooms (p p' : t) : Prop :=
  members p' = members p ∧ userRoom p' = userRoom p ∧ activeRooms p' = activeRooms p.

Lemma represents_same p p' A : same_rooms p p' →
  (∀ r, r ∈ pendingEmpty p' → members p !! r = None) → represents p A → represents p' A.
Proof.
  intros (E1 & E2 & E3) E4 [[W1 W2 W3 W4] HA]. unfold represents, member. rewrite E1. split; [|apply HA].
  split; unfold member; by rewrite ?E1, ?E2, ?E3.
Qed.

Lemma drop_present r u p : wf p → userRoom p !! u = Some r →
  same_rooms (removeMemberLocked r u p) (set_userRoom (delete u (userRoom p)) (drop_member r u p)) ∧
  pendingEmpty (drop_member r u p) = pendingEmpty (removeMemberLocked r u p).
Proof.
  intros Hwf Hu. assert (∃ m, members p !! r = Some m) as [m Hm].
  { apply (wf_userRoom p Hwf) in Hu as [n Hn]. unfold member in Hn. destruct (members p !! r); [by eexists|done]. }
  unfold same_rooms, removeMemberLocked, drop_member, mem. rewrite Hm. unfold default, id. cbv zeta.
  destruct (decide (delete u m = ∅)) as [He|He].
  - rewrite (bool_decide_true (size _ = 0%nat)) by by rewrite He.
    unfold put_members. rewrite decide_True by done. cbn. rewrite Hu. cbn. rewrite bool_decide_true by done.
    split; [|done]. split_and!; try done. cbn. by rewrite delete_insert_eq.
  - rewrite (bool_decide_false (size _ = 0%nat)) by by intros ?%map_size_empty_inv.
    unfold put_members. rewrite decide_False by done. cbn. rewrite Hu. cbn. by rewrite bool_decide_true.
Qed.
Lemma drop_absent r u p : wf p → userRoom p !! u = None →
  same_rooms p (set_userRoom (delete u (userRoom p)) (drop_member r u p)) ∧
  (∀ r', r' ∈ pendingEmpty (drop_member r u p) → members p !! r' = None).
Proof.
  intros Hwf Hu. assert (mem r p !! u = None) as Hn.
  { destruct (mem r p !! u) as [n|] eqn:E; [|done]. assert (userRoom p !! u = Some r); [|congruence].
    apply (wf_userRoom p Hwf). unfold member, mem in *. destruct (members p !! r) as [m|]; [by eexists|].
    unfold default in E. by rewrite lookup_empty in E. }
  unfold same_rooms, drop_member, put_members. rewrite (delete_id (mem r p)) by done. unfold mem.
  destruct (members p !! r) as [m|] eqn:Hm; cbn [default].
  - assert (m ≠ ∅) by by eapply wf_nonempty. rewrite !decide_False by done. cbn.
    split; [|apply wf_pending, Hwf]. split_and!; [by rewrite insert_id|by rewrite delete_id|done].
  - rewrite !decide_True by done. cbn. split.
    + split_and!; [by rewrite delete_id|by rewrite delete_id|].
      apply difference_disjoint_L, disjoint_singleton_r. rewrite (wf_active p Hwf), Hm. by intros [].
    + intros r' [->%elem_of_singleton|Hr']%elem_of_union; [done|by apply (wf_pending p Hwf)].
Qed.

Lemma represents_leave r u p A : represents p A → fst <$> A !! u ∈ [None; Some r] →
  represents (set_userRoom (delete u (userRoom p)) (drop_member r u p)) (Located.Leave r u A).
Proof.
  intros HA Hu. pose proof (represents_userRoom p A u HA) as Hr. rewrite <- Hr in Hu. destruct HA as [Hwf HA].
  unfold Located.Leave. apply list_elem_of_In in Hu as [Hu|[Hu|[]]]; rewrite <- Hu in Hr.
  - destruct (drop_absent r u p Hwf) as [Hs Hp]; [done|]. rewrite decide_False by by rewrite <- Hr.
    by apply (represents_same p).
  - destruct (drop_present r u p Hwf) as [Hs Hp]; [done|]. rewrite decide_True by done.
    apply (represents_same (removeMemberLocked r u p)); [done| |].
    + change (pendingEmpty (set_userRoom ?x ?q)) with (pendingEmpty q). rewrite Hp. by apply wf_pending, wf_remove.
    + pose proof (represents_Leave p A r u (conj Hwf HA)) as HL. unfold Located.Leave in HL.
      by rewrite decide_True in HL.
Qed.
Lemma represents_join r u n p A : represents p A → represents (join_step r u n p) (<[u := (r, n)]> A).
Proof.
  intros HA. pose proof (represents_Join p A r u n HA) as HJ. unfold join_step, leave_other in *.
  destruct HA as [Hwf _]. destruct (userRoom p !! u) as [prev|] eqn:Hu; [|done]. case_bool_decide; [|done].
  destruct (drop_present prev u p Hwf Hu) as [(E1 & E2 & E3) Ep]. cbn in E1, E2, E3.
  assert (userRoom (drop_member prev u p) = userRoom p) as E4 by (unfold drop_member; by case_decide).
  apply (represents_same (add_member r u n (removeMemberLocked prev u p))); [|..|done].
  - unfold same_rooms, add_member. cbn. rewrite E1, E3, E4, <- E2. by rewrite insert_delete_eq.
  - intros r' Hin. apply (wf_pending _ (proj1 HJ)). unfold add_member in *. cbn in *. by rewrite <- Ep.
Qed.
Lemma represents_delete r l p A : represents p A → l ≡ₚ elements (dom (mem r p)) →
  represents (delete_step r l p) (Located.Delete r A).
Proof.
  intros HA Hl. pose proof (represents_Delete p A r HA) as HD. destruct HA as [Hwf HA].
  apply (represents_same (delete_presence r p)); [|..|done].
  - split_and!; cbn.
    + by rewrite members_delete_presence.
    + apply map_eq. intros u. rewrite del_users_lookup, userRoom_delete_presence by done.
      assert (u ∈ l ↔ userRoom p !! u = Some r) as Hu.
      { rewrite Hl, elem_of_elements, elem_of_dom, (wf_userRoom p Hwf). unfold member, mem.
        destruct (members p !! r); cbn; [done|]. split; [|by intros []]. intros [? E]. unfold default in E.
        by rewrite lookup_empty in E. }
      repeat case_decide; tauto.
    + unfold delete_presence, MemPresence.DeleteRoomPresence. cbn. destruct (members p !! r) eqn:E; cbn; [done|].
      apply difference_disjoint_L, disjoint_singleton_r. rewrite (wf_active p Hwf), E. by intros [].
  - intros r' Hin. cbn in Hin. rewrite members_delete_presence. apply elem_of_difference in Hin as [Hin Hr].
    rewrite lookup_delete_ne by set_solver. by apply (wf_pending p Hwf).
Qed.

(** ** The calls *)

Definition redis_call `{!MapRange} (c : ctx) (k : MemPresence.call) (s : R) : answer * R :=
  match k with
  | CJoin r u n => answered ARoom (JoinRoom c r u n s)
  | CLeave r u => answered (λ _, ADone) (LeaveRoom c r u s)
  | CRemove r u => answered (λ _, ADone) (RemoveMember c r u s)
  | CDelete r => answered (λ _, ADone) (DeleteRoomPresence c r s)
  | CClearPending r => answered (λ _, ADone) (ClearPendingEmpty c r s)
  | CMembers r => answered AMembers (ListMembers c r s)
  | CCount r => answered ACount (MemberCount c r s)
  | CRoomOf u => answered ARoom (GetUserRoom c u s)
  | CRooms => answered ARooms (ListRoomsWithMembers c s)
  end.

(** A user leaves, or is removed from, no other room than his own; and a context
    fails with errors of its own. *)
Definition proper_call (c : ctx) (k : MemPresence.call) (A : Located.t) : bool :=
  match c, k with
  | Some e, _ => bool_decide (e ≠ ErrRedisNil)
  | None, (CLeave r u | CRemove r u) => bool_decide (fst <$> A !! u ∈ [None; Some r])
  | _, _ => true
  end.
Fixpoint proper_calls (ks : list (ctx * MemPresence.call)) (A : Located.t) : bool :=
  match ks with
  | [] => true
  | (c, k) :: ks => proper_call c k A && proper_calls ks (spec_call c k A).2
  end.

Lemma answered_young {A} (m : SM R A) (f : A → answer) s (Q : answer → R → Prop) :
  young m s (λ r s', Q match r with Ok a => f a | Err e => AFail e | Halt h => AHalt h end s') →
  clock (answered f (m s)).2 < T → Q (answered f (m s)).1 (answered f (m s)).2.
Proof. unfold young, answered. by destruct (m s) as [[a|e|h] s']. Qed.

Lemma represents_count p A r : represents p A → size (Located.InRoom r A) = size (mem r p).
Proof. intros HA. by rewrite (represents_InRoom p A r HA). Qed.

Lemma young_mono {A} (m : SM R A) s (Q Q' : result A → R → Prop) :
  young m s Q → (∀ r s', Q r s' → Q' r s') → young m s Q'.
Proof. unfold young. auto. Qed.
Lemma young_nil_as {A} (z : A) m s Q :
  young m s (λ r s', Q (match r with Err ErrRedisNil => Ok z | r => r end) s') → young (nil_as z m) s Q.
Proof. unfold young, nil_as. destruct (m s) as [[a|[]|h] s']; auto. Qed.

(** What a call gives, and that the indexes keep representing the map. *)
Definition gives (A' : Located.t) (a' : answer) (a : answer) (s : R) : Prop :=
  answer_agree a a' ∧ ∃ p, holds s p ∧ represents p A'.

Lemma redis_leave_refines r u s p A : holds s p → represents p A → fst <$> A !! u ∈ [None; Some r] →
  young (removeMember None r u) s (λ x s',
    gives (Located.Leave r u A) ADone
      match x with Ok _ => ADone | Err e => AFail e | Halt h => AHalt h end s').
Proof.
  intros Hs HA Hu. eapply young_mono; [by apply removeMember_run|]. intros x s' [-> H']. split; [constructor|].
  eexists. split; [exact H'|by apply represents_leave].
Qed.
Lemma left_room_spec r u n p A : represents p A → left_room r u p = (Located.Join r u n A).1.
Proof.
  intros HA. unfold left_room, Located.Join. rewrite (represents_userRoom p A u HA).
  destruct (A !! u) as [[r0 n0]|]; [|done]. cbn. case_bool_decide; case_decide; done.
Qed.

Lemma redis_call_live `{!MapRange} k s p A : holds s p → represents p A → proper_call None k A = true →
  clock (redis_call None k s).2 < T →
  gives (spec_call None k A).2 (spec_call None k A).1 (redis_call None k s).1 (redis_call None k s).2.
Proof.
  intros Hs HA Hown.
  destruct k as [r u n|r u|r u|r|r|r|r|u|]; apply answered_young; cbn [spec_call proper_call] in *.
  - eapply young_mono; [by apply JoinRoom_run|]. intros x s' [-> H'].
    rewrite (left_room_spec r u n p A HA). unfold Located.Join. cbn [fst snd]. split; [constructor|].
    eexists. split; [exact H'|by apply represents_join].
  - apply bool_decide_eq_true in Hown. by eapply redis_leave_refines.
  - apply bool_decide_eq_true in Hown. by eapply redis_leave_refines.
  - eapply young_mono; [by apply delete_run|]. intros x s' (-> & l & Hl & H'). split; [constructor|].
    eexists. split; [exact H'|by apply represents_delete].
  - apply young_redis. eapply (does_SREM false); [done|]. intros m s' H'. split; [constructor|].
    eexists. split; [exact H'|]. eapply represents_ext; [..|exact HA]; try done. cbn. set_solver.
  - apply young_bind; [later|]. apply young_redis. eapply does_HGETALL; [done|]. intros s' H'.
    apply young_ret. cbn [fst snd]. split; [|by eexists]. apply agree_members.
    rewrite range_perm, (represents_InRoom p A r HA). apply (map_to_list_of_dom _ RoomMember.mk).
  - apply young_redis. eapply does_HLEN; [done|]. intros s' H'. cbn [as_int fst snd].
    rewrite (represents_count p A r HA). split; [constructor|by eexists].
  - apply young_nil_as, young_redis. eapply does_GET; [done|]. intros s' H'.
    rewrite (represents_RoomOf p A u HA). cbn [fst snd]. split; [|by eexists].
    destruct (userRoom p !! u); constructor.
  - apply young_redis. eapply (does_SMEMBERS true); [done|]. intros l s' H' Hl. cbn [as_list fst snd].
    split; [|by eexists]. apply agree_rooms. rewrite Hl.
    apply NoDup_Permutation; [apply NoDup_elements..|]. intros r.
    rewrite !elem_of_elements. symmetry. by apply represents_Rooms.
Qed.

Lemma redis_call_dead `{!MapRange} e k s : e ≠ ErrRedisNil → redis_call (Some e) k s = (AFail e, s).
Proof. intros He. destruct k; try done. cbn. unfold RedisPresence.GetUserRoom, nil_as. cbn. by destruct e. Qed.
Lemma redis_call_later `{!MapRange} c k s : clock s ≤ clock (redis_call c k s).2.
Proof.
  assert (∀ B (m : SM R B) (f : B → answer), keeps later m → clock s ≤ clock (answered f (m s)).2) as Hm.
  { intros B m f Hk. specialize (Hk s). unfold later, answered in *. by destruct (m s) as [[a|e|h] s']. }
  destruct k; apply Hm.
  - unfold RedisPresence.JoinRoom, guard_ctx, joinScriptMigrate. later.
  - unfold RedisPresence.LeaveRoom, removeMember. later.
  - unfold RedisPresence.RemoveMember, removeMember. later.
  - unfold RedisPresence.DeleteRoomPresence. later.
  - unfold RedisPresence.ClearPendingEmpty. later.
  - unfold RedisPresence.ListMembers. later.
  - unfold RedisPresence.MemberCount. later.
  - apply nil_as_later. later.
  - unfold RedisPresence.ListRoomsWithMembers. later.
Qed.
Lemma redis_calls_later `{!MapRange} ks : ∀ s, clock s ≤ clock (run_calls redis_call ks s).2.
Proof.
  induction ks as [|[c k] ks IH]; intros s; cbn [run_calls]; [cbn; lia|].
  pose proof (redis_call_later c k s) as H1. destruct (redis_call c k s) as [a s1]. specialize (IH s1).
  destruct (run_calls redis_call ks s1). cbn in *. lia.
Qed.

Lemma redis_calls_refine `{!MapRange} ks : ∀ s p A, holds s p → represents p A → proper_calls ks A = true →
  clock (run_calls redis_call ks s).2 < T →
  Forall2 answer_agree (run_calls redis_call ks s).1 (run_calls spec_call ks A).1 ∧
  ∃ p', holds (run_calls redis_call ks s).2 p' ∧ represents p' (run_calls spec_call ks A).2.
Proof.
  induction ks as [|[c k] ks IH]; intros s p A Hs HA Hown Ht; cbn [run_calls proper_calls] in *; [by eauto|].
  apply andb_true_iff in Hown as [Hk Hks].
  assert (clock (redis_call c k s).2 < T → gives (spec_call c k A).2 (spec_call c k A).1
            (redis_call c k s).1 (redis_call c k s).2) as Hg.
  { destruct c as [e|]; [|by eapply redis_call_live]. intros _. apply bool_decide_eq_true in Hk.
    rewrite redis_call_dead by done.
    split; [destruct k; constructor|]. exists p. split; [done|by destruct k]. }
  destruct (redis_call c k s) as [a s1], (spec_call c k A) as [a' A1]. cbn [fst snd] in *.
  pose proof (redis_calls_later ks s1) as Hle. specialize (IH s1).
  destruct (run_calls redis_call ks s1) as [l s2], (run_calls spec_call ks A1) as [l' A2] eqn:E. cbn [fst snd] in *.
  destruct Hg as (Ha & p1 & Hs1 & HA1); [lia|]. destruct (IH p1 A1) as (Hl & Hp); [done..|]. rewrite E in *.
  split; [by constructor|done].
Qed.
End members.

(** ** The theorems *)

Section theorems.
Context `{!RedisServer R, !RedisLaws R, !MapRange}.

(** Nobody is in a room. *)
Definition no_presence (s : R) : Prop :=
  (∀ r, seen s !! membersKey r = None) ∧ (∀ u, seen s !! userRoomKey u = None) ∧
  seen s !! keyActiveRooms = None ∧ seen s !! keyPendingEmpty = None.
Lemma no_presence_holds T s : no_presence s → T ≤ clock s + roomMemberTTL → holds T s New.
Proof.
  intros (H1 & H2 & H3 & H4) HT. split; [|exact HT]. split.
  - intros r. by rewrite H1.
  - intros u. by rewrite H2.
  - intros [|]; cbn; [by rewrite H3|by rewrite H4].
Qed.

(** C2: in the first seven days of a Redis presence every sequence of calls, each
    under a live or a cancelled context, is answered as the map from users to the
    one room each is in answers, like the in-memory presence, provided a user only
    leaves, or is removed from, the room he is in. *)
Theorem redis_presence_refines_located ks s :
  no_presence s → proper_calls ks ∅ = true →
  clock (run_calls redis_call ks s).2 < clock s + roomMemberTTL →
  Forall2 answer_agree (run_calls redis_call ks s).1 (run_calls spec_call ks ∅).1.
Proof.
  intros Hs Hks Ht. eapply (redis_calls_refine (clock s + roomMemberTTL)); [..|exact Ht]; [|apply represents_New|done].
  apply no_presence_holds; [done|]. reflexivity.
Qed.

(** A run, call by call. *)
Fixpoint calls_do (T : time) (ks : list (ctx * MemPresence.call)) (s : R) (Q : list answer → Prop) : Prop :=
  match ks with
  | [] => Q []
  | (c, k) :: ks =>
      clock (redis_call c k s).2 < T →
      calls_do T ks (redis_call c k s).2 (λ l, Q ((redis_call c k s).1 :: l))
  end.
Lemma calls_do_run T ks : ∀ s Q, calls_do T ks s Q →
  clock (run_calls redis_call ks s).2 < T → Q (run_calls redis_call ks s).1.
Proof.
  induction ks as [|[c k] ks IH]; intros s Q HQ Ht; [done|]. cbn [calls_do run_calls] in *.
  destruct (redis_call c k s) as [a s1]. pose proof (redis_calls_later ks s1) as Hle. cbn [fst snd] in *.
  specialize (IH s1 (λ l, Q (a :: l))). destruct (run_calls redis_call ks s1) as [l s2]. cbn [fst snd] in *.
  apply IH; [|done]. apply HQ. lia.
Qed.
Lemma do_join T r u n ks s p Q : holds T s p →
  (∀ s', holds T s' (join_step r u n p) → calls_do T ks s' (λ l, Q (ARoom (left_room r u p) :: l))) →
  calls_do T ((None, CJoin r u n) :: ks) s Q.
Proof.
  intros Hs HQ. cbn [calls_do redis_call]. apply (answered_young T _ _ _ (λ a s', calls_do T ks s' (λ l, Q (a :: l)))).
  eapply young_mono; [by apply JoinRoom_run|]. intros x s' [-> H']. by apply HQ.
Qed.
Lemma do_leave T r u ks s p Q : holds T s p →
  (∀ s', holds T s' (set_userRoom (delete u (userRoom p)) (drop_member r u p)) →
     calls_do T ks s' (λ l, Q (ADone :: l))) →
  calls_do T ((None, CLeave r u) :: ks) s Q.
Proof.
  intros Hs HQ. cbn [calls_do redis_call]. apply (answered_young T _ _ _ (λ a s', calls_do T ks s' (λ l, Q (a :: l)))).
  eapply young_mono; [by apply removeMember_run|]. intros x s' [-> H']. by apply HQ.
Qed.
Lemma do_room T u ks s p Q : holds T s p →
  (∀ s', holds T s' p → calls_do T ks s' (λ l, Q (ARoom (default "" (userRoom p !! u)) :: l))) →
  calls_do T ((None, CRoomOf u) :: ks) s Q.
Proof.
  intros Hs HQ. cbn [calls_do redis_call]. apply (answered_young T _ _ _ (λ a s', calls_do T ks s' (λ l, Q (a :: l)))).
  apply young_nil_as, young_redis. eapply does_GET; [done|]. intros s' H'. specialize (HQ s' H').
  by destruct (userRoom p !! u).
Qed.
Lemma do_members T r u n ks s p Q : holds T s p → mem r p = {[u := n]} →
  (∀ s', holds T s' p → calls_do T ks s' (λ l, Q (AMembers [RoomMember.mk u n] :: l))) →
  calls_do T ((None, CMembers r) :: ks) s Q.
Proof.
  intros Hs Hm HQ. cbn [calls_do redis_call]. apply (answered_young T _ _ _ (λ a s', calls_do T ks s' (λ l, Q (a :: l)))).
  apply young_bind; [intros a; apply (keeps_ret later)|]. apply young_redis. eapply does_HGETALL; [done|]. intros s' H'.
  apply young_ret. rewrite Hm, dom_singleton_L, elements_singleton.
  assert (range_order [u] = [u]) as -> by apply Permutation_singleton_r, range_perm.
  cbn. rewrite lookup_singleton_eq. by apply HQ.
Qed.

Lemma mem_add r r' u n p :
  mem r' (add_member r u n p) = if decide (r' = r) then <[u := n]> (mem r p) else mem r' p.
Proof.
  unfold mem, add_member. cbn. case_decide as Hr.
  - subst. rewrite lookup_insert_eq. cbn. by destruct (members p !! r).
  - by rewrite lookup_insert_ne.
Qed.

(** C37: a user who leaves a room he is not in stays a member of his own, but has
    no room any more, so that joining a third does not take him out of it: he is then
    a member of two rooms. *)
Theorem leave_elsewhere_splits r1 r2 r3 u n s :
  no_presence s → r2 ≠ r1 → r3 ≠ r1 →
  let '(l, s') := run_calls redis_call
    [(None, CJoin r1 u n); (None, CLeave r2 u); (None, CRoomOf u); (None, CJoin r3 u n);
     (None, CMembers r1); (None, CMembers r3)] s in
  clock s' < clock s + roomMemberTTL →
  l = [ARoom ""; ADone; ARoom ""; ARoom ""; AMembers [RoomMember.mk u n]; AMembers [RoomMember.mk u n]].
Proof.
  intros Hs H2 H3. set (ks := [_; _; _; _; _; _]). set (T := clock s + roomMemberTTL).
  pose proof (calls_do_run T ks s (λ l, l = [ARoom ""; ADone; ARoom ""; ARoom "";
    AMembers [RoomMember.mk u n]; AMembers [RoomMember.mk u n]])) as Hrun.
  destruct (run_calls redis_call ks s) as [l s']. intros Ht. apply Hrun; [clear Hrun|exact Ht]. unfold ks.
  eapply do_join; [apply no_presence_holds; [done|reflexivity]|]. intros s1 Hs1.
  eapply do_leave; [done|]. intros s2 Hs2. eapply do_room; [done|]. intros s3 Hs3.
  eapply do_join; [done|]. intros s4 Hs4. set (p2 := set_userRoom _ _) in *.
  assert (userRoom p2 !! u = None) as Hu by apply lookup_delete_eq.
  assert (members p2 = {[r1 := {[u := n]}]}) as Hm.
  { unfold p2, join_step. change (userRoom New !! u) with ((∅ : gmap string string) !! u). rewrite lookup_empty.
    unfold drop_member, mem, put_members, add_member. cbn.
    rewrite insert_empty, lookup_singleton_ne by done. cbn. rewrite delete_empty, !decide_True by done. cbn.
    by rewrite delete_singleton_ne. }
  assert (join_step r3 u n p2 = add_member r3 u n p2) as Ej by (unfold join_step; by rewrite Hu).
  rewrite Ej in Hs4. assert (left_room r3 u p2 = "") as -> by (unfold left_room; by rewrite Hu). rewrite Hu.
  clearbody p2. eapply do_members; [exact Hs4| |].
  { rewrite mem_add, decide_False by done. unfold mem. by rewrite Hm, lookup_singleton_eq. }
  intros s5 Hs5. eapply do_members; [exact Hs5| |done].
  rewrite mem_add, decide_True by done. unfold mem. by rewrite Hm, lookup_singleton_ne.
Qed.
End theorems.

(** ** Runs *)

Definition quiet : Keyspace.t := Keyspace.mk (1700000000 * Second) ∅.
Lemma quiet_no_presence : no_presence quiet.
Proof.
  assert (∀ k, seen quiet !! k = None) as Hk by (intros k; by apply live_none, lookup_empty).
  split_and!; intros; apply Hk.
Qed.

Lemma redis_presence_refines_located_witness :
  proper_calls visit ∅ = true ∧
  (run_calls redis_call visit quiet).1 =
    [ARoom ""; ARoom ""; ARoom "a"; AFail (ErrNew "canceled"); ADone; ADone; ARooms ["a"]] ∧
  Forall2 answer_agree (run_calls redis_call visit quiet).1 (run_calls spec_call visit ∅).1.
Proof.
  split; [by vm_compute|]. split; [by vm_compute|].
  apply (redis_presence_refines_located visit quiet quiet_no_presence); by vm_compute.
Defined.

(** The map would list nobody in room "a" at the end. *)
Lemma leave_elsewhere_splits_witness :
  (run_calls redis_call
    [(None, CJoin "a" "u1" "ann"); (None, CLeave "b" "u1"); (None, CRoomOf "u1"); (None, CJoin "b" "u1" "ann");
     (None, CMembers "a"); (None, CMembers "b")] quiet).1 =
    [ARoom ""; ADone; ARoom ""; ARoom ""; AMembers [RoomMember.mk "u1" "ann"]; AMembers [RoomMember.mk "u1" "ann"]] ∧
  (run_calls spec_call
    [(None, CJoin "a" "u1" "ann"); (None, CLeave "b" "u1"); (None, CRoomOf "u1"); (None, CJoin "b" "u1" "ann");
     (None, CMembers "a"); (None, CMembers "b")] ∅).1 =
    [ARoom ""; ADone; ARoom "a"; ARoom "a"; AMembers []; AMembers [RoomMember.mk "u1" "ann"]].
Proof.
  split; [|by vm_compute].
  pose proof (leave_elsewhere_splits "a" "b" "b" "u1" "ann" quiet quiet_no_presence ltac:(done) ltac:(done)) as H.
  set (ks := [_; _; _; _; _; _]) in *.
  assert (clock (run_calls redis_call ks quiet).2 < clock quiet + roomMemberTTL) as Ht by by vm_compute.
  destruct (run_calls redis_call ks quiet) as [l s']. exact (H Ht).
Defined.
