(* ===== verification/RedisChat.v ===== *)
(** * The Redis chat backend

    [internal/cache/redis/room_chat.go]: the messages of a room in a stream, their
    numbers from a counter, the ids whose publication is pending in a sorted set
    by time, and a counter per user and second.  The contract [RoomChatContract]
    is discharged over any server that obeys [RedisLaws]. *)

From S2P Require Import Prelude GoStrings GoNum GoParse Interfaces MemCaches Redis.
From Stdlib Require Import Sorted.
#[local] Open Scope Z_scope.

Module RedisChat.
Section chat.
Context `{!RedisServer R}.

Definition chatStreamKey (roomID : string) : string := "room:chat:stream:" +:+ roomID.
Definition chatSeqKey (roomID : string) : string := "room:chat:seq:" +:+ roomID.
Definition roomChatPendingPrefix : string := "room:chat:ably_pending:".
Definition chatPendingKey (roomID : string) : string := roomChatPendingPrefix +:+ roomID.
Definition chatRateKey (roomID userID : string) : string :=
  "room:chat:ratelimit:" +:+ roomID +:+ ":" +:+ userID.

Definition PendingCount (c : ctx) (roomID : string) : SM R Z :=
  redis c (ZCARD (chatPendingKey roomID)) as_int.

Definition NextSeq (c : ctx) (roomID : string) : SM R Z :=
  redis c (INCRBY (chatSeqKey roomID) 1) as_int.

Definition AppendMessage (c : ctx) (_ : time) (roomID : string) (seq : Z) (payloadJSON : string)
    (streamMaxLen : Z) : SM R string :=
  redis c (XADD (chatStreamKey roomID) (if 0 <? streamMaxLen then Some streamMaxLen else None)
             {["seq" := FormatInt seq; "payload" := payloadJSON]}) as_string.

Definition message_of (m : string * gmap string string) : RoomChatMessage.t :=
  RoomChatMessage.mk m.1 (ParseInt_or_zero (default "" (m.2 !! "seq")))
    (default "" (m.2 !! "payload")).

Definition ListMessagesRev (c : ctx) (roomID beforeID : string) (limit : Z)
    : SM R (list RoomChatMessage.t) :=
  let limit := if limit <=? 0 then 50 else limit in
  let limit := if 200 <? limit then 200 else limit in
  let before := if bool_decide (TrimSpace beforeID = "") then None else Some beforeID in
  raw ← redis c (XREVRANGE (chatStreamKey roomID) before limit) as_stream;
  mret (message_of <$> raw).

Definition GetPayload (c : ctx) (roomID streamID : string) : SM R string :=
  msgs ← redis c (XRANGE (chatStreamKey roomID) streamID streamID) as_stream;
  match msgs with
  | [] => throw ErrRedisNil
  | m :: _ => mret (default "" (m.2 !! "payload"))
  end.

Definition EnqueuePending (c : ctx) (now : time) (roomID streamID : string) : SM R unit :=
  redis c (ZADD (chatPendingKey roomID) (Unix now) streamID) as_unit.

Definition RemovePending (c : ctx) (roomID streamID : string) : SM R unit :=
  redis c (ZREM (chatPendingKey roomID) streamID) as_unit.

Definition PendingStreamIDs (c : ctx) (roomID : string) (max : Z) : SM R (list string) :=
  let max := if max <=? 0 then 50 else max in
  redis c (ZRANGE (chatPendingKey roomID) 0 (max - 1)) as_list.

Definition DeleteRoom (c : ctx) (roomID : string) : SM R unit :=
  _ ← pipeline c [DEL (chatStreamKey roomID); DEL (chatSeqKey roomID); DEL (chatPendingKey roomID)];
  mret tt.

Definition AllowChatSend (c : ctx) (roomID userID : string) (maxPerSecond : Z) : SM R bool :=
  if maxPerSecond <=? 0 then mret true
  else
    let key := chatRateKey roomID userID in
    n ← redis c (INCRBY key 1) as_int;
    _ ← (if n =? 1 then ignore (redis c (EXPIRE key (expire_ttl Second)) as_unit) else mret tt);
    mret (n <=? maxPerSecond).

Definition ScanPendingRooms (c : ctx) (cursor count : Z) : SM R (list string * Z) :=
  let count := if count <=? 0 then 50 else count in
  redis c (SCAN cursor roomChatPendingPrefix count) as_scan.

#[global] Instance iface : RoomChat R := {
  PendingCount := PendingCount;
  NextSeq := NextSeq;
  AppendMessage := AppendMessage;
  ListMessagesRev := ListMessagesRev;
  GetPayload := GetPayload;
  EnqueuePending := EnqueuePending;
  RemovePending := RemovePending;
  PendingStreamIDs := PendingStreamIDs;
  DeleteRoom := DeleteRoom;
  AllowChatSend := AllowChatSend;
  ScanPendingRooms := ScanPendingRooms;
}.
End chat.
End RedisChat.

(** ** Stream ids *)

Definition id_nonneg (i : stream_id) : Prop := 0 ≤ i.1 ∧ 0 ≤ i.2.

Lemma format_nonneg n : 0 ≤ n → ∃ ds, FormatInt n = of_bytes ds ∧ digits_from 0 ds = Some n ∧
  Forall (λ a, ∃ d, 0 ≤ d < 10 ∧ a = digit_char d) ds.
Proof.
  intros Hn. unfold FormatInt. destruct (Z.ltb_spec n 0); [lia|]. eexists. split; [done|].
  destruct (format_digits_correct (S (Z.to_nat (Z.log2 n))) n) as [Hd _].
  - split; [done|]. rewrite Nat2Z.inj_succ, Z2Nat.id by apply Z.log2_nonneg.
    destruct (Z.eq_dec n 0) as [->|]; [done|]. apply Z.log2_spec. lia.
  - lia.
  - split; [done|]. by apply format_digits_chars.
Qed.
Lemma cut_digits c ds rest :
  Forall (λ a, ∃ d, 0 ≤ d < 10 ∧ a = digit_char d) ds → (∀ d, 0 ≤ d < 10 → Ascii.eqb (digit_char d) c = false) →
  cut_byte c (ds ++ c :: rest) = Some (ds, rest).
Proof.
  intros Hds Hc. induction Hds as [|a ds (d & Hd & ->) _ IH]; cbn [app cut_byte].
  - by rewrite Ascii.eqb_refl.
  - rewrite Hc by done. by rewrite IH.
Qed.
Lemma read_show i : id_nonneg i → read_id (show_id i) = Some i.
Proof.
  destruct i as [a b]. intros [Ha Hb]. cbn [fst snd] in *. unfold read_id, show_id. cbn [fst snd].
  destruct (format_nonneg a Ha) as (da & Ea & Da & Fa). destruct (format_nonneg b Hb) as (db & Eb & Db & Fb).
  assert (to_bytes (FormatInt a +:+ "-" +:+ FormatInt b) = da ++ Ascii.ascii_of_N 45 :: db) as ->.
  { rewrite !to_bytes_app, Ea, Eb, !to_of_bytes. done. }
  rewrite cut_digits; [|done|].
  - rewrite Da, Db. cbn [mbind option_bind]. by rewrite bool_decide_true.
  - intros d Hd. assert (d ∈ seqZ 0 10) as Hin by (apply elem_of_seqZ; lia).
    revert d Hd Hin. intros d _ Hin. cbn in Hin.
    repeat (apply elem_of_cons in Hin as [->|Hin]; [reflexivity|]). by apply not_elem_of_nil in Hin.
Qed.
Lemma show_inj i j : id_nonneg i → id_nonneg j → show_id i = show_id j → i = j.
Proof. intros Hi Hj He. apply read_show in Hi, Hj. congruence. Qed.

Lemma id_lt_trans i j k : id_lt i j = true → id_lt j k = true → id_lt i k = true.
Proof. unfold id_lt. intros. lia. Qed.
Lemma id_lt_irrefl i : id_lt i i = false.
Proof. unfold id_lt. lia. Qed.
Lemma next_id_spec now last : id_nonneg last → id_nonneg (next_id now last) ∧ id_lt last (next_id now last) = true.
Proof.
  unfold next_id, id_nonneg, id_lt. intros [? ?]. cbv zeta.
  destruct (Z.ltb_spec last.1 (now / Millisecond)), (Z.ltb_spec last.2 (2 ^ 64 - 1)); cbn [fst snd]; lia.
Qed.

(** ** The contract *)

(** The key a command may write. *)
Definition writes (cmd : rcmd) : option string :=
  match cmd with
  | SET k _ _ | SETNX k _ _ | DEL k | INCRBY k _ | EXPIRE k _ | HSET k _ | HDEL k _ | SADD k _
  | SREM k _ | ZADD k _ _ | ZREM k _ | XADD k _ _ => Some k
  | _ => None
  end.
Lemma exec_other now cmd L k : writes cmd ≠ Some k → (exec now cmd L).2 !! k = L !! k.
Proof.
  intros Hk. assert (∀ k' : string, Some k' ≠ Some k → k' ≠ k) as Hne by naive_solver.
  destruct cmd; cbn [writes] in Hk; cbn [exec]; repeat case_match; cbn [snd]; try done;
    unfold put_hash, put_set, put_zset; repeat case_decide;
    first [by rewrite lookup_insert_ne by auto | by rewrite lookup_delete_ne by auto].
Qed.
Lemma settles_other cmd L L' k : writes cmd ≠ Some k → settles cmd L L' → L' !! k = L !! k.
Proof.
  intros Hk. unfold settles. destruct cmd; try (intros ->; done). destruct maxlen; [|intros ->; done].
  intros (n & _ & ->). unfold trim_stream. cbn [writes] in Hk. repeat case_match; try done.
  by rewrite lookup_insert_ne by naive_solver.
Qed.
Lemma live_immortal t (L : keyspace) k :
  (∀ e, L !! k = Some e → e.2 = None) → live t L !! k = L !! k.
Proof.
  intros He. destruct (L !! k) as [[x e]|] eqn:E; [|by apply live_none].
  apply live_lookup. split; [done|]. specialize (He _ eq_refl). cbn in He. by subst.
Qed.

Module ChatKeys.
Import RedisChat.

(** What the keys of a room show, and their shape. *)
Definition log_of (v : option entry) : list RoomChatMessage.t :=
  match v with Some (VStream x, _) => message_of <$> shown (stream_entries x) | _ => [] end.
Definition outbox_of (v : option entry) : list string :=
  match v with Some (VZset m, _) => zset_list m | _ => [] end.
Definition seq_of (v : option entry) : Z :=
  match v with Some (VStr t, _) => default 0 (ParseInt t) | _ => 0 end.
Definition view (L : keyspace) (r : string) : CH :=
  ChatView.mk (log_of (L !! chatStreamKey r)) (outbox_of (L !! chatPendingKey r))
    (seq_of (L !! chatSeqKey r)).

Definition newer_first (l : list (stream_id * gmap string string)) : Prop :=
  StronglySorted (λ a b, id_lt b.1 a.1 = true) l.
Definition stream_ok (x : stream) : Prop :=
  id_nonneg (last_id x) ∧ newer_first (stream_entries x) ∧
  Forall (λ e, id_nonneg e.1 ∧ id_lt (last_id x) e.1 = false) (stream_entries x).
Definition log_ok (v : option entry) : Prop :=
  match v with None => True | Some (VStream x, None) => stream_ok x | _ => False end.
Definition outbox_ok (v : option entry) : Prop :=
  match v with None | Some (VZset _, None) => True | _ => False end.
Definition seq_ok (v : option entry) : Prop :=
  match v with None => True
  | Some (VStr t, None) => ∃ n, ParseInt t = Some n ∧ 0 ≤ n | _ => False end.
Definition room_ok (L : keyspace) (r : string) : Prop :=
  log_ok (L !! chatStreamKey r) ∧ outbox_ok (L !! chatPendingKey r) ∧ seq_ok (L !! chatSeqKey r).
Definition ok (L : keyspace) : Prop := ∀ r, room_ok L r.

(** The keys of a room, in two keyspaces. *)
Definition same_keys (r : string) (L L' : keyspace) : Prop :=
  L' !! chatStreamKey r = L !! chatStreamKey r ∧ L' !! chatPendingKey r = L !! chatPendingKey r ∧
  L' !! chatSeqKey r = L !! chatSeqKey r.
Lemma same_keys_view r L L' : same_keys r L L' → view L' r = view L r ∧ (room_ok L r → room_ok L' r).
Proof. unfold same_keys, view, room_ok. by intros (-> & -> & ->). Qed.
Lemma same_keys_live r t L : room_ok L r → same_keys r L (live t L).
Proof.
  intros (Hl & Ho & Hs). unfold same_keys. split_and!; apply live_immortal; intros [v e] He;
    rewrite He in *; by destruct v, e.
Qed.
Lemma same_keys_trans r L1 L2 L3 : same_keys r L1 L2 → same_keys r L2 L3 → same_keys r L1 L3.
Proof. unfold same_keys. intuition congruence. Qed.

(** Commands on the keys of a room, or on others. *)
Definition on_room (r : string) (k : string) : Prop :=
  k = chatStreamKey r ∨ k = chatPendingKey r ∨ k = chatSeqKey r.
Definition elsewhere (k : string) : Prop := ∀ r, ¬ on_room r k.
Lemma on_room_one r r' k : on_room r k → on_room r' k → r = r'.
Proof.
  unfold on_room, chatStreamKey, chatPendingKey, roomChatPendingPrefix, chatSeqKey.
  intros [->|[->| ->]] [Hk|[Hk|Hk]]; try discriminate; by apply (inj (String.append _)) in Hk.
Qed.
Lemma rate_elsewhere r u : elsewhere (chatRateKey r u).
Proof. intros r' [Hk|[Hk|Hk]]; discriminate. Qed.

Lemma command_elsewhere t cmd L L' r :
  (∀ k, writes cmd = Some k → ¬ on_room r k) →
  settles cmd (exec t cmd L).2 L' → same_keys r L L'.
Proof.
  intros Hw Hs. assert (∀ k, on_room r k → L' !! k = L !! k) as Hk.
  { intros k Hk. assert (writes cmd ≠ Some k) by (intros Hc; by apply (Hw k)).
    rewrite (settles_other _ _ _ _ ltac:(done) Hs). by apply exec_other. }
  unfold same_keys. split_and!; apply Hk; unfold on_room; auto.
Qed.

Section contract.
Context `{!RedisServer R, !RedisLaws R}.

Definition wf (s : R) : Prop := ok (seen s).
Definition shows (s : R) (r : string) : CH := view (seen s) r.

(** A command on the keys of a room, if it keeps their shape, works on that room. *)
Lemma redis_room_law {A} c r cmd (dec : reply → result A) post :
  (∀ k, writes cmd = Some k → on_room r k) →
  (∀ t L rep L', room_ok L r → agrees cmd (exec t cmd L).1 rep → settles cmd (exec t cmd L).2 L' →
     room_ok L' r ∧ post (view L r) (dec rep) (view L' r)) →
  room_law wf shows c r (redis c cmd dec) post.
Proof.
  intros Hw Hc s Hs. destruct c as [e|]; [by split_and!|].
  destruct (redis_seen cmd dec s) as (rep & s' & -> & _ & Ha & Hset).
  set (L := live (clock s') (seen s)) in *. unfold wf, shows in *.
  assert (∀ r', same_keys r' (seen s) L) as Hlive by (intros r'; by apply same_keys_live).
  assert (∀ r', r' ≠ r → same_keys r' (seen s) (seen s')) as Hother.
  { intros r' Hr'. eapply same_keys_trans; [apply Hlive|]. eapply command_elsewhere; [|exact Hset].
    intros k Hk Hon. apply Hr'. eapply on_room_one; [exact Hon|by apply Hw]. }
  destruct (same_keys_view r _ _ (Hlive r)) as [HvL HokL].
  destruct (Hc (clock s') L rep (seen s') (HokL (Hs r)) Ha Hset) as [Hok Hp]. rewrite HvL in Hp.
  split_and!; [|intros r' Hr'; by apply same_keys_view, Hother|done].
  intros r'. destruct (decide (r' = r)) as [->|Hne]; [done|]. by apply (same_keys_view r' _ _ (Hother r' Hne)).
Qed.

(** Commands that write none of the rooms' keys. *)
Lemma redis_reads {A} c cmd (dec : reply → result A) s :
  (∀ k, writes cmd = Some k → elsewhere k) → wf s →
  wf (redis c cmd dec s).2 ∧ ∀ r, shows (redis c cmd dec s).2 r = shows s r.
Proof.
  intros Hw Hs. destruct c as [e|]; [done|].
  destruct (redis_seen cmd dec s) as (rep & s' & -> & _ & _ & Hset). cbn [snd]. unfold wf, shows in *.
  assert (∀ r, same_keys r (seen s) (seen s')) as Hsame.
  { intros r. eapply same_keys_trans; [by apply same_keys_live|]. eapply command_elsewhere; [|exact Hset].
    intros k Hk. by apply Hw. }
  split; intros r; by apply (same_keys_view r _ _ (Hsame r)).
Qed.

(** A pure end of a method. *)
Lemma room_law_map {S A B} wf' (view' : S → string → CH) c r (m : SM S A) (f : A → result B) post :
  room_law wf' view' c r m post →
  room_law wf' view' c r (a ← m; of_result (f a)) (λ v y v', ∃ x, post v x v' ∧
    y = match x with Ok a => f a | Err e => Err e | Halt h => Halt h end).
Proof.
  intros Hm s Hs. specialize (Hm s Hs). unfold mbind, SM_bind, of_result.
  destruct (m s) as [[a|e|h] s']; destruct Hm as (? & ? & Hc); (split; [done|]; split; [done|]);
    destruct c as [e'|]; first [by eexists | destruct Hc as [Hc ?]; by simplify_eq].
Qed.
Lemma room_law_weaken {S A} wf' (view' : S → string → CH) c r (m m' : SM S A) (post post' : CH → result A → CH → Prop) :
  room_law wf' view' c r m post → (∀ s, m s = m' s) → (∀ v x v', post v x v' → post' v x v') →
  room_law wf' view' c r m' post'.
Proof.
  intros Hm Heq Hp s Hs. specialize (Hm s Hs). rewrite <- Heq. destruct (m s) as [x s'].
  destruct Hm as (? & ? & ?). split_and!; [done..|]. destruct c; [done|by apply Hp].
Qed.

(** The streams. *)
Lemma stream_ids_distinct x : stream_ok x → NoDup (show_id ∘ fst <$> stream_entries x).
Proof.
  intros (_ & Hs & Hn). induction Hs as [|e l Hl IH He]; [constructor|].
  apply list.Forall_cons in Hn as [[Hi _] Hn]. cbn [fmap list_fmap]. constructor; [|by apply IH].
  intros (e' & Heq & He')%list_elem_of_fmap. apply list.Forall_forall with (x := e') in He; [|done].
  apply list.Forall_forall with (x := e') in Hn; [|done]. destruct Hn as [Hi' _].
  apply show_inj in Heq; [|done..]. rewrite Heq, id_lt_irrefl in He. done.
Qed.
Lemma log_ids x : RoomChatMessage.StreamID <$> log_of (Some (VStream x, None)) = show_id ∘ fst <$> stream_entries x.
Proof. unfold log_of, shown. rewrite <- !list_fmap_compose. by apply list_fmap_ext. Qed.

Lemma count_law c r : room_law wf shows c r (RedisChat.PendingCount c r)
  (λ v x v', x = Ok (Z.of_nat (length (ChatView.outbox v))) ∧ v' = v).
Proof.
  apply redis_room_law; [done|]. intros t L rep L' Hok Ha Hs. cbn [settles exec snd fst] in *. subst L'.
  split; [done|]. destruct Hok as (_ & Ho & _). unfold view. cbn [ChatView.outbox].
  destruct (L !! chatPendingKey r) as [[[] []]|]; try done; cbn in Ha; subst rep; cbn; [|done].
  by rewrite zset_list_length.
Qed.

Lemma seq_law c r : room_law wf shows c r (RedisChat.NextSeq c r)
  (λ v x v', let n := ChatView.seq v + 1 in
     (x = Ok n ∧ 0 < n ≤ max_int64 ∧ v' = ChatView.set_seq n v) ∨ (∃ e, x = Err e ∧ v' = v)).
Proof.
  apply redis_room_law; [intros k [= <-]; by right; right|].
  intros t L rep L' (Hl & Ho & Hq) Ha Hs. unfold view, ChatView.set_seq, room_ok. cbv zeta.
  cbn [ChatView.seq ChatView.log ChatView.outbox]. cbn [settles] in Hs. subst L'.
  assert (chatStreamKey r ≠ chatSeqKey r) by discriminate.
  assert (chatPendingKey r ≠ chatSeqKey r) by discriminate.
  cbn [exec] in *. destruct (L !! chatSeqKey r) as [[[x| | | |] [e|]]|] eqn:E; try done.
  - destruct Hq as (n & Hn & Hpos). cbn [seq_of]. rewrite Hn in *. cbn [default]. unfold id.
    destruct (Z.leb_spec min_int64 (n + 1)), (Z.leb_spec (n + 1) max_int64); cbn [andb fst snd] in *;
      cbn in Ha; subst rep; rewrite ?E, ?Hn.
    1: rewrite !lookup_insert_ne, lookup_insert_eq by done; split; [split_and!; [done..|]|].
    + exists (n + 1). split; [apply ParseInt_FormatInt; lia|lia].
    + left. split; [done|]. split; [lia|]. cbn [seq_of]. by rewrite ParseInt_FormatInt by lia.
    + split; [do 2 (split; [done|]); by exists n|]. right. eexists. split; [done|].
      cbn [seq_of]. by rewrite Hn.
    + unfold min_int64 in *. lia.
    + unfold min_int64, max_int64 in *. lia.
  - cbn in Ha. subst rep. cbn [snd]. rewrite !lookup_insert_ne, lookup_insert_eq by done.
    split; [do 2 (split; [done|]); by exists 1|]. left. done.
Qed.

Lemma enqueue_law c now r id : room_law wf shows c r (RedisChat.EnqueuePending c now r id)
  (λ v x v', x = Ok tt ∧ ∃ l1 l2, l1 ++ l2 = filter (λ i, i ≠ id) (ChatView.outbox v) ∧
     v' = ChatView.set_outbox (l1 ++ id :: l2) v).
Proof.
  apply redis_room_law; [intros k [= <-]; by right; left|].
  intros t L rep L' (Hl & Ho & Hq) Ha Hs. unfold view, ChatView.set_outbox, room_ok.
  cbn [ChatView.seq ChatView.log ChatView.outbox]. cbn [settles] in Hs. subst L'.
  assert (chatStreamKey r ≠ chatPendingKey r) by discriminate.
  assert (chatSeqKey r ≠ chatPendingKey r) by discriminate.
  assert (∀ m e, outbox_of (Some (VZset m, e)) = zset_list m) as Hof by done.
  cbn [exec] in *. destruct (L !! chatPendingKey r) as [[[| | |m|] [e|]]|] eqn:E; try done;
    cbn in Ha; subst rep; cbn [snd]; unfold put_zset; rewrite decide_False by (apply insert_non_empty);
    rewrite lookup_insert_eq, !lookup_insert_ne by done;
    (split; [exact (conj Hl (conj I Hq))|]); (split; [done|]).
  - destruct (zset_list_insert id (Unix now) m) as (l1 & l2 & Hf & Hi). exists l1, l2.
    by rewrite !Hof, Hi, Hf.
  - exists [], []. rewrite Hof. unfold zset_list. by rewrite map_to_list_singleton.
Qed.

Lemma remove_law c r id : room_law wf shows c r (RedisChat.RemovePending c r id)
  (λ v x v', x = Ok tt ∧
     v' = ChatView.set_outbox (filter (λ i, i ≠ id) (ChatView.outbox v)) v).
Proof.
  apply redis_room_law; [intros k [= <-]; by right; left|].
  intros t L rep L' (Hl & Ho & Hq) Ha Hs. unfold view, ChatView.set_outbox, room_ok.
  cbn [ChatView.seq ChatView.log ChatView.outbox]. cbn [settles] in Hs. subst L'.
  assert (chatStreamKey r ≠ chatPendingKey r) by discriminate.
  assert (chatSeqKey r ≠ chatPendingKey r) by discriminate.
  assert (∀ m e, outbox_of (Some (VZset m, e)) = zset_list m) as Hof by done.
  cbn [exec] in *. destruct (L !! chatPendingKey r) as [[[| | |m|] [e|]]|] eqn:E; try done;
    cbn in Ha; subst rep; cbn [snd]; [|by rewrite E].
  unfold put_zset. rewrite Hof, <- zset_list_delete. case_decide as Hd.
  - rewrite lookup_delete_eq, !lookup_delete_ne, Hd by done. done.
  - rewrite lookup_insert_eq, !lookup_insert_ne by done. done.
Qed.

Lemma pending_ids_law c r max : room_law wf shows c r (RedisChat.PendingStreamIDs c r max)
  (λ v x v', v' = v ∧
     x = Ok (take (Z.to_nat (if max <=? 0 then 50 else max)) (ChatView.outbox v))).
Proof.
  unfold RedisChat.PendingStreamIDs. set (n := if max <=? 0 then 50 else max).
  assert (0 < n) by (unfold n; destruct (Z.leb_spec max 0); lia).
  apply redis_room_law; [done|]. intros t L rep L' Hok Ha Hs. cbn [settles exec snd fst] in *. subst L'.
  split; [done|]. split; [done|]. destruct Hok as (_ & Ho & _). unfold view. cbn [ChatView.outbox].
  destruct (L !! chatPendingKey r) as [[[| | |m|] []]|]; try done;
    cbn in Ha; destruct rep; try done; subst.
  - cbn [as_list outbox_of]. f_equal. unfold zslice. destruct (Z.ltb_spec (n - 1) 0); [lia|].
    cbn [Z.ltb Z.compare Z.to_nat drop]. f_equal. lia.
  - cbn. by rewrite take_nil.
Qed.

Lemma stream_push now fields x : stream_ok x →
  let i := next_id now (last_id x) in
  stream_ok (mk_stream i ((i, fields) :: stream_entries x)) ∧
  show_id i ∉ (show_id ∘ fst <$> stream_entries x).
Proof.
  intros (Hn & Hs & He) i. destruct (next_id_spec now (last_id x) Hn) as [Hi Hlt]. fold i in Hi, Hlt.
  assert (Forall (λ e, id_nonneg e.1 ∧ id_lt e.1 i = true) (stream_entries x)) as Hnew.
  { eapply list.Forall_impl; [exact He|]. intros e [He1 He2]. split; [done|]. unfold id_lt in *. lia. }
  split.
  - split; [done|]. split.
    + constructor; [done|]. eapply list.Forall_impl; [exact Hnew|]. by intros e [_ ?].
    + constructor; [split; [done|apply id_lt_irrefl]|]. eapply list.Forall_impl; [exact Hnew|].
      intros e [? ?]. split; [done|]. unfold id_lt in *. cbn [last_id]. lia.
  - intros (e & Heq & Hin)%list_elem_of_fmap. destruct (proj1 (list.Forall_forall _ _) Hnew e Hin) as [Hne Hle].
    apply show_inj in Heq; [|done..]. by rewrite Heq, id_lt_irrefl in Hle.
Qed.
Lemma stream_take n x : stream_ok x → stream_ok (mk_stream (last_id x) (take n (stream_entries x))).
Proof.
  intros (Hn & Hs & He). split; [done|]. split; [|by apply Forall_take]. clear He. revert n.
  induction Hs as [|e l Hl IH He]; intros [|n]; cbn [take stream_entries]; try constructor; [apply IH|].
  by apply Forall_take.
Qed.

(** [XADD], with any trimming. *)
Lemma add_run t k maxlen fields L rep L' x :
  (L !! k = Some (VStream x, None) ∨ (L !! k = None ∧ x = mk_stream (0, 0) [])) →
  agrees (XADD k maxlen fields) (exec t (XADD k maxlen fields) L).1 rep →
  settles (XADD k maxlen fields) (exec t (XADD k maxlen fields) L).2 L' →
  let i := next_id t (last_id x) in
  rep = RBulk (show_id i) ∧ ∃ n,
    L' = <[k := (VStream (mk_stream i (take n ((i, fields) :: stream_entries x))), None)]> L ∧
    match maxlen with Some m => m ≤ Z.of_nat n | None => (length (stream_entries x) < n)%nat end.
Proof.
  intros Hx Ha Hs i.
  assert (exec t (XADD k maxlen fields) L = (RBulk (show_id i),
    <[k := (VStream (mk_stream i ((i, fields) :: stream_entries x)), None)]> L)) as He.
  { cbn [exec]. by destruct Hx as [->|[-> ->]]. }
  rewrite He in *. cbn [fst snd] in *. split; [by cbn in Ha|]. destruct maxlen as [m|]; cbn [settles] in Hs.
  - destruct Hs as (n & Hn & ->). exists n. split; [|done]. unfold trim_stream. rewrite lookup_insert_eq.
    by rewrite insert_insert_eq.
  - exists (S (length (stream_entries x))). split; [|lia]. by rewrite take_ge by (cbn; lia).
Qed.

Lemma append_law c now r n payload maxlen : min_int64 ≤ n ≤ max_int64 →
  room_law wf shows c r (RedisChat.AppendMessage c now r n payload maxlen)
    (λ v x v', ∃ id k, x = Ok id ∧ (id ∉ ChatView.ids v) ∧
       v' = ChatView.set_log (take k (RoomChatMessage.mk id n payload :: ChatView.log v)) v ∧
       (if 0 <? maxlen then maxlen ≤ Z.of_nat k else (length (ChatView.log v) < k)%nat)).
Proof.
  intros Hn. apply redis_room_law; [intros k [= <-]; by left|].
  intros t L rep L' (Hl & Ho & Hq) Ha Hs. set (fields := {[ _ := _; _ := _ ]}) in *.
  assert (∃ x, stream_ok x ∧ log_of (L !! chatStreamKey r) = message_of <$> shown (stream_entries x) ∧
    (L !! chatStreamKey r = Some (VStream x, None) ∨
     (L !! chatStreamKey r = None ∧ x = mk_stream (0, 0) []))) as (x & Hx & Hlog & Hcase).
  { destruct (L !! chatStreamKey r) as [[[| | | |x] [e|]]|]; try done; [exists x; auto|].
    exists (mk_stream (0, 0) []). split; [|auto]. split; [done|]. split; constructor. }
  destruct (add_run _ _ _ _ _ _ _ x Hcase Ha Hs) as (-> & k & -> & Hk). set (i := next_id t (last_id x)) in *.
  destruct (stream_push t fields x Hx) as [Hpush Hfresh]. fold i in Hpush, Hfresh.
  assert (chatPendingKey r ≠ chatStreamKey r) by discriminate.
  assert (chatSeqKey r ≠ chatStreamKey r) by discriminate.
  unfold room_ok, view, ChatView.ids, ChatView.set_log. cbn [ChatView.log ChatView.outbox ChatView.seq].
  rewrite lookup_insert_eq, !lookup_insert_ne, Hlog by done.
  split; [exact (conj (stream_take k _ Hpush) (conj Ho Hq))|].
  exists (show_id i), k. split; [done|]. split; [|split].
  - unfold shown. rewrite <- !list_fmap_compose. erewrite list_fmap_ext; [exact Hfresh|done].
  - f_equal. cbn [log_of stream_entries]. unfold shown. rewrite !fmap_take. cbn [fmap list_fmap fst snd].
    do 2 f_equal. unfold message_of. cbn [fst snd]. unfold fields.
    rewrite lookup_insert_eq, lookup_insert_ne, lookup_singleton_eq by done. cbn [default]. unfold id.
    unfold ParseInt_or_zero. by rewrite ParseInt_FormatInt.
  - unfold shown. rewrite !length_fmap. by destruct (0 <? maxlen).
Qed.


(** The entries older than one of them. *)
Lemma older_entries l1 e l2 : newer_first (l1 ++ e :: l2) →
  filter (λ e', id_lt e'.1 e.1 = true) (l1 ++ e :: l2) = l2.
Proof.
  intros Hs. induction l1 as [|a l1 IH]; cbn [app] in *.
  - inversion Hs as [|? ? _ Hall]; subst. rewrite list.filter_cons, decide_False by by rewrite id_lt_irrefl.
    clear Hs. induction l2 as [|b l2 IH]; [done|]. apply list.Forall_cons in Hall as [Hb Hall].
    rewrite list.filter_cons, decide_True by done. f_equal. by apply IH.
  - inversion Hs as [|? ? Hs' Hall]; subst. rewrite list.filter_cons, decide_False; [by apply IH|].
    pose proof (proj1 (list.Forall_forall _ _) Hall e ltac:(set_solver)) as Hlt. unfold id_lt in *. cbn in Hlt. lia.
Qed.
Lemma filter_all {A} (l : list A) (P : A → Prop) `{!∀ x, Decision (P x)} : (∀ x, P x) → filter P l = l.
Proof.
  intros HP. induction l as [|x l IH]; [done|]. rewrite list.filter_cons, decide_True by done. by rewrite IH.
Qed.

Definition entry_message (e : stream_id * gmap string string) : RoomChatMessage.t :=
  message_of (show_id e.1, e.2).
Lemma shown_messages l : message_of <$> shown l = entry_message <$> l.
Proof. unfold shown. by rewrite <- list_fmap_compose. Qed.

(** A command and a pure end of the method. *)
Lemma redis_map {A B} c cmd (dec : reply → result A) (k : A → SM R B) (f : A → result B) s :
  (∀ a s, k a s = (f a, s)) →
  (a ← redis c cmd dec; k a) s =
  redis c cmd (λ r, match dec r with Ok a => f a | Err e => Err e | Halt h => Halt h end) s.
Proof.
  intros Hk. unfold mbind, SM_bind, redis, guard_ctx. destruct c as [e|]; [done|].
  destruct (command cmd s) as [r s']. destruct (dec r); [apply Hk|done..].
Qed.

Lemma room_law_eq {S A} wf' (view' : S → string → CH) c r (m m' : SM S A) post :
  (∀ s, m' s = m s) → room_law wf' view' c r m post → room_law wf' view' c r m' post.
Proof. intros Heq Hm s Hs. rewrite Heq. by apply Hm. Qed.

(** The entries of a room's stream, behind the log it shows. *)
Lemma log_entries v : log_ok v → ∃ es,
  log_of v = entry_message <$> es ∧ newer_first es ∧ Forall (λ e, id_nonneg e.1) es ∧
  (v = None ∧ es = [] ∨ ∃ i, v = Some (VStream (mk_stream i es), None)).
Proof.
  destruct v as [[[| | | |[i es]] [e|]]|]; try done.
  - intros (_ & Hs & Hn). exists es. cbn [log_of stream_entries] in *. rewrite shown_messages.
    split_and!; [done..| |by right; exists i]. eapply list.Forall_impl; [exact Hn|]. by intros e [? _].
  - intros _. exists []. split_and!; [done|constructor|constructor|by left].
Qed.

Lemma exec_range t k b n (L : keyspace) es :
  (L !! k = None ∧ es = [] ∨ ∃ i, L !! k = Some (VStream (mk_stream i es), None)) →
  (exec t (XREVRANGE k b n) L).1 =
    match b with
    | None => RStream (shown (take (Z.to_nat n) es))
    | Some i => match read_id i with
                | Some j => RStream (shown (take (Z.to_nat n) (filter (λ e, id_lt e.1 j = true) es)))
                | None => bad_id
                end
    end.
Proof.
  intros Hes. cbn [exec fst]. destruct b as [i|]; cbn [mbind option_bind];
    [destruct (read_id i) as [j|]; [|done]|];
    (destruct Hes as [[-> ->]|[j' ->]]; [cbn; by rewrite ?take_nil|]); cbn [stream_entries]; [done|].
  by rewrite filter_all.
Qed.

Lemma list_law c r before limit : room_law wf shows c r (RedisChat.ListMessagesRev c r before limit)
  (λ v x v', v' = v ∧ (∀ h, x ≠ Halt h) ∧
     (TrimSpace before = "" → x = Ok (take (page_size limit) (ChatView.log v))) ∧
     (∀ l1 m l2, ChatView.log v = l1 ++ m :: l2 → RoomChatMessage.StreamID m = before →
        TrimSpace before ≠ "" → x = Ok (take (page_size limit) l2)) ∧
     (∀ l, x = Ok l → (length l ≤ page_size limit)%nat)).
Proof.
  eapply room_law_eq; [intros s; by apply redis_map with (f := λ raw, Ok (message_of <$> raw))|].
  apply redis_room_law; [done|]. intros t L rep L' Hok Ha Hs. cbn [settles] in Hs.
  assert (L' = L) as -> by (rewrite Hs; done). clear Hs. split; [done|].
  set (n := if 200 <? _ then _ else _) in *. set (b := if bool_decide _ then _ else _) in *.
  assert (Z.to_nat n = page_size limit) as Hn.
  { unfold n, page_size. destruct (Z.leb_spec limit 0); [done|]. by destruct (200 <? limit). }
  destruct (log_entries _ (proj1 Hok)) as (es & Hlog & Hnew & Hpos & Hes).
  rewrite (exec_range _ _ _ _ _ _ Hes), Hn in Ha. unfold view. cbn [ChatView.log]. rewrite Hlog.
  split; [done|]. split; [by destruct rep|]. unfold b in Ha. split_and!.
  - intros Hb. rewrite bool_decide_true in Ha by done. cbn in Ha. subst rep.
    cbn [as_stream]. by rewrite shown_messages, fmap_take.
  - intros l1 m l2 Hl Hm Hb. rewrite bool_decide_false in Ha by done.
    apply fmap_app_inv in Hl as (e1 & e2 & -> & H2 & ->). symmetry in H2.
    apply fmap_cons_inv in H2 as (e & e2' & -> & -> & ->). cbn in Hm. subst before.
    apply Forall_app in Hpos as [_ Hpos]. apply list.Forall_cons in Hpos as [He _].
    rewrite (read_show _ He), older_entries in Ha by done. cbn [agrees] in Ha.
    destruct Ha as [<-|[Hr _]]; [|by rewrite read_show in Hr].
    cbn [as_stream]. by rewrite shown_messages, fmap_take.
  - intros l Hx. destruct rep; try done. cbn [as_stream] in Hx. injection Hx as <-. rewrite length_fmap.
    case_bool_decide; cbn [agrees] in Ha.
    + injection Ha as <-. unfold shown. rewrite length_fmap, length_take. lia.
    + destruct Ha as [Ha|[_ Hlen]]; [|lia]. destruct (read_id before); [|done].
      injection Ha as <-. unfold shown. rewrite length_fmap, length_take. lia.
Qed.

Lemma one_entry l1 e l2 : newer_first (l1 ++ e :: l2) →
  filter (λ e', id_le e.1 e'.1 && id_le e'.1 e.1 = true) (l1 ++ e :: l2) = [e].
Proof.
  intros Hs. induction l1 as [|a l1 IH]; cbn [app] in *; inversion Hs as [|? ? Hs' Hall]; subst.
  - rewrite list.filter_cons, decide_True by (unfold id_le; by rewrite id_lt_irrefl). f_equal.
    clear Hs Hs'. induction l2 as [|b l2 IH]; [done|]. apply list.Forall_cons in Hall as [Hb Hall].
    rewrite list.filter_cons, decide_False; [by apply IH|]. unfold id_le. rewrite Hb. done.
  - rewrite list.filter_cons, decide_False; [by apply IH|].
    pose proof (proj1 (list.Forall_forall _ _) Hall e ltac:(set_solver)) as Hlt. cbn in Hlt.
    unfold id_le. rewrite Hlt, andb_false_r. done.
Qed.

Lemma payload_law c r id : room_law wf shows c r (RedisChat.GetPayload c r id)
  (λ v x v', v' = v ∧ (∀ h, x ≠ Halt h) ∧
     ∀ m, m ∈ ChatView.log v → RoomChatMessage.StreamID m = id → x = Ok (RoomChatMessage.Payload m)).
Proof.
  eapply room_law_eq; [intros s; apply redis_map with
    (f := λ msgs, match msgs with [] => Err ErrRedisNil
                  | m :: _ => Ok (default "" (m.2 !! "payload")) end); by intros []|].
  apply redis_room_law; [done|]. intros t L rep L' Hok Ha Hs. cbn [settles] in Hs.
  assert (L' = L) as -> by (rewrite Hs; cbn [exec]; done). clear Hs. split; [done|]. split; [done|].
  destruct (log_entries _ (proj1 Hok)) as (es & Hlog & Hnew & Hpos & Hes). split.
  { intros h. destruct rep as [| | | | | |[|]| |]; done. }
  intros m Hm Hid. unfold view in Hm. cbn [ChatView.log] in Hm. rewrite Hlog in Hm.
  apply list_elem_of_fmap in Hm as (e & -> & He). cbn in Hid. subst id.
  assert (read_id (show_id e.1) = Some e.1) as Hread.
  { apply read_show. by apply (proj1 (list.Forall_forall _ _) Hpos e). }
  cbn [agrees] in Ha. destruct Ha as [Hr|[Hr|<-]]; [by rewrite Hread in Hr..|]. cbn [exec fst]. rewrite Hread.
  destruct Hes as [[-> ->]|[i ->]]; [by apply elem_of_nil in He|]. cbn [stream_entries].
  apply list_elem_of_split in He as (l1 & l2 & ->). by rewrite one_entry.
Qed.

(** Deleting, one command after the other. *)
Lemma del_run k s r s' : wf s → command (DEL k) s = (r, s') → (∃ n, r = RInt n) ∧
  seen s' !! k = None ∧ (∀ k' r', k' ≠ k → on_room r' k' → seen s' !! k' = seen s !! k').
Proof.
  intros Hs Hc. destruct (command_seen _ _ _ _ Hc) as (_ & Ha & Hset). cbn [settles exec fst snd] in *.
  split; [cbn in Ha; destruct r; try done; by eexists|]. rewrite Hset. split; [apply lookup_delete_eq|].
  intros k' r' Hne Hon. rewrite lookup_delete_ne by done.
  destruct (same_keys_live r' (clock s') (seen s) (Hs r')) as (H1 & H2 & H3).
  by destruct Hon as [->|[->| ->]].
Qed.
Lemma wf_del k s s' : wf s → seen s' !! k = None →
  (∀ k' r', k' ≠ k → on_room r' k' → seen s' !! k' = seen s !! k') → wf s'.
Proof.
  intros Hs Hk Ho r. destruct (Hs r) as (Hl & Hp & Hq). unfold room_ok.
  assert (∀ k', on_room r k' → seen s' !! k' = None ∨ seen s' !! k' = seen s !! k') as Hcase.
  { intros k' Hon. destruct (decide (k' = k)) as [->|]; [by left|right; by eapply Ho]. }
  split_and!.
  - destruct (Hcase (chatStreamKey r)) as [->| ->]; [by left|done|done].
  - destruct (Hcase (chatPendingKey r)) as [->| ->]; [by right; left|done|done].
  - destruct (Hcase (chatSeqKey r)) as [->| ->]; [by right; right|done|done].
Qed.

Lemma delete_law c r : room_law wf shows c r (RedisChat.DeleteRoom c r)
  (λ v x v', x = Ok tt ∧ v' = ChatView.empty).
Proof.
  intros s Hs. unfold RedisChat.DeleteRoom, pipeline, mbind, SM_bind, guard_ctx.
  destruct c as [e|]; [by split_and!|]. cbn [exec_all].
  destruct (command (DEL (chatStreamKey r)) s) as [r1 s1] eqn:E1.
  destruct (command (DEL (chatSeqKey r)) s1) as [r2 s2] eqn:E2.
  destruct (command (DEL (chatPendingKey r)) s2) as [r3 s3] eqn:E3.
  destruct (del_run _ _ _ _ Hs E1) as ([n1 ->] & K1 & O1). pose proof (wf_del _ _ _ Hs K1 O1) as W1.
  destruct (del_run _ _ _ _ W1 E2) as ([n2 ->] & K2 & O2). pose proof (wf_del _ _ _ W1 K2 O2) as W2.
  destruct (del_run _ _ _ _ W2 E3) as ([n3 ->] & K3 & O3). pose proof (wf_del _ _ _ W2 K3 O3) as W3.
  assert (chatStreamKey r ≠ chatSeqKey r) by discriminate.
  assert (chatStreamKey r ≠ chatPendingKey r) by discriminate.
  assert (chatSeqKey r ≠ chatPendingKey r) by discriminate.
  cbn. split; [done|]. unfold shows, view. split.
  - intros r' Hne. assert (∀ k, on_room r' k → seen s3 !! k = seen s !! k) as Hk.
    { intros k Hon. assert (∀ k', on_room r k' → k ≠ k') as Hd.
      { intros k' Hon' ->. apply Hne. by eapply on_room_one. }
      rewrite (O3 k r'), (O2 k r'), (O1 k r'); auto; apply Hd; unfold on_room; auto. }
    by rewrite !Hk by (unfold on_room; auto).
  - split; [done|]. rewrite K3, (O3 (chatStreamKey r) r), (O2 (chatStreamKey r) r), K1,
      (O3 (chatSeqKey r) r), K2; unfold on_room; auto.
Qed.

Lemma allow_law c r u n : reads_law wf shows (RedisChat.AllowChatSend c r u n).
Proof.
  intros s Hs. unfold RedisChat.AllowChatSend. destruct (n <=? 0); [by split_and!|]. cbv zeta.
  set (k := chatRateKey r u). unfold mbind, SM_bind.
  assert (∀ k', writes (INCRBY k 1) = Some k' → elsewhere k') as Hw1 by (intros k' [= <-]; apply rate_elsewhere).
  destruct (redis_reads c (INCRBY k 1) as_int s Hw1 Hs) as [Hs1 Hv1].
  assert (∀ h, (redis c (INCRBY k 1) as_int s).1 ≠ Halt h) as Hh1.
  { intros h. unfold redis, guard_ctx. destruct c; [done|]. destruct (command _ s) as [rep s1]. by destruct rep. }
  destruct (redis c (INCRBY k 1) as_int s) as [[m|e|h] s1]; cbn [fst snd] in *; [|done|by destruct (Hh1 h)].
  destruct (m =? 1); [|by split_and!]. unfold ignore.
  set (ttl := expire_ttl Second).
  assert (∀ k', writes (EXPIRE k ttl) = Some k' → elsewhere k') as Hw2 by (intros k' [= <-]; apply rate_elsewhere).
  destruct (redis_reads c (EXPIRE k ttl) as_unit s1 Hw2 Hs1) as [Hs2 Hv2].
  assert (∀ h, (redis c (EXPIRE k ttl) as_unit s1).1 ≠ Halt h) as Hh2.
  { intros h. unfold redis, guard_ctx. destruct c; [done|]. destruct (command _ s1) as [rep s2]. by destruct rep. }
  destruct (redis c (EXPIRE k ttl) as_unit s1) as [[m2|e|h] s2]; cbn [fst snd] in *;
    [..|by destruct (Hh2 h)]; cbn; (split; [done|]); (split; [intros r'; congruence|done]).
Qed.

Lemma scan_law c cursor n : reads_law wf shows (RedisChat.ScanPendingRooms c cursor n).
Proof.
  intros s Hs. unfold RedisChat.ScanPendingRooms. set (cmd := SCAN _ _ _).
  destruct (redis_reads c cmd as_scan s ltac:(done) Hs) as [Hs1 Hv1].
  assert (∀ h, (redis c cmd as_scan s).1 ≠ Halt h) as Hh.
  { intros h. unfold redis, guard_ctx. destruct c; [done|]. destruct (command _ s) as [rep s1]. by destruct rep. }
  by destruct (redis c cmd as_scan s).
Qed.

Lemma distinct s r : wf s → NoDup (ChatView.ids (shows s r)) ∧ NoDup (ChatView.outbox (shows s r)).
Proof.
  intros Hs. destruct (Hs r) as (Hl & Ho & _). unfold shows, view, ChatView.ids. cbn [ChatView.log ChatView.outbox].
  split.
  - destruct (seen s !! chatStreamKey r) as [[[| | | |x] [e|]]|]; try done; [|constructor].
    rewrite log_ids. by apply stream_ids_distinct.
  - destruct (seen s !! chatPendingKey r) as [[[| | |m|] [e|]]|]; try done; [|constructor].
    apply zset_list_NoDup.
Qed.

#[global] Instance redis_chat_contract : RoomChatContract R := {
  rc_wf := wf;
  rc_view := shows;
  rc_distinct := distinct;
  PendingCount_law := count_law;
  NextSeq_law := seq_law;
  AppendMessage_law := append_law;
  ListMessagesRev_law := list_law;
  GetPayload_law := payload_law;
  EnqueuePending_law := enqueue_law;
  RemovePending_law := remove_law;
  PendingStreamIDs_law := pending_ids_law;
  ChatDeleteRoom_law := delete_law;
  AllowChatSend_law := allow_law;
  ScanPendingRooms_law := scan_law;
}.
End contract.
End ChatKeys.
