(* ===== verification/HubCleanup.v ===== *)
(** * The cleanup of empty rooms is correct

    The theorems on [Service.RunEmptyRoomCleanup] and
    [Service.MaybeRunGlobalCleanup], against the contracts of the caches and the
    room store: a room with members is never touched, whatever fails; a cleanup
    that succeeds closes exactly the empty candidates; the throttle and the
    lock. *)

From S2P Require Import Prelude GoStrings GoNum Model Interfaces Service Playback.
From S2P Require Import Chat Hub MemCaches MemPresence Postgres Redis RedisChat Fixtures.
Import Hub.HubHelpers.

(** ** The candidates *)

Lemma merge_from_spec ids seen r :
  (r ∈ merge_from seen ids) ↔ (r ≠ "" ∧ (r ∉ seen) ∧ ∃ id, id ∈ ids ∧ TrimSpace id = r).
Proof.
  revert seen. induction ids as [|id ids IH]; intros seen; simpl.
  - split; [by intros ?%not_elem_of_nil|]. intros (_ & _ & id & H & _). by apply not_elem_of_nil in H.
  - case_bool_decide as He; [|case_bool_decide as Hs].
    + rewrite IH. set_unfold. naive_solver.
    + rewrite IH. set_unfold. naive_solver.
    + rewrite elem_of_cons, IH. set_unfold. split.
      * intros [->|H]; naive_solver.
      * intros (Hr & Hn & id' & [->|Hin] & Ht); [naive_solver|].
        destruct (decide (r = TrimSpace id)); naive_solver.
Qed.

Lemma merge_from_NoDup ids seen : NoDup (merge_from seen ids).
Proof.
  revert seen. induction ids as [|id ids IH]; intros seen; simpl; [constructor|].
  repeat case_bool_decide; try apply IH. constructor; [|apply IH].
  rewrite merge_from_spec. set_solver.
Qed.

(** The merged ids, in the order of their first occurrences. *)
Lemma merge_from_app seen l1 l2 :
  merge_from seen (l1 ++ l2) =
  merge_from seen l1 ++ merge_from (list_to_set (merge_from seen l1) ∪ seen) l2.
Proof.
  revert seen. induction l1 as [|id l1 IH]; intros seen; simpl.
  - f_equal. set_solver.
  - repeat case_bool_decide; try apply IH. simpl. f_equal. rewrite IH. do 2 f_equal. set_solver.
Qed.

Lemma merge_from_id seen ids :
  NoDup ids → (∀ r, r ∈ ids → r ≠ "" ∧ TrimSpace r = r ∧ r ∉ seen) →
  merge_from seen ids = ids.
Proof.
  revert seen. induction ids as [|id ids IH]; intros seen Hnd Hids; simpl; [done|].
  apply list.NoDup_cons in Hnd as [Hid Hnd].
  destruct (Hids id) as (Hne & Ht & Hs); [left|]. rewrite Ht.
  rewrite !bool_decide_false by done. f_equal. apply IH; [done|].
  intros r Hr. destruct (Hids r) as (? & ? & ?); [by right|]. set_solver.
Qed.

(** The candidate list has every trimmed nonempty id of its parts, each once,
    an earlier part's ids before a later part's, and merging it again changes
    nothing. *)
Theorem mergeUniqueRoomIDs_correct parts :
  NoDup (mergeUniqueRoomIDs parts) ∧
  (∀ r, (r ∈ mergeUniqueRoomIDs parts) ↔
        (r ≠ "" ∧ ∃ part id, part ∈ parts ∧ id ∈ part ∧ TrimSpace id = r)) ∧
  (∀ rest, mergeUniqueRoomIDs parts `prefix_of` mergeUniqueRoomIDs (parts ++ rest)) ∧
  mergeUniqueRoomIDs [mergeUniqueRoomIDs parts] = mergeUniqueRoomIDs parts.
Proof.
  unfold mergeUniqueRoomIDs. split_and!.
  - apply merge_from_NoDup.
  - intros r. rewrite merge_from_spec. setoid_rewrite elem_of_concat.
    set_solver.
  - intros rest. rewrite concat_app, merge_from_app. by eexists.
  - cbn [concat]. rewrite app_nil_r. apply merge_from_id; [apply merge_from_NoDup|].
    intros r (Hr & _ & id & _ & <-)%merge_from_spec. rewrite TrimSpace_idem. set_solver.
Qed.

(** ** What the cleanup sees of the service *)

Module CV.
Record t := mk {
  states : gmap string RoomState.t;
  members : gmap string (gmap string string);
  pending : gset string;
  last : time;
  lock : bool;
  rooms : gmap string Room.t;
  access : option (gmap string (gset string));
  closed : list string;   (* the rooms whose closing was published, oldest first *)
  pub : bool;             (* there is a publisher *)
  chats : string → option CH;   (* [None] without a chat *)
}.
Definition count (v : t) (r : string) : Z := Z.of_nat (size (default ∅ (members v !! r))).
Definition set_pending (p : gset string) (v : t) : t :=
  mk (states v) (members v) p (last v) (lock v) (rooms v) (access v) (closed v) (pub v) (chats v).
Definition set_last (l : time) (v : t) : t :=
  mk (states v) (members v) (pending v) l (lock v) (rooms v) (access v) (closed v) (pub v) (chats v).
Definition set_chats (f : string → option CH) (v : t) : t :=
  mk (states v) (members v) (pending v) (last v) (lock v) (rooms v) (access v) (closed v) (pub v) f.
Definition set_lock (b : bool) (v : t) : t :=
  mk (states v) (members v) (pending v) (last v) b (rooms v) (access v) (closed v) (pub v) (chats v).

(** The room is gone from every component, and the closing is announced. *)
Definition close (r : string) (v : t) : t :=
  mk (delete r (states v)) (delete r (members v)) (pending v ∖ {[r]}) (last v) (lock v)
     (delete r (rooms v)) (delete r <$> access v)
     (closed v ++ (if pub v then [r] else [])) (pub v)
     (λ r', if decide (r' = r) then const ChatView.empty <$> chats v r' else chats v r').

(** A candidate: closed when nobody is in it, else no longer marked empty. *)
Definition visit (v : t) (r : string) : t :=
  if count v r =? 0 then close r v else set_pending (pending v ∖ {[r]}) v.
Definition cleanup (candidates : list string) (v : t) : t := foldl visit v candidates.
End CV.

(** The rooms whose closing was published. *)
Definition closed_event (ev : event) : option string :=
  match ev with
  | EvPublish r name (PubMessage m) _ =>
      if bool_decide (name = "room.event") && bool_decide (Message.Event m = "room_closed")
      then Some r else None
  | _ => None
  end.

Section views.
Context `{BE : !Backend, EN : !Env, !RoomStateContract StatesT, !PresenceContract PresenceT,
  !RoomStoreContract RoomsT, !RoomAccessContract AccessT, !PublisherContract PubT,
  !RoomChatContract ChatT}.

Definition closed_rooms (s : Service) : list string := omap closed_event (events s).

(** The service [s], with a presence and a room store, looks like [v]. *)
Record views (s : Service) (v : CV.t) : Prop := {
  vw_states : rs_wf (states s);
  vw_states_eq : rs_view (states s) = CV.states v;
  vw_presence : ∃ p, presence s = Some p ∧ rp_wf p ∧
    rp_view p = PresenceView.mk (CV.members v) (CV.pending v) (CV.last v) (CV.lock v);
  vw_rooms : ∃ x, rooms s = Some x ∧ st_wf x ∧ st_view x = CV.rooms v;
  vw_access : match roomAccess s with
              | None => CV.access v = None
              | Some a => ra_wf a ∧ CV.access v = Some (ra_view a)
              end;
  vw_closed : closed_rooms s = CV.closed v;
  vw_pub : (match publisher s with Some _ => true | None => false end) = CV.pub v;
  vw_chat : ∀ c, roomChat s = Some c → rc_wf c;
  vw_chat_eq : ∀ r, CV.chats v r = (λ c, rc_view c r) <$> roomChat s;
}.

(** Every service whose components are well formed looks like something. *)
Definition service_wf (s : Service) : Prop :=
  rs_wf (states s) ∧ (∃ p, presence s = Some p ∧ rp_wf p) ∧
  (∃ x, rooms s = Some x ∧ st_wf x) ∧ (∀ a, roomAccess s = Some a → ra_wf a) ∧
  (∀ c, roomChat s = Some c → rc_wf c).

Lemma views_exists s : service_wf s → ∃ v, views s v.
Proof.
  intros (Hs & (p & Hp & Hpw) & (x & Hx & Hxw) & Ha & Hc).
  exists (CV.mk (rs_view (states s)) (PresenceView.members (rp_view p))
    (PresenceView.pending (rp_view p)) (PresenceView.last (rp_view p))
    (PresenceView.lock (rp_view p)) (st_view x) (ra_view <$> roomAccess s) (closed_rooms s)
    (match publisher s with Some _ => true | None => false end)
    (λ r, (λ c, rc_view c r) <$> roomChat s)).
  split; simpl; try done.
  - exists p. split_and!; [done..|]. by destruct (rp_view p).
  - by exists x.
  - destruct (roomAccess s); simpl; [|done]. auto.
Qed.

Lemma views_wf s v : views s v → service_wf s.
Proof.
  intros [Hs _ (p & Hp & Hpw & _) (x & Hx & Hxw & _) Ha _ _ Hc _].
  split_and!; [done|by exists p|by exists x| |done]. intros a Hax. rewrite Hax in Ha. by destruct Ha.
Qed.

(** Each call, seen through [views]; a failing one changes nothing. *)
Lemma vw_tick s v : views s v → views (next_tick s) v.
Proof. intros []. by split. Qed.

Lemma vw_now {A} (k : time → SM Service A) Q s v :
  views s v → (∀ s', views s' v → wp (k (now_at (tick s))) Q s') → wp (t ← now; k t) Q s.
Proof. intros Hv H. apply wp_now, H. by apply vw_tick. Qed.

Lemma vw_emit ev Q s v :
  views s v → closed_event ev = None → (∀ s', views s' v → Q (Ok tt) s') →
  wp (emit ev) Q s.
Proof.
  intros [] Hev H. apply H. split; try done. unfold closed_rooms. simpl.
  rewrite omap_app. simpl. by rewrite Hev, app_nil_r.
Qed.

(** A presence method whose law allows the result [r] and the view [pv']. *)
Lemma vw_presence_call {A} (m : ctx → time → SM PresenceT A) post Q s v :
  views s v →
  method_law rp_wf rp_view (ctx_at (tick s)) (m (ctx_at (tick s)) (now_at (tick s))) post →
  (∀ e s', ctx_at (tick s) = Some e → views s' v → Q (Err e) s') →
  (∀ r mm pp ll lk s', ctx_at (tick s) = None →
     post (PresenceView.mk (CV.members v) (CV.pending v) (CV.last v) (CV.lock v)) r
          (PresenceView.mk mm pp ll lk) →
     views s' (CV.mk (CV.states v) mm pp ll lk (CV.rooms v) (CV.access v) (CV.closed v) (CV.pub v) (CV.chats v)) →
     Q r s') →
  wp (call_presence m) Q s.
Proof.
  intros [V1 V2 (p & Hp & Hpw & Hpv) V4 V5 V6 V7 V8 V9] Hm He Hok.
  eapply (wp_call_opt rp_wf rp_view); [exact Hp|exact Hm|done|].
  intros r x Hx. unfold outcome. destruct (ctx_at (tick s)) as [e|].
  - intros [-> Hv]. apply (He e); [done|]. split; simpl; try done.
    exists x. rewrite Hv. done.
  - intros Hpost. destruct (rp_view x) as [mm pp ll lk] eqn:Ex. rewrite Hpv in Hpost.
    eapply (Hok r); [done|exact Hpost|]. split; simpl; try done. by exists x.
Qed.

Lemma vw_rooms_call {A} (m : ctx → time → SM RoomsT A) post Q s v :
  views s v →
  method_law st_wf st_view (ctx_at (tick s)) (m (ctx_at (tick s)) (now_at (tick s))) post →
  (∀ e s', ctx_at (tick s) = Some e → views s' v → Q (Err e) s') →
  (∀ r rm s', ctx_at (tick s) = None → post (CV.rooms v) r rm →
     views s' (CV.mk (CV.states v) (CV.members v) (CV.pending v) (CV.last v) (CV.lock v)
                 rm (CV.access v) (CV.closed v) (CV.pub v) (CV.chats v)) → Q r s') →
  wp (call_rooms m) Q s.
Proof.
  intros [V1 V2 V3 (x0 & Hx0 & Hxw & Hxv) V5 V6 V7 V8 V9] Hm He Hok.
  eapply (wp_call_opt st_wf st_view); [exact Hx0|exact Hm|done|].
  intros r x Hx. unfold outcome. destruct (ctx_at (tick s)) as [e|].
  - intros [-> Hv]. apply (He e); [done|]. split; simpl; try done.
    exists x. rewrite Hv. done.
  - rewrite Hxv. intros Hpost. eapply (Hok r); [done|exact Hpost|].
    split; simpl; try done. by exists x.
Qed.

Lemma vw_states_call {A} (m : ctx → time → SM StatesT A) post Q s v :
  views s v →
  method_law rs_wf rs_view (ctx_at (tick s)) (m (ctx_at (tick s)) (now_at (tick s))) post →
  (∀ e s', ctx_at (tick s) = Some e → views s' v → Q (Err e) s') →
  (∀ r st s', ctx_at (tick s) = None → post (CV.states v) r st →
     views s' (CV.mk st (CV.members v) (CV.pending v) (CV.last v) (CV.lock v)
                 (CV.rooms v) (CV.access v) (CV.closed v) (CV.pub v) (CV.chats v)) → Q r s') →
  wp (call_states m) Q s.
Proof.
  intros [V1 V2 V3 V4 V5 V6 V7 V8 V9] Hm He Hok.
  eapply (wp_call_states rs_wf rs_view); [exact Hm|done|].
  intros r x Hx. unfold outcome. destruct (ctx_at (tick s)) as [e|].
  - intros [-> Hv]. apply (He e); [done|]. split; simpl; try done. by rewrite Hv.
  - rewrite V2. intros Hpost. eapply (Hok r); [done|exact Hpost|]. by split.
Qed.

Lemma vw_access_call {A} (m : ctx → time → SM AccessT A) post Q s v a :
  views s v → CV.access v = Some a →
  method_law ra_wf ra_view (ctx_at (tick s)) (m (ctx_at (tick s)) (now_at (tick s))) post →
  (∀ e s', ctx_at (tick s) = Some e → views s' v → Q (Err e) s') →
  (∀ r ac s', ctx_at (tick s) = None → post a r ac →
     views s' (CV.mk (CV.states v) (CV.members v) (CV.pending v) (CV.last v) (CV.lock v)
                 (CV.rooms v) (Some ac) (CV.closed v) (CV.pub v) (CV.chats v)) → Q r s') →
  wp (call_access m) Q s.
Proof.
  intros [V1 V2 V3 V4 V5 V6 V7 V8 V9] Ha Hm He Hok.
  destruct (roomAccess s) as [x0|] eqn:Hx0; [|congruence].
  destruct V5 as [Hw Hv]. assert (a = ra_view x0) as -> by congruence.
  eapply (wp_call_opt ra_wf ra_view); [exact Hx0|exact Hm|done|].
  intros r x Hx. unfold outcome. destruct (ctx_at (tick s)) as [e|].
  - intros [-> Hvx]. apply (He e); [done|]. split; simpl; try done. by rewrite Hvx.
  - intros Hpost. eapply (Hok r); [done|exact Hpost|]. by split.
Qed.

(** A method of the chat on room [r]: what it does to that room's chat when it runs. *)
Lemma vw_chat_call {A} (m : ctx → time → SM ChatT A) r post Q s v :
  views s v →
  room_law rc_wf rc_view (ctx_at (tick s)) r (m (ctx_at (tick s)) (now_at (tick s))) post →
  (∀ res f s', views s' (CV.set_chats f v) → (∀ r', r' ≠ r → f r' = CV.chats v r') →
     (((is_Some (ctx_at (tick s)) ∨ roomChat s = None) ∧ f r = CV.chats v r) ∨
      ∃ x y, CV.chats v r = Some x ∧ f r = Some y ∧ post x res y) → Q res s') →
  wp (call_chat m) Q s.
Proof.
  intros [V1 V2 V3 V4 V5 V6 V7 V8 V9] Hm HQ. unfold wp, call_chat, call_opt.
  destruct (roomChat s) as [c|] eqn:Hc.
  2:{ simpl. apply (HQ _ (CV.chats v)); [split; simpl; try done; try (by rewrite Hc)|done|by left; split; [right|]]. }
  specialize (Hm c (V8 c eq_refl)). destruct (m _ _ c) as [res x]. destruct Hm as (Hx & Ho & Hr).
  apply (HQ _ (λ r', Some (rc_view x r'))).
  - split; try done. simpl. by intros ? [= <-].
  - intros r' Hne. rewrite V9. simpl. by rewrite Ho.
  - rewrite V9. simpl. destruct (ctx_at (tick s)) as [e|].
    + left. split; [by left; eexists|]. by destruct Hr as [_ ->].
    + right. by do 2 eexists.
Qed.
(** A method of the chat that changes nothing kept. *)
Lemma vw_chat_read {A} (m : ctx → time → SM ChatT A) Q s v :
  views s v → reads_law rc_wf rc_view (m (ctx_at (tick s)) (now_at (tick s))) →
  (∀ res s', views s' v → Q res s') → wp (call_chat m) Q s.
Proof.
  intros [V1 V2 V3 V4 V5 V6 V7 V8 V9] Hm HQ. unfold wp, call_chat, call_opt.
  destruct (roomChat s) as [c|] eqn:Hc; [|simpl; apply HQ; split; simpl; try done; by rewrite Hc].
  specialize (Hm c (V8 c eq_refl)). destruct (m _ _ c) as [res x]. destruct Hm as (Hx & Hr & _).
  apply HQ. split; try done; simpl; [by intros ? [= <-]|]. intros r. by rewrite V9, Hr.
Qed.

Lemma vw_publish roomID name data Q s v :
  views s v → CV.pub v = true →
  (∀ r s', (r = Ok tt ∨ ∃ e, r = Err e) →
     views s' (CV.mk (CV.states v) (CV.members v) (CV.pending v) (CV.last v) (CV.lock v)
        (CV.rooms v) (CV.access v)
        (CV.closed v ++ match closed_event (EvPublish roomID name data r) with
                        | Some r => [r] | None => [] end) (CV.pub v) (CV.chats v)) →
     Q r s') →
  wp (call_publish roomID name data) Q s.
Proof.
  intros [V1 V2 V3 V4 V5 V6 V7 V8 V9] Hp HQ. rewrite Hp in V7.
  destruct (publisher s) as [c|] eqn:Hc; [|done].
  unfold wp, call_publish, call_opt. rewrite Hc.
  pose proof (publish_returns (ctx_at (tick s)) roomID name data c) as Hr.
  destruct (PublishRoomMessage _ _ _ _ c) as [res x]. simpl in *. apply HQ.
  - destruct res as [[]|e|h]; [by left|right; eauto|by destruct (Hr h)].
  - split; try done. unfold closed_rooms in *. simpl. rewrite omap_app, V6. simpl.
    by destruct data; simpl; [case_match|].
Qed.

(** ** Safety: what a step may change *)

(** Nothing about room [r] changes, in any component. *)
Definition same_room (r : string) (v v' : CV.t) : Prop :=
  CV.states v' !! r = CV.states v !! r ∧ CV.members v' !! r = CV.members v !! r ∧
  CV.rooms v' !! r = CV.rooms v !! r ∧
  ((.!! r) <$> CV.access v') = ((.!! r) <$> CV.access v) ∧
  CV.chats v' r = CV.chats v r.
(** The room keeps everything, except that its outbox may lose entries. *)
Definition chat_kept (c c' : option CH) : Prop :=
  (λ x, (ChatView.log x, ChatView.seq x)) <$> c' = (λ x, (ChatView.log x, ChatView.seq x)) <$> c ∧
  default [] (ChatView.outbox <$> c') `sublist_of` default [] (ChatView.outbox <$> c).
Definition kept_room (r : string) (v v' : CV.t) : Prop :=
  CV.states v' !! r = CV.states v !! r ∧ CV.members v' !! r = CV.members v !! r ∧
  CV.rooms v' !! r = CV.rooms v !! r ∧
  ((.!! r) <$> CV.access v') = ((.!! r) <$> CV.access v) ∧
  chat_kept (CV.chats v r) (CV.chats v' r).
Definition same_lock (v v' : CV.t) : Prop :=
  CV.lock v' = CV.lock v ∧ CV.last v' = CV.last v.

Definition others (id : string) (v v' : CV.t) : Prop :=
  same_lock v v' ∧ ∀ r, r ≠ id → same_room r v v'.
(** A room with members is spared. *)
Definition spares (r : string) (v v' : CV.t) : Prop :=
  same_lock v v' ∧ (CV.count v r ≠ 0 → kept_room r v v').

(** A step from a service to another, through the views. *)
Definition moved (C : relation CV.t) (s s' : Service) : Prop :=
  ∀ v, views s v → ∃ v', views s' v' ∧ C v v'.

#[local] Instance moved_preorder C `{!PreOrder C} : PreOrder (moved C).
Proof.
  split.
  - intros s v Hv. exists v. split; [done|reflexivity].
  - intros s1 s2 s3 H12 H23 v Hv. destruct (H12 v Hv) as (v2 & Hv2 & C2).
    destruct (H23 v2 Hv2) as (v3 & Hv3 & C3). exists v3. split; [done|by etrans].
Qed.
#[local] Instance others_preorder id : PreOrder (others id).
Proof.
  split; [done|]. intros v1 v2 v3 [[L1 L1'] H1] [[L2 L2'] H2]. split.
  - split; congruence.
  - intros r Hr. destruct (H1 r Hr) as (?&?&?&?&?), (H2 r Hr) as (?&?&?&?&?).
    split_and!; congruence.
Qed.
Lemma same_room_count r v v' : same_room r v v' → CV.count v' r = CV.count v r.
Proof. intros (_ & Hm & _). unfold CV.count. by rewrite Hm. Qed.
Lemma kept_room_count r v v' : kept_room r v v' → CV.count v' r = CV.count v r.
Proof. intros (_ & Hm & _). unfold CV.count. by rewrite Hm. Qed.
Lemma same_room_kept r v v' : same_room r v v' → kept_room r v v'.
Proof. intros (?&?&?&?&E). unfold kept_room, chat_kept. by rewrite E. Qed.
#[local] Instance kept_room_preorder r : PreOrder (kept_room r).
Proof.
  split; [intros v; by apply same_room_kept|].
  intros v1 v2 v3 (?&?&?&?&K1&O1) (?&?&?&?&K2&O2). unfold kept_room, chat_kept.
  split_and!; try congruence. by etrans.
Qed.
#[local] Instance spares_preorder r : PreOrder (spares r).
Proof.
  split; [done|]. intros v1 v2 v3 [[L1 L1'] H1] [[L2 L2'] H2]. split.
  - split; congruence.
  - intros Hr. specialize (H1 Hr).
    etrans; [exact H1|]. apply H2. by rewrite (kept_room_count _ _ _ H1).
Qed.
Lemma others_spares id r v v' : others id v v' → r ≠ id ∨ CV.count v r = 0 → spares r v v'.
Proof. intros [HL H] Hr. split; [done|]. intros Hc. destruct Hr; [by apply same_room_kept, H|done]. Qed.

Lemma moved_wp {A} C (m : SM Service A) :
  (∀ s v, views s v → wp m (λ _ s', ∃ v', views s' v' ∧ C v v') s) → keeps (moved C) m.
Proof. intros Hm s v Hv. exact (Hm s v Hv). Qed.

Ltac moved_call lem law :=
  apply moved_wp; intros s v Hv; eapply lem; [exact Hv|apply law| |];
  [intros; eexists; split; [eassumption|reflexivity]|].

Lemma others_DeleteRoom id :
  keeps (moved (others id)) (call_rooms (λ c _, RoomDelete c id)).
Proof.
  moved_call @vw_rooms_call @RoomDelete_law.
  intros r rm s' _ [_ ->] Hv'. eexists. split; [exact Hv'|]. split; [done|].
  intros r' Hr. split_and!; try done. simpl. by rewrite lookup_delete_ne.
Qed.
Lemma others_DeleteRoomState id :
  keeps (moved (others id)) (call_states (λ c _, DeleteRoomState c id)).
Proof.
  moved_call @vw_states_call @DeleteRoomState_law.
  intros r st s' _ [_ ->] Hv'. eexists. split; [exact Hv'|]. split; [done|].
  intros r' Hr. split_and!; try done. simpl. by rewrite lookup_delete_ne.
Qed.
Lemma others_DeleteRoomPresence id :
  keeps (moved (others id)) (call_presence (λ c _, DeleteRoomPresence c id)).
Proof.
  moved_call @vw_presence_call @DeleteRoomPresence_law.
  intros r mm pp ll lk s' _ (_ & p' & _ & _ & [= -> -> -> ->]) Hv'.
  eexists. split; [exact Hv'|]. split; [done|].
  intros r' Hr. split_and!; try done. simpl. by rewrite lookup_delete_ne.
Qed.
Lemma others_ClearPendingEmpty id id' :
  keeps (moved (others id)) (call_presence (λ c _, ClearPendingEmpty c id')).
Proof.
  moved_call @vw_presence_call @ClearPendingEmpty_law.
  intros r mm pp ll lk s' _ (_ & [= -> -> -> ->]) Hv'.
  eexists. split; [exact Hv'|]. by split.
Qed.
Lemma others_DeleteRoomAccess id :
  id ≠ "" → keeps (moved (others id)) (call_access (λ c _, DeleteRoomAccess c id)).
Proof.
  intros Hne. apply moved_wp. intros s v Hv. destruct (CV.access v) as [a|] eqn:Ha.
  - eapply vw_access_call; [exact Hv|exact Ha|by apply DeleteRoomAccess_law| |].
    { intros. eexists. split; [eassumption|reflexivity]. }
    intros r ac s' _ [_ ->] Hv'. eexists. split; [exact Hv'|]. split; [done|].
    intros r' Hr. split_and!; try done. simpl. rewrite Ha. simpl. by rewrite lookup_delete_ne.
  - pose proof (vw_access s v Hv) as Hx. destruct (roomAccess s) as [x|] eqn:E.
    { destruct Hx. congruence. }
    unfold wp, call_access, call_opt. rewrite E. exists v. split; [done|reflexivity].
Qed.
Lemma others_chat id : keeps (moved (others id)) (call_chat (λ c _, DeleteRoom c id)).
Proof.
  apply moved_wp. intros s v Hv. eapply vw_chat_call; [exact Hv|apply ChatDeleteRoom_law|].
  intros r f s' Hv' Hf _. eexists. split; [exact Hv'|]. split; [done|].
  intros r' Hr. split_and!; try done. by apply Hf.
Qed.
(** Publishing changes nothing but the list of announced closings. *)
Lemma moved_publish (C : relation CV.t) roomID name data :
  (∀ v l, C v (CV.mk (CV.states v) (CV.members v) (CV.pending v) (CV.last v) (CV.lock v)
                (CV.rooms v) (CV.access v) l (CV.pub v) (CV.chats v))) →
  keeps (moved C) (call_publish roomID name data).
Proof.
  intros HC. apply moved_wp. intros s v Hv. destruct (CV.pub v) eqn:Hp.
  - eapply vw_publish; [exact Hv|done|]. intros r s' _ Hv'.
    eexists. split; [exact Hv'|apply HC].
  - pose proof (vw_pub s v Hv) as Hx. rewrite Hp in Hx.
    destruct (publisher s) eqn:E; [done|].
    unfold wp, call_publish, call_opt. rewrite E. simpl.
    eexists. split; [|apply (HC v (CV.closed v ++
      match closed_event (EvPublish roomID name data (Halt NilDereference)) with
      | Some r => [r] | None => [] end))].
    destruct Hv. split; simpl; try done.
    + unfold closed_rooms in *. simpl. rewrite omap_app, vw_closed0. simpl.
      by destruct data; simpl; [case_match|].
Qed.
Lemma others_publish id roomID name data :
  keeps (moved (others id)) (call_publish roomID name data).
Proof. apply moved_publish. by split. Qed.
#[local] Hint Resolve others_DeleteRoom others_DeleteRoomState others_DeleteRoomPresence
  others_ClearPendingEmpty others_DeleteRoomAccess others_chat others_publish : core.

Lemma closeEmptyRoom_others id : id ≠ "" → keeps (moved (others id)) (closeEmptyRoom id).
Proof.
  intros Hne. unfold closeEmptyRoom, forget_room, deleteRoomChat, PublishRoomEvent, present.
  repeat first [keeps_step | solve [auto]].
Qed.

Lemma spares_ClearPendingEmpty r id :
  keeps (moved (spares r)) (call_presence (λ c _, ClearPendingEmpty c id)).
Proof.
  moved_call @vw_presence_call @ClearPendingEmpty_law.
  intros res mm pp ll lk s' _ (_ & [= -> -> -> ->]) Hv'.
  eexists. split; [exact Hv'|]. by split.
Qed.

(** Closing a room that nobody is in spares every populated room. *)
Lemma wp_close_then {A} r id (k : unit → SM Service A) s v :
  id ≠ "" → views s v → CV.count v id = 0 →
  (∀ a, keeps (moved (spares r)) (k a)) →
  wp (a ← closeEmptyRoom id; k a) (λ _ s', ∃ v', views s' v' ∧ spares r v v') s.
Proof.
  intros Hne Hv Hc Hk. apply wp_bind.
  destruct (closeEmptyRoom_others id Hne s v Hv) as (v1 & Hv1 & Ho).
  assert (spares r v v1) as Hs.
  { eapply others_spares; [exact Ho|].
    destruct (decide (r = id)) as [->|]; [by right|by left]. }
  unfold wp at 1. destruct (closeEmptyRoom id s) as [[a|e|h] s1]; simpl in *.
  - destruct (Hk a s1 v1 Hv1) as (v2 & Hv2 & Hs2). exists v2. split; [done|by etrans].
  - by exists v1.
  - by exists v1.
Qed.

(** The loop of the cleanup spares a populated room, whatever fails. *)
Lemma cleanup_rooms_spares r byID t cands :
  (∀ id, id ∈ cands → id ≠ "") → keeps (moved (spares r)) (cleanup_rooms byID t cands).
Proof.
  induction cands as [|id cands IH]; intros Hne; simpl; [apply keeps_ret, _|].
  assert (id ≠ "") as Hid by (apply Hne; left).
  specialize (IH (λ x Hx, Hne x (list_elem_of_further _ _ _ Hx))).
  apply moved_wp. intros s v Hv. apply wp_bind, wp_attempt.
  eapply vw_presence_call; [exact Hv|apply MemberCount_law| |].
  { intros e s' _ Hv'. exact (IH s' v Hv'). }
  intros res mm pp ll lk s' _ (-> & Heq) Hv'.
  injection Heq as -> -> -> ->. assert (views s' v) as Hs' by (by destruct v). clear Hv'.
  change (PresenceView.count _ id) with (CV.count v id).
  destruct (CV.count v id =? 0) eqn:Hc; cbn [negb].
  - apply Z.eqb_eq in Hc. apply wp_close_then; [done..|]. intros _.
    repeat first [keeps_step | solve [auto using spares_ClearPendingEmpty]].
  - match goal with |- wp ?m _ _ =>
      assert (keeps (moved (spares r)) m) as HK; [|exact (HK s' v Hs')] end.
    repeat first [keeps_step | solve [auto using spares_ClearPendingEmpty]].
Qed.

(** A method of the presence that only reads. *)
Lemma moved_read {A} C `{!PreOrder C} (m : ctx → time → SM PresenceT A) P :
  (∀ c t, method_law rp_wf rp_view c (m c t) (λ v res v', P v res ∧ v' = v)) →
  keeps (moved C) (call_presence m).
Proof.
  intros Hm. apply moved_wp. intros s v Hv.
  eapply vw_presence_call; [exact Hv|apply Hm| |].
  - intros e s' _ Hv'. exists v. by split.
  - intros res mm pp ll lk s' _ (_ & [= -> -> -> ->]) Hv'. exists v.
    split; [by destruct v|reflexivity].
Qed.
Lemma moved_list C `{!PreOrder C} opts :
  keeps (moved C) (call_rooms (λ c _, RoomList c opts)).
Proof.
  apply moved_wp. intros s v Hv.
  eapply vw_rooms_call; [exact Hv|apply RoomList_law| |].
  - intros e s' _ Hv'. exists v. by split.
  - intros res rm s' _ (_ & ->) Hv'. exists v. split; [by destruct v|reflexivity].
Qed.
Lemma moved_now C `{!PreOrder C} : keeps (moved C) now.
Proof. intros s v Hv. exists v. split; [by apply vw_tick|reflexivity]. Qed.
Lemma moved_emit C `{!PreOrder C} ev : closed_event ev = None → keeps (moved C) (emit ev).
Proof.
  intros Hev s v Hv. apply (vw_emit ev (λ _ s', ∃ v', views s' v' ∧ C v v') s v Hv Hev).
  intros s' Hv'. exists v. by split.
Qed.
Lemma moved_emit_all C `{!PreOrder C} evs :
  Forall (λ ev, closed_event ev = None) evs → keeps (moved C) (emit_all evs).
Proof.
  induction 1; simpl; [apply keeps_ret, _|].
  refine (keeps_bind _ _ _ _ _); [by apply moved_emit|done].
Qed.
Lemma moved_log C `{!PreOrder C} cleaned skipped a b c d trig :
  keeps (moved C) (logEmptyRoomCleanupResults cleaned skipped a b c d trig).
Proof.
  unfold logEmptyRoomCleanupResults.
  repeat first [keeps_step | apply (moved_emit_all _); by apply Forall_fmap, Forall_true
               | by apply (moved_emit _)].
Qed.
Lemma moved_pending C `{!PreOrder C} :
  keeps (moved C) (call_presence (λ c _, PendingEmptyRooms c)).
Proof. eapply (moved_read _). intros. apply PendingEmptyRooms_law. Qed.
Lemma moved_active C `{!PreOrder C} :
  keeps (moved C) (call_presence (λ c _, ListRoomsWithMembers c)).
Proof. eapply (moved_read _). intros. apply ListRoomsWithMembers_law. Qed.
Lemma moved_last C `{!PreOrder C} :
  keeps (moved C) (call_presence (λ c _, GetLastRoomCleanupAt c)).
Proof. eapply (moved_read _). intros. apply GetLastRoomCleanupAt_law. Qed.

Lemma candidates_nonempty parts id : id ∈ mergeUniqueRoomIDs parts → id ≠ "".
Proof. intros Hin%merge_from_spec. apply Hin. Qed.

Lemma RunEmptyRoomCleanup_spares r trig : keeps (moved (spares r)) (RunEmptyRoomCleanup trig).
Proof.
  unfold RunEmptyRoomCleanup, present.
  repeat first [keeps_step | apply moved_pending, _ | apply moved_active, _
    | apply moved_list, _ | apply moved_now, _ | apply moved_log, _].
  apply cleanup_rooms_spares, candidates_nonempty.
Qed.

(** ** Draining the chat outbox touches no room *)

(** A method that keeps the history of its room and may shorten its outbox. *)
Lemma spares_chat {A} r id post (m : ctx → time → SM ChatT A) :
  (∀ c t, room_law rc_wf rc_view c id (m c t) post) →
  (∀ x res y, post x res y → ChatView.log y = ChatView.log x ∧ ChatView.seq y = ChatView.seq x ∧
     ChatView.outbox y `sublist_of` ChatView.outbox x) →
  keeps (moved (spares r)) (call_chat m).
Proof.
  intros Hm Hpost. apply moved_wp. intros s v Hv.
  eapply vw_chat_call; [exact Hv|apply Hm|]. intros res f s' Hv' Hf Hid.
  eexists. split; [exact Hv'|]. split; [done|]. intros _.
  destruct (decide (r = id)) as [->|Hne].
  - destruct Hid as [[_ E]|(x & y & Ex & Ey & Hp)].
    + apply same_room_kept. split_and!; try done.
    + destruct (Hpost _ _ _ Hp) as (H1 & H2 & H3). split_and!; try done.
      unfold chat_kept. simpl. rewrite Ex, Ey. simpl. rewrite H1, H2. by split.
  - apply same_room_kept. split_and!; try done. by apply Hf.
Qed.
Lemma spares_PendingStreamIDs r id n :
  keeps (moved (spares r)) (call_chat (λ c _, PendingStreamIDs c id n)).
Proof. eapply spares_chat; [intros; apply PendingStreamIDs_law|]. by intros x res y [-> _]. Qed.
Lemma spares_GetPayload r id sid :
  keeps (moved (spares r)) (call_chat (λ c _, GetPayload c id sid)).
Proof. eapply spares_chat; [intros; apply GetPayload_law|]. by intros x res y [-> _]. Qed.
Lemma spares_RemovePending r id sid :
  keeps (moved (spares r)) (call_chat (λ c _, RemovePending c id sid)).
Proof.
  eapply spares_chat; [intros; apply RemovePending_law|]. intros x res y [_ ->].
  split_and!; [done..|]. apply sublist_filter.
Qed.
Lemma spares_ScanPendingRooms r cursor n :
  keeps (moved (spares r)) (call_chat (λ c _, ScanPendingRooms c cursor n)).
Proof.
  apply moved_wp. intros s v Hv. eapply vw_chat_read; [exact Hv|apply ScanPendingRooms_law|].
  intros res s' Hv'. exists v. split; [done|reflexivity].
Qed.
#[local] Hint Resolve spares_PendingStreamIDs spares_GetPayload spares_RemovePending
  spares_ScanPendingRooms : core.
Lemma spares_publish r roomID name data :
  keeps (moved (spares r)) (call_publish roomID name data).
Proof. apply moved_publish. by split. Qed.
Lemma spares_publish_loop r n i att roomID data le :
  keeps (moved (spares r)) (publish_loop n i att roomID data le).
Proof.
  revert i le. induction n as [|n IH]; intros i le; simpl; [apply keeps_ret, _|].
  repeat first [keeps_step | apply spares_publish | apply IH | by apply (moved_emit _)
    | exact (moved_now _)].
  all: intros s v Hv; exists v; split; [by apply vw_tick|reflexivity].
Qed.
Lemma spares_chat_publish r roomID data :
  keeps (moved (spares r)) (publishAblyChat roomID data).
Proof.
  unfold publishAblyChat, present. repeat first [keeps_step | apply spares_publish_loop].
Qed.
Lemma spares_drain_entries r roomID ids :
  keeps (moved (spares r)) (drain_entries roomID ids).
Proof.
  induction ids as [|sid ids IH]; simpl; [apply keeps_ret, _|]. unfold drain_entry.
  repeat first [keeps_step | solve [auto] | apply IH | apply spares_chat_publish].
Qed.
Lemma spares_drain_keys r keys : keeps (moved (spares r)) (drain_keys keys).
Proof.
  induction keys as [|key keys IH]; simpl; [apply keeps_ret, _|]. unfold drainRoomPending.
  repeat first [keeps_step | solve [auto] | apply IH | apply spares_drain_entries].
Qed.
Lemma ProcessGlobalChatPending_spares r fuel :
  keeps (moved (spares r)) (ProcessGlobalChatPending fuel).
Proof.
  assert (∀ cursor, keeps (moved (spares r)) (scan_pending fuel cursor)) as Hscan.
  { induction fuel as [|fuel IH]; intros cursor; simpl; [apply keeps_halt, _|].
    repeat first [keeps_step | solve [auto] | apply IH | apply spares_drain_keys]. }
  unfold ProcessGlobalChatPending, present. repeat first [keeps_step | apply Hscan].
Qed.

(** ** The whole cleanup *)

(** What the components hold about room [r]: its state, members, row, grants, and its
    chat's messages with the last number given; and the ids waiting in the outbox. *)
Definition room_data (r : string) (s : Service) :=
  (rs_view (states s) !! r,
   (λ p, PresenceView.members (rp_view p) !! r) <$> presence s,
   (λ x, st_view x !! r) <$> rooms s,
   (λ a, ra_view a !! r) <$> roomAccess s,
   (λ c, (ChatView.log (rc_view c r), ChatView.seq (rc_view c r))) <$> roomChat s).
Definition room_outbox (r : string) (s : Service) : list string :=
  match roomChat s with Some c => ChatView.outbox (rc_view c r) | None => [] end.

Lemma room_data_views r s v :
  views s v → room_data r s = (CV.states v !! r, Some (CV.members v !! r),
    Some (CV.rooms v !! r), (.!! r) <$> CV.access v,
    (λ x, (ChatView.log x, ChatView.seq x)) <$> CV.chats v r).
Proof.
  intros [_ H2 (p & Hp & _ & Hpv) (x & Hx & _ & Hxv) Ha _ _ _ Hc]. unfold room_data.
  rewrite H2, Hp, Hx, Hc. simpl. rewrite Hpv, Hxv, <- option_fmap_compose. simpl.
  destruct (roomAccess s); simpl; [by destruct Ha as [_ ->]|by rewrite Ha].
Qed.

Lemma room_outbox_views r s v :
  views s v → room_outbox r s = default [] (ChatView.outbox <$> CV.chats v r).
Proof. intros []. unfold room_outbox. rewrite vw_chat_eq0. by destruct (roomChat s). Qed.

(** The number of members of [r]. *)
Definition online (r : string) (s : Service) : Z :=
  match presence s with Some p => PresenceView.count (rp_view p) r | None => 0 end.
Lemma online_views r s v : views s v → online r s = CV.count v r.
Proof. intros [_ _ (p & Hp & _ & Hpv) _ _ _ _ _ _]. unfold online. by rewrite Hp, Hpv. Qed.

Definition spared (r : string) (v v' : CV.t) : Prop :=
  CV.count v r ≠ 0 → kept_room r v v'.
#[local] Instance spared_preorder r : PreOrder (spared r).
Proof.
  split; [done|]. intros v1 v2 v3 H1 H2 Hr. specialize (H1 Hr).
  etrans; [exact H1|]. apply H2. by rewrite (kept_room_count _ _ _ H1).
Qed.
Lemma spares_spared {A} r (m : SM Service A) :
  keeps (moved (spares r)) m → keeps (moved (spared r)) m.
Proof.
  intros Hm s v Hv. destruct (Hm s v Hv) as (v' & Hv' & [_ Hs]). by exists v'.
Qed.

Lemma keeps_with_defer {A} R `{!PreOrder R} (release : SM Service unit) (m : SM Service A) :
  keeps R release → keeps R m → keeps R (with_defer release m).
Proof.
  intros Hr Hm s. unfold with_defer. specialize (Hm s). destruct (m s) as [r s1].
  simpl in *. etrans; [exact Hm|apply Hr].
Qed.

Lemma MaybeRunGlobalCleanup_spared r fuel :
  keeps (moved (spared r)) (MaybeRunGlobalCleanup fuel).
Proof.
  unfold MaybeRunGlobalCleanup, present.
  repeat first [keeps_step | apply moved_last, _ | apply moved_now, _
    | apply (keeps_with_defer _)
    | apply spares_spared; first [apply RunEmptyRoomCleanup_spares
                                 | apply ProcessGlobalChatPending_spares]].
  - moved_call @vw_presence_call @TryAcquireCleanupLock_law.
    intros res mm pp ll lk s' _ (_ & [= -> -> -> ->]) Hv'. eexists. by split.
  - moved_call @vw_presence_call @ReleaseCleanupLock_law.
    intros res mm pp ll lk s' _ (_ & [= -> -> -> ->]) Hv'. eexists. by split.
  - moved_call @vw_presence_call @SetLastRoomCleanupAt_law.
    intros res mm pp ll lk s' _ (_ & t' & _ & [= -> -> -> ->]) Hv'. eexists. by split.
Qed.


(** ** Success: with live contexts the empty candidates are closed *)

Section live.
Context (Hlive : ∀ n, ctx_at n = None).

Ltac live_call lem law :=
  eapply lem; [eassumption|apply law|intros ? ? Hc; by rewrite Hlive in Hc|].

Definition closed_with (id : string) (p' : gset string) (v : CV.t) : CV.t :=
  CV.set_pending p' (CV.close id v).

Definition no_chat (id : string) (f : string → option CH) (r : string) : option CH :=
  if decide (r = id) then const ChatView.empty <$> f r else f r.

(** The view of the chat only matters up to its values. *)
Lemma views_chats f g s v :
  (∀ r, f r = g r) → views s (CV.set_chats f v) → views s (CV.set_chats g v).
Proof. intros E []. split; try done. intros r. rewrite <- E. apply vw_chat_eq0. Qed.

Lemma forget_room_live id user s v :
  id ≠ "" → views s v →
  wp (forget_room id user) (λ r s', r = Ok tt → ∃ p',
    CV.pending v ∖ {[id]} ⊆ p' ∧ p' ⊆ CV.pending v ∧
    views s' (CV.mk (CV.states v) (delete id (CV.members v)) p' (CV.last v) (CV.lock v)
      (CV.rooms v) (delete id <$> CV.access v)
      (CV.closed v ++ (if CV.pub v then [id] else [])) (CV.pub v) (no_chat id (CV.chats v)))) s.
Proof.
  intros Hne Hv. unfold forget_room. apply wp_present.
  destruct (vw_presence s v Hv) as (p & -> & _). cbn [when]. apply wp_bind, wp_ignore.
  live_call @vw_presence_call @DeleteRoomPresence_law.
  intros res mm pp ll lk s1 _ (-> & p' & Hp1 & Hp2 & [= -> -> -> ->]) Hv1. cbn in Hp1, Hp2.
  set (v1 := CV.mk _ _ _ _ _ _ _ _ _ _) in Hv1.
  apply wp_present, wp_bind.
  apply (wp_mono _ (λ r s', r = Ok tt ∧ views s'
    (CV.mk (CV.states v) (delete id (CV.members v)) p' (CV.last v) (CV.lock v)
      (CV.rooms v) (delete id <$> CV.access v) (CV.closed v) (CV.pub v) (CV.chats v)))).
  { pose proof (vw_access s1 v1 Hv1) as Ha. destruct (roomAccess s1) as [a|]; cbn [when].
    - destruct Ha as [_ Ha]. apply wp_ignore.
      eapply vw_access_call; [exact Hv1|exact Ha|by apply DeleteRoomAccess_law
        |intros ? ? Hc; by rewrite Hlive in Hc|].
      intros r ac s2 _ [-> ->] Hv2. cbn in Ha. rewrite Ha. done.
    - cbn in Ha. apply wp_ret. rewrite Ha. split; [done|]. cbn.
      unfold v1 in Hv1. by rewrite Ha in Hv1. }
  intros r s2 [-> Hv2]. apply wp_bind.
  set (v2 := CV.mk _ _ _ _ _ _ _ _ _ _) in Hv2.
  apply (wp_mono _ (λ r s', views s' (CV.set_chats (no_chat id (CV.chats v)) v2))).
  { unfold deleteRoomChat. apply wp_present. destruct (roomChat s2) as [c|] eqn:Ec.
    - apply wp_ignore. eapply vw_chat_call; [exact Hv2|apply ChatDeleteRoom_law|].
      intros res f s3 Hv3 Hf Hid.
      assert (∀ r, f r = no_chat id (CV.chats v) r) as E.
      { intros r. unfold no_chat. case_decide as Hr; [subst r|by apply Hf].
        destruct Hid as [[[[e He]|Hn] _]|(x & y & Ex & Ey & _ & ->)];
          [by rewrite Hlive in He|congruence|]. cbn in Ex. by rewrite Ex. }
      destruct res; exact (views_chats _ _ _ _ E Hv3).
    - apply wp_ret. apply (views_chats (CV.chats v)); [|by destruct v].
      intros r. unfold no_chat. case_decide as Hr; [|done].
      pose proof (vw_chat_eq s2 v2 Hv2 r) as E. cbn in E. by rewrite E, Ec. }
  intros [[]|e|h] s3 Hv3; [|done..].
  unfold PublishRoomEvent. apply wp_present. set (v3 := CV.set_chats _ v2) in Hv3.
  pose proof (vw_pub s3 v3 Hv3) as Hpub.
  cbn in Hpub. destruct (publisher s3); cbn [negb].
  - eapply vw_publish; [exact Hv3|done|]. intros r s4 _ Hv4 ->.
    exists p'. split_and!; [done..|]. unfold v3, v2 in Hv4. cbn in Hv4.
    by rewrite <- Hpub in Hv4 |- *.
  - apply wp_ret. intros _. exists p'. split_and!; [done..|].
    rewrite <- Hpub, app_nil_r. unfold v3, v2 in Hv3. by rewrite <- Hpub in Hv3.
Qed.

Lemma closeEmptyRoom_live id s v :
  id ≠ "" → views s v →
  wp (closeEmptyRoom id) (λ r s', r = Ok tt → ∃ p',
    CV.pending v ∖ {[id]} ⊆ p' ∧ p' ⊆ CV.pending v ∧
    views s' (CV.set_pending p' (CV.close id v))) s.
Proof.
  intros Hne Hv. unfold closeEmptyRoom. apply wp_bind, wp_attempt.
  live_call @vw_rooms_call @RoomDelete_law.
  intros res rm s1 _ [-> ->] Hv1. cbn in Hv1.
  assert (∀ (k : unit → SM Service unit) Q, wp (k tt) Q s1 →
    wp (_ ← mret (M:=SM Service) tt; k tt) Q s1) as Hret by done.
  set (Q := λ (r : result unit) (s' : Service), r = Ok tt → _).
  assert (wp (_ ← ignore (call_states (λ c _, DeleteRoomState c id));
              forget_room id None) Q s1) as Hrest.
  { apply wp_bind, wp_ignore. live_call @vw_states_call @DeleteRoomState_law.
    intros r st s2 _ [-> ->] Hv2. cbn in Hv2.
    eapply wp_mono; [by apply forget_room_live|]. intros r s3 Hr Hok.
    destruct (Hr Hok) as (p' & Hp1 & Hp2 & Hv3). by exists p'. }
  case_decide; exact Hrest.
Qed.

(** One candidate, and the loop. *)
Lemma cleanup_rooms_live byID t cands s v :
  (∀ id, id ∈ cands → id ≠ "") → views s v →
  wp (cleanup_rooms byID t cands) (λ r s', ∀ x, r = Ok x →
    views s' (CV.cleanup cands v)) s.
Proof.
  revert s v. induction cands as [|id cands IH]; intros s v Hne Hv; simpl;
    [by apply wp_ret|].
  assert (id ≠ "") as Hid by (apply Hne; left).
  assert (∀ x, x ∈ cands → x ≠ "") as Hne' by (intros x Hx; apply Hne; by right).
  apply wp_bind, wp_attempt. live_call @vw_presence_call @MemberCount_law.
  intros res mm pp ll lk s1 _ (-> & Heq) Hv1.
  injection Heq as -> -> -> ->. assert (views s1 v) as Hs1 by (by destruct v). clear Hv1.
  change (PresenceView.count _ id) with (CV.count v id).
  (* the last step of both branches *)
  assert (∀ w s2 (k : list CleanupEntry.t * list CleanupEntry.t →
                     SM Service (list CleanupEntry.t * list CleanupEntry.t)),
    views s2 w → CV.set_pending (CV.pending w ∖ {[id]}) w = CV.visit v id →
    (∀ x s', (k x s').2 = s') →
    wp (_ ← ignore (call_presence (λ c _, ClearPendingEmpty c id));
        x ← cleanup_rooms byID t cands; k x)
      (λ r s', ∀ x, r = Ok x → views s' (CV.cleanup cands (CV.visit v id))) s2) as Hlast.
  { intros w s2 k Hw Heq Hk. apply wp_bind, wp_ignore.
    live_call @vw_presence_call @ClearPendingEmpty_law.
    intros r mm pp ll lk s3 _ (-> & [= -> -> -> ->]) Hv3. cbn in Hv3.
    change (views s3 (CV.set_pending (CV.pending w ∖ {[id]}) w)) in Hv3. rewrite Heq in Hv3.
    apply wp_bind. eapply wp_mono; [by apply IH|].
    intros [a|e|h] s4 Hr; [|done..]. unfold wp. rewrite Hk. intros y _. by apply (Hr a). }
  destruct (CV.count v id =? 0) eqn:Hc; cbn [negb].
  - apply wp_bind. eapply wp_mono; [by apply closeEmptyRoom_live|].
    intros [[]|e|h] s2 Hr; [|done..].
    destruct (Hr eq_refl) as (p' & Hp1 & Hp2 & Hv2).
    eapply Hlast; [exact Hv2| |by intros []].
    unfold CV.visit. rewrite Hc. unfold CV.close, CV.set_pending. cbn. f_equal. set_solver.
  - eapply Hlast; [exact Hs1| |by intros []]. unfold CV.visit. by rewrite Hc.
Qed.

Lemma emit_all_run evs s v :
  Forall (λ ev, closed_event ev = None) evs → views s v →
  wp (emit_all evs) (λ r s', r = Ok tt ∧ views s' v) s.
Proof.
  intros Hevs. revert s. induction Hevs as [|ev evs Hev _ IH]; intros s Hv; simpl; [done|].
  apply wp_bind. eapply vw_emit; [exact Hv|done|]. intros s' Hv'. by apply IH.
Qed.

Lemma log_run cleaned skipped a b c d trig s v :
  views s v → wp (logEmptyRoomCleanupResults cleaned skipped a b c d trig)
    (λ _ s', views s' v) s.
Proof.
  intros Hv. unfold logEmptyRoomCleanupResults.
  apply wp_bind. eapply wp_mono; [apply emit_all_run; [|exact Hv]|].
  { by apply Forall_fmap, Forall_true. }
  intros r s1 [-> Hv1]. apply wp_bind. eapply wp_mono; [apply emit_all_run; [|exact Hv1]|].
  { by apply Forall_fmap, Forall_true. }
  intros r' s2 [-> Hv2]. by eapply vw_emit.
Qed.

(** The candidates of a cleanup: the rooms marked empty, the rooms with
    members, and the listed rooms. *)
Definition candidates_of (v : CV.t) (cands : list string) : Prop :=
  ∃ pending active listed,
    cands = mergeUniqueRoomIDs [pending; active; Room.ID <$> listed] ∧
    (∀ r, r ∈ pending ↔ r ∈ CV.pending v) ∧
    (∀ r, r ∈ active ↔ is_Some (CV.members v !! r)) ∧
    (∀ room, room ∈ listed → CV.rooms v !! Room.ID room = Some room) ∧
    ((size (CV.rooms v) ≤ 50)%nat → ∀ r room, CV.rooms v !! r = Some room →
       room ∈ listed ∧ Room.ID room = r).

Lemma RunEmptyRoomCleanup_live trig s v :
  views s v →
  wp (RunEmptyRoomCleanup trig) (λ r s', r = Ok tt →
    ∃ cands, candidates_of v cands ∧ views s' (CV.cleanup cands v)) s.
Proof.
  intros Hv. unfold RunEmptyRoomCleanup. apply wp_present.
  destruct (vw_presence s v Hv) as (p & -> & _). apply wp_present.
  destruct (vw_rooms s v Hv) as (x & -> & _). cbn [negb orb]. apply wp_bind.
  live_call @vw_presence_call @PendingEmptyRooms_law.
  intros r1 mm pp ll lk s1 _ ((pend & -> & Hpend) & [= -> -> -> ->]) Hv1.
  assert (views s1 v) as Hs1 by (by destruct v). clear Hv1. apply wp_bind.
  live_call @vw_presence_call @ListRoomsWithMembers_law.
  intros r2 mm pp ll lk s2 _ ((act & -> & Hact) & [= -> -> -> ->]) Hv2.
  assert (views s2 v) as Hs2 by (by destruct v). clear Hv2. apply wp_bind.
  live_call @vw_rooms_call @RoomList_law.
  intros r3 rm s3 _ ((listed & n & -> & Hl1 & Hl2) & ->) Hv3.
  assert (views s3 v) as Hs3 by (by destruct v). clear Hv3.
  eapply vw_now; [exact Hs3|]. intros s4 Hs4. apply wp_bind.
  eapply wp_mono; [apply cleanup_rooms_live; [apply candidates_nonempty|exact Hs4]|].
  intros [[cleaned skipped]|e|h] s5 Hr; [|done..].
  eapply wp_mono; [by eapply log_run, Hr|]. intros r s6 Hv6 _.
  eexists. split; [|exact Hv6]. exists pend, act, listed. split_and!; try done.
  by apply Hl2.
Qed.
End live.

(** ** The closed form of a cleanup *)

Lemma visit_other v r r' : r' ≠ r → same_room r' v (CV.visit v r).
Proof.
  intros Hr. unfold CV.visit. case_match; [|done]. split_and!; simpl;
    rewrite ?lookup_delete_ne by done; try done.
  - destruct (CV.access v); simpl; [|done]. by rewrite lookup_delete_ne.
  - by rewrite decide_False.
Qed.

Lemma visit_self v r :
  CV.count v r ≠ 0 → same_room r v (CV.visit v r).
Proof. intros Hc. unfold CV.visit. by destruct (Z.eqb_spec (CV.count v r) 0). Qed.

(** Nothing is left of room [r]. *)
Definition gone (r : string) (v : CV.t) : Prop :=
  CV.states v !! r = None ∧ CV.members v !! r = None ∧ CV.rooms v !! r = None ∧
  (∀ a, CV.access v = Some a → a !! r = None) ∧
  (∀ c, CV.chats v r = Some c → c = ChatView.empty).

Lemma visit_gone v r : CV.count v r = 0 → gone r (CV.visit v r).
Proof.
  intros Hc. unfold CV.visit. rewrite Hc. simpl. split_and!; simpl; try apply lookup_delete_eq.
  - destruct (CV.access v); simpl; [|done]. intros a [= <-]. apply lookup_delete_eq.
  - rewrite decide_True by done. destruct (CV.chats v r); simpl; [|done]. by intros c [= <-].
Qed.

Lemma same_room_gone r v v' : same_room r v v' → gone r v → gone r v'.
Proof.
  intros (E1 & E2 & E3 & E4 & E5) (G1 & G2 & G3 & G4 & G5).
  split_and!; try congruence; [|by rewrite E5]. intros a' Ha'. rewrite Ha' in E4. simpl in E4.
  destruct (CV.access v) as [a|]; simpl in E4; [|done]. injection E4 as ->. by apply G4.
Qed.

Lemma visit_pub v r : CV.pub (CV.visit v r) = CV.pub v.
Proof. unfold CV.visit. by case_match. Qed.

Lemma cleanup_form cands v :
  NoDup cands → let v' := CV.cleanup cands v in
  (∀ r, r ∈ cands → CV.count v r = 0 → gone r v') ∧
  (∀ r, (r ∈ cands → CV.count v r ≠ 0) → same_room r v v') ∧
  CV.pending v' = CV.pending v ∖ list_to_set cands ∧
  CV.closed v' = CV.closed v ++
    (if CV.pub v then filter (λ r, CV.count v r = 0) cands else []) ∧
  CV.pub v' = CV.pub v ∧ same_lock v v'.
Proof.
  revert v. induction cands as [|id cands IH]; intros v Hnd; simpl.
  { split_and!; try done; [by intros r ?%not_elem_of_nil|set_solver|].
    by destruct (CV.pub v); rewrite app_nil_r. }
  apply list.NoDup_cons in Hnd as [Hid Hnd].
  destruct (IH (CV.visit v id) Hnd) as (I1 & I2 & I3 & I4 & I5 & I6).
  assert (∀ r, r ≠ id → CV.count (CV.visit v id) r = CV.count v r) as Hcount.
  { intros r Hr. by apply same_room_count, visit_other. }
  fold (CV.cleanup cands (CV.visit v id)). split_and!.
  - intros r [->|Hin]%elem_of_cons Hc.
    + eapply same_room_gone; [|by apply visit_gone]. apply I2. done.
    + assert (r ≠ id) by (by intros ->). apply I1; [done|]. by rewrite Hcount.
  - intros r Hr. assert (same_room r (CV.visit v id) (CV.cleanup cands (CV.visit v id))) as H2.
    { apply I2. intros Hin. assert (r ≠ id) by (by intros ->). rewrite Hcount by done.
      apply Hr. by right. }
    assert (same_room r v (CV.visit v id)) as H1.
    { destruct (decide (r = id)) as [->|]; [|by apply visit_other].
      apply visit_self, Hr. left. }
    destruct H1 as (?&?&?&?&?), H2 as (?&?&?&?&?). split_and!; congruence.
  - rewrite I3. unfold CV.visit.
    destruct (CV.count v id =? 0); simpl; apply difference_difference_l_L.
  - rewrite I4.
    rewrite visit_pub.
    assert (filter (λ r, CV.count (CV.visit v id) r = 0) cands =
            filter (λ r, CV.count v r = 0) cands) as ->.
    { clear -Hid Hcount. induction cands as [|c cands IH']; [done|].
      apply not_elem_of_cons in Hid as [Hc Hid].
      rewrite !filter_cons, (Hcount c) by done. by rewrite IH'. }
    rewrite filter_cons. unfold CV.visit.
    destruct (Z.eqb_spec (CV.count v id) 0) as [Hc|Hc]; simpl.
    + rewrite decide_True by done. destruct (CV.pub v); simpl; by rewrite <- ?app_assoc, ?app_nil_r.
    + by rewrite decide_False by done.
  - by rewrite I5, visit_pub.
  - destruct I6 as [L1 L2]. split; [rewrite L1|rewrite L2]; unfold CV.visit;
      by destruct (CV.count v id =? 0).
Qed.

(** ** What a cleanup does, on the service *)

Definition stored (r : string) (s : Service) : Prop :=
  match rooms s with Some x => is_Some (st_view x !! r) | None => False end.
Definition marked (r : string) (s : Service) : Prop :=
  match presence s with Some p => r ∈ PresenceView.pending (rp_view p) | None => False end.
Definition active (r : string) (s : Service) : Prop :=
  match presence s with
  | Some p => is_Some (PresenceView.members (rp_view p) !! r) | None => False end.
Definition stored_rooms (s : Service) : nat :=
  match rooms s with Some x => size (st_view x) | None => 0%nat end.
(** Nothing is left of the room anywhere. *)
Definition erased (r : string) (s : Service) : Prop :=
  ∃ a c, room_data r s = (None, Some None, Some None, a, c) ∧ default None a = None ∧
    default ([], 0) c = ([], 0) ∧ room_outbox r s = [].
Definition clean_id (r : string) : Prop := r ≠ "" ∧ TrimSpace r = r.

Lemma stored_views r s v : views s v → stored r s ↔ is_Some (CV.rooms v !! r).
Proof. intros [_ _ _ (x & Hx & _ & Hxv) _ _ _ _ _]. unfold stored. by rewrite Hx, Hxv. Qed.
Lemma marked_views r s v : views s v → marked r s ↔ r ∈ CV.pending v.
Proof. intros [_ _ (p & Hp & _ & Hpv) _ _ _ _ _ _]. unfold marked. by rewrite Hp, Hpv. Qed.
Lemma active_views r s v : views s v → active r s ↔ is_Some (CV.members v !! r).
Proof. intros [_ _ (p & Hp & _ & Hpv) _ _ _ _ _ _]. unfold active. by rewrite Hp, Hpv. Qed.
Lemma stored_rooms_views s v : views s v → stored_rooms s = size (CV.rooms v).
Proof. intros [_ _ _ (x & Hx & _ & Hxv) _ _ _ _ _]. unfold stored_rooms. by rewrite Hx, Hxv. Qed.
Lemma erased_views r s v : views s v → gone r v → erased r s.
Proof.
  intros Hv (G1 & G2 & G3 & G4 & G5). unfold erased.
  rewrite (room_data_views r s v Hv), (room_outbox_views r s v Hv), G1, G2, G3.
  do 2 eexists. split; [done|]. split_and!.
  - destruct (CV.access v) as [a|]; simpl; [|done]. by apply G4.
  - destruct (CV.chats v r) as [c|]; simpl; [|done]. by rewrite (G5 c).
  - destruct (CV.chats v r) as [c|]; simpl; [|done]. by rewrite (G5 c).
Qed.

(** Which rooms are candidates when all ids are clean and all rooms listed. *)
Lemma candidates_clean v cands :
  candidates_of v cands → (size (CV.rooms v) ≤ 50)%nat →
  (∀ r, is_Some (CV.rooms v !! r) ∨ r ∈ CV.pending v ∨ is_Some (CV.members v !! r) → clean_id r) →
  NoDup cands ∧
  ∀ r, r ∈ cands ↔
    is_Some (CV.rooms v !! r) ∨ r ∈ CV.pending v ∨ is_Some (CV.members v !! r).
Proof.
  intros (pend & act & listed & -> & Hp & Ha & Hl & Hall) Hsize Hclean.
  split; [apply merge_from_NoDup|]. intros r. unfold mergeUniqueRoomIDs.
  rewrite merge_from_spec. simpl. setoid_rewrite elem_of_app. setoid_rewrite elem_of_app.
  setoid_rewrite Hp. setoid_rewrite Ha.
  assert (∀ id, id ∈ (Room.ID <$> listed) ++ [] ↔ is_Some (CV.rooms v !! id)) as Hlisted.
  { intros id. rewrite app_nil_r, list_elem_of_fmap. split.
    - intros (room & -> & Hin). rewrite (Hl room Hin). eauto.
    - intros [room Hroom]. exists room. destruct (Hall Hsize id room Hroom). done. }
  setoid_rewrite Hlisted. split.
  - intros (_ & _ & id & Hid & <-).
    assert (is_Some (CV.rooms v !! id) ∨ id ∈ CV.pending v ∨ is_Some (CV.members v !! id)) as Hany
      by tauto.
    destruct (Hclean id Hany) as [_ ->]. done.
  - intros Hany. destruct (Hclean r Hany) as [Hne Ht]. split_and!; [done|set_solver|].
    exists r. split; [tauto|done].
Qed.

(** C23: when it succeeds, under contexts that stay live, a cleanup of at most fifty
    stored rooms closes exactly the rooms nobody is in: those with members keep
    all their data, the chat and its outbox with them; of the others nothing is left
    in any component, no message of their chat either, and their closing is
    announced once; no room stays marked as empty. *)
Theorem cleanup_closes_exactly_the_empty trig s s' :
  (∀ n, ctx_at n = None) → service_wf s → (stored_rooms s ≤ 50)%nat →
  (∀ r, stored r s ∨ marked r s ∨ active r s → clean_id r) →
  RunEmptyRoomCleanup trig s = (Ok tt, s') →
  (∀ r, stored r s' ↔ stored r s ∧ online r s ≠ 0) ∧
  (∀ r, online r s ≠ 0 → room_data r s' = room_data r s ∧ room_outbox r s' = room_outbox r s) ∧
  (∀ r, online r s = 0 → stored r s ∨ marked r s ∨ active r s → erased r s') ∧
  (∀ r, ¬ marked r s') ∧
  ∃ closings, closed_rooms s' = closed_rooms s ++ closings ∧ NoDup closings ∧
    (publisher s ≠ None → ∀ r, r ∈ closings ↔
       online r s = 0 ∧ (stored r s ∨ marked r s ∨ active r s)).
Proof.
  intros Hlive Hs Hsize Hclean Hrun. destruct (views_exists s Hs) as [v Hv].
  pose proof (RunEmptyRoomCleanup_live Hlive trig s v Hv) as Hw. unfold wp in Hw.
  rewrite Hrun in Hw. destruct (Hw eq_refl) as (cands & Hc & Hv'). clear Hw.
  rewrite (stored_rooms_views s v Hv) in Hsize.
  setoid_rewrite (stored_views _ s v Hv) in Hclean.
  setoid_rewrite (marked_views _ s v Hv) in Hclean.
  setoid_rewrite (active_views _ s v Hv) in Hclean.
  destruct (candidates_clean v cands Hc Hsize Hclean) as [Hnd Hin].
  destruct (cleanup_form cands v Hnd) as (F1 & F2 & F3 & F4 & F5 & _).
  set (v' := CV.cleanup cands v) in *.
  setoid_rewrite (stored_views _ s v Hv). setoid_rewrite (marked_views _ s v Hv).
  setoid_rewrite (active_views _ s v Hv). setoid_rewrite (online_views _ s v Hv).
  split_and!.
  - intros r. rewrite (stored_views r s' v' Hv'). split.
    + intros Hst. destruct (decide (CV.count v r = 0)) as [H0|H0].
      * destruct (decide (r ∈ cands)) as [Hr|Hr].
        -- destruct (F1 r Hr H0) as (_ & _ & Hg & _). rewrite Hg in Hst. by destruct Hst.
        -- destruct (F2 r) as (_ & _ & Heq & _); [done|]. rewrite Heq in Hst.
           exfalso. apply Hr, Hin. by left.
      * destruct (F2 r) as (_ & _ & Heq & _); [done|]. by rewrite Heq in Hst.
    + intros [Hst H0]. destruct (F2 r) as (_ & _ & -> & _); done.
  - intros r H0. rewrite (room_data_views r s v Hv), (room_data_views r s' v' Hv').
    rewrite (room_outbox_views r s v Hv), (room_outbox_views r s' v' Hv').
    destruct (F2 r) as (-> & -> & -> & -> & ->); done.
  - intros r H0 Hr. eapply erased_views; [exact Hv'|]. apply F1; [by apply Hin|done].
  - intros r. rewrite (marked_views r s' v' Hv'), F3.
    intros [Hp Hr]%elem_of_difference. apply Hr, elem_of_list_to_set, Hin. by right; left.
  - eexists. split; [by rewrite (vw_closed s' v' Hv'), F4, (vw_closed s v Hv)|]. split.
    + destruct (CV.pub v); [by apply list.NoDup_filter|constructor].
    + intros Hpub r. pose proof (vw_pub s v Hv) as Hp. destruct (publisher s); [|done].
      rewrite <- Hp, list_elem_of_filter, Hin. tauto.
Qed.

(** ** The tick only grows *)

Definition tick_le (s s' : Service) : Prop := (tick s ≤ tick s')%nat.
#[local] Instance tick_le_preorder : PreOrder tick_le.
Proof. unfold tick_le. split; intros ?; lia. Qed.

Lemma tick_call_opt {T A} (get : Service → option T) put (m : ctx → time → SM T A) :
  (∀ x s, tick (put x s) = tick s) → keeps tick_le (call_opt get put m).
Proof.
  intros Hput s. unfold tick_le, call_opt. destruct (get s); [|done].
  destruct (m _ _ _). simpl. rewrite Hput. lia.
Qed.
Lemma tick_states {A} (m : ctx → time → SM StatesT A) : keeps tick_le (call_states m).
Proof. intros s. unfold tick_le, call_states. destruct (m _ _ _). simpl. lia. Qed.
Lemma tick_publish roomID name data : keeps tick_le (call_publish roomID name data).
Proof.
  intros s. unfold call_publish, tick_le.
  pose proof (tick_call_opt publisher set_publisher
    (λ c _, PublishRoomMessage c roomID name data) (λ _ _, eq_refl) s) as Hle.
  by destruct (call_opt _ _ _ s).
Qed.
Lemma tick_now : keeps tick_le now.
Proof. intros s. unfold tick_le. simpl. lia. Qed.
Lemma tick_ctx_err : keeps tick_le ctx_err.
Proof. intros s. unfold tick_le. simpl. lia. Qed.
Lemma tick_jitter : keeps tick_le jitter.
Proof. intros s. unfold tick_le. simpl. lia. Qed.
Lemma tick_emit ev : keeps tick_le (emit ev).
Proof. intros s. unfold tick_le. simpl. lia. Qed.
#[local] Hint Resolve tick_states tick_publish tick_now tick_ctx_err tick_jitter tick_emit : core.

Ltac tick_tac :=
  unfold present, call_presence, call_access, call_chat, call_rooms;
  repeat first [keeps_step | solve [auto] | by apply tick_call_opt].

Lemma tick_closeEmptyRoom id : keeps tick_le (closeEmptyRoom id).
Proof. unfold closeEmptyRoom, forget_room, deleteRoomChat, PublishRoomEvent. tick_tac. Qed.
Lemma tick_cleanup_rooms byID t cands : keeps tick_le (cleanup_rooms byID t cands).
Proof.
  induction cands as [|id cands IH]; simpl; [apply keeps_ret, _|].
  repeat first [keeps_step | apply tick_closeEmptyRoom | exact IH | by apply tick_call_opt].
Qed.
Lemma tick_emit_all evs : keeps tick_le (emit_all evs).
Proof. induction evs; simpl; [apply keeps_ret, _|]. tick_tac. Qed.
Lemma tick_RunEmptyRoomCleanup trig : keeps tick_le (RunEmptyRoomCleanup trig).
Proof.
  unfold RunEmptyRoomCleanup, logEmptyRoomCleanupResults, present.
  repeat first [keeps_step | apply tick_cleanup_rooms | apply tick_emit_all | solve [auto]
    | by apply tick_call_opt].
Qed.
Lemma tick_publishAblyChat roomID data : keeps tick_le (publishAblyChat roomID data).
Proof.
  assert (∀ n i att le, keeps tick_le (publish_loop n i att roomID data le)) as Hloop.
  { induction n as [|n IH]; intros i att le; simpl; [apply keeps_ret, _|].
    repeat first [keeps_step | apply IH | solve [auto]]. }
  unfold publishAblyChat, present. repeat first [keeps_step | apply Hloop].
Qed.
Lemma tick_ProcessGlobalChatPending fuel : keeps tick_le (ProcessGlobalChatPending fuel).
Proof.
  assert (∀ roomID ids, keeps tick_le (drain_entries roomID ids)) as Hentries.
  { intros roomID. induction ids as [|sid ids IH]; simpl; [apply keeps_ret, _|].
    unfold drain_entry. repeat first [keeps_step | exact IH | apply tick_publishAblyChat
      | by apply tick_call_opt]. }
  assert (∀ keys, keeps tick_le (drain_keys keys)) as Hkeys.
  { induction keys as [|key keys IH]; simpl; [apply keeps_ret, _|]. unfold drainRoomPending.
    repeat first [keeps_step | exact IH | apply Hentries | by apply tick_call_opt]. }
  assert (∀ cursor, keeps tick_le (scan_pending fuel cursor)) as Hscan.
  { induction fuel as [|fuel IH]; intros cursor; simpl; [apply keeps_halt, _|].
    repeat first [keeps_step | apply IH | apply Hkeys | by apply tick_call_opt]. }
  unfold ProcessGlobalChatPending, present. repeat first [keeps_step | apply Hscan].
Qed.

(** ** Throttle and lock *)

Definition last_cleanup (s : Service) : time :=
  match presence s with Some p => PresenceView.last (rp_view p) | None => zero_time end.
Definition lock_held (s : Service) : bool :=
  match presence s with Some p => PresenceView.lock (rp_view p) | None => false end.
Lemma last_views s v : views s v → last_cleanup s = CV.last v.
Proof. intros [_ _ (p & Hp & _ & Hpv) _ _ _ _ _ _]. unfold last_cleanup. by rewrite Hp, Hpv. Qed.
Lemma lock_views s v : views s v → lock_held s = CV.lock v.
Proof. intros [_ _ (p & Hp & _ & Hpv) _ _ _ _ _ _]. unfold lock_held. by rewrite Hp, Hpv. Qed.

(** The last cleanup is too recent for the clock the call reads. *)
Definition recent (s : Service) : bool :=
  negb (IsZero (last_cleanup s)) &&
  (time_Sub (now_at (S (tick s))) (last_cleanup s) <? loginCleanupInterval).

Section protocol.
Context (Hlive : ∀ n, ctx_at n = None).

(** The body run under the lock. *)
Definition locked_body (last : time) (fuel : nat) : SM Service unit :=
  lastAge ← (if IsZero last then mret None
             else t ← now; mret (Some (Round (time_Sub t last) Second)));
  _ ← RunEmptyRoomCleanup (CleanupTrigger.mk lastAge loginCleanupInterval true true);
  _ ← ignore (ProcessGlobalChatPending fuel);
  t ← now;
  call_presence (λ c _, SetLastRoomCleanupAt c t).

(** The state before the time is recorded. *)
Definition body_reached (s : Service) (v : CV.t) (s' : Service) : Prop :=
  (∃ v', views s' v' ∧ CV.lock v' = CV.lock v) ∧ tick_le s s'.

Lemma wp_body_step {A B} s0 v s (m : SM Service A) (k : A → SM Service B) Q :
  body_reached s0 v s → keeps (moved (spares "")) m → keeps tick_le m →
  (∀ a s', body_reached s0 v s' → wp (k a) Q s') →
  (∀ r s', (r = Halt OutOfFuel ∨ ∀ b, r ≠ Ok b) → body_reached s0 v s' → Q r s') →
  wp (a ← m; k a) Q s.
Proof.
  intros [(v1 & Hv1 & Hl) Ht] Hm Hm' Hk HQ. apply wp_bind.
  destruct (Hm s v1 Hv1) as (v2 & Hv2 & [Hl2 _] & _). specialize (Hm' s).
  unfold wp at 1. destruct (m s) as [[a|e|h] s']; simpl in *.
  - apply Hk. split; [exists v2; split; [done|congruence]|by etrans].
  - apply HQ; [by right|]. split; [exists v2; split; [done|congruence]|by etrans].
  - apply HQ; [by right|]. split; [exists v2; split; [done|congruence]|by etrans].
Qed.

Lemma locked_body_run last fuel s v :
  views s v →
  wp (locked_body last fuel) (λ r s', ∃ v', views s' v' ∧ CV.lock v' = CV.lock v ∧
    (r = Ok tt → ∃ n, (tick s ≤ n)%nat ∧
       now_at n - Millisecond < CV.last v' ≤ now_at n)) s.
Proof.
  intros Hv. unfold locked_body.
  assert (body_reached s v s) as H0 by (split; [by exists v|reflexivity]).
  assert (∀ (r : result unit) s', (r = Halt OutOfFuel ∨ ∀ b, r ≠ Ok b) →
    body_reached s v s' → ∃ v', views s' v' ∧ CV.lock v' = CV.lock v ∧
    (r = Ok tt → ∃ n, (tick s ≤ n)%nat ∧ now_at n - Millisecond < CV.last v' ≤ now_at n))
    as Hfail.
  { intros r s' Hr [(v' & Hv' & Hl) _]. exists v'. split_and!; [done..|].
    intros ->. destruct Hr as [|Hr]; [done|]. by destruct (Hr tt). }
  eapply wp_body_step; [exact H0| | | |exact Hfail].
  { destruct (IsZero last); repeat first [keeps_step | apply moved_now, _]. }
  { destruct (IsZero last); repeat first [keeps_step | apply tick_now]. }
  intros age s1 H1. eapply wp_body_step; [exact H1|apply RunEmptyRoomCleanup_spares
    |apply tick_RunEmptyRoomCleanup| |exact Hfail].
  intros _ s2 H2. eapply wp_body_step; [exact H2| | | |exact Hfail].
  { apply (keeps_ignore _), ProcessGlobalChatPending_spares. }
  { apply (keeps_ignore _), tick_ProcessGlobalChatPending. }
  intros _ s3 [(v3 & Hv3 & Hl3) Ht3]. eapply vw_now; [exact Hv3|]. intros s4 Hv4.
  eapply vw_presence_call; [exact Hv4|apply SetLastRoomCleanupAt_law| |].
  { intros e s' Hc. by rewrite Hlive in Hc. }
  intros r mm pp ll lk s5 _ (-> & t' & Hb & [= -> -> -> ->]) Hv5. eexists.
  split; [exact Hv5|]. split; [exact Hl3|]. intros _. exists (tick s3). split; [exact Ht3|exact Hb].
Qed.

Lemma wp_with_defer {A} (release : SM Service unit) (body : SM Service A) Q s :
  wp body (λ r s1, wp release (λ _ s2, Q r s2) s1) s → wp (with_defer release body) Q s.
Proof. unfold wp, with_defer. by destruct (body s) as [r s1]. Qed.

(** A call's tick, together with what is known of it. *)
Lemma wp_ticks {A} (m : SM Service A) Q s :
  keeps tick_le m → wp m (λ r s', tick_le s s' → Q r s') s → wp m Q s.
Proof. intros Ht Hm. apply Hm, Ht. Qed.

Lemma MaybeRun_live fuel s v :
  views s v →
  wp (MaybeRunGlobalCleanup fuel) (λ r s',
    if recent s || CV.lock v then r = Ok tt ∧ views s' v
    else ∃ v', views s' v' ∧ CV.lock v' = false ∧
      (r = Ok tt → ∃ n, (tick s ≤ n)%nat ∧
         now_at n - Millisecond < CV.last v' ≤ now_at n)) s.
Proof.
  intros Hv. unfold MaybeRunGlobalCleanup. apply wp_present.
  destruct (vw_presence s v Hv) as (p & Hp & _). rewrite Hp. apply wp_present.
  destruct (vw_rooms s v Hv) as (x & -> & _). cbn [negb orb]. apply wp_bind.
  unfold recent. rewrite (last_views s v Hv).
  assert (tick (call_presence (λ c _, GetLastRoomCleanupAt c) s).2 = S (tick s)) as Htick.
  { unfold call_presence, call_opt. rewrite Hp. by destruct (GetLastRoomCleanupAt _ p). }
  apply (wp_mono _ (λ r s', (r = Ok (CV.last v) ∧ views s' v) ∧ tick s' = S (tick s)));
    [split; [|exact Htick]|].
  { change (wp (call_presence (λ c _, GetLastRoomCleanupAt c))
      (λ r s', r = Ok (CV.last v) ∧ views s' v) s).
    eapply vw_presence_call; [exact Hv|apply GetLastRoomCleanupAt_law
      |intros ? ? Hc; by rewrite Hlive in Hc|].
    intros r mm pp ll lk s' _ (-> & [= -> -> -> ->]) Hv'. split; [done|by destruct v]. }
  intros r s1 [[-> Hv1] Ht1].
  set (b := negb (IsZero (CV.last v)) &&
    (time_Sub (now_at (S (tick s))) (CV.last v) <? loginCleanupInterval)).
  apply wp_bind. apply (wp_mono _ (λ r s', r = Ok b ∧ views s' v ∧ tick_le s s')).
  { subst b. destruct (IsZero (CV.last v)); cbn [negb andb].
    - apply wp_ret. split_and!; [done..|]. unfold tick_le. lia.
    - apply wp_now, wp_ret. rewrite Ht1. split_and!; [done|by apply vw_tick|].
      unfold tick_le. simpl. lia. }
  intros r s2 (-> & Hv2 & Ht2). destruct b; cbn [orb]; [by apply wp_ret|].
  apply wp_bind, wp_ticks; [by apply tick_call_opt|].
  eapply vw_presence_call; [exact Hv2|apply TryAcquireCleanupLock_law
    |intros ? ? Hc; by rewrite Hlive in Hc|].
  intros r mm pp ll lk s3 _ (-> & [= -> -> -> ->]) Hv3 Ht23. cbn [PresenceView.lock].
  destruct (CV.lock v) eqn:Hlock; cbn [negb].
  { apply wp_ret. split; [done|]. destruct v; simpl in *; by subst. }
  set (v3 := CV.mk _ _ _ _ _ _ _ _ _ _) in Hv3.
  change (wp (with_defer (ignore (call_presence (λ c _, ReleaseCleanupLock c)))
    (locked_body (CV.last v) fuel)) (λ r s', ∃ v', views s' v' ∧ CV.lock v' = false ∧
      (r = Ok tt → ∃ n, (tick s ≤ n)%nat ∧
         now_at n - Millisecond < CV.last v' ≤ now_at n)) s3).
  assert (tick_le s s3) as Ht3 by (by etrans).
  apply wp_with_defer. eapply wp_mono; [by apply locked_body_run|].
  intros r s4 (v4 & Hv4 & _ & Hlast). apply wp_ignore.
  eapply vw_presence_call; [exact Hv4|apply ReleaseCleanupLock_law
    |intros ? ? Hc; by rewrite Hlive in Hc|].
  intros r' mm pp ll lk s5 _ (-> & [= -> -> -> ->]) Hv5. eexists. split; [exact Hv5|].
  split; [done|]. intros Hr. destruct (Hlast Hr) as (n & Hn & Hb). exists n.
  split; [unfold tick_le in *; lia|exact Hb].
Qed.
End protocol.

(** A global cleanup called within five minutes of the last one, or while
    another holds the lock, returns without an error and changes nothing. *)
Theorem cleanup_guarded fuel s :
  (∀ n, ctx_at n = None) → service_wf s → recent s = true ∨ lock_held s = true →
  let '(r, s') := MaybeRunGlobalCleanup fuel s in
  r = Ok tt ∧ (∀ id, room_data id s' = room_data id s) ∧ (∀ id, marked id s' ↔ marked id s) ∧
  last_cleanup s' = last_cleanup s ∧ lock_held s' = lock_held s ∧
  closed_rooms s' = closed_rooms s.
Proof.
  intros Hlive Hs Hg. destruct (views_exists s Hs) as [v Hv].
  pose proof (MaybeRun_live Hlive fuel s v Hv) as Hrun. unfold wp in Hrun.
  assert (recent s || CV.lock v = true) as Hg'.
  { rewrite <- (lock_views s v Hv). by apply orb_true_iff. }
  rewrite Hg' in Hrun. destruct (MaybeRunGlobalCleanup fuel s) as [r s'].
  simpl in Hrun. destruct Hrun as [-> Hv']. split_and!.
  - done.
  - intros id. by rewrite (room_data_views id s v Hv), (room_data_views id s' v Hv').
  - intros id. by rewrite (marked_views id s v Hv), (marked_views id s' v Hv').
  - by rewrite (last_views s v Hv), (last_views s' v Hv').
  - by rewrite (lock_views s v Hv), (lock_views s' v Hv').
  - by rewrite (vw_closed s v Hv), (vw_closed s' v Hv').
Qed.

(** The lock a global cleanup takes is free again when it returns, with a
    result or an error, and a lock somebody else holds stays held. *)
Theorem cleanup_lock_balanced fuel s :
  (∀ n, ctx_at n = None) → service_wf s →
  lock_held (MaybeRunGlobalCleanup fuel s).2 = lock_held s.
Proof.
  intros Hlive Hs. destruct (views_exists s Hs) as [v Hv].
  pose proof (MaybeRun_live Hlive fuel s v Hv) as Hrun. unfold wp in Hrun.
  rewrite (lock_views s v Hv).
  destruct (recent s), (CV.lock v) eqn:Hl; cbn [orb] in Hrun;
    try (destruct Hrun as [_ Hv']; by rewrite (lock_views _ v Hv')).
  destruct Hrun as (v' & Hv' & Hl' & _). by rewrite (lock_views _ v' Hv').
Qed.

(** A global cleanup that ran to its end is recorded with the time it ended,
    so a call that reads the clock less than five minutes (and a millisecond, the
    resolution of the record) after the first one began does nothing. *)
Theorem cleanup_once_per_interval fuel fuel' s s' :
  (∀ n, ctx_at n = None) → (∀ m n, (m ≤ n)%nat → now_at m ≤ now_at n) →
  0 < now_at (tick s) → service_wf s → recent s = false → lock_held s = false →
  MaybeRunGlobalCleanup fuel s = (Ok tt, s') →
  now_at (S (tick s')) ≤ now_at (tick s) + loginCleanupInterval - Millisecond →
  let '(r, s'') := MaybeRunGlobalCleanup fuel' s' in
  r = Ok tt ∧ (∀ id, room_data id s'' = room_data id s') ∧ closed_rooms s'' = closed_rooms s'.
Proof.
  intros Hlive Hmono Hpos Hs Hr Hl Hrun Hsoon. destruct (views_exists s Hs) as [v Hv].
  pose proof (MaybeRun_live Hlive fuel s v Hv) as H1. unfold wp in H1.
  rewrite Hr, <- (lock_views s v Hv), Hl, Hrun in H1. cbn [orb] in H1.
  destruct H1 as (v' & Hv' & _ & Hlast). destruct (Hlast eq_refl) as (n & Hn & Hb).
  simpl in Hv'. pose proof (views_wf s' v' Hv') as Hs'.
  pose proof (Hmono _ _ Hn) as Hbn.
  assert (recent s' = true) as Hr'.
  { unfold recent. rewrite (last_views s' v' Hv'). apply andb_true_iff. split.
    - apply negb_true_iff, Z.eqb_neq. unfold zero_time, Second, Millisecond in *. lia.
    - apply Z.ltb_lt. unfold time_Sub, loginCleanupInterval, Minute, Second, Millisecond,
        max_int64, min_int64 in *. lia. }
  pose proof (MaybeRun_live Hlive fuel' s' v' Hv') as H2. unfold wp in H2.
  rewrite Hr' in H2. cbn [orb] in H2.
  destruct (MaybeRunGlobalCleanup fuel' s') as [r s'']. simpl in H2. destruct H2 as [-> Hv''].
  split_and!; [done| |].
  - intros id. by rewrite (room_data_views id s' v' Hv'), (room_data_views id s'' v' Hv'').
  - by rewrite (vw_closed s' v' Hv'), (vw_closed s'' v' Hv'').
Qed.

Lemma service_wf_cleanup fuel s : service_wf s → service_wf (MaybeRunGlobalCleanup fuel s).2.
Proof.
  intros Hs. destruct (views_exists s Hs) as [v Hv].
  destruct (MaybeRunGlobalCleanup_spared "" fuel s v Hv) as (v' & Hv' & _).
  by eapply views_wf.
Qed.
End views.

(** ** Witnesses *)

(** The in-memory caches with the chat on a Redis server. *)
#[local] Instance lobby_backend : Backend := {
  StatesT := MemStates.t;
  PresenceT := MemPresence.t;
  RoomsT := PgRooms.t TableDB.t;
  AccessT := MemAccess.t;
  ChatT := Keyspace.t;
  PubT := unit;
}.

(** Two stored rooms, a message in the chat of both, a guest in one of them. *)
Definition room_of (id : string) : Room.t := Room.mk id id "u1" "public" "" "" 0 0.
Definition two_rooms : PgRooms.t TableDB.t :=
  PgRooms.mk (TableDB.mk (<["a" := room_of "a"]> {["b" := room_of "b"]})) 0.
Definition two_chats : Keyspace.t :=
  let x := (AppendMessage None 0 "a" 1 "hello" 500 (Keyspace.mk (1700000000 * Second) ∅)).2 in
  (AppendMessage None 0 "b" 1 "hello" 500 x).2.
Definition lobby : Service :=
  mkService MemStates.New (Some (add_member "a" "u2" "bob" MemPresence.New)) (Some two_rooms)
    (Some MemAccess.New) (Some tt) (Some two_chats) test_limits 0 [].

Lemma two_chats_wf : rc_wf two_chats.
Proof.
  assert (∀ r s, rc_wf s → rc_wf (AppendMessage None 0 r 1 "hello" 500 s).2) as Happ.
  { intros r s Hs. assert (min_int64 ≤ 1 ≤ max_int64) as H1 by done.
    pose proof (AppendMessage_law None 0 r 1 "hello" 500 H1 s Hs) as Hlaw.
    destruct (AppendMessage _ _ _ _ _ _ s). by destruct Hlaw. }
  apply Happ, Happ. intros r.
  change (ChatKeys.room_ok (Redis.live (1700000000 * Second) ∅) r).
  unfold ChatKeys.room_ok. by rewrite !live_none by apply lookup_empty.
Qed.

Lemma lobby_wf : service_wf lobby.
Proof.
  split; [done|]. split; [|split; [|split]].
  - eexists. split; [reflexivity|]. apply (wf_Join "a" "u2" "bob" MemPresence.New), wf_New.
  - eexists. split; [reflexivity|]. intros r room. simpl.
    intros [[<- <-]|[_ [<- <-]%lookup_singleton_Some]]%lookup_insert_Some; done.
  - by intros a _.
  - change (∀ c, Some two_chats = Some c → rc_wf c). intros c Hc. apply (inj Some) in Hc as <-. exact two_chats_wf.
Qed.

Lemma lobby_ids r : stored r lobby ∨ marked r lobby ∨ active r lobby → r = "a" ∨ r = "b".
Proof.
  intros [[x Hx]|[Hr|[x Hx]]].
  - change (<["a" := room_of "a"]> ({["b" := room_of "b"]} : gmap string Room.t) !! r = Some x) in Hx.
    apply lookup_insert_Some in Hx as [[<- _]|[_ [<- _]%lookup_singleton_Some]]; auto.
  - change (r ∈ (∅ : gset string) ∖ {["a"]}) in Hr. set_solver.
  - change (<["a" := <["u2" := "bob"]> (∅ : gmap string string)]>
      (∅ : gmap string (gmap string string)) !! r = Some x) in Hx.
    apply lookup_insert_Some in Hx as [[<- _]|[_ Hx]]; [auto|by rewrite lookup_empty in Hx].
Qed.

Lemma live n : ctx_at n = None.
Proof. done. Qed.

(** The chat of a room, message by message. *)
Definition said_in (r : string) (s : Service) : list string :=
  match roomChat s with
  | Some c => RoomChatMessage.Payload <$> ChatView.log (rc_view c r)
  | None => []
  end.


Lemma cleanup_closes_exactly_the_empty_witness :
  let s' := (RunEmptyRoomCleanup CleanupTrigger.zero lobby).2 in
  stored "a" s' ∧ ¬ stored "b" s' ∧ erased "b" s' ∧
  said_in "b" lobby = ["hello"] ∧ said_in "b" s' = [] ∧ said_in "a" s' = ["hello"].
Proof.
  intros s'.
  assert ((RunEmptyRoomCleanup CleanupTrigger.zero lobby).1 = Ok tt) as Hok
    by (vm_compute; reflexivity).
  assert (RunEmptyRoomCleanup CleanupTrigger.zero lobby = (Ok tt, s')) as Hrun
    by (rewrite <- Hok; apply surjective_pairing).
  destruct (cleanup_closes_exactly_the_empty CleanupTrigger.zero lobby s' live lobby_wf)
    as (H1 & _ & H3 & _); [vm_compute; lia| |exact Hrun|].
  - intros r [->| ->]%lobby_ids; split; done.
  - assert (stored "a" lobby ∧ stored "b" lobby) as [Ha Hb]
      by (split; eexists; vm_compute; reflexivity).
    assert (online "a" lobby = 1 ∧ online "b" lobby = 0) as [Oa Ob]
      by (split; vm_compute; reflexivity).
    split_and!.
    + apply H1. rewrite Oa. split; [exact Ha|discriminate].
    + intros Hst. exact (proj2 (proj1 (H1 "b") Hst) Ob).
    + apply H3; [exact Ob|by left].
    + vm_compute. reflexivity.
    + vm_compute. reflexivity.
    + vm_compute. reflexivity.
Defined.

(** The lobby after a first global cleanup. *)
Definition cleaned_lobby : Service := (MaybeRunGlobalCleanup 3 lobby).2.

Lemma cleanup_guarded_witness :
  recent cleaned_lobby = true ∧
  (MaybeRunGlobalCleanup 3 cleaned_lobby).1 = Ok tt.
Proof.
  assert (recent cleaned_lobby = true) as Hr by (vm_compute; reflexivity).
  split; [exact Hr|].
  pose proof (cleanup_guarded 3 cleaned_lobby live (service_wf_cleanup 3 lobby lobby_wf)
    (or_introl Hr)) as H.
  destruct (MaybeRunGlobalCleanup 3 cleaned_lobby) as [r s']. exact (proj1 H).
Defined.

Lemma cleanup_lock_balanced_witness : lock_held cleaned_lobby = false.
Proof. exact (cleanup_lock_balanced 3 lobby live lobby_wf). Defined.

Lemma cleanup_once_per_interval_witness :
  (MaybeRunGlobalCleanup 3 cleaned_lobby).1 = Ok tt ∧
  now_at (S (tick cleaned_lobby)) ≤ now_at (tick lobby) + loginCleanupInterval - Millisecond.
Proof.
  assert (now_at (S (tick cleaned_lobby)) ≤
    now_at (tick lobby) + loginCleanupInterval - Millisecond) as Ht by (vm_compute; discriminate).
  split; [|exact Ht].
  assert ((MaybeRunGlobalCleanup 3 lobby).1 = Ok tt) as Hok by (vm_compute; reflexivity).
  assert (MaybeRunGlobalCleanup 3 lobby = (Ok tt, cleaned_lobby)) as Hrun
    by (rewrite <- Hok; apply surjective_pairing).
  assert (∀ m n, (m ≤ n)%nat → now_at m ≤ now_at n) as Hmono
    by (intros m n Hmn; simpl; unfold Second; lia).
  assert (recent lobby = false) as Hr by (vm_compute; reflexivity).
  pose proof (cleanup_once_per_interval 3 3 lobby cleaned_lobby live Hmono eq_refl lobby_wf Hr
    eq_refl Hrun Ht) as H.
  destruct (MaybeRunGlobalCleanup 3 cleaned_lobby) as [r s']. exact (proj1 H).
Defined.
