(* ===== verification/ChatDelivery.v ===== *)
(** * Chat: a message accepted is kept, and published or pending

    The theorems on [internal/room/chat.go], against the contracts of the chat
    backend and the publisher: what [SendChat] does on each branch, how often
    and how long a publication is retried, how the outbox empties, and what
    a listing shows. *)

From S2P Require Import Prelude GoStrings GoNum Model Interfaces Service GoJson JsonFacts Chat ChatWire.

Section delivery.
Context `{!Backend, !Env, !RoomChatContract ChatT, !PublisherContract PubT}.

(** ** What the chat shows *)

Definition chats (s : Service) (r : string) : CH :=
  match roomChat s with Some x => rc_view x r | None => ChatView.empty end.
Definition chat_ready (s : Service) : Prop :=
  match roomChat s with Some x => rc_wf x | None => False end.

(** A step of the chat of room [r]: the other rooms' chats, the publisher and what
    was published are as before. *)
Definition chat_step (r : string) (s s' : Service) : Prop :=
  chat_ready s' ∧ (∀ r', r' ≠ r → chats s' r' = chats s r') ∧
  chat s' = chat s ∧ publisher s' = publisher s ∧ events s' = events s.
(** A step of everything else. *)
Definition chat_still (s s' : Service) : Prop :=
  roomChat s' = roomChat s ∧ chat s' = chat s.

Lemma wp_chat {A} (m : ctx → time → SM ChatT A) r post Q s :
  chat_ready s →
  (∀ c t, room_law rc_wf rc_view c r (m c t) post) →
  (∀ x s', chat_step r s s' → outcome (ctx_at (tick s)) post (chats s r) x (chats s' r) → Q x s') →
  wp (call_chat m) Q s.
Proof.
  unfold chat_ready, chats, wp, call_chat, call_opt. intros Hs Hm HQ.
  destruct (roomChat s) as [x|] eqn:E; [|done].
  specialize (Hm (ctx_at (tick s)) (now_at (tick s)) x Hs). destruct (m _ _ x) as [res y].
  destruct Hm as (Hy & Ho & Hp). cbn [fst snd]. apply HQ.
  - split_and!; try done. intros r' Hr'. unfold chats. rewrite E. cbn. by apply Ho.
  - unfold outcome. destruct (ctx_at (tick s)); exact Hp.
Qed.
Lemma wp_chat_reads {A} (m : ctx → time → SM ChatT A) r Q s :
  chat_ready s →
  (∀ c t, reads_law rc_wf rc_view (m c t)) →
  (∀ x s', chat_step r s s' → chats s' r = chats s r → (∀ h, x ≠ Halt h) → Q x s') →
  wp (call_chat m) Q s.
Proof.
  unfold chat_ready, wp, call_chat, call_opt. intros Hs Hm HQ.
  destruct (roomChat s) as [x|] eqn:E; [|done].
  specialize (Hm (ctx_at (tick s)) (now_at (tick s)) x Hs). destruct (m _ _ x) as [res y].
  destruct Hm as (Hy & Ho & Hh). cbn [fst snd]. apply HQ; [split_and!; try done| |done].
  - intros r' _. unfold chats. rewrite E. cbn. apply Ho.
  - unfold chats. rewrite E. cbn. apply Ho.
Qed.

Lemma step_refl r s : chat_ready s → chat_step r s s.
Proof. intros Hs. by split_and!. Qed.
Lemma step_then r s1 s2 s3 : chat_step r s1 s2 → chat_step r s2 s3 → chat_step r s1 s3.
Proof.
  intros (?&Ho&?&?&?) (?&Ho'&?&?&?). split_and!; [done| |congruence..].
  intros r' Hr'. by rewrite Ho', Ho.
Qed.

(** ** Publishing *)

(** The publications among events, and the pauses between them. *)
Definition pause (e : event) : option Z := match e with EvSleep d => Some d | _ => None end.
Definition publications (l : list event) : list event := filter (λ e, pause e = None) l.
Definition longest_pause : Z := 1500 * Millisecond.

(** A run of the retries: attempts that failed, one that worked unless the run
    failed, at most [n] in all, with a bounded pause between two. *)
Definition failures (room : string) (data : PubData) (es : list error) : list event :=
  (λ e, EvPublish room MessageRoomChat data (Err e)) <$> es.
Definition delivered (room : string) (data : PubData) : event :=
  EvPublish room MessageRoomChat data (Ok tt).
Definition tries (room : string) (data : PubData) (n : nat) (l : list event) (out : option error)
    (live : Prop) : Prop :=
  (length (omap pause l) < n)%nat ∧ Forall (λ d, d ≤ longest_pause) (omap pause l) ∧
  ∃ es, match out with
        | None => publications l = failures room data es ++ [delivered room data] ∧ (length es < n)%nat
        | Some _ => publications l = failures room data es ∧ (length es ≤ n)%nat ∧
                    (live → length es = n)
        end.

Definition all_live : Prop := ∀ n, ctx_at n = None.

Lemma backoff_bound i r : backoff i r ≤ longest_pause.
Proof. unfold backoff, longest_pause. cbv zeta. destruct (Z.ltb_spec (1500 * Millisecond)
  (wrap64 (wrap64 (wrap64 (40 * wrap64 (2 ^ i)) + r) * Millisecond))); lia. Qed.

Lemma still_refl s : chat_still s s.
Proof. done. Qed.
Lemma still_then s1 s2 s3 : chat_still s1 s2 → chat_still s2 s3 → chat_still s1 s3.
Proof. unfold chat_still. intuition congruence. Qed.

Lemma tries_done room data n live : (0 < n)%nat → tries room data n [delivered room data] None live.
Proof. intros Hn. split; [done|]. split; [constructor|]. exists []. by split. Qed.
Lemma tries_last room data e live :
  tries room data 1 [EvPublish room MessageRoomChat data (Err e)] (Some e) live.
Proof. split; [simpl; lia|]. split; [constructor|]. exists [e]. by split_and!. Qed.
Lemma tries_stop room data n e live : (0 < n)%nat → ¬ live → tries room data n [] (Some e) live.
Proof. intros Hn Hl. split; [done|]. split; [constructor|]. exists []. split_and!; [done|simpl; lia|done]. Qed.
Lemma tries_again room data n l out e d live :
  d ≤ longest_pause → tries room data n l out live →
  tries room data (S n) (EvPublish room MessageRoomChat data (Err e) :: EvSleep d :: l) out live.
Proof.
  intros Hd (Hp & Hf & es & He). split; [change (S (length (omap pause l)) < S n)%nat; lia|]. split; [by constructor|].
  exists (e :: es). unfold publications in *.
  rewrite list.filter_cons, decide_True, list.filter_cons, decide_False by done.
  destruct out; destruct He as [He Hn]; rewrite He; [|split; [done|simpl; lia]].
  destruct Hn as [Hn Hl]. split_and!; [done|simpl; lia|]. intros Hlive. simpl. by rewrite Hl.
Qed.

Lemma wp_ctx_err {A} (k : ctx → SM Service A) Q s :
  wp (k (ctx_at (tick s))) Q (next_tick s) → wp (c ← ctx_err; k c) Q s.
Proof. done. Qed.

Lemma not_live n e : ctx_at n = Some e → ¬ all_live.
Proof. intros He Hl. by rewrite Hl in He. Qed.

Lemma publish_loop_run room data n : ∀ i attempts lastErr s,
  is_Some (publisher s) → i + Z.of_nat n = attempts → (0 < n)%nat →
  wp (publish_loop n i attempts room data lastErr) (λ r s',
    ∃ out l, r = Ok out ∧ events s' = events s ++ l ∧ chat_still s s' ∧
      tries room data n l out all_live) s.
Proof.
  induction n as [|n IH]; [lia|]. intros i attempts lastErr s [x Hx] Hi _. cbn [publish_loop].
  apply wp_ctx_err. destruct (ctx_at (tick s)) as [e|] eqn:Hc.
  { apply wp_ret. exists (Some e), []. rewrite app_nil_r.
    do 3 (split; [done|]). apply tries_stop; [lia|by eapply not_live]. }
  apply wp_bind, wp_attempt. eapply wp_publish; [exact Hx|]. intros y res [->|[e ->]].
  { apply wp_ret. exists None, [delivered room data]. do 3 (split; [done|]). apply tries_done. lia. }
  destruct (Z.ltb_spec (i + 1) attempts) as [Hlt|Hge].
  - apply wp_bind. unfold wp at 1, jitter. cbn [fst snd]. apply wp_bind. unfold wp at 1, emit, modify.
    cbn [fst snd]. apply wp_ctx_err. set (s2 := add_event _ _).
    destruct (ctx_at (tick s2)) as [e'|] eqn:Hc2.
    + apply wp_ret. eexists (Some e'), [_; _]. split; [done|]. split; [|split; [done|]].
      { cbn [events next_tick add_event s2]. rewrite <- app_assoc. reflexivity. }
      apply tries_again; [apply backoff_bound|]. apply tries_stop; [lia|by eapply not_live].
    + eapply wp_mono; [apply (IH (i + 1) attempts (Some e)); [by eexists|lia|lia]|].
      intros r s' (out & l & -> & He & Hst & Ht). eexists out, (_ :: _ :: l).
      split; [done|]. split; [|split; [exact Hst|]].
      { rewrite He. cbn [events next_tick add_event s2]. rewrite <- !app_assoc. reflexivity. }
      apply tries_again; [apply backoff_bound|done].
  - assert (n = 0)%nat as -> by lia. cbn [publish_loop]. apply wp_ret.
    eexists (Some e), [_]. do 3 (split; [done|]). apply tries_last.
Qed.

(** What [publishAblyChat] adds, with and without a publisher. *)
Definition published (room : string) (data : PubData) (s : Service) (l : list event)
    (out : option error) : Prop :=
  match publisher s with
  | None => l = [] ∧ out = None
  | Some _ => tries room data (Z.to_nat (publish_attempts (chat s))) l out all_live
  end.
Lemma publish_attempts_pos limits : 0 < publish_attempts limits.
Proof. unfold publish_attempts. cbv zeta. destruct (Z.ltb_spec (wrap64 (1 + ChatLimits.AblyPublishRetry limits)) 1); lia. Qed.

Lemma publish_run room data s :
  wp (publishAblyChat room data) (λ r s',
    ∃ out l, r = Ok out ∧ events s' = events s ++ l ∧ chat_still s s' ∧ published room data s l out) s.
Proof.
  unfold publishAblyChat, published. apply wp_present. destruct (publisher s) as [x|] eqn:Hx; cbn [negb].
  2: { apply wp_ret. exists None, []. rewrite app_nil_r. by do 3 (split; [done|]). }
  apply wp_bind. unfold wp at 1, gets. cbn [fst snd]. cbv zeta.
  pose proof (publish_attempts_pos (chat s)). apply publish_loop_run; [by eexists|lia|lia].
Qed.

Lemma chat_still_step s s' :
  chat_ready s → chat_still s s' →
  chat_ready s' ∧ (∀ r', chats s' r' = chats s r') ∧ chat s' = chat s.
Proof.
  unfold chat_ready, chats. intros Hs [-> ->]. by split_and!.
Qed.

(** ** Sending *)

(** The message is kept at the head, and with it as many older ones as the length
    asked for allows. *)
Definition kept (limits : ChatLimits.t) (v v' : CH) (m : RoomChatMessage.t) : Prop :=
  ∃ k, ChatView.log v' = take k (m :: ChatView.log v) ∧
    (if 0 <? ChatLimits.StreamMaxLen limits then ChatLimits.StreamMaxLen limits ≤ Z.of_nat k
     else (length (ChatView.log v) < k)%nat).
Definition put_off (v v' : CH) (id : string) : Prop :=
  ∃ l1 l2, l1 ++ l2 = filter (λ i, i ≠ id) (ChatView.outbox v) ∧
    ChatView.outbox v' = l1 ++ id :: l2.

(** The fate of a stored message: published, or put off. *)
Definition settled (r id payload realtime : string) (s s' : Service) : Prop :=
  ∃ l, events s' = events s ++ l ∧
  ((realtime = "ok" ∧ published r (PubRaw payload) s l None ∧
      ChatView.outbox (chats s' r) = ChatView.outbox (chats s r)) ∨
   (realtime = "deferred" ∧ put_off (chats s r) (chats s' r) id ∧
      (l = [] ∨ ∃ e, published r (PubRaw payload) s l (Some e)))).

Lemma wp_enqueue r id Q s :
  all_live → chat_ready s →
  (∀ s', chat_step r s s' → put_off (chats s r) (chats s' r) id →
     ChatView.log (chats s' r) = ChatView.log (chats s r) →
     ChatView.seq (chats s' r) = ChatView.seq (chats s r) → Q (Ok tt) s') →
  wp (call_chat (λ c t, EnqueuePending c t r id)) Q s.
Proof.
  intros Hlive Hs HQ. eapply wp_chat; [done|intros; apply EnqueuePending_law|].
  intros x s' Hst. unfold outcome. rewrite Hlive. intros (-> & l1 & l2 & Hl & Hv). apply HQ.
  - done.
  - exists l1, l2. rewrite Hv. done.
  - by rewrite Hv.
  - by rewrite Hv.
Qed.

(** The end of [SendChat]: a message stored under [id] is published, or put off. *)
Lemma send_settles r id payload (out : ChatMessage.t) s :
  all_live → chat_ready s →
  wp (if ChatLimits.MaxPayloadBytes (chat s) <? len payload then
        _ ← ignore (call_chat (λ c t, EnqueuePending c t r id));
        mret (ChatSendResult.mk out "deferred")
      else
        pubErr ← publishAblyChat r (PubRaw payload);
        match pubErr with
        | None => mret (ChatSendResult.mk out "ok")
        | Some _ => _ ← call_chat (λ c t, EnqueuePending c t r id);
                    mret (ChatSendResult.mk out "deferred")
        end)
    (λ res s', ∃ rt, res = Ok (ChatSendResult.mk out rt) ∧ settled r id payload rt s s' ∧
       (∀ r', r' ≠ r → chats s' r' = chats s r') ∧
       ChatView.log (chats s' r) = ChatView.log (chats s r) ∧
       ChatView.seq (chats s' r) = ChatView.seq (chats s r)) s.
Proof.
  intros Hlive Hs. destruct (Z.ltb_spec (ChatLimits.MaxPayloadBytes (chat s)) (len payload)).
  - apply wp_bind, wp_ignore, wp_enqueue; [done..|]. intros s' (_ & Ho & _ & _ & He) Hp Hl Hq.
    apply wp_ret. exists "deferred". split_and!; try done.
    exists []. rewrite app_nil_r. split; [done|]. right. split_and!; [done..|by left].
  - apply wp_bind. eapply wp_mono; [apply publish_run|]. intros res s1 (out1 & l & -> & He & Hst & Hp).
    destruct (chat_still_step s s1 Hs Hst) as (Hr1 & Hv1 & _). destruct out1 as [e|].
    + apply wp_bind, wp_enqueue; [done..|]. intros s' (_ & Ho & _ & _ & He') Hput Hl Hq.
      apply wp_ret. exists "deferred". rewrite !Hv1 in *. split_and!; try done.
      * exists l. rewrite He', He. split; [done|]. right. split_and!; [done..|right; by exists e].
      * intros r' Hr'. by rewrite Ho, Hv1.
    + apply wp_ret. exists "ok". split_and!; try done; [|by rewrite Hv1..].
      exists l. split; [done|]. left. split_and!; [done..|]. by rewrite Hv1.
Qed.

(** An accepted message [m], stored under [id] as [payload]. *)
Definition accepted (r : string) (u : HubUser.t) (plain : string) (s s' : Service)
    (res : ChatSendResult.t) : Prop :=
  let v := chats s r in let v' := chats s' r in
  let n := ChatView.seq v + 1 in
  ∃ id t, let base := ChatMessage.mk "chat" n "" r u plain (Unix t) in
    let out := ChatMessage.set_StreamID id base in
    ChatSendResult.Message res = out ∧ (id ∉ ChatView.ids v) ∧ 0 < n ≤ max_int64 ∧
    len (marshal_chat base) ≤ ChatLimits.MaxPayloadBytes (chat s) ∧
    kept (chat s) v v' (RoomChatMessage.mk id n (marshal_chat base)) ∧ ChatView.seq v' = n ∧
    settled r id (marshal_chat out) (ChatSendResult.Realtime res) s s'.

(** A refused one: no trace but a number that is skipped. *)
Definition untouched (r : string) (s s' : Service) : Prop :=
  ChatView.log (chats s' r) = ChatView.log (chats s r) ∧
  ChatView.outbox (chats s' r) = ChatView.outbox (chats s r) ∧ events s' = events s.

Lemma settled_from r id payload rt s0 s s' :
  publisher s = publisher s0 → chat s = chat s0 → events s = events s0 →
  ChatView.outbox (chats s r) = ChatView.outbox (chats s0 r) →
  settled r id payload rt s s' → settled r id payload rt s0 s'.
Proof.
  intros Hp Hc He Ho (l & Hl & Hrest). exists l. rewrite <- He. split; [done|].
  unfold published, put_off in *. by rewrite <- Hp, <- Hc, <- Ho.
Qed.
Lemma chats_tick s r : chats (next_tick s) r = chats s r.
Proof. done. Qed.

(** The number, the storing, and the rest. *)
Lemma send_numbered r u plain s0 s :
  all_live → chat_step r s0 s → chats s r = chats s0 r → chat_ready s →
  wp (seq ← call_chat (λ c _, NextSeq c r);
      t ← now;
      let base := ChatMessage.mk "chat" seq "" r u plain (Unix t) in
      let payload := marshal_chat base in
      if ChatLimits.MaxPayloadBytes (chat s) <? len payload then throw ErrChatPayloadTooLarge
      else
        streamID ← call_chat (λ c t, AppendMessage c t r seq payload (ChatLimits.StreamMaxLen (chat s)));
        let out := ChatMessage.set_StreamID streamID base in
        if ChatLimits.MaxPayloadBytes (chat s) <? len (marshal_chat out) then
          _ ← ignore (call_chat (λ c t, EnqueuePending c t r streamID));
          mret (ChatSendResult.mk out "deferred")
        else
          pubErr ← publishAblyChat r (PubRaw (marshal_chat out));
          match pubErr with
          | None => mret (ChatSendResult.mk out "ok")
          | Some _ => _ ← call_chat (λ c t, EnqueuePending c t r streamID);
                      mret (ChatSendResult.mk out "deferred")
          end)
    (λ res s', (∀ r', r' ≠ r → chats s' r' = chats s0 r') ∧
       match res with
       | Ok m => accepted r u plain s0 s' m
       | Err _ => untouched r s0 s'
       | Halt _ => False
       end) s.
Proof.
  intros Hlive (_ & Ho0 & Hc0 & Hp0 & He0) Hv0 Hs.
  apply wp_bind. eapply wp_chat; [exact Hs|intros; apply NextSeq_law|].
  intros x s1 (Hs1 & Ho1 & Hc1 & Hp1 & He1). unfold outcome. rewrite Hlive. cbv zeta.
  rewrite Hv0 in *. intros [(-> & Hn & Hv1)|(e & -> & Hv1)].
  2: { split; [intros r' Hr'; by rewrite Ho1, Ho0|]. unfold untouched. rewrite Hv1. by split_and!; [..|congruence]. }
  set (n := ChatView.seq (chats s0 r) + 1) in *. apply wp_now.
  set (base := ChatMessage.mk "chat" n "" r u plain _).
  destruct (Z.ltb_spec (ChatLimits.MaxPayloadBytes (chat s)) (len (marshal_chat base))) as [Hbig|Hfit].
  { apply wp_throw. split; [intros r' Hr'; by rewrite chats_tick, Ho1, Ho0|].
    unfold untouched. rewrite chats_tick, Hv1. split_and!; [done..|]. cbn [events next_tick]. congruence. }
  apply wp_bind. eapply wp_chat; [exact Hs1|intros; apply AppendMessage_law; unfold min_int64; lia|].
  intros x s2 (Hs2 & Ho2 & Hc2 & Hp2 & He2). unfold outcome. rewrite Hlive.
  intros (id & k & -> & Hid & Hv2 & Hk). cbv zeta.
  rewrite chats_tick, Hv1 in *.
  assert (chat s = chat s2) as -> by (rewrite Hc2; cbn [chat next_tick]; congruence).
  eapply wp_mono; [by apply send_settles|]. intros res s' (rt & -> & Hset & Ho & Hlog & Hseq). split.
  { intros r' Hr'. by rewrite Ho, Ho2, chats_tick, Ho1, Ho0. }
  exists id, (now_at (tick s1)). cbv zeta. fold n. fold base. cbn [ChatSendResult.Message ChatSendResult.Realtime].
  assert (chat s2 = chat s0) as Hchat by (rewrite Hc2; cbn [chat next_tick]; congruence).
  assert (chat s = chat s0) as Hc by done. rewrite Hc in *.
  do 4 (split; [done|]). split; [|split].
  - exists k. rewrite Hlog, Hv2. by split.
  - by rewrite Hseq, Hv2.
  - eapply (settled_from _ _ _ _ s0 s2); [..|exact Hset].
    + rewrite Hp2. cbn [publisher next_tick]. congruence.
    + done.
    + rewrite He2. cbn [events next_tick]. congruence.
    + by rewrite Hv2.
Qed.

Lemma step_untouched r s s' : chat_step r s s' → chats s' r = chats s r → untouched r s s'.
Proof. intros (_ & _ & _ & _ & He) Hv. unfold untouched. by rewrite Hv. Qed.

(** After the checks of the text and of the outbox. *)
Lemma send_checked r u plain s0 s :
  all_live → chat_step r s0 s → chats s r = chats s0 r → chat_ready s →
  wp (ok ← call_chat (λ c _, AllowChatSend c r (HubUser.ID u) (ChatLimits.RatePerSecond (chat s0)));
      if negb ok then throw ErrChatRateLimited
      else
        seq ← call_chat (λ c _, NextSeq c r);
        t ← now;
        let base := ChatMessage.mk "chat" seq "" r u plain (Unix t) in
        let payload := marshal_chat base in
        if ChatLimits.MaxPayloadBytes (chat s0) <? len payload then throw ErrChatPayloadTooLarge
        else
          streamID ← call_chat (λ c t, AppendMessage c t r seq payload (ChatLimits.StreamMaxLen (chat s0)));
          let out := ChatMessage.set_StreamID streamID base in
          if ChatLimits.MaxPayloadBytes (chat s0) <? len (marshal_chat out) then
            _ ← ignore (call_chat (λ c t, EnqueuePending c t r streamID));
            mret (ChatSendResult.mk out "deferred")
          else
            pubErr ← publishAblyChat r (PubRaw (marshal_chat out));
            match pubErr with
            | None => mret (ChatSendResult.mk out "ok")
            | Some _ => _ ← call_chat (λ c t, EnqueuePending c t r streamID);
                        mret (ChatSendResult.mk out "deferred")
            end)
    (λ res s', (∀ r', r' ≠ r → chats s' r' = chats s0 r') ∧
       match res with
       | Ok m => accepted r u plain s0 s' m
       | Err _ => untouched r s0 s'
       | Halt _ => False
       end) s.
Proof.
  intros Hlive Hst Hv Hs. apply wp_bind.
  eapply (wp_chat_reads _ r); [done|intros; apply AllowChatSend_law|].
  intros x s1 Hst1 Hv1 Hh. pose proof (step_then _ _ _ _ Hst Hst1) as Hst01.
  assert (chats s1 r = chats s0 r) as Hv01 by congruence.
  destruct x as [ok|e|h]; [|split; [apply Hst01|by apply step_untouched]|by destruct (Hh h)].
  destruct ok; cbn [negb]; [|apply wp_throw; split; [apply Hst01|by apply step_untouched]].
  assert (chat s0 = chat s1) as -> by (by destruct Hst01 as (_ & _ & -> & _)).
  apply send_numbered; [done..|]. apply Hst01.
Qed.

(** C17: with live contexts, an accepted message gets the next number, is kept at the
    head of its room's history under a new id with as many older ones as the limit
    asks for, and is either published, after no more tries than configured, or put
    in the outbox; a refused one leaves history, outbox and publications alone.
    Blank and long texts, and a full outbox, are refused as such; other rooms are
    never touched. *)
Theorem SendChat_correct r u text s :
  all_live → chat_ready s →
  let plain := TrimSpace text in
  let runes := Z.of_nat (RuneCountInString plain) in
  let '(res, s') := SendChat r u text s in
  (∀ r', r' ≠ r → chats s' r' = chats s r') ∧
  (plain = "" → res = Err ErrChatTextEmpty) ∧
  (plain ≠ "" → ChatLimits.MaxTextRunes (chat s) < runes → res = Err ErrChatTextTooLong) ∧
  (plain ≠ "" → runes ≤ ChatLimits.MaxTextRunes (chat s) →
   ChatLimits.AblyPendingMax (chat s) ≤ Z.of_nat (length (ChatView.outbox (chats s r))) →
   res = Err ErrChatPendingFull) ∧
  match res with
  | Ok m => accepted r u plain s s' m
  | Err _ => untouched r s s'
  | Halt _ => False
  end.
Proof.
  intros Hlive Hs plain runes.
  match goal with |- let '(res, s') := _ in @?Q res s' => cut (wp (SendChat r u text) Q s) end.
  { unfold wp. by destruct (SendChat r u text s). }
  assert (∃ x, roomChat s = Some x) as [x Hx].
  { unfold chat_ready in Hs. destruct (roomChat s); [by eexists|done]. }
  unfold SendChat. apply wp_present. rewrite Hx. cbn [negb]. apply wp_bind. unfold wp at 1, gets.
  cbn [fst snd]. cbv zeta. fold plain. fold runes. case_bool_decide as Hp.
  { apply wp_throw. by split_and!. }
  destruct (Z.ltb_spec (ChatLimits.MaxTextRunes (chat s)) runes).
  { apply wp_throw. split_and!; try done. intros ?. lia. }
  apply wp_bind. eapply wp_chat; [done|intros; apply PendingCount_law|].
  intros y s1 Hst. unfold outcome. rewrite Hlive. intros [-> Hv].
  destruct (Z.leb_spec (ChatLimits.AblyPendingMax (chat s)) (Z.of_nat (length (ChatView.outbox (chats s r))))).
  { apply wp_throw. split_and!; try done; [apply Hst|lia|apply step_untouched; done..]. }
  eapply wp_mono; [apply send_checked; [done|done|done|apply Hst]|].
  intros res s' [Ho Hres]. split_and!; try done; lia.
Qed.

(** ** Listing *)

(** The messages a listing starts from: all, or those older than a message. *)
Definition older_than (v : CH) (before : string) (rest : list RoomChatMessage.t) : Prop :=
  (TrimSpace before = "" ∧ rest = ChatView.log v) ∨
  (TrimSpace before ≠ "" ∧ ∃ l1 m, ChatView.log v = l1 ++ m :: rest ∧ RoomChatMessage.StreamID m = before).

Lemma ListChat_run r before limit rest s :
  all_live → chat_ready s → older_than (chats s r) before rest →
  let n := page_size limit in
  let '(res, s') := ListChat r before limit s in
  (∀ r', chats s' r' = chats s r') ∧ events s' = events s ∧
  ∃ more, res = Ok (decode_messages (take n rest), more) ∧
    (more = true ↔ (n < length rest)%nat ∧ (n < 200)%nat).
Proof.
  intros Hlive Hs Hrest n. set (lim := Z.of_nat n).
  match goal with |- let '(res, s') := _ in @?Q res s' => cut (wp (ListChat r before limit) Q s) end.
  { unfold wp. by destruct (ListChat r before limit s). }
  assert (1 ≤ lim ≤ 200) as Hlim.
  { unfold lim, n, page_size. destruct (Z.leb_spec limit 0), (Z.ltb_spec 200 limit); lia. }
  unfold ListChat. apply wp_present. pose proof Hs as Hs'. unfold chat_ready in Hs'.
  destruct (roomChat s); [|done]. cbn [negb]. cbv zeta.
  assert ((if 200 <? (if limit <=? 0 then 50 else limit) then 200 else if limit <=? 0 then 50 else limit) = lim) as ->.
  { unfold lim, n, page_size. destruct (Z.leb_spec limit 0); [done|].
    destruct (Z.ltb_spec 200 limit); lia. }
  apply wp_bind. eapply wp_chat; [done|intros; apply ListMessagesRev_law|].
  intros x s' (Hs1 & Ho & _ & _ & He). unfold outcome. rewrite Hlive.
  intros (Hv & _ & Hall & Hold & _).
  assert (x = Ok (take (page_size (lim + 1)) rest)) as ->.
  { destruct Hrest as [[Hb ->]|(Hb & l1 & m & Hl & Hm)]; [by apply Hall|by eapply Hold]. }
  apply wp_ret. split; [intros r'; destruct (decide (r' = r)) as [->|]; auto|]. split; [done|].
  assert (page_size (lim + 1) = if decide (lim = 200) then n else S n) as Hps.
  { unfold page_size at 1. destruct (Z.leb_spec (lim + 1) 0); [lia|].
    destruct (Z.ltb_spec 200 (lim + 1)); destruct (decide (lim = 200)); lia. }
  rewrite Hps, length_take. destruct (decide (lim = 200)).
  - eexists. rewrite (proj2 (Z.ltb_ge _ _)) by lia. split; [reflexivity|]. split; [done|lia].
  - destruct (Z.ltb_spec lim (Z.of_nat (S n `min` length rest))) as [Hlt|Hge]; eexists.
    + rewrite take_take. replace (Z.to_nat lim `min` S n)%nat with n by lia. split; [done|]. split; [lia|done].
    + rewrite !take_ge by lia. split; [done|]. split; [done|lia].
Qed.

(** What a listing shows of a stored entry: the message its payload is read as, with
    the id of the entry; an entry that is no message is left out. *)
Definition shown (e : RoomChatMessage.t) : option ChatMessage.t :=
  match unmarshal_chat (RoomChatMessage.Payload e) with
  | Some (ChatMessage.mk ty seq _ room user text sent) =>
      Some (ChatMessage.mk ty seq (RoomChatMessage.StreamID e) room user text sent)
  | None => None
  end.
(** The entry [e] stores the message [m]. *)
Definition stores (e : RoomChatMessage.t) (m : ChatMessage.t) : Prop :=
  RoomChatMessage.Payload e = marshal_chat m ∧
  in_int64 (ChatMessage.Seq m) ∧ in_int64 (ChatMessage.SentAt m).

Lemma decode_shown l : decode_messages l = omap shown l.
Proof.
  unfold decode_messages. apply list_omap_ext. induction l as [|e l IH]; constructor; [|done].
  unfold shown. by destruct (unmarshal_chat _) as [[]|].
Qed.
Lemma shown_stored l ms :
  Forall2 stores l ms →
  omap shown l = zip_with (λ e m, ChatMessage.set_StreamID (RoomChatMessage.StreamID e) (clean_message m)) l ms.
Proof.
  induction 1 as [|e m l ms (Hp & Hs & Ht) _ IH]; [done|].
  assert (shown e = Some (ChatMessage.set_StreamID (RoomChatMessage.StreamID e) (clean_message m))) as He.
  { unfold shown. rewrite Hp, (unmarshal_marshal m Hs Ht). by destruct (clean_message m). }
  cbn [omap list_omap zip_with]. rewrite He. f_equal. exact IH.
Qed.

(** C39: a listing shows, newest first, the newest messages, or those older than the
    one named, up to the limit (50 unless given, 200 at most): every stored entry of
    that page that is a message, under the id of its entry, and nothing else; so
    when messages were stored, exactly those (bytes that are not valid UTF-8
    replaced).  It says whether there are more; but at the limit of 200 it always
    says there are none, since the backend then answers no more than it was asked
    for. *)
Theorem history_pages r before limit rest s :
  all_live → chat_ready s → older_than (chats s r) before rest →
  let n := Z.to_nat (if decide (limit ≤ 0) then 50 else Z.min limit 200) in
  let page := take n rest in
  let '(res, s') := ListChat r before limit s in
  (∀ r', chats s' r' = chats s r') ∧ events s' = events s ∧
  ∃ items more, res = Ok (items, more) ∧ items = omap shown page ∧
    (∀ ms, Forall2 stores page ms →
       items = zip_with (λ e m, ChatMessage.set_StreamID (RoomChatMessage.StreamID e) (clean_message m))
                 page ms) ∧
    (more = true ↔ (n < length rest)%nat ∧ (n < 200)%nat).
Proof.
  intros Hlive Hs Hrest n page.
  assert (n = page_size limit) as Hn.
  { unfold n, page_size. case_decide; destruct (Z.leb_spec limit 0); try lia.
    destruct (Z.ltb_spec 200 limit); lia. }
  pose proof (ListChat_run r before limit rest s Hlive Hs Hrest) as Hrun. cbv zeta in Hrun.
  rewrite <- Hn in Hrun. destruct (ListChat r before limit s) as [res s'].
  destruct Hrun as (Hc & He & more & -> & Hm). split; [done|]. split; [done|].
  do 2 eexists. split; [done|]. rewrite decode_shown. split; [done|]. split; [|done].
  intros ms. apply shown_stored.
Qed.

(** ** The outbox *)

(** The publisher has recovered: it answers, and goes on answering. *)
Definition recovered (up : PubT → Prop) : Prop :=
  ∀ r name data x, up x → let '(res, y) := PublishRoomMessage None r name data x in res = Ok tt ∧ up y.
Definition publisher_up (up : PubT → Prop) (s : Service) : Prop :=
  match publisher s with Some x => up x | None => False end.

(** What is published for a pending id: the message kept under it, with the id. *)
Definition wire (limits : ChatLimits.t) (v : CH) (id : string) : option string :=
  m ← head (filter (λ m, RoomChatMessage.StreamID m = id) (ChatView.log v));
  w ← unmarshal_chat (RoomChatMessage.Payload m);
  let payload := marshal_chat (ChatMessage.set_StreamID id w) in
  if bool_decide (TrimSpace (RoomChatMessage.Payload m) = "") ||
     (ChatLimits.MaxPayloadBytes limits <? len payload) then None else Some payload.

Lemma publish_up up room data s :
  all_live → recovered up → publisher_up up s →
  wp (publishAblyChat room data) (λ r s',
    r = Ok None ∧ events s' = events s ++ [delivered room data] ∧ chat_still s s' ∧
    publisher_up up s') s.
Proof.
  unfold publisher_up. intros Hlive Hrec Hup. destruct (publisher s) as [x|] eqn:Hx; [|done].
  unfold publishAblyChat. apply wp_present. rewrite Hx. cbn [negb]. apply wp_bind.
  unfold wp at 1, gets. cbn [fst snd]. cbv zeta. pose proof (publish_attempts_pos (chat s)).
  destruct (Z.to_nat (publish_attempts (chat s))) as [|n] eqn:En; [lia|]. cbn [publish_loop].
  apply wp_ctx_err. rewrite Hlive. apply wp_bind, wp_attempt. unfold wp, call_publish, call_opt.
  cbn [publisher next_tick]. rewrite Hx. cbn [tick next_tick]. rewrite Hlive.
  pose proof (Hrec room MessageRoomChat data x Hup) as Hr.
  destruct (PublishRoomMessage _ _ _ _ x) as [res y]. destruct Hr as [-> Hy]. by cbn.
Qed.

(** One entry, with everything up. *)
Lemma drain_entry_run up r id p s :
  all_live → recovered up → chat_ready s → publisher_up up s →
  wire (chat s) (chats s r) id = Some p →
  wp (drain_entry r id) (λ res s',
    res = Ok tt ∧ chat_ready s' ∧ publisher_up up s' ∧ chat s' = chat s ∧
    events s' = events s ++ [delivered r (PubRaw p)] ∧
    chats s' r = ChatView.set_outbox (filter (λ i, i ≠ id) (ChatView.outbox (chats s r))) (chats s r)) s.
Proof.
  intros Hlive Hrec Hs Hup Hw. unfold wire in Hw.
  destruct (head _) as [m|] eqn:Hm; [|done]. apply head_Some_elem_of, list_elem_of_filter in Hm as [Hid Hm].
  cbn [mbind option_bind] in Hw. destruct (unmarshal_chat _) as [w|] eqn:Hu; [|done].
  cbn [mbind option_bind] in Hw. case_bool_decide as Hb; [done|]. cbn [orb] in Hw.
  destruct (Z.ltb_spec (ChatLimits.MaxPayloadBytes (chat s)) (len (marshal_chat (ChatMessage.set_StreamID id w))));
    [done|]. injection Hw as <-.
  unfold drain_entry. apply wp_bind. unfold wp at 1, gets. cbn [fst snd]. apply wp_bind, wp_attempt.
  eapply wp_chat; [done|intros; apply GetPayload_law|].
  intros x s1 (Hs1 & Ho1 & Hc1 & Hp1 & He1). unfold outcome. rewrite Hlive. intros (Hv1 & _ & Hx).
  rewrite (Hx m Hm Hid), bool_decide_false, Hu by done. cbv zeta. rewrite (proj2 (Z.ltb_ge _ _)) by done.
  apply wp_bind. eapply wp_mono.
  { apply (publish_up up); [done..|]. unfold publisher_up. by rewrite Hp1. }
  intros res s2 (-> & He2 & Hst & Hup2). destruct (chat_still_step s1 s2 Hs1 Hst) as (Hs2 & Hv2 & Hc2).
  apply wp_ignore. eapply wp_chat; [done|intros; apply RemovePending_law|].
  intros x' s3 (Hs3 & Ho3 & Hc3 & Hp3 & He3). unfold outcome. rewrite Hlive. intros (-> & Hv3).
  split_and!; try done; [unfold publisher_up; by rewrite Hp3|congruence|congruence|].
  by rewrite Hv3, Hv2, Hv1.
Qed.

Lemma wire_outbox limits v l id : wire limits (ChatView.set_outbox l v) id = wire limits v id.
Proof. done. Qed.

Lemma filter_ne_head (id : string) l : NoDup (id :: l) → filter (λ i, i ≠ id) (id :: l) = l.
Proof.
  intros [Hn Hd]%list.NoDup_cons. rewrite list.filter_cons, decide_False by tauto.
  induction l as [|i l IH]; [done|]. apply not_elem_of_cons in Hn as [Hi Hl].
  apply list.NoDup_cons in Hd as [_ Hd]. rewrite list.filter_cons, decide_True by done. f_equal. by apply IH.
Qed.

(** The entries at the front, in order. *)
Lemma drain_entries_run up r ids : ∀ rest ps s,
  all_live → recovered up → chat_ready s → publisher_up up s →
  ChatView.outbox (chats s r) = ids ++ rest →
  mapM (wire (chat s) (chats s r)) ids = Some ps →
  wp (drain_entries r ids) (λ res s',
    res = Ok tt ∧ chat_ready s' ∧ publisher_up up s' ∧ chat s' = chat s ∧
    events s' = events s ++ (delivered r ∘ PubRaw <$> ps) ∧
    chats s' r = ChatView.set_outbox rest (chats s r)) s.
Proof.
  induction ids as [|id ids IH]; intros rest ps s Hlive Hrec Hs Hup Hout Hps.
  { injection Hps as <-. apply wp_ret. rewrite app_nil_r. split_and!; try done. cbn in Hout.
    destruct (chats s r). cbn in *. by subst. }
  cbn [mapM] in Hps. destruct (wire _ _ id) as [p|] eqn:Hw; [|done]. cbn [mbind option_bind] in Hps.
  destruct (mapM _ ids) as [ps'|] eqn:Hm; [|done]. injection Hps as <-.
  cbn [drain_entries]. apply wp_bind. eapply wp_mono; [by apply (drain_entry_run up)|].
  intros res s1 (-> & Hs1 & Hup1 & Hc1 & He1 & Hv1).
  assert (NoDup (id :: ids ++ rest)) as Hnd.
  { unfold chat_ready, chats in *. destruct (roomChat s) as [x|]; [|done].
    destruct (rc_distinct x r Hs) as [_ Hd]. by rewrite Hout in Hd. }
  rewrite Hout in Hv1. cbn [app] in Hv1. rewrite filter_ne_head in Hv1 by done.
  eapply wp_mono; [apply (IH rest ps'); try done|].
  - by rewrite Hv1.
  - rewrite Hc1, Hv1. rewrite <- Hm. done.
  - intros res s' (-> & ? & ? & ? & He & Hv). split_and!; try done; [congruence| |by rewrite Hv, Hv1].
    rewrite He, He1, <- app_assoc. done.
Qed.

(** Visits of the outbox of a room, as its ticker makes them. *)
Fixpoint visits (n : nat) (r : string) : SM Service unit :=
  match n with O => mret tt | S n => _ ← drainRoomPending r; visits n r end.

Lemma drain_run up r ps s :
  all_live → recovered up → chat_ready s → publisher_up up s →
  mapM (wire (chat s) (chats s r)) (ChatView.outbox (chats s r)) = Some ps →
  wp (drainRoomPending r) (λ res s',
    res = Ok tt ∧ chat_ready s' ∧ publisher_up up s' ∧ chat s' = chat s ∧
    events s' = events s ++ (delivered r ∘ PubRaw <$> take 30 ps) ∧
    chats s' r = ChatView.set_outbox (drop 30 (ChatView.outbox (chats s r))) (chats s r)) s.
Proof.
  intros Hlive Hrec Hs Hup Hps. unfold drainRoomPending. apply wp_bind.
  eapply wp_chat; [done|intros; apply PendingStreamIDs_law|].
  intros x s1 (Hs1 & _ & Hc1 & Hp1 & He1). unfold outcome. rewrite Hlive. intros (Hv1 & ->).
  change (Z.to_nat (if 30 <=? 0 then 50 else 30)) with 30%nat.
  eapply wp_mono; [apply (drain_entries_run up r _ (drop 30 (ChatView.outbox (chats s r))) (take 30 ps)); try done|].
  - unfold publisher_up. by rewrite Hp1.
  - by rewrite Hv1, take_drop.
  - rewrite Hc1, Hv1. apply mapM_Some. apply mapM_Some in Hps. by apply Forall2_take.
  - intros res s' (-> & ? & ? & ? & He & Hv). split_and!; try done; [congruence|congruence|by rewrite Hv, Hv1].
Qed.

(** C18: once the publisher works again, and while contexts stay live, a room's outbox
    empties: a visit publishes the thirty oldest pending messages, so enough of them
    publish every message whose payload is kept and fits, once each, in order. *)
Theorem outbox_delivers up n r ps s :
  all_live → recovered up → chat_ready s → publisher_up up s →
  mapM (wire (chat s) (chats s r)) (ChatView.outbox (chats s r)) = Some ps →
  (length (ChatView.outbox (chats s r)) ≤ 30 * n)%nat →
  let '(res, s') := visits n r s in
  res = Ok tt ∧ ChatView.outbox (chats s' r) = [] ∧
  ChatView.log (chats s' r) = ChatView.log (chats s r) ∧
  events s' = events s ++ (delivered r ∘ PubRaw <$> ps).
Proof.
  intros Hlive Hrec. revert ps s. induction n as [|n IH]; intros ps s Hs Hup Hps Hlen.
  { cbn [visits]. assert (ChatView.outbox (chats s r) = []) as Hnil by (apply nil_length_inv; lia).
    rewrite Hnil in *. injection Hps as <-. by rewrite app_nil_r. }
  cbn [visits]. pose proof (drain_run up r ps s Hlive Hrec Hs Hup Hps) as Hd. unfold wp in Hd.
  unfold mbind, SM_bind. destruct (drainRoomPending r s) as [res s1].
  cbn [fst snd] in Hd. destruct Hd as (-> & Hs1 & Hup1 & Hc1 & He1 & Hv1).
  specialize (IH (drop 30 ps) s1 Hs1 Hup1). rewrite Hc1, Hv1 in IH.
  cbn [ChatView.outbox ChatView.log ChatView.set_outbox] in IH.
  assert (mapM (wire (chat s) (chats s r)) (drop 30 (ChatView.outbox (chats s r))) = Some (drop 30 ps)) as Hm.
  { apply mapM_Some. apply mapM_Some in Hps. by apply Forall2_drop. }
  specialize (IH Hm). rewrite length_drop in IH. specialize (IH ltac:(lia)).
  destruct (visits n r s1) as [res' s']. destruct IH as (-> & -> & -> & ->).
  split_and!; try done. by rewrite He1, <- app_assoc, <- fmap_app, take_drop.
Qed.

(** ** The scan *)

(** The backend's scan comes to an end: every page but the last brings it nearer,
    and what is done between the pages does not set it back. *)
Record scan_ends (rank : ChatT → Z → nat) : Prop := {
  scan_nearer : ∀ c cursor n x,
    match ScanPendingRooms c cursor n x with
    | (Ok (_, next), y) => next ≠ 0 → (rank y next < rank x cursor)%nat
    | _ => True
    end;
  scan_pending_ids : ∀ c r n x cursor, (rank (PendingStreamIDs c r n x).2 cursor ≤ rank x cursor)%nat;
  scan_payload : ∀ c r id x cursor, (rank (GetPayload c r id x).2 cursor ≤ rank x cursor)%nat;
  scan_remove : ∀ c r id x cursor, (rank (RemovePending c r id x).2 cursor ≤ rank x cursor)%nat;
}.

Section scan.
Context (rank : ChatT → Z → nat) (Hends : scan_ends rank).

Definition rank_of (s : Service) (cursor : Z) : nat :=
  match roomChat s with Some x => rank x cursor | None => 0%nat end.
(** What does not set the scan back, nor stop it. *)
Definition calm {A} (m : SM Service A) : Prop :=
  ∀ s, chat_ready s → wp m (λ r s', chat_ready s' ∧
    (∀ cursor, (rank_of s' cursor ≤ rank_of s cursor)%nat) ∧ ∀ h, r ≠ Halt h) s.

Lemma calm_ret {A} (a : A) : calm (mret a).
Proof. intros s Hs. by apply wp_ret. Qed.
Lemma calm_gets {A} (f : Service → A) : calm (gets f).
Proof. intros s Hs. unfold wp, gets. by split_and!. Qed.
Lemma calm_bind {A B} (m : SM Service A) (k : A → SM Service B) :
  calm m → (∀ a, calm (k a)) → calm (a ← m; k a).
Proof.
  intros Hm Hk s Hs. apply wp_bind. eapply wp_mono; [by apply Hm|].
  intros [a|e|h] s1 (Hs1 & Hr & Hh); [|by split_and!|by destruct (Hh h)].
  eapply wp_mono; [by apply Hk|]. intros r s2 (Hs2 & Hr2 & Hh2). split_and!; [done| |done].
  intros c. etrans; [apply Hr2|apply Hr].
Qed.
Lemma calm_attempt {A} (m : SM Service A) : calm m → calm (attempt m).
Proof.
  intros Hm s Hs. apply wp_attempt. eapply wp_mono; [by apply Hm|].
  intros [a|e|h] s1 (? & ? & Hh); [by split_and!..|by destruct (Hh h)].
Qed.
Lemma calm_ignore {A} (m : SM Service A) : calm m → calm (ignore m).
Proof.
  intros Hm s Hs. apply wp_ignore. eapply wp_mono; [by apply Hm|].
  intros [a|e|h] s1 (? & ? & Hh); [by split_and!..|by destruct (Hh h)].
Qed.
Lemma calm_publish r data : calm (publishAblyChat r data).
Proof.
  intros s Hs. eapply wp_mono; [apply publish_run|]. intros res s1 (out & l & -> & _ & Hst & _).
  destruct (chat_still_step s s1 Hs Hst) as (? & _ & _). split_and!; [done| |done].
  intros c. unfold rank_of. by destruct Hst as [-> _].
Qed.
Lemma calm_call {A} (m : ctx → time → SM ChatT A) r post :
  (∀ c t, room_law rc_wf rc_view c r (m c t) post) →
  (∀ v x v', post v x v' → ∀ h, x ≠ Halt h) →
  (∀ c t x cursor, (rank (m c t x).2 cursor ≤ rank x cursor)%nat) → calm (call_chat m).
Proof.
  intros Hm Hp Hr s Hs. unfold chat_ready in Hs. unfold wp, call_chat, call_opt, rank_of, chat_ready.
  destruct (roomChat s) as [x|] eqn:E; [|done].
  specialize (Hr (ctx_at (tick s)) (now_at (tick s)) x).
  specialize (Hm (ctx_at (tick s)) (now_at (tick s)) x Hs). destruct (m _ _ x) as [res y].
  destruct Hm as (Hy & _ & Hres). cbn [fst snd roomChat next_tick set_roomChat] in *. split_and!; try done.
  destruct (ctx_at (tick s)); [by destruct Hres as [-> _]|by eapply Hp].
Qed.
Lemma calm_pending_ids r n : calm (call_chat (λ c _, PendingStreamIDs c r n)).
Proof.
  eapply calm_call; [intros; apply PendingStreamIDs_law|by intros v x v' [_ ->]|].
  intros. by apply scan_pending_ids.
Qed.
Lemma calm_payload r id : calm (call_chat (λ c _, GetPayload c r id)).
Proof.
  eapply calm_call; [intros; apply GetPayload_law|by intros v x v' (_ & ? & _)|].
  intros. by apply scan_payload.
Qed.
Lemma calm_remove r id : calm (call_chat (λ c _, RemovePending c r id)).
Proof.
  eapply calm_call; [intros; apply RemovePending_law|by intros v x v' [-> _]|].
  intros. by apply scan_remove.
Qed.
Lemma calm_drain_entry r id : calm (drain_entry r id).
Proof.
  unfold drain_entry. apply calm_bind; [apply calm_gets|]. intros limits.
  pose proof (calm_ignore _ (calm_remove r id)). apply calm_bind; [apply calm_attempt, calm_payload|].
  intros [p|e]; [|done]. case_bool_decide; [done|]. destruct (unmarshal_chat p); [|done]. cbv zeta.
  destruct (_ <? _); [apply calm_ret|]. apply calm_bind; [apply calm_publish|].
  intros [e|]; [apply calm_ret|done].
Qed.
Lemma calm_drain_keys keys : calm (drain_keys keys).
Proof.
  assert (∀ r ids, calm (drain_entries r ids)) as Hentries.
  { intros r ids. induction ids as [|id ids IH]; cbn [drain_entries]; [apply calm_ret|].
    apply calm_bind; [apply calm_drain_entry|done]. }
  induction keys as [|k keys IH]; cbn [drain_keys]; [apply calm_ret|].
  apply calm_bind; [|done]. destruct (ParseRoomChatPendingKey k) as [r|]; [|apply calm_ret].
  apply calm_ignore, calm_bind; [apply calm_pending_ids|]. intros ids. apply Hentries.
Qed.

(** Enough fuel: the pages left. *)
Lemma scan_pending_stops fuel : ∀ cursor s, chat_ready s → (rank_of s cursor < fuel)%nat →
  ∀ h, (scan_pending fuel cursor s).1 ≠ Halt h.
Proof.
  induction fuel as [|k IH]; [lia|]. intros cursor s Hs Hr h. cbn [scan_pending].
  enough (wp (scan_pending (S k) cursor) (λ x _, x ≠ Halt h) s) as Hw by exact Hw.
  cbn [scan_pending]. apply wp_bind. unfold chat_ready, rank_of in *. unfold wp at 1, call_chat, call_opt.
  destruct (roomChat s) as [x|] eqn:E; [|done].
  pose proof (scan_nearer rank Hends (ctx_at (tick s)) cursor 40 x) as Hn.
  pose proof (ScanPendingRooms_law (ctx_at (tick s)) cursor 40 x Hs) as Hl.
  destruct (ScanPendingRooms _ _ _ x) as [[[keys next]|e|h'] y]; cbn [fst snd];
    [|done|by destruct Hl as (_ & _ & Hl); destruct (Hl h')].
  destruct Hl as (Hy & _). set (s1 := next_tick _). apply wp_bind.
  eapply wp_mono; [apply (calm_drain_keys keys s1); exact Hy|].
  intros [[]|e|h'] s2 (Hs2 & Hr2 & Hh2); [|done|by destruct (Hh2 h')].
  destruct (Z.eqb_spec next 0) as [->|Hne]; [done|]. specialize (Hn Hne).
  unfold wp. apply IH; [done|]. specialize (Hr2 next). unfold rank_of in Hr2.
  cbn [s1 roomChat next_tick set_roomChat] in Hr2. lia.
Qed.
End scan.

(** More fuel changes nothing once there is enough. *)
Lemma scan_pending_more fuel : ∀ extra cursor s,
  (scan_pending fuel cursor s).1 ≠ Halt OutOfFuel →
  scan_pending (fuel + extra) cursor s = scan_pending fuel cursor s.
Proof.
  induction fuel as [|k IH]; intros extra cursor s; [done|]. cbn [scan_pending Nat.add].
  unfold mbind, SM_bind. destruct (call_chat _ s) as [[[keys next]|e|h] s1]; [|done..].
  destruct (drain_keys keys s1) as [[[]|e|h] s2]; [|done..].
  destruct (next =? 0); [done|]. apply IH.
Qed.

(** C19: when the backend's scan comes to an end, so does a round of the outbox, with
    any failures and whatever is published on the way: a round with one step of fuel
    more than pages are left never runs out, and more fuel changes nothing. *)
Theorem outbox_round_terminates rank fuel extra s :
  chat_ready s → scan_ends rank → (rank_of rank s 0 < fuel)%nat →
  (∀ h, (ProcessGlobalChatPending fuel s).1 ≠ Halt h) ∧
  ProcessGlobalChatPending (fuel + extra) s = ProcessGlobalChatPending fuel s.
Proof.
  intros Hs Hends Hf. unfold ProcessGlobalChatPending, present, gets, mbind, SM_bind.
  destruct (roomChat s), (publisher s); cbn [negb orb]; try done.
  pose proof (scan_pending_stops rank Hends fuel 0 s Hs Hf) as Hh. split; [exact Hh|].
  apply scan_pending_more, Hh.
Qed.
End delivery.
