(* ===== verification/ChatExamples.v ===== *)
(** * Concrete runs of the chat

    The chat over the Redis backend and a server that obeys its laws, with a
    publisher that fails a number of times and then works: the inputs of the
    witnesses of [ChatDelivery]. *)

From S2P Require Import Prelude GoStrings GoNum Model Interfaces Service MemCaches MemPresence Postgres Redis RedisChat Fixtures Chat ChatWire ChatDelivery.

(** The publications still to fail. *)
#[local] Instance flaky : Publisher nat := {
  PublishRoomMessage _ _ _ _ n :=
    match n with O => (Ok tt, O) | S n => (Err (ErrNew "unreachable"), n) end;
}.
#[local] Instance flaky_contract : PublisherContract nat.
Proof. split. by intros c r name data [|n] h. Qed.

#[local] Instance chat_backend : Backend := {
  StatesT := MemStates.t;
  PresenceT := MemPresence.t;
  RoomsT := PgRooms.t TableDB.t;
  AccessT := MemAccess.t;
  ChatT := Keyspace.t;
  PubT := nat;
}.

Definition chat_service (x : Keyspace.t) (failures : nat) : Service :=
  NewService MemStates.New (Some MemPresence.New) (Some (PgRooms.mk (TableDB.mk ∅) 0))
    (Some MemAccess.New) (Some failures) (Some x) test_limits.

Definition new_store : Keyspace.t := Keyspace.mk (1700000000 * Second) ∅.
Lemma new_store_wf : rc_wf new_store.
Proof.
  intros r. change (ChatKeys.room_ok (live (Keyspace.now new_store) ∅) r).
  unfold ChatKeys.room_ok. by rewrite !live_none by apply lookup_empty.
Qed.
Lemma law_wf {S A} wf view c r (m : SM S A) post s : room_law wf view c r m post → wf s → wf (m s).2.
Proof. intros Hm Hs. specialize (Hm s Hs). destruct (m s). by destruct Hm. Qed.

(** A message stored, its publication pending; then another, published. *)
Definition said (n : Z) (text : string) : string :=
  marshal_chat (ChatMessage.mk "chat" n "" "r1" owner text 1700000000).
Definition one_pending : Keyspace.t :=
  let '(id, x) := RedisChat.AppendMessage None 0 "r1" 1 (said 1 "hello") 500 new_store in
  (EnqueuePending None (1700000000 * Second) "r1" (match id with Ok i => i | _ => "" end) x).2.
Definition two_messages : Keyspace.t :=
  (AppendMessage None 0 "r1" 2 (said 2 "anyone?") 500 one_pending).2.

Lemma one_pending_wf : rc_wf one_pending.
Proof.
  unfold one_pending. destruct (RedisChat.AppendMessage _ _ _ _ _ _ _) as [id x] eqn:E.
  apply (law_wf _ rc_view None "r1" _ _ _ (EnqueuePending_law _ _ _ _)).
  change x with (id, x).2. rewrite <- E.
  apply (law_wf _ rc_view None "r1" _ _ _ (AppendMessage_law None 0 "r1" 1 (said 1 "hello") 500 ltac:(done))).
  apply new_store_wf.
Qed.
Lemma two_messages_wf : rc_wf two_messages.
Proof.
  apply (law_wf _ rc_view None "r1" _ _ _ (AppendMessage_law None 0 "r1" 2 (said 2 "anyone?") 500 ltac:(done))).
  apply one_pending_wf.
Qed.

Lemma live_all : all_live.
Proof. done. Qed.
Lemma ready x n : rc_wf x → chat_ready (chat_service x n).
Proof. done. Qed.

(** A run of [SendChat], with what it answers about the publication. *)
Definition send (failures : nat) (text : string) : result ChatSendResult.t * Service :=
  SendChat "r1" owner text (chat_service new_store failures).
Definition answer (x : result ChatSendResult.t * Service) : result (string * string) :=
  match x.1 with
  | Ok m => Ok (ChatMessage.Text (ChatSendResult.Message m), ChatSendResult.Realtime m)
  | Err e => Err e
  | Halt h => Halt h
  end.

(** Three tries fail, and the message waits in the outbox; two fail, and it is out. *)
Lemma SendChat_correct_witness :
  (answer (send 3 " hello ") = Ok ("hello", "deferred") ∧
   length (ChatView.outbox (chats (send 3 " hello ").2 "r1")) = 1%nat ∧
   ∃ m, (send 3 " hello ").1 = Ok m ∧
     accepted "r1" owner "hello" (chat_service new_store 3) (send 3 " hello ").2 m) ∧
  answer (send 2 " hello ") = Ok ("hello", "ok") ∧ answer (send 0 "  ") = Err ErrChatTextEmpty.
Proof.
  pose proof (SendChat_correct "r1" owner " hello " (chat_service new_store 3) live_all
    (ready _ 3 new_store_wf)) as H.
  cbv zeta in H. change (SendChat "r1" owner " hello " (chat_service new_store 3)) with (send 3 " hello ") in H.
  assert (answer (send 3 " hello ") = Ok ("hello", "deferred")) as Ha by (vm_compute; reflexivity).
  split; [|split; vm_compute; reflexivity]. split; [done|]. split; [vm_compute; reflexivity|].
  unfold answer in Ha. destruct (send 3 " hello ") as [[m|e|h] s']; cbn [fst snd] in *; [|done..].
  exists m. split; [done|]. destruct H as (_ & _ & _ & _ & H).
  replace (TrimSpace " hello ") with "hello" in H by (vm_compute; reflexivity). exact H.
Defined.

(** One message at a time; the second listing starts before the first's message. *)
Definition texts_of (x : result (list ChatMessage.t * bool) * Service) : option (list string * bool) :=
  match x.1 with Ok (l, more) => Some (ChatMessage.Text <$> l, more) | _ => None end.

Lemma history_pages_witness :
  let s := chat_service two_messages 0 in
  texts_of (ListChat "r1" "" 1 s) = Some (["anyone?"], true) ∧
  texts_of (ListChat "r1" "1700000003000-0" 1 s) = Some (["hello"], false).
Proof.
  cbv zeta. set (s := chat_service two_messages 0). assert (chat_ready s) as Hs by apply two_messages_wf.
  assert (∃ m1 m2, ChatView.log (chats s "r1") = [m1; m2] ∧ RoomChatMessage.StreamID m1 = "1700000003000-0" ∧
    ChatMessage.Text <$> omap shown [m1] = ["anyone?"] ∧
    ChatMessage.Text <$> omap shown [m2] = ["hello"]) as (m1 & m2 & Hlog & Hid & H1 & H2).
  { do 2 eexists. split; [vm_compute; reflexivity|]. split_and!; vm_compute; reflexivity. }
  split.
  - assert (older_than (chats s "r1") "" [m1; m2]) as Hr.
    { left. split; [vm_compute; reflexivity|]. symmetry. exact Hlog. }
    pose proof (history_pages "r1" "" 1 [m1; m2] s live_all Hs Hr) as H. cbv zeta in H.
    unfold texts_of. destruct (ListChat "r1" "" 1 s) as [res s'].
    destruct H as (_ & _ & items & more & -> & -> & _ & Hm). cbn [fst].
    change (Z.to_nat _) with 1%nat in *.
    assert (more = true) as -> by (apply Hm; cbn; lia).
    change (take 1 [m1; m2]) with [m1]. by rewrite H1.
  - assert (older_than (chats s "r1") "1700000003000-0" [m2]) as Hr.
    { right. split; [vm_compute; discriminate|]. exists [], m1. split; [exact Hlog|exact Hid]. }
    pose proof (history_pages "r1" "1700000003000-0" 1 [m2] s live_all Hs Hr) as H. cbv zeta in H.
    unfold texts_of. destruct (ListChat "r1" "1700000003000-0" 1 s) as [res s'].
    destruct H as (_ & _ & items & more & -> & -> & _ & Hm). cbn [fst].
    change (Z.to_nat _) with 1%nat in *.
    assert (more = false) as ->.
    { destruct more; [|done]. exfalso. destruct (proj1 Hm eq_refl) as [Hlt _]. cbn in Hlt. lia. }
    change (take 1 [m2]) with [m2]. by rewrite H2.
Defined.

Definition working (n : nat) : Prop := n = 0%nat.
Lemma working_recovered : recovered working.
Proof. intros r name data x ->. done. Qed.

(** The pending message is published by one visit. *)
Lemma outbox_delivers_witness :
  let s := chat_service one_pending 0 in
  ChatView.outbox (chats s "r1") = ["1700000001000-0"] ∧
  ∃ p, wire (chat s) (chats s "r1") "1700000001000-0" = Some p ∧
    ChatView.outbox (chats (visits 1 "r1" s).2 "r1") = [] ∧
    events (visits 1 "r1" s).2 = [delivered "r1" (PubRaw p)].
Proof.
  cbv zeta. set (s := chat_service one_pending 0).
  assert (ChatView.outbox (chats s "r1") = ["1700000001000-0"]) as Hout by (vm_compute; reflexivity).
  split; [done|].
  assert (is_Some (wire (chat s) (chats s "r1") "1700000001000-0")) as [p Hp] by (vm_compute; by eexists).
  exists p. split; [done|].
  pose proof (outbox_delivers working 1 "r1" [p] s live_all working_recovered (ready _ 0 one_pending_wf)
    eq_refl ltac:(rewrite Hout; cbn [mapM]; by rewrite Hp) ltac:(rewrite Hout; cbn; lia)) as H.
  destruct (visits 1 "r1" s) as [res s']. destruct H as (_ & Ho & _ & He). split; [exact Ho|exact He].
Defined.

(** The server's scan is one page. *)
Lemma one_page : scan_ends (λ _ _, O).
Proof.
  split; [|intros; exact (Nat.le_refl _)..].
  intros [e|] cursor n x; [exact I|].
  assert (∃ keys y, ScanPendingRooms None cursor n x = (Ok (keys, 0), y)) as (keys & y & ->) by (do 2 eexists; reflexivity).
  done.
Qed.

(** A round with the publisher down for a while: it ends, whatever the fuel beyond
    one page. *)
Lemma outbox_round_terminates_witness :
  let s := chat_service one_pending 2 in
  (∀ h, (ProcessGlobalChatPending 1 s).1 ≠ Halt h) ∧
  ProcessGlobalChatPending 8 s = ProcessGlobalChatPending 1 s ∧
  ChatView.outbox (chats (ProcessGlobalChatPending 1 s).2 "r1") = [].
Proof.
  cbv zeta. set (s := chat_service one_pending 2).
  destruct (outbox_round_terminates (λ _ _, O) 1 7 s (ready _ 2 one_pending_wf) one_page
    ltac:(exact Nat.lt_0_1)) as [Hh He].
  split; [exact Hh|]. split; [exact He|]. vm_compute. reflexivity.
Defined.
