(* ===== verification/EmailCode.v ===== *)
(** * Email verification codes

    [internal/emailcode/store.go].  Sending a code reserves a slot of the day
    ([PrecheckSend], given back by [RollbackPrecheck]) and, once the mail is out,
    stores the code's hash and starts the cooldown ([CommitSend]); [Verify]
    compares a guess.  Module [MemCodes] is the in-memory backend, [RedisCodes]
    the Redis one.  bcrypt is a third-party package: the class [Bcrypt]. *)

From S2P Require Import Prelude GoStrings GoNum GoParse Interfaces MemCaches Redis.

(** [bcrypt.GenerateFromPassword] with the random bytes it draws, and
    [CompareHashAndPassword] ([true] for a nil error). *)
Class Bcrypt := {
  GenerateFromPassword : string → string → result string;
  CompareHashAndPassword : string → string → bool;
}.

(** What the package documents: a password of at most 72 bytes is hashed, a longer
    one is an error; a hash is not empty and matches its password. *)
Class BcryptLaws `{!Bcrypt} := {
  bcrypt_short : ∀ salt p, len p ≤ 72 → ∃ h, GenerateFromPassword salt p = Ok h;
  bcrypt_long : ∀ salt p, 72 < len p → ∃ e, GenerateFromPassword salt p = Err e;
  bcrypt_ok : ∀ salt p h, GenerateFromPassword salt p = Ok h →
    h ≠ "" ∧ CompareHashAndPassword h p = true;
}.

Definition utcDay (t : time) : string := format_date t.

(** [time.Date(y, m, d+1, 0, ...)]: the next UTC midnight. *)
Definition secondsUntilUTCEndOfDay (now : time) : Z :=
  (utc_day_number now + 1) * day_ns - now.

Section store.
Context `{!UnicodeTables}.

(** [strings.ToLower(strings.TrimSpace(email))] *)
Definition normalize (email : string) : string := ToLower (TrimSpace email).

Definition keyCode (purpose email : string) : string :=
  "email:code:v1:" +:+ purpose +:+ ":" +:+ normalize email.
Definition keyCooldown (purpose email : string) : string :=
  "email:cool:v1:" +:+ purpose +:+ ":" +:+ normalize email.
Definition keyDaily (purpose email day : string) : string :=
  "email:daily:v1:" +:+ purpose +:+ ":" +:+ normalize email +:+ ":" +:+ day.
End store.

Module MemEntry.
(** [memEntry] *)
Record t := mk {
  hash : string; expiresAt : time; attempts : Z; coolUntil : time;
  dailyDay : string; dailyCount : Z;
}.
Definition zero : t := mk "" zero_time 0 zero_time "" 0.
Definition set_hash (h : string) (e : t) : t :=
  mk h (expiresAt e) (attempts e) (coolUntil e) (dailyDay e) (dailyCount e).
Definition set_attempts (n : Z) (e : t) : t :=
  mk (hash e) (expiresAt e) n (coolUntil e) (dailyDay e) (dailyCount e).
Definition set_daily (day : string) (n : Z) (e : t) : t :=
  mk (hash e) (expiresAt e) (attempts e) (coolUntil e) day n.
End MemEntry.

Module MemCodes.
Section codes.
Context `{!UnicodeTables, !Bcrypt}.

(** The map of the entries, behind the mutex. *)
Definition t : Type := gmap string MemEntry.t.
Abbreviation entries := (gmap string MemEntry.t).
Definition mem_key (purpose email : string) : string := purpose +:+ "|" +:+ email.

Definition precheckSendMem (email purpose : string) (cooldown dailyLimit : Z) (now : time)
    : SM entries unit := λ s,
  let k := mem_key purpose email in
  let day := utcDay now in
  let e := default MemEntry.zero (s !! k) in
  let s := <[k := e]> s in
  if Before now (MemEntry.coolUntil e)
  then (Err (CooldownError (time_Sub (MemEntry.coolUntil e) now)), s)
  else
    let e := if bool_decide (MemEntry.dailyDay e ≠ day) then MemEntry.set_daily day 0 e else e in
    let s := <[k := e]> s in
    if dailyLimit <=? MemEntry.dailyCount e then (Err ErrDailyLimit, s)
    else (Ok tt, <[k := MemEntry.set_daily (MemEntry.dailyDay e) (MemEntry.dailyCount e + 1) e]> s).

Definition rollbackMem (email purpose : string) : SM entries unit := λ s,
  let k := mem_key purpose email in
  match s !! k with
  | None => (Ok tt, s)
  | Some e =>
      (Ok tt, if 0 <? MemEntry.dailyCount e
              then <[k := MemEntry.set_daily (MemEntry.dailyDay e) (MemEntry.dailyCount e - 1) e]> s
              else s)
  end.

Definition commitSendMem (email purpose codeHash : string) (codeHashTTL cooldown : Z) (now : time)
    : SM entries unit := λ s,
  let k := mem_key purpose email in
  let e := default MemEntry.zero (s !! k) in
  (Ok tt, <[k := MemEntry.mk codeHash (time_Add now codeHashTTL) 0 (time_Add now cooldown)
              (MemEntry.dailyDay e) (MemEntry.dailyCount e)]> s).

Definition verifyMem (email purpose plain : string) (maxAttempts : Z) (now : time)
    : SM entries unit := λ s,
  let k := mem_key purpose email in
  match s !! k with
  | None => (Err ErrInvalidCode, s)
  | Some e =>
      if bool_decide (MemEntry.hash e = "") then (Err ErrInvalidCode, s)
      else if After now (MemEntry.expiresAt e)
      then (Err ErrExpired, <[k := MemEntry.set_hash "" e]> s)
      else if negb (CompareHashAndPassword (MemEntry.hash e) (TrimSpace plain)) then
        let e := MemEntry.set_attempts (MemEntry.attempts e + 1) e in
        if maxAttempts <=? MemEntry.attempts e
        then (Err ErrMaxAttempts, <[k := MemEntry.set_hash "" e]> s)
        else (Err ErrInvalidCode, <[k := e]> s)
      else (Ok tt, <[k := MemEntry.set_hash "" e]> s)
  end.

Definition PrecheckSend (email purpose : string) (cooldown dailyLimit : Z) (now : time)
    : SM entries unit :=
  let email := normalize email in
  if bool_decide (email = "") || bool_decide (purpose = "")
  then throw (ErrNew "emailcode: empty email or purpose")
  else precheckSendMem email purpose cooldown dailyLimit now.
Definition RollbackPrecheck (email purpose : string) (now : time) : SM entries unit :=
  rollbackMem (normalize email) purpose.
Definition CommitSend (salt email purpose plainCode : string) (codeHashTTL cooldown : Z)
    (now : time) : SM entries unit :=
  let email := normalize email in
  hash ← of_result (GenerateFromPassword salt plainCode);
  commitSendMem email purpose hash codeHashTTL cooldown now.
Definition Verify (email purpose plain : string) (maxAttempts : Z) (now : time)
    : SM entries unit :=
  verifyMem (normalize email) purpose plain maxAttempts now.
End codes.
End MemCodes.

Module RedisCodes.
Section codes.
Context `{!UnicodeTables, !Bcrypt, !RedisServer R}.

Definition precheckSendRedis (c : ctx) (email purpose : string) (cooldown dailyLimit : Z)
    (now : time) : SM R unit :=
  ttl ← redis c (TTL (keyCooldown purpose email)) as_duration;
  if 0 <? ttl then throw (CooldownError ttl)
  else
    let dailyKey := keyDaily purpose email (utcDay now) in
    rs ← pipeline c [INCRBY dailyKey 1; EXPIRE dailyKey (expire_ttl (secondsUntilUTCEndOfDay now))];
    n ← of_result (match rs with r :: _ => as_int r | [] => Err (ErrNew "redis: no reply") end);
    if dailyLimit <? n then
      _ ← ignore (redis c (INCRBY dailyKey (-1)) as_int);
      throw ErrDailyLimit
    else mret tt.

Definition commitSendRedis (c : ctx) (email purpose codeHash : string) (codeHashTTL cooldown : Z)
    (now : time) : SM R unit :=
  let expiresAt := Unix (time_Add now codeHashTTL) in
  let codeKey := keyCode purpose email in
  _ ← redis c (HSET codeKey [("h", codeHash); ("exp", FormatInt expiresAt); ("n", "0")]) as_unit;
  _ ← redis c (EXPIRE codeKey (expire_ttl codeHashTTL)) as_unit;
  redis c (SET (keyCooldown purpose email) "1" (set_ttl cooldown)) as_unit.

(** What a guess does once the record [h] has been read. *)
Definition verify_read (c : ctx) (key plain : string) (maxAttempts : Z) (now : time)
    (h : gmap string string) : SM R unit :=
  if decide (h = ∅) then throw ErrInvalidCode
  else if ParseInt_or_zero (default "" (h !! "exp")) <? Unix now then
    _ ← ignore (redis c (DEL key) as_unit);
    throw ErrExpired
  else if negb (CompareHashAndPassword (default "" (h !! "h")) (TrimSpace plain)) then
    let n := ParseInt_or_zero (default "" (h !! "n")) in
    let n := wrap64 (n + 1) in
    _ ← ignore (redis c (HSET key [("n", FormatInt n)]) as_unit);
    if maxAttempts <=? n then
      _ ← ignore (redis c (DEL key) as_unit);
      throw ErrMaxAttempts
    else throw ErrInvalidCode
  else
    _ ← ignore (redis c (DEL key) as_unit);
    mret tt.

Definition verifyRedis (c : ctx) (email purpose plain : string) (maxAttempts : Z) (now : time)
    : SM R unit :=
  let key := keyCode purpose email in
  h ← redis c (HGETALL key) as_map;
  verify_read c key plain maxAttempts now h.

Definition PrecheckSend (c : ctx) (email purpose : string) (cooldown dailyLimit : Z) (now : time)
    : SM R unit :=
  let email := normalize email in
  if bool_decide (email = "") || bool_decide (purpose = "")
  then throw (ErrNew "emailcode: empty email or purpose")
  else precheckSendRedis c email purpose cooldown dailyLimit now.
Definition RollbackPrecheck (c : ctx) (email purpose : string) (now : time) : SM R unit :=
  let email := normalize email in
  redis c (INCRBY (keyDaily purpose email (utcDay now)) (-1)) as_unit.
Definition CommitSend (c : ctx) (salt email purpose plainCode : string) (codeHashTTL cooldown : Z)
    (now : time) : SM R unit :=
  let email := normalize email in
  hash ← of_result (GenerateFromPassword salt plainCode);
  commitSendRedis c email purpose hash codeHashTTL cooldown now.
Definition Verify (c : ctx) (email purpose plain : string) (maxAttempts : Z) (now : time)
    : SM R unit :=
  verifyRedis c (normalize email) purpose plain maxAttempts now.
End codes.
End RedisCodes.

(** ** The store as its callers see it *)

Class CodeStore (S : Type) := {
  code_precheck : ctx → string → string → Z → Z → time → SM S unit;
  code_rollback : ctx → string → string → time → SM S unit;
  code_commit : ctx → string → string → string → string → Z → Z → time → SM S unit;
  code_verify : ctx → string → string → string → Z → time → SM S unit;
}.
#[export] Instance mem_code_store `{!UnicodeTables, !Bcrypt} : CodeStore MemCodes.t := {
  code_precheck _ := MemCodes.PrecheckSend;
  code_rollback _ := MemCodes.RollbackPrecheck;
  code_commit _ := MemCodes.CommitSend;
  code_verify _ := MemCodes.Verify;
}.
#[export] Instance redis_code_store `{!UnicodeTables, !Bcrypt, !RedisServer R} : CodeStore R := {
  code_precheck := RedisCodes.PrecheckSend;
  code_rollback := RedisCodes.RollbackPrecheck;
  code_commit := RedisCodes.CommitSend;
  code_verify := RedisCodes.Verify;
}.

(** ** Generating a code *)

(** [crypto/rand.Read] of one byte, the i-th of a code: a byte or an error. *)
Class RandBytes := { rand_byte : nat → result Z }.

Section generate.
Context `{!RandBytes}.

Fixpoint random_digits (i n : nat) : result string :=
  match n with
  | O => Ok ""
  | S n =>
      match rand_byte i with
      | Ok b => match random_digits (S i) n with
                | Ok s => Ok (String (digit_char (b mod 10)) s)
                | r => r
                end
      | Err e => Err e
      | Halt h => Halt h
      end
  end.

(** [deterministic] is the code set by [UseDeterministicEmailCodeForTests]. *)
Definition GenerateNumericCode (deterministic : string) (n : Z) : result string :=
  if negb (bool_decide (deterministic = "")) then
    if negb (len deterministic =? n)
    then Err (ErrNew "emailcode: deterministic code length mismatch")
    else Ok deterministic
  else if (n <=? 0) || (12 <? n) then Err (ErrNew "emailcode: invalid length")
  else random_digits 0 (Z.to_nat n).
End generate.

(** ** For examples: ASCII case mapping and a reversible hash *)

Module Toy.
#[global] Instance tables : UnicodeTables := {|
  uni_to_lower r := r; uni_is_lower _ := false; uni_is_digit _ := false;
|}.
#[global] Instance bcrypt : Bcrypt := {|
  GenerateFromPassword salt p := if len p <=? 72 then Ok ("$" +:+ p)
                                 else Err (ErrNew "bcrypt: password length exceeds 72 bytes");
  CompareHashAndPassword h p := bool_decide (h = "$" +:+ p);
|}.
#[global] Instance bcrypt_laws : BcryptLaws.
Proof.
  split.
  - intros salt p Hp. cbn. rewrite (proj2 (Z.leb_le _ _)) by done. by eexists.
  - intros salt p Hp. cbn. rewrite (proj2 (Z.leb_gt _ _)) by done. by eexists.
  - intros salt p h. cbn. destruct (len p <=? 72); [|done]. intros [= <-].
    split; [done|]. by apply bool_decide_true.
Defined.
End Toy.
