(* ===== verification/CodeGuessing.v ===== *)
(** * Guessing a verification code is bounded

    The theorems on [internal/emailcode/store.go]: both backends refine a box
    that allows a fixed number of guesses, the daily limit and the cooldown of
    the in-memory backend, what concurrent guesses and a rollback after midnight
    do to the Redis one, and the shape of generated codes. *)

From S2P Require Import Prelude GoStrings GoNum GoParse Interfaces MemCaches Redis EmailCode.

(** ** The box *)

(** What a sequence of guesses is answered when [tries] are allowed: each is
    [true] when it matches the code. *)
Fixpoint guess_outcomes (tries : nat) (matching : list bool) : list (result unit) :=
  match matching with
  | [] => []
  | b :: bs =>
      match tries with
      | O => Err ErrInvalidCode :: guess_outcomes 0 bs
      | S tries =>
          if b then Ok tt :: guess_outcomes 0 bs
          else Err (if bool_decide (tries = 0%nat) then ErrMaxAttempts else ErrInvalidCode)
               :: guess_outcomes tries bs
      end
  end.

(** A box is opened at most once, and only by one of the first guesses. *)
Lemma guess_outcomes_empty bs r : r ∈ guess_outcomes 0 bs → r = Err ErrInvalidCode.
Proof.
  induction bs as [|b bs IH]; simpl; [by intros ?%not_elem_of_nil|].
  intros [->|Hr]%elem_of_cons; auto.
Qed.

Lemma guess_outcomes_bound left bs i :
  guess_outcomes left bs !! i = Some (Ok tt) →
  (i < left)%nat ∧ bs !! i = Some true ∧
  ∀ j, (j < i)%nat → bs !! j = Some false.
Proof.
  revert left i. induction bs as [|b bs IH]; intros left i; simpl; [done|].
  destruct left as [|left].
  { destruct i as [|i]; simpl; [done|].
    intros Hi%list_elem_of_lookup_2%guess_outcomes_empty. done. }
  destruct b.
  - destruct i as [|i]; simpl; [intros _; split_and!; [lia|done|lia]|].
    intros Hi%list_elem_of_lookup_2%guess_outcomes_empty. done.
  - destruct i as [|i]; simpl; [done|]. intros Hi. destruct (IH left i Hi) as (? & ? & Hj).
    split_and!; [lia|done|]. intros [|j] Hlt; simpl; [done|]. apply Hj. lia.
Qed.

Lemma guess_outcomes_once left bs i j :
  guess_outcomes left bs !! i = Some (Ok tt) → guess_outcomes left bs !! j = Some (Ok tt) → i = j.
Proof.
  intros Hi Hj. destruct (guess_outcomes_bound _ _ _ Hi) as (_ & Hbi & Hmi).
  destruct (guess_outcomes_bound _ _ _ Hj) as (_ & Hbj & Hmj).
  destruct (Nat.lt_trichotomy i j) as [Hlt|[->|Hlt]]; [|done|].
  - rewrite Hmj in Hbi by done. done.
  - rewrite Hmi in Hbj by done. done.
Qed.

(** The number of guesses a limit allows: the check comes after the first one. *)
Definition allowed (maxAttempts : Z) : nat := Z.to_nat (Z.max 1 maxAttempts).

(** ** The in-memory backend *)

Section mem.
Context `{!UnicodeTables, !Bcrypt, !BcryptLaws}.
Import MemCodes.
Abbreviation entries := (gmap string MemEntry.t).

(** A sequence of guesses at the code of one mailbox, each with its time. *)
Fixpoint mem_guesses (email purpose : string) (maxAttempts : Z) (gs : list (string * time))
    (s : entries) : list (result unit) * entries :=
  match gs with
  | [] => ([], s)
  | (g, now) :: gs =>
      let '(r, s1) := MemCodes.Verify email purpose g maxAttempts now s in
      let '(rs, s2) := mem_guesses email purpose maxAttempts gs s1 in (r :: rs, s2)
  end.

Definition mem_entry (email purpose : string) (s : entries) : option MemEntry.t :=
  s !! mem_key purpose (normalize email).

Lemma mem_guesses_empty email purpose maxA gs s :
  (∀ e, mem_entry email purpose s = Some e → MemEntry.hash e = "") →
  (mem_guesses email purpose maxA gs s).1 = (λ _, Err ErrInvalidCode) <$> gs.
Proof.
  intros Hs. induction gs as [|[g now] gs IH]; simpl; [done|].
  assert (MemCodes.Verify email purpose g maxA now s = (Err ErrInvalidCode, s)) as ->.
  { unfold MemCodes.Verify, verifyMem, mem_entry in *.
    destruct (s !! mem_key purpose (normalize email)) as [e|]; [|done].
    by rewrite (bool_decide_true (MemEntry.hash e = "")) by (by apply Hs). }
  destruct (mem_guesses email purpose maxA gs s). simpl in *. by rewrite IH.
Qed.

Lemma guess_outcomes_zero bs : guess_outcomes 0 bs = (λ _, Err ErrInvalidCode) <$> bs.
Proof. induction bs as [|b bs IH]; [done|]. rewrite fmap_cons. simpl. by rewrite IH. Qed.

Lemma mem_guesses_box email purpose maxA gs s e :
  mem_entry email purpose s = Some e → MemEntry.hash e ≠ "" →
  Forall (λ g, After g.2 (MemEntry.expiresAt e) = false) gs →
  0 ≤ MemEntry.attempts e →
  (MemEntry.attempts e < Z.max 1 maxA) →
  (mem_guesses email purpose maxA gs s).1 =
  guess_outcomes (Z.to_nat (Z.max 1 maxA - MemEntry.attempts e))
    ((λ g, CompareHashAndPassword (MemEntry.hash e) (TrimSpace g.1)) <$> gs).
Proof.
  revert s e. induction gs as [|[g now] gs IH]; intros s e Hs Hh Hexp Hlo Hhi; simpl; [done|].
  apply list.Forall_cons in Hexp as [Hnow Hexp]. simpl in Hnow.
  destruct (Z.to_nat (Z.max 1 maxA - MemEntry.attempts e)) as [|left] eqn:Hleft; [lia|].
  unfold MemCodes.Verify, verifyMem. unfold mem_entry in Hs. rewrite Hs, Hnow.
  rewrite bool_decide_false by done.
  set (k := mem_key purpose (normalize email)) in *.
  assert (∀ e', (mem_guesses email purpose maxA gs (<[k := MemEntry.set_hash "" e']> s)).1 =
    guess_outcomes 0 ((λ g, CompareHashAndPassword (MemEntry.hash e) (TrimSpace g.1)) <$> gs))
    as Hcleared.
  { intros e'. rewrite mem_guesses_empty, guess_outcomes_zero, <- list_fmap_compose; [done|].
    unfold mem_entry. fold k. intros e0. rewrite lookup_insert_eq. by intros [= <-]. }
  destruct (CompareHashAndPassword (MemEntry.hash e) (TrimSpace g)) eqn:Hcmp; cbn [negb].
  - specialize (Hcleared e). destruct (mem_guesses _ _ _ _ _). simpl in *. by rewrite Hcleared.
  - cbn [MemEntry.attempts MemEntry.set_attempts].
    destruct (Z.leb_spec maxA (MemEntry.attempts e + 1)) as [Hmax|Hmore].
    + specialize (Hcleared (MemEntry.set_attempts (MemEntry.attempts e + 1) e)).
      destruct (mem_guesses _ _ _ _ _). simpl in *. rewrite Hcleared.
      assert (left = 0%nat) as -> by lia. by rewrite bool_decide_true.
    + set (e1 := MemEntry.set_attempts (MemEntry.attempts e + 1) e).
      specialize (IH (<[k := e1]> s) e1). destruct (mem_guesses _ _ _ _ _). simpl in *.
      rewrite IH; try done; try lia.
      * rewrite bool_decide_false by lia. do 2 f_equal. lia.
      * unfold mem_entry. fold k. by rewrite lookup_insert_eq.
Qed.

(** C6: once a code is committed to the in-memory store, a sequence of guesses made
    before it expires is answered as the box says: each guess is compared with the
    code only while fewer than the allowed number have failed, so the code is
    accepted at most once, only by one of the first guesses, and never again after
    the limit is reached. *)
Theorem mem_guesses_bounded salt email purpose code ttl cooldown maxA t gs s s1 :
  MemCodes.CommitSend salt email purpose code ttl cooldown t s = (Ok tt, s1) →
  Forall (λ g, g.2 ≤ t + ttl) gs →
  ∃ h, GenerateFromPassword salt code = Ok h ∧
  let matching := (λ g : string * time, CompareHashAndPassword h (TrimSpace g.1)) <$> gs in
  let rs := (mem_guesses email purpose maxA gs s1).1 in
  rs = guess_outcomes (allowed maxA) matching ∧
  (∀ i, rs !! i = Some (Ok tt) → (i < allowed maxA)%nat ∧ matching !! i = Some true) ∧
  (∀ i j, rs !! i = Some (Ok tt) → rs !! j = Some (Ok tt) → i = j).
Proof.
  intros Hc Hgs. unfold MemCodes.CommitSend in Hc.
  destruct (GenerateFromPassword salt code) as [h| |] eqn:Hg; [|done..].
  exists h. split; [done|]. intros matching rs.
  assert (rs = guess_outcomes (allowed maxA) matching) as Hrs.
  { destruct (bcrypt_ok _ _ _ Hg) as [Hh _].
    unfold mbind, SM_bind, of_result, commitSendMem in Hc. simplify_eq/=.
    unfold rs. erewrite mem_guesses_box; [|unfold mem_entry; by rewrite lookup_insert_eq|..].
    - cbn [MemEntry.attempts MemEntry.hash]. unfold allowed, matching. do 2 f_equal. lia.
    - done.
    - eapply list.Forall_impl; [exact Hgs|]. intros g Hle. cbn. unfold After, time_Add. by apply Z.ltb_ge.
    - cbn. lia.
    - cbn. lia. }
  split; [done|]. rewrite Hrs. split.
  - intros i Hi. destruct (guess_outcomes_bound _ _ _ Hi) as (? & ? & _). done.
  - apply guess_outcomes_once.
Qed.
End mem.

(** ** The daily limit and the cooldown of the in-memory backend *)

(** What the handlers do with the store; each at its time, on its mailbox. *)
Inductive op : Type :=
  | Precheck (email purpose : string) (cooldown dailyLimit : Z)
  | Rollback (email purpose : string)
  | Commit (salt email purpose code : string) (ttl cooldown : Z)
  | Guess (email purpose guess : string) (maxAttempts : Z).

Section sending.
Context `{!UnicodeTables, !Bcrypt}.
Import MemCodes.
Abbreviation entries := (gmap string MemEntry.t).

Definition mailbox (o : op) : string :=
  match o with
  | Precheck e p _ _ | Rollback e p | Commit _ e p _ _ _ | Guess e p _ _ => mem_key p (normalize e)
  end.

Definition perform (o : op) (now : time) : SM entries unit :=
  match o with
  | Precheck e p cooldown limit => PrecheckSend e p cooldown limit now
  | Rollback e p => RollbackPrecheck e p now
  | Commit salt e p code ttl cooldown => CommitSend salt e p code ttl cooldown now
  | Guess e p g maxA => Verify e p g maxA now
  end.

Fixpoint history (ops : list (op * time)) (s : entries) : list (op * time * result unit) * entries :=
  match ops with
  | [] => ([], s)
  | (o, now) :: ops =>
      let '(r, s1) := perform o now s in
      let '(h, s2) := history ops s1 in ((o, now, r) :: h, s2)
  end.

(** Slots of day [day] that mailbox [k] has used. *)
Definition used (day k : string) (s : entries) : Z :=
  match s !! k with
  | Some e => if bool_decide (MemEntry.dailyDay e = day) then MemEntry.dailyCount e else 0
  | None => 0
  end.
Definition cool (k : string) (s : entries) : time :=
  match s !! k with Some e => MemEntry.coolUntil e | None => zero_time end.

Definition granted (k : string) (x : op * time * result unit) : bool :=
  match x with
  | (Precheck _ _ _ _ as o, _, Ok _) => bool_decide (mailbox o = k)
  | _ => false
  end.
Definition rolled_back (k : string) (x : op * time * result unit) : bool :=
  match x with
  | (Rollback _ _ as o, _, _) => bool_decide (mailbox o = k)
  | _ => false
  end.
Definition count (f : op * time * result unit → bool) (h : list (op * time * result unit)) : Z :=
  Z.of_nat (length (filter (λ x, f x = true) h)).

Lemma count_cons f x h : count f (x :: h) = (if f x then 1 else 0) + count f h.
Proof.
  unfold count. rewrite filter_cons. destruct (f x) eqn:E.
  - rewrite decide_True by done. cbn [length]. lia.
  - rewrite decide_False by congruence. lia.
Qed.

(** Every count stored is a number of slots. *)
Definition counts_ok (s : entries) : Prop := map_Forall (λ _ e, 0 ≤ MemEntry.dailyCount e) s.

Lemma used_insert day k k' e s :
  used day k (<[k' := e]> s) =
  if bool_decide (k' = k)
  then if bool_decide (MemEntry.dailyDay e = day) then MemEntry.dailyCount e else 0
  else used day k s.
Proof.
  unfold used. case_bool_decide as Hk; [subst; by rewrite lookup_insert_eq|by rewrite lookup_insert_ne].
Qed.

Lemma used_nonneg day k s : counts_ok s → 0 ≤ used day k s.
Proof.
  intros Hs. unfold used. destruct (s !! k) as [e|] eqn:E; [|done].
  case_bool_decide; [exact (Hs k e E)|done].
Qed.
Lemma counts_ok_insert k e s : counts_ok s → 0 ≤ MemEntry.dailyCount e → counts_ok (<[k := e]> s).
Proof. intros. by apply map_Forall_insert_2. Qed.
Lemma counts_ok_default k s : counts_ok s → 0 ≤ MemEntry.dailyCount (default MemEntry.zero (s !! k)).
Proof. intros Hs. destruct (s !! k) as [e|] eqn:E; [exact (Hs k e E)|done]. Qed.

Lemma used_default day k s :
  day ≠ "" →
  (let e := default MemEntry.zero (s !! k) in
   if bool_decide (MemEntry.dailyDay e = day) then MemEntry.dailyCount e else 0) = used day k s.
Proof.
  intros Hd. unfold used. destruct (s !! k); [done|]. simpl. by rewrite bool_decide_false.
Qed.

Lemma utcDay_nonempty t : utcDay t ≠ "".
Proof.
  unfold utcDay, format_date. destruct (civil_of_days _) as [[y m] d]. done.
Qed.

(** A slot granted is a slot used, within the limit; one refused leaves the number. *)
Lemma precheck_used k email cooldown limit now s :
  counts_ok s →
  wp (precheckSendMem email k cooldown limit now) (λ r s1,
    counts_ok s1 ∧ (∀ k', k' ≠ mem_key k email → used (utcDay now) k' s1 = used (utcDay now) k' s) ∧
    (∀ k', cool k' s1 = cool k' s) ∧
    used (utcDay now) (mem_key k email) s1 =
      used (utcDay now) (mem_key k email) s + (if bool_decide (r = Ok tt) then 1 else 0) ∧
    r = (if Before now (cool (mem_key k email) s)
         then Err (CooldownError (time_Sub (cool (mem_key k email) s) now))
         else if limit <=? used (utcDay now) (mem_key k email) s then Err ErrDailyLimit else Ok tt)) s.
Proof.
  intros Hs. unfold precheckSendMem, wp. set (K := mem_key k email).
  pose proof (utcDay_nonempty now) as Hday. set (day := utcDay now) in *. clearbody day.
  pose proof (counts_ok_default K s Hs) as He.
  pose proof (used_default day K s Hday) as Hu. cbv zeta in Hu.
  assert (MemEntry.coolUntil (default MemEntry.zero (s !! K)) = cool K s) as Hcool
    by (unfold cool; by destruct (s !! K)).
  assert (∀ e k', MemEntry.coolUntil e = cool K s → cool k' (<[K := e]> s) = cool k' s) as Hkeep.
  { intros e k' Hce. unfold cool at 1. destruct (decide (K = k')) as [<-|].
    - by rewrite lookup_insert_eq.
    - by rewrite lookup_insert_ne. }
  set (e := default MemEntry.zero (s !! K)) in *.
  rewrite Hcool. destruct (Before now (cool K s)).
  { cbn [fst snd]. split_and!; [by apply counts_ok_insert| | | |done].
    - intros k' Hk'. rewrite used_insert. by rewrite bool_decide_false.
    - intros k'. by apply Hkeep.
    - rewrite used_insert, bool_decide_true, Hu by done. rewrite bool_decide_false by done. lia. }
  set (e1 := if bool_decide (MemEntry.dailyDay e ≠ day) then MemEntry.set_daily day 0 e else e).
  assert (MemEntry.dailyDay e1 = day ∧ MemEntry.dailyCount e1 = used day K s ∧
          MemEntry.coolUntil e1 = cool K s) as (H1 & H2 & H3).
  { subst e1. rewrite <- Hu. destruct (decide (MemEntry.dailyDay e = day)) as [Hd|Hd].
    - rewrite bool_decide_false by auto. by rewrite Hd, bool_decide_true.
    - rewrite bool_decide_true, bool_decide_false by done. done. }
  rewrite !insert_insert_eq. rewrite H2. pose proof (used_nonneg day K s Hs).
  destruct (Z.leb_spec limit (used day K s)); cbn [fst snd].
  - split_and!; [apply counts_ok_insert; [done|lia]| | | |done].
    + intros k' Hk'. rewrite used_insert. by rewrite bool_decide_false.
    + intros k'. by apply Hkeep.
    + rewrite used_insert, bool_decide_true, H1, bool_decide_true, H2 by done.
      rewrite bool_decide_false by done. lia.
  - split_and!; [apply counts_ok_insert; [done|cbn; lia]| | | |done].
    + intros k' Hk'. rewrite used_insert. by rewrite bool_decide_false.
    + intros k'. by apply Hkeep.
    + rewrite used_insert, bool_decide_true by done. cbn. rewrite H1, !bool_decide_true by done. done.
Qed.

(** The other operations: a rollback gives back one slot at most, a commit only
    moves the cooldown of its mailbox, a guess neither. *)
Lemma rewrite_entry_used day k k' e e' s :
  s !! k = Some e → MemEntry.dailyDay e' = MemEntry.dailyDay e →
  MemEntry.dailyCount e' = MemEntry.dailyCount e → used day k' (<[k := e']> s) = used day k' s.
Proof.
  intros Hk Hd Hc. rewrite used_insert. case_bool_decide as E; [|done]. subst k'.
  unfold used. by rewrite Hk, Hd, Hc.
Qed.
Lemma rewrite_entry_cool k k' e e' s :
  s !! k = Some e → MemEntry.coolUntil e' = MemEntry.coolUntil e →
  cool k' (<[k := e']> s) = cool k' s.
Proof.
  intros Hk Hc. unfold cool. destruct (decide (k = k')) as [->|].
  - by rewrite lookup_insert_eq, Hk.
  - by rewrite lookup_insert_ne.
Qed.

Lemma verify_used day email purpose g maxA now s :
  counts_ok s →
  wp (verifyMem email purpose g maxA now) (λ _ s1,
    counts_ok s1 ∧ ∀ k, used day k s1 = used day k s ∧ cool k s1 = cool k s) s.
Proof.
  intros Hs. unfold verifyMem, wp. destruct (s !! mem_key purpose email) as [e|] eqn:Hk; [|done].
  assert (∀ e', MemEntry.dailyDay e' = MemEntry.dailyDay e →
    MemEntry.dailyCount e' = MemEntry.dailyCount e → MemEntry.coolUntil e' = MemEntry.coolUntil e →
    counts_ok (<[mem_key purpose email := e']> s) ∧
    ∀ k, used day k (<[mem_key purpose email := e']> s) = used day k s ∧
         cool k (<[mem_key purpose email := e']> s) = cool k s) as Hsame.
  { intros e' H1 H2 H3. split; [apply counts_ok_insert; [done|rewrite H2; exact (Hs _ e Hk)]|].
    intros k. split; [by eapply rewrite_entry_used|by eapply rewrite_entry_cool]. }
  repeat case_match; cbn [fst snd]; try done; by apply Hsame.
Qed.

Lemma commit_used day email purpose h ttl cooldown now s :
  counts_ok s → day ≠ "" →
  wp (commitSendMem email purpose h ttl cooldown now) (λ r s1,
    counts_ok s1 ∧ (∀ k, used day k s1 = used day k s) ∧
    (∀ k, k ≠ mem_key purpose email → cool k s1 = cool k s) ∧
    cool (mem_key purpose email) s1 = time_Add now cooldown) s.
Proof.
  intros Hs Hd. unfold commitSendMem, wp. cbn [fst snd]. split_and!.
  - apply counts_ok_insert; [done|]. by apply counts_ok_default.
  - intros k. rewrite used_insert. case_bool_decide as E; [|done]. subst k.
    by rewrite <- (used_default day (mem_key purpose email) s).
  - intros k Hk. unfold cool. by rewrite lookup_insert_ne.
  - unfold cool. by rewrite lookup_insert_eq.
Qed.

Lemma rollback_used day email purpose s :
  counts_ok s →
  wp (rollbackMem email purpose) (λ _ s1,
    counts_ok s1 ∧ (∀ k, k ≠ mem_key purpose email → used day k s1 = used day k s) ∧
    used day (mem_key purpose email) s - 1 ≤ used day (mem_key purpose email) s1 ∧
    (∀ k, cool k s1 = cool k s)) s.
Proof.
  intros Hs. unfold rollbackMem, wp. destruct (s !! mem_key purpose email) as [e|] eqn:Hk;
    cbn [fst snd]; [|split_and!; done || lia].
  destruct (Z.ltb_spec 0 (MemEntry.dailyCount e)); [|split_and!; done || lia].
  split_and!.
  - apply counts_ok_insert; [done|cbn; lia].
  - intros k Hne. rewrite used_insert. by rewrite bool_decide_false.
  - rewrite used_insert, bool_decide_true by done. unfold used. rewrite Hk. cbn.
    case_bool_decide; lia.
  - intros k. by eapply rewrite_entry_cool.
Qed.

(** One operation, on mailbox [k] during day [day]. *)
Lemma perform_used o now s k :
  counts_ok s →
  wp (perform o now) (λ r s1, counts_ok s1 ∧
    used (utcDay now) k s + (if granted k (o, now, r) then 1 else 0) -
      (if rolled_back k (o, now, r) then 1 else 0) ≤ used (utcDay now) k s1 ∧
    (granted k (o, now, r) = true → ∃ e p c limit, o = Precheck e p c limit ∧
       used (utcDay now) k s < limit ∧ Before now (cool k s) = false)) s.
Proof.
  intros Hs. pose proof (utcDay_nonempty now) as Hday.
  destruct o as [e p c limit|e p|salt e p code ttl c|e p g maxA];
    cbn [perform granted rolled_back mailbox].
  - unfold PrecheckSend. destruct (_ || _); [apply wp_throw; split_and!; done || lia|].
    eapply wp_mono; [by apply precheck_used|].
    intros r s1 (Hs1 & Hother & _ & Hsame & Hr). split; [done|].
    destruct (decide (k = mem_key p (normalize e))) as [->|Hne].
    + split.
      * rewrite Hsame. destruct r as [[]| |]; rewrite ?bool_decide_true by done; try lia.
        all: rewrite bool_decide_false by done; lia.
      * destruct r as [[]| |]; [|done..]. intros _. exists e, p, c, limit. split; [done|].
        destruct (Before now _); [done|]. destruct (Z.leb_spec limit
          (used (utcDay now) (mem_key p (normalize e)) s)); done.
    + rewrite Hother by done. destruct r as [[]| |]; rewrite ?bool_decide_false by auto;
        split; done || lia.
  - unfold RollbackPrecheck. eapply wp_mono; [by apply (rollback_used (utcDay now))|].
    intros r s1 (Hs1 & Hother & Hsame & _). split_and!; [done| |done].
    case_bool_decide as E; [rewrite E in *; lia|]. rewrite Hother by auto. lia.
  - unfold CommitSend. apply wp_bind. unfold wp at 1, of_result. cbn [fst snd].
    destruct (GenerateFromPassword salt code); [|split_and!; done || lia..].
    eapply wp_mono; [by apply (commit_used (utcDay now))|].
    intros r s1 (Hs1 & Hall & _). split_and!; [done| |done]. rewrite Hall. lia.
  - unfold Verify. eapply wp_mono; [by apply (verify_used (utcDay now))|].
    intros r s1 (Hs1 & Hall). split_and!; [done| |done]. destruct (Hall k) as [-> _]. lia.
Qed.

(** C33: in the in-memory store a mailbox is granted no more sends in one UTC day than
    the daily limit leaves over what it had used when the day's history begins, plus
    one for each reservation rolled back, whatever else is done on this and other
    mailboxes in between. *)
Theorem daily_limit_holds k day limit ops s :
  counts_ok s →
  Forall (λ o, utcDay o.2 = day) ops →
  (∀ e p c l t, (Precheck e p c l, t) ∈ ops → mem_key p (normalize e) = k → l = limit) →
  let h := (history ops s).1 in
  count (granted k) h ≤ Z.max 0 (limit - used day k s) + count (rolled_back k) h.
Proof.
  revert s. induction ops as [|[o now] ops IH]; intros s Hs Hday Hl; [unfold count; simpl; lia|].
  apply list.Forall_cons in Hday as [Hnow Hday]. simpl in Hnow.
  pose proof (perform_used o now s k Hs) as Hp. unfold wp in Hp. cbn [history].
  destruct (perform o now s) as [r s1]. cbn [fst snd] in Hp. rewrite Hnow in Hp.
  destruct Hp as (Hs1 & Hstep & Hgrant).
  assert (∀ e p c l t, (Precheck e p c l, t) ∈ ops → mem_key p (normalize e) = k → l = limit) as Hl'
    by (intros e p c l t Hin; apply (Hl e p c l t); by right).
  specialize (IH s1 Hs1 Hday Hl').
  destruct (history ops s1) as [h s2]. cbn [fst] in *. rewrite !count_cons.
  destruct (granted k (o, now, r)) eqn:Hg; [|destruct (rolled_back k (o, now, r)); lia].
  destruct (Hgrant eq_refl) as (e & p & c & l & -> & Hlt & _).
  assert (l = limit) as ->.
  { apply (Hl e p c l now); [by left|]. unfold granted in Hg. destruct r; [|done..].
    by apply bool_decide_eq_true in Hg. }
  cbn [rolled_back] in *. lia.
Qed.

Definition commits (k : string) (o : op) : bool :=
  match o with Commit _ _ _ _ _ _ => bool_decide (mailbox o = k) | _ => false end.

Lemma perform_cool o now s k :
  counts_ok s → commits k o = false →
  wp (perform o now) (λ _ s1, counts_ok s1 ∧ cool k s1 = cool k s) s.
Proof.
  intros Hs Hk. destruct o as [e p c limit|e p|salt e p code ttl c|e p g maxA]; cbn [perform].
  - unfold PrecheckSend. destruct (_ || _); [by apply wp_throw|].
    eapply wp_mono; [by apply precheck_used|]. intros r s1 (? & _ & Hc & _). done.
  - unfold RollbackPrecheck. eapply wp_mono; [by apply (rollback_used (utcDay now))|].
    intros r s1 (? & _ & _ & Hc). done.
  - unfold CommitSend. apply wp_bind. unfold wp at 1, of_result. cbn [fst snd].
    destruct (GenerateFromPassword salt code); [|done..].
    eapply wp_mono; [by apply (commit_used (utcDay now)), utcDay_nonempty|].
    intros r s1 (? & _ & Hc & _). split; [done|]. apply Hc. intros ->.
    unfold commits in Hk. simpl in Hk. by rewrite bool_decide_true in Hk.
  - unfold Verify. eapply wp_mono; [by apply (verify_used (utcDay now))|].
    intros r s1 (? & Hall). split; [done|]. apply Hall.
Qed.

(** C34: after a code is committed in the in-memory store, every attempt to send
    another one to the same mailbox before the cooldown is over is refused with the
    time left, whatever else happens in between, until another code is committed
    there. *)
Theorem cooldown_holds salt email purpose code ttl cooldown t s s1 ops c limit u r :
  counts_ok s →
  CommitSend salt email purpose code ttl cooldown t s = (Ok tt, s1) →
  normalize email ≠ "" → purpose ≠ "" →
  Forall (λ o, commits (mem_key purpose (normalize email)) o.1 = false) ops →
  (Precheck email purpose c limit, u, r) ∈ (history ops s1).1 → u < t + cooldown →
  r = Err (CooldownError (time_Sub (t + cooldown) u)).
Proof.
  intros Hs Hcommit He Hp Hops Hin Hu. set (k := mem_key purpose (normalize email)) in *.
  assert (counts_ok s1 ∧ cool k s1 = t + cooldown) as [Hs1 Hcool].
  { unfold CommitSend, mbind, SM_bind, of_result in Hcommit.
    destruct (GenerateFromPassword salt code) as [h| |]; [|done..].
    pose proof (commit_used (utcDay t) (normalize email) purpose h ttl cooldown t s Hs
      (utcDay_nonempty t)) as Hc. unfold wp in Hc. rewrite Hcommit in Hc.
    destruct Hc as (? & _ & _ & ?). done. }
  clear Hcommit Hs s. revert s1 Hs1 Hcool Hin.
  induction ops as [|[o now] ops IH]; intros s Hs Hcool Hin; [by apply not_elem_of_nil in Hin|].
  apply list.Forall_cons in Hops as [Ho Hops]. simpl in Ho. cbn [history] in Hin.
  pose proof (perform_cool o now s k Hs Ho) as Hstep. unfold wp in Hstep.
  destruct (perform o now s) as [r1 s1] eqn:E. destruct Hstep as [Hs1 Hc1]. cbn [fst snd] in *.
  specialize (IH Hops s1 Hs1). rewrite Hc1 in IH. specialize (IH Hcool).
  destruct (history ops s1) as [h s2]. cbn [fst] in *.
  apply elem_of_cons in Hin as [Heq|Hin]; [|by apply IH]. simplify_eq.
  cbn [perform] in E. unfold PrecheckSend in E. rewrite !bool_decide_false in E by done.
  cbn [orb] in E. pose proof (precheck_used purpose (normalize email) c limit now s Hs) as Hq.
  unfold wp in Hq. rewrite E in Hq. destruct Hq as (_ & _ & _ & _ & Hr). cbn [fst] in Hr.
  fold k in Hr. rewrite Hcool in Hr. unfold Before in Hr.
  by rewrite (proj2 (Z.ltb_lt now (t + cooldown))) in Hr.
Qed.
End sending.

(** ** The Redis backend *)

Section redis.
Context `{!UnicodeTables, !Bcrypt, !BcryptLaws, !RedisServer R, !RedisLaws R}.
Import RedisCodes.

(** The record of a code as a client sees it: the hash [h], good until second [x],
    with [n] wrong guesses so far, kept by the server until [D]. *)
Definition code_at (key h : string) (x n : Z) (D : time) (s : R) : Prop :=
  ∃ m, seen s !! key = Some (VHash m, Some D) ∧ m !! "h" = Some h ∧
    m !! "exp" = Some (FormatInt x) ∧ m !! "n" = Some (FormatInt n).

Lemma wp_hgetall key Q s :
  (∀ s1, clock s ≤ clock s1 → seen s1 = live (clock s1) (seen s) →
    Q (match seen s1 !! key with
       | None => Ok ∅
       | Some (VHash m, _) => Ok m
       | Some _ => as_map wrongtype
       end) s1) →
  wp (redis None (HGETALL key) as_map) Q s.
Proof.
  intros HQ. apply wp_redis. intros r s' Hle Hr Hs. simpl in Hs. specialize (HQ s' Hle Hs).
  rewrite <- Hs in Hr. simpl in Hr. destruct (seen s' !! key) as [[[]]|]; simpl in Hr; by subst r.
Qed.

Lemma wp_del key Q s :
  (∀ s1, clock s ≤ clock s1 → seen s1 !! key = None → Q (Ok tt) s1) →
  wp (ignore (redis None (DEL key) as_unit)) Q s.
Proof.
  intros HQ. apply wp_ignore, wp_redis. intros r s' Hle Hr Hs. simpl in Hr. subst r.
  apply HQ; [done|]. rewrite Hs. simpl. apply lookup_delete_eq.
Qed.

Lemma verify_read_later key plain maxA now m : keeps later (verify_read None key plain maxA now m).
Proof. unfold verify_read. repeat keeps_step; apply redis_later. Qed.

(** Without a record a guess is answered [ErrInvalidCode]. *)
Lemma verify_no_code email purpose plain maxA now s :
  seen s !! keyCode purpose email = None →
  wp (verifyRedis None email purpose plain maxA now)
    (λ r s', clock s ≤ clock s' ∧ r = Err ErrInvalidCode ∧ seen s' !! keyCode purpose email = None) s.
Proof.
  intros Hk. apply wp_bind, wp_hgetall. intros s1 Hle Hs1.
  assert (seen s1 !! keyCode purpose email = None) as Hk1 by (rewrite Hs1; by apply live_none).
  rewrite Hk1. unfold verify_read. by rewrite decide_True.
Qed.

(** What a guess does to a record that outlives it. *)
Lemma verify_code email purpose plain maxA now s h x n D :
  let key := keyCode purpose email in
  code_at key h x n D s → Unix now ≤ x → min_int64 ≤ x ≤ max_int64 → 0 ≤ n < max_int64 →
  wp (verifyRedis None email purpose plain maxA now) (λ r s', clock s ≤ clock s' ∧ (clock s' < D →
    if CompareHashAndPassword h (TrimSpace plain)
    then r = Ok tt ∧ seen s' !! key = None
    else if maxA <=? n + 1 then r = Err ErrMaxAttempts ∧ seen s' !! key = None
    else r = Err ErrInvalidCode ∧ code_at key h x (n + 1) D s')) s.
Proof.
  intros key (m & Hk & Hh & Hx & Hn) Hnow Hxr Hnr. apply wp_bind, wp_hgetall. intros s1 Hle Hs1.
  fold key. destruct (Z.lt_ge_cases (clock s1) D) as [HD|HD].
  2: { destruct (seen s1 !! key) as [[[]]|]; simpl; try (split; [done|lia]).
       all: eapply wp_keeps; [apply verify_read_later|];
         intros r s' Hl; unfold later in Hl; split; [lia|lia]. }
  assert (seen s1 !! key = Some (VHash m, Some D)) as Hk1 by (rewrite Hs1; by apply live_kept).
  rewrite Hk1. unfold verify_read. rewrite decide_False by (intros ->; done).
  rewrite Hx, Hh, Hn. cbn [default from_option id]. unfold ParseInt_or_zero.
  rewrite !ParseInt_FormatInt by (unfold min_int64 in *; lia). cbn [default from_option id].
  rewrite (proj2 (Z.ltb_ge x (Unix now))), wrap64_id by (unfold min_int64 in *; lia).
  destruct (CompareHashAndPassword h (TrimSpace plain)); cbn [negb].
  { apply wp_bind, wp_del. intros s2 ? ?. apply wp_ret. split; [lia|done]. }
  apply wp_bind, wp_ignore, wp_redis. intros r s2 Hle2 _ Hs2.
  assert (clock s2 < D → code_at key h x (n + 1) D s2) as Hcode.
  { intros HD2. pose proof (live_kept (clock s2) _ _ _ _ Hk1 HD2) as Hk2.
    cbn [exec] in Hs2.
    rewrite Hk2 in Hs2. cbn [snd foldl fst] in Hs2.
    exists (<["n" := FormatInt (n + 1)]> m). rewrite Hs2. unfold put_hash.
    rewrite decide_False by apply insert_non_empty. rewrite lookup_insert_eq.
    rewrite !lookup_insert_ne by done. by rewrite lookup_insert_eq. }
  destruct (as_unit r) as [[]|e|hh] eqn:Er; [| |by destruct r].
  all: destruct (maxA <=? n + 1); [|apply wp_throw; split; [lia|auto]].
  all: apply wp_bind, wp_del; intros s3 ? ?; apply wp_throw; split; [lia|done].
Qed.

(** What [CommitSend] leaves: the new code, unless the record it replaces expired
    between two of its commands. *)
Definition committed (key h : string) (x : Z) (end_ : time) (s s' : R) : Prop :=
  (∃ D, code_at key h x 0 D s' ∧ end_ ≤ D) ∨ (seen s' !! key = None ∧ seen s !! key ≠ None).

Definition code_fields (h : string) (x : Z) : list (string * string) :=
  [("h", h); ("exp", FormatInt x); ("n", "0")].
Definition has_code (h : string) (x : Z) (m : gmap string string) : Prop :=
  m !! "h" = Some h ∧ m !! "exp" = Some (FormatInt x) ∧ m !! "n" = Some (FormatInt 0).

Lemma has_code_fields h x m : has_code h x (foldl (λ m f, <[f.1 := f.2]> m) m (code_fields h x)).
Proof.
  unfold has_code. simpl. rewrite !lookup_insert_eq, !lookup_insert_ne by done.
  by rewrite !lookup_insert_eq, lookup_insert_ne, lookup_insert_eq.
Qed.

Lemma has_code_nonempty h x m : has_code h x m → m ≠ ∅.
Proof. intros (Hh & _) ->. by rewrite lookup_empty in Hh. Qed.

(** [HSET] of the fields: a record without a deadline when there was none. *)
Lemma hset_code key h x now L r L' :
  exec now (HSET key (code_fields h x)) L = (r, L') → as_unit r = Ok tt →
  ∃ m e, L' !! key = Some (VHash m, e) ∧ has_code h x m ∧ (L !! key = None → e = None).
Proof.
  unfold exec. destruct (L !! key) as [[[|m| | |] e]|] eqn:Hk; intros E Hr; simplify_eq; try done.
  - pose proof (has_code_fields h x m) as Hc. unfold put_hash.
    rewrite decide_False by eauto using has_code_nonempty. rewrite lookup_insert_eq.
    eexists _, _. split_and!; [done..|congruence].
  - assert (has_code h x (list_to_map (rev (code_fields h x)))) as Hc by done.
    unfold put_hash. rewrite decide_False by eauto using has_code_nonempty.
    rewrite lookup_insert_eq. eexists _, _. by split_and!.
Qed.

Lemma wp_expire_code key h x ttl Q s m e :
  seen s !! key = Some (VHash m, e) → has_code h x m → 0 < ttl →
  (∀ r s', clock s ≤ clock s' →
    (code_at key h x 0 (clock s' + ttl) s' ∨ (seen s' !! key = None ∧ e ≠ None)) → Q r s') →
  wp (redis None (EXPIRE key ttl) as_unit) Q s.
Proof.
  intros Hk (Hh & Hx & Hn) Httl HQ. apply wp_redis. intros r s' Hle _ Hs. apply HQ; [done|].
  cbn [exec] in Hs. destruct (live (clock s') (seen s) !! key) as [[y e']|] eqn:Hl.
  - assert (y = VHash m) as -> by (apply live_lookup in Hl as [Hl _]; congruence).
    rewrite (proj2 (Z.ltb_lt 0 ttl)) in Hs by done. cbn [snd] in Hs.
    left. exists m. rewrite Hs. by rewrite lookup_insert_eq.
  - right. cbn [snd] in Hs. rewrite Hs. split; [done|]. intros ->.
    assert (live (clock s') (seen s) !! key = Some (VHash m, None)); [|congruence].
    by apply live_lookup.
Qed.

Lemma keyCode_keyCooldown p e p' e' : keyCode p e ≠ keyCooldown p' e'.
Proof. unfold keyCode, keyCooldown. intros E. discriminate E. Qed.

Lemma wp_set_other k v ttl Q s key :
  k ≠ key →
  (∀ r s', clock s ≤ clock s' → seen s' !! key = live (clock s') (seen s) !! key → Q r s') →
  wp (redis None (SET k v ttl) as_unit) Q s.
Proof.
  intros Hne HQ. apply wp_redis. intros r s' Hle _ Hs. apply HQ; [done|]. rewrite Hs.
  cbn [exec]. destruct (positive_ttl ttl); cbn [snd]; [by rewrite lookup_insert_ne|done].
Qed.

Lemma commit_code email purpose h ttl cooldown now s :
  let key := keyCode purpose email in
  0 < expire_ttl ttl →
  wp (commitSendRedis None email purpose h ttl cooldown now)
    (λ r s', clock s ≤ clock s' ∧ (r = Ok tt → clock s' < clock s + expire_ttl ttl →
       committed key h (Unix (time_Add now ttl)) (clock s + expire_ttl ttl) s s')) s.
Proof.
  intros key Httl. apply wp_bind, wp_redis. intros r1 s1 Hle1 Hr1 Hs1. fold key in Hr1, Hs1 |- *.
  set (x := Unix (time_Add now ttl)) in *. fold (code_fields h x) in Hr1, Hs1.
  destruct (exec _ _ _) as [r L] eqn:E. cbn [fst snd] in *.
  assert (r = r1) as ->.
  { cbn [agrees] in Hr1. destruct r; try done.
    unfold exec in E. by destruct (live _ _ !! key) as [[[]]|]; simplify_eq. }
  destruct (as_unit r1) as [[]|e0|hh] eqn:Er; [|split; [done|intros [=]]|by destruct r1].
  apply hset_code in E as (m & e & Hm & Hc & He); [|done]. rewrite <- Hs1 in Hm.
  apply wp_bind. eapply wp_expire_code; [done..|]. intros r2 s2 Hle2 Hcode.
  destruct r2 as [[]|e2|hh]; [|split; [lia|intros [=]]..].
  apply (wp_set_other _ _ _ _ _ key); [intros Heq; by apply (keyCode_keyCooldown purpose email purpose email)|].
  intros r3 s3 Hle3 Hs3. split; [lia|]. intros _ Hlate. destruct Hcode as [(m' & Hm' & Hc')|[Hnone Hnn]].
  - left. exists (clock s2 + expire_ttl ttl). split; [|lia]. exists m'. rewrite Hs3.
    split; [|done]. apply live_kept; [done|lia].
  - right. rewrite Hs3. split; [by apply live_none|]. intros Hk. apply Hnn, He. by apply live_none.
Qed.

Fixpoint redis_guesses (email purpose : string) (maxAttempts : Z) (gs : list (string * time))
    (s : R) : list (result unit) * R :=
  match gs with
  | [] => ([], s)
  | (g, now) :: gs =>
      let '(r, s1) := RedisCodes.Verify None email purpose g maxAttempts now s in
      let '(rs, s2) := redis_guesses email purpose maxAttempts gs s1 in (r :: rs, s2)
  end.

Lemma redis_guesses_later email purpose maxA gs s :
  clock s ≤ clock (redis_guesses email purpose maxA gs s).2.
Proof.
  revert s. induction gs as [|[g now] gs IH]; intros s; simpl; [lia|].
  assert (keeps later (Verify None email purpose g maxA now)) as Hv.
  { unfold Verify, verifyRedis. repeat keeps_step; [apply redis_later|apply verify_read_later]. }
  specialize (Hv s). destruct (Verify _ _ _ _ _ _ s) as [r s1]. specialize (IH s1).
  destruct (redis_guesses _ _ _ gs s1). simpl in *. unfold later in Hv. lia.
Qed.

Lemma redis_guesses_none email purpose maxA gs s :
  seen s !! keyCode purpose (normalize email) = None →
  (redis_guesses email purpose maxA gs s).1 = (λ _, Err ErrInvalidCode) <$> gs.
Proof.
  revert s. induction gs as [|[g now] gs IH]; intros s Hk; simpl; [done|].
  pose proof (verify_no_code (normalize email) purpose g maxA now s Hk) as Hv.
  unfold Verify, wp in *. destruct (verifyRedis _ _ _ _ _ _ s) as [r s1].
  destruct Hv as (_ & Hr & Hk1). simpl in Hr, Hk1. subst r. specialize (IH s1 Hk1).
  destruct (redis_guesses _ _ _ gs s1). simpl in *. by rewrite IH.
Qed.

Lemma redis_guesses_box email purpose maxA gs s h x n D :
  code_at (keyCode purpose (normalize email)) h x n D s →
  clock (redis_guesses email purpose maxA gs s).2 < D →
  Forall (λ g, Unix g.2 ≤ x) gs →
  min_int64 ≤ x ≤ max_int64 → 0 ≤ n < Z.max 1 maxA → maxA ≤ max_int64 →
  (redis_guesses email purpose maxA gs s).1 =
  guess_outcomes (Z.to_nat (Z.max 1 maxA - n))
    ((λ g, CompareHashAndPassword h (TrimSpace g.1)) <$> gs).
Proof.
  revert s n. induction gs as [|[g now] gs IH]; intros s n Hc HD Hgs Hx Hn HmaxA; simpl; [done|].
  apply list.Forall_cons in Hgs as [Hnow Hgs]. simpl in Hnow, HD.
  destruct (Z.to_nat (Z.max 1 maxA - n)) as [|tries] eqn:Htries; [lia|].
  assert (0 ≤ n < max_int64) as Hn' by (unfold max_int64 in *; lia).
  pose proof (verify_code (normalize email) purpose g maxA now s h x n D Hc Hnow Hx Hn') as Hv.
  unfold Verify, wp in *. destruct (verifyRedis _ _ _ _ _ _ s) as [r s1].
  destruct Hv as [_ Hv]. cbn [fst snd] in Hv.
  pose proof (redis_guesses_later email purpose maxA gs s1) as Hl.
  pose proof (redis_guesses_none email purpose maxA gs s1) as Hnone.
  specialize (IH s1 (n + 1)).
  destruct (redis_guesses _ _ _ gs s1) as [rs s2]. cbn [fst snd] in *.
  specialize (Hv ltac:(lia)).
  destruct (CompareHashAndPassword h (TrimSpace g)); [|destruct (Z.leb_spec maxA (n + 1))].
  - destruct Hv as [-> Hk]. by rewrite Hnone, guess_outcomes_zero, <- list_fmap_compose.
  - destruct Hv as [-> Hk]. assert (tries = 0%nat) as -> by lia.
    by rewrite Hnone, guess_outcomes_zero, <- list_fmap_compose.
  - destruct Hv as [-> Hc1]. rewrite IH by (done || lia).
    rewrite bool_decide_false by lia. do 2 f_equal. lia.
Qed.

(** C7: the same of the Redis store, as long as its server's clock has not passed the
    lifetime of the code: guesses made one after the other, before the code expires,
    are answered as the box says.  (If the record that the new code replaces expires
    between two commands of the commit, the code is lost and no guess succeeds.) *)
Theorem redis_guesses_bounded salt email purpose code ttl cooldown maxA t gs s s1 :
  RedisCodes.CommitSend None salt email purpose code ttl cooldown t s = (Ok tt, s1) →
  0 < expire_ttl ttl → 0 ≤ Unix (t + ttl) ≤ max_int64 → maxA ≤ max_int64 →
  Forall (λ g, g.2 ≤ t + ttl) gs →
  clock (redis_guesses email purpose maxA gs s1).2 < clock s + expire_ttl ttl →
  ∃ h tries, GenerateFromPassword salt code = Ok h ∧
  let matching := (λ g : string * time, CompareHashAndPassword h (TrimSpace g.1)) <$> gs in
  let rs := (redis_guesses email purpose maxA gs s1).1 in
  rs = guess_outcomes tries matching ∧
  (tries = allowed maxA ∨
    (tries = 0%nat ∧ seen s !! keyCode purpose (normalize email) ≠ None)) ∧
  (∀ i, rs !! i = Some (Ok tt) → (i < allowed maxA)%nat ∧ matching !! i = Some true) ∧
  (∀ i j, rs !! i = Some (Ok tt) → rs !! j = Some (Ok tt) → i = j).
Proof.
  intros Hcommit Httl Hx HmaxA Hgs HD. unfold CommitSend, mbind, SM_bind, of_result in Hcommit.
  destruct (GenerateFromPassword salt code) as [h| |] eqn:Hg; [|done..].
  pose proof (commit_code (normalize email) purpose h ttl cooldown t s Httl) as Hc.
  unfold wp in Hc. rewrite Hcommit in Hc. destruct Hc as [_ Hc]. cbn [fst snd] in Hc.
  pose proof (redis_guesses_later email purpose maxA gs s1) as Hl.
  assert (∃ tries, (redis_guesses email purpose maxA gs s1).1 = guess_outcomes tries
     ((λ g : string * time, CompareHashAndPassword h (TrimSpace g.1)) <$> gs) ∧
     (tries = allowed maxA ∨
      (tries = 0%nat ∧ seen s !! keyCode purpose (normalize email) ≠ None))) as (tries & Hrs & Ht).
  { destruct Hc as [(D & Hcode & HD')|[Hnone Hold]]; [done|lia| |].
    - exists (allowed maxA). split; [|by left].
      rewrite (redis_guesses_box _ _ _ _ _ _ _ _ _ Hcode); [| |
        |unfold min_int64, time_Add; lia|lia|done].
      + unfold allowed. do 2 f_equal. lia.
      + lia.
      + eapply list.Forall_impl; [exact Hgs|]. intros g. by apply Unix_mono.
    - exists 0%nat. split; [|by right].
      rewrite redis_guesses_none, guess_outcomes_zero by done. by rewrite <- list_fmap_compose. }
  exists h, tries. split; [done|]. intros matching rs. split; [done|]. split; [done|].
  subst rs. rewrite Hrs. split; [|apply guess_outcomes_once].
  intros i Hi. destruct (guess_outcomes_bound _ _ _ Hi) as (? & ? & _).
  destruct Ht as [->|[-> _]]; [done|lia].
Qed.

(** Guesses that have all read the record [m] before the first of them writes: what
    remains of each is [verify_read], in some order. *)
Fixpoint racing_guesses (key : string) (maxAttempts : Z) (m : gmap string string)
    (gs : list (string * time)) (s : R) : list (result unit) * R :=
  match gs with
  | [] => ([], s)
  | (g, now) :: gs =>
      let '(r, s1) := verify_read None key g maxAttempts now m s in
      let '(rs, s2) := racing_guesses key maxAttempts m gs s1 in (r :: rs, s2)
  end.

Lemma racing_later key maxA m gs s : clock s ≤ clock (racing_guesses key maxA m gs s).2.
Proof.
  revert s. induction gs as [|[g now] gs IH]; intros s; simpl; [lia|].
  pose proof (verify_read_later key g maxA now m s) as Hv. unfold later in Hv.
  destruct (verify_read _ _ _ _ _ _ s) as [r s1]. specialize (IH s1).
  destruct (racing_guesses _ _ _ gs s1). simpl in *. lia.
Qed.

Lemma verify_read_wrong key plain maxA now s h x n n' D m :
  m !! "h" = Some h → m !! "exp" = Some (FormatInt x) → m !! "n" = Some (FormatInt n) →
  code_at key h x n' D s → Unix now ≤ x → min_int64 ≤ x ≤ max_int64 → 0 ≤ n < max_int64 →
  n + 1 < maxA → CompareHashAndPassword h (TrimSpace plain) = false →
  wp (verify_read None key plain maxA now m) (λ r s', clock s ≤ clock s' ∧ (clock s' < D →
    r = Err ErrInvalidCode ∧ code_at key h x (n + 1) D s')) s.
Proof.
  intros Hh Hx Hn (m' & Hk & Hh' & Hx' & Hn') Hnow Hxr Hnr Hmax Hcmp.
  unfold verify_read. rewrite decide_False by (intros ->; done).
  rewrite Hx, Hh, Hn. cbn [default from_option id]. unfold ParseInt_or_zero.
  rewrite !ParseInt_FormatInt by (unfold min_int64 in *; lia). cbn [default from_option id].
  rewrite (proj2 (Z.ltb_ge x (Unix now))), wrap64_id by (unfold min_int64 in *; lia).
  rewrite Hcmp. cbn [negb]. apply wp_bind, wp_ignore, wp_redis. intros r s2 Hle2 _ Hs2.
  assert (clock s2 < D → code_at key h x (n + 1) D s2) as Hcode.
  { intros HD2. pose proof (live_kept (clock s2) _ _ _ _ Hk HD2) as Hk2.
    cbn [exec] in Hs2. rewrite Hk2 in Hs2. cbn [snd foldl fst] in Hs2.
    exists (<["n" := FormatInt (n + 1)]> m'). rewrite Hs2. unfold put_hash.
    rewrite decide_False by apply insert_non_empty. rewrite lookup_insert_eq.
    rewrite !lookup_insert_ne by done. by rewrite lookup_insert_eq. }
  rewrite (proj2 (Z.leb_gt maxA (n + 1))) by done.
  destruct (as_unit r) as [[]|e|hh] eqn:Er; [| |by destruct r]; apply wp_throw; split; auto.
Qed.

(** C38: the attempt limit of the Redis store is not a limit on concurrent guesses:
    any number of wrong guesses that read the record before the first of them
    writes it are all answered [ErrInvalidCode] and count as one attempt, and the
    code can still be used afterwards. *)
Theorem concurrent_guesses_count_once key h x n D m maxA gs s :
  seen s !! key = Some (VHash m, Some D) → m !! "h" = Some h →
  m !! "exp" = Some (FormatInt x) → m !! "n" = Some (FormatInt n) →
  min_int64 ≤ x ≤ max_int64 → 0 ≤ n < max_int64 → n + 1 < maxA → gs ≠ [] →
  Forall (λ g, Unix g.2 ≤ x ∧ CompareHashAndPassword h (TrimSpace g.1) = false) gs →
  let '(rs, s') := racing_guesses key maxA m gs s in
  clock s' < D →
  rs = replicate (length gs) (Err ErrInvalidCode) ∧ code_at key h x (n + 1) D s'.
Proof.
  intros Hk Hh Hx Hn Hxr Hnr Hmax Hne Hgs.
  assert (∀ gs s n', code_at key h x n' D s →
    Forall (λ g, Unix g.2 ≤ x ∧ CompareHashAndPassword h (TrimSpace g.1) = false) gs →
    clock s ≤ clock (racing_guesses key maxA m gs s).2 ∧
    (clock (racing_guesses key maxA m gs s).2 < D →
     (racing_guesses key maxA m gs s).1 = replicate (length gs) (Err ErrInvalidCode) ∧
     code_at key h x (if bool_decide (gs = []) then n' else n + 1) D
       (racing_guesses key maxA m gs s).2)) as Hall.
  { clear gs s Hk Hne Hgs. intros gs. induction gs as [|[g now] gs IH]; intros s n' Hc Hgs; simpl; [done|].
    apply list.Forall_cons in Hgs as [[Hnow Hcmp] Hgs]. simpl in Hnow, Hcmp.
    pose proof (verify_read_wrong key g maxA now s h x n n' D m Hh Hx Hn Hc Hnow Hxr Hnr Hmax Hcmp) as Hv.
    unfold wp in Hv. destruct (verify_read _ _ _ _ _ _ s) as [r s1]. destruct Hv as [Hle Hv].
    cbn [fst snd] in *. destruct (Z.lt_ge_cases (clock s1) D) as [HD|HD].
    - destruct (Hv HD) as [-> Hc1]. destruct (IH s1 (n + 1) Hc1 Hgs) as [Hle2 IH2].
      destruct (racing_guesses _ _ _ gs s1) as [rs s2]. cbn [fst snd] in *. split; [lia|].
      intros HD2. destruct (IH2 HD2) as [-> Hc2]. split; [done|]. by case_bool_decide.
    - pose proof (racing_later key maxA m gs s1) as Hl.
      destruct (racing_guesses _ _ _ gs s1) as [rs s2]. cbn [fst snd] in *. split; [lia|lia]. }
  destruct (Hall gs s n) as [_ Hfinal]; [by exists m|done|].
  destruct (racing_guesses _ _ _ gs s) as [rs s']. cbn [fst snd] in Hfinal. intros HD.
  destruct (Hfinal HD) as [? Hc]. by rewrite bool_decide_false in Hc.
Qed.

(** A reservation rolled back after midnight UTC is not given back: its own day
    keeps it, and the counter of the new day starts at -1, without an expiry. *)
Theorem rollback_after_midnight email purpose now s :
  let today := keyDaily purpose (normalize email) (utcDay now) in
  seen s !! today = None →
  wp (RollbackPrecheck None email purpose now) (λ r s', r = Ok tt ∧
    seen s' !! today = Some (VStr "-1", None) ∧
    ∀ k, k ≠ today → seen s' !! k = live (clock s') (seen s) !! k) s.
Proof.
  intros today Hk. unfold RollbackPrecheck. cbv zeta. fold today. apply wp_redis.
  intros r s' Hle Hr Hs. cbn [exec] in Hr, Hs.
  rewrite (live_none (clock s') _ _ Hk) in Hr, Hs. cbn [fst snd agrees] in Hr, Hs. subst r.
  split; [done|]. rewrite Hs. split; [by rewrite lookup_insert_eq|].
  intros k Hne. by rewrite lookup_insert_ne.
Qed.
End redis.

(** ** Generated codes *)

Section codes.
Context `{!RandBytes}.

Definition is_digit_char (a : Ascii.ascii) : Prop := ∃ d, 0 ≤ d < 10 ∧ a = digit_char d.

Lemma random_digits_shape i n code :
  random_digits i n = Ok code →
  String.length code = n ∧ Forall is_digit_char (to_bytes code).
Proof.
  revert i code. induction n as [|n IH]; intros i code; simpl; [intros [= <-]; by repeat constructor|].
  destruct (rand_byte i) as [b| |]; [|done..].
  destruct (random_digits (S i) n) as [c| |] eqn:E; [|done..]. intros [= <-].
  destruct (IH (S i) c E) as [Hl Hd]. simpl. split; [by rewrite Hl|]. constructor; [|done].
  exists (b mod 10). split; [by apply Z.mod_pos_bound|done].
Qed.

Lemma random_digits_total i n :
  (∀ j, ∃ b, rand_byte j = Ok b) → ∃ code, random_digits i n = Ok code.
Proof.
  intros Hr. revert i. induction n as [|n IH]; intros i; simpl; [by eexists|].
  destruct (Hr i) as [b ->]. destruct (IH (S i)) as [c ->]. by eexists.
Qed.

(** A generated code has exactly the length asked for, which is 1 to 12, and is
    made of decimal digits, so bcrypt accepts it; with a working random source every
    length of 1 to 12 gives a code and every other one is refused; a code set for
    tests is used only when it has the length asked for. *)
Theorem GenerateNumericCode_correct deterministic n :
  (∀ code, GenerateNumericCode deterministic n = Ok code →
     len code = n ∧
     (deterministic = "" → 1 ≤ n ≤ 12 ∧ len code ≤ 72 ∧ Forall is_digit_char (to_bytes code)) ∧
     (deterministic ≠ "" → code = deterministic)) ∧
  (deterministic = "" → n < 1 ∨ 12 < n → ∃ e, GenerateNumericCode deterministic n = Err e) ∧
  (deterministic = "" → 1 ≤ n ≤ 12 → (∀ j, ∃ b, rand_byte j = Ok b) →
     ∃ code, GenerateNumericCode deterministic n = Ok code).
Proof.
  unfold GenerateNumericCode. split_and!.
  - intros code. case_bool_decide as Hd; cbn [negb].
    + destruct (Z.leb_spec n 0); [done|]. destruct (Z.ltb_spec 12 n); [done|]. cbn [orb].
      intros E%random_digits_shape. destruct E as [Hl Hds]. unfold len. split_and!; [lia| |done].
      intros _. split_and!; [lia..|done].
    + destruct (Z.eqb_spec (len deterministic) n); [|done]. cbn [negb]. intros [= <-]. by split_and!.
  - intros -> Hn. rewrite bool_decide_true by done. cbn [negb].
    destruct (Z.leb_spec n 0); [by eexists|]. destruct (Z.ltb_spec 12 n); [by eexists|lia].
  - intros -> Hn Hr. rewrite bool_decide_true by done. cbn [negb].
    destruct (Z.leb_spec n 0); [lia|]. destruct (Z.ltb_spec 12 n); [lia|]. cbn [orb].
    by apply random_digits_total.
Qed.
End codes.

(** ** Witnesses *)

Import Toy.
Definition t0 : time := 1700000000 * Second.

Definition mem_after : gmap string MemEntry.t :=
  (MemCodes.CommitSend "" "a@x.io" "register" "123456" (600 * Second) (60 * Second) t0 ∅).2.
Definition redis_after : Keyspace.t :=
  (RedisCodes.CommitSend None "" "a@x.io" "register" "123456" (600 * Second) (60 * Second) t0
    (Keyspace.mk 0 ∅)).2.

Lemma mem_guesses_bounded_witness :
  let gs := [("000000", t0 + Second); (" 123456", t0 + 2 * Second); ("123456", t0 + 3 * Second)] in
  (∃ h, (mem_guesses "a@x.io" "register" 5 gs mem_after).1 =
    guess_outcomes (allowed 5) ((λ g, CompareHashAndPassword h (TrimSpace g.1)) <$> gs)) ∧
  (mem_guesses "a@x.io" "register" 5 gs mem_after).1 = [Err ErrInvalidCode; Ok tt; Err ErrInvalidCode].
Proof.
  intros gs. split; [|vm_compute; reflexivity].
  destruct (mem_guesses_bounded "" "a@x.io" "register" "123456" (600 * Second) (60 * Second) 5 t0
    gs ∅ mem_after) as (h & _ & Hrs & _).
  { vm_compute. reflexivity. }
  { repeat constructor; by vm_compute. }
  exists h. exact Hrs.
Defined.

Lemma redis_guesses_bounded_witness :
  let gs := [("000000", t0); ("111111", t0); ("123456", t0)] in
  (∃ h tries, (redis_guesses "a@x.io" "register" 2 gs redis_after).1 =
    guess_outcomes tries ((λ g, CompareHashAndPassword h (TrimSpace g.1)) <$> gs)) ∧
  (redis_guesses "a@x.io" "register" 2 gs redis_after).1 =
      [Err ErrInvalidCode; Err ErrMaxAttempts; Err ErrInvalidCode].
Proof.
  intros gs. split; [|vm_compute; reflexivity].
  destruct (redis_guesses_bounded "" "a@x.io" "register" "123456" (600 * Second) (60 * Second) 2 t0
    gs (Keyspace.mk 0 ∅) redis_after) as (h & tries & _ & Hrs & _).
  - vm_compute. reflexivity.
  - by vm_compute.
  - by vm_compute.
  - by vm_compute.
  - repeat constructor; by vm_compute.
  - by vm_compute.
  - exists h, tries. exact Hrs.
Defined.

Lemma daily_limit_holds_witness :
  let ops := [(Precheck "a@x.io" "register" 60 1, t0); (Precheck "a@x.io" "register" 60 1, t0);
              (Rollback "a@x.io" "register", t0); (Precheck "a@x.io" "register" 60 1, t0)] in
  let h := (history ops ∅).1 in
  count (granted "register|a@x.io") h ≤
    Z.max 0 (1 - used (utcDay t0) "register|a@x.io" ∅) + count (rolled_back "register|a@x.io") h ∧
  count (granted "register|a@x.io") h = 2.
Proof.
  intros ops h. split; [|vm_compute; reflexivity].
  refine (daily_limit_holds "register|a@x.io" (utcDay t0) 1 ops ∅ _ _ _).
  - apply map_Forall_empty.
  - repeat constructor.
  - intros e p c l t Hin _. repeat (apply elem_of_cons in Hin as [Hin|Hin]; [congruence|]).
    by apply not_elem_of_nil in Hin.
Defined.

Lemma cooldown_holds_witness :
  let h := (history [(Guess "a@x.io" "register" "123456" 5, t0 + Second);
                     (Precheck "a@x.io" "register" (60 * Second) 5, t0 + 59 * Second)] mem_after).1 in
  ∃ r, (Precheck "a@x.io" "register" (60 * Second) 5, t0 + 59 * Second, r) ∈ h ∧
  r = Err (CooldownError Second).
Proof.
  intros h.
  assert (∃ r, (Precheck "a@x.io" "register" (60 * Second) 5, t0 + 59 * Second, r) ∈ h) as [r Hin].
  { eexists. apply elem_of_cons. right. apply elem_of_cons. by left. }
  exists r. split; [exact Hin|].
  refine (cooldown_holds "" "a@x.io" "register" "123456" (600 * Second) (60 * Second) t0 ∅ mem_after
    _ _ _ _ r _ _ _ _ _ Hin _).
  - apply map_Forall_empty.
  - vm_compute. reflexivity.
  - by vm_compute.
  - done.
  - repeat constructor.
  - by vm_compute.
Defined.

Definition record_read : gmap string string := list_to_map (code_fields "$123456" 1000).
Definition record_stored : Keyspace.t :=
  Keyspace.mk 0 {["k" := (VHash record_read, Some (600 * Second))]}.

Lemma concurrent_guesses_count_once_witness :
  let gs := [("000000", 0); ("111111", 0); ("222222", 0)] in
  (let '(rs, s') := racing_guesses "k" 2 record_read gs record_stored in
   clock s' < 600 * Second →
   rs = replicate (length gs) (Err ErrInvalidCode) ∧ code_at "k" "$123456" 1000 (0 + 1) (600 * Second) s') ∧
  clock (racing_guesses "k" 2 record_read gs record_stored).2 < 600 * Second.
Proof.
  intros gs. split; [|vm_compute; reflexivity].
  refine (concurrent_guesses_count_once "k" "$123456" 1000 0 (600 * Second) record_read 2
    gs record_stored _ _ _ _ _ _ _ _ _).
  - vm_compute. reflexivity.
  - vm_compute. reflexivity.
  - vm_compute. reflexivity.
  - vm_compute. reflexivity.
  - split; by vm_compute.
  - split; by vm_compute.
  - done.
  - done.
  - repeat constructor; by vm_compute.
Defined.

Lemma rollback_after_midnight_witness :
  let today := keyDaily "register" (normalize "a@x.io") (utcDay t0) in
  seen (Keyspace.mk 0 ∅) !! today = None ∧
  seen (RedisCodes.RollbackPrecheck None "a@x.io" "register" t0 (Keyspace.mk 0 ∅)).2 !! today =
    Some (VStr "-1", None).
Proof.
  intros today. split; [reflexivity|].
  exact (proj1 (proj2 (rollback_after_midnight "a@x.io" "register" t0 (Keyspace.mk 0 ∅) eq_refl))).
Defined.
