(* ===== verification/Email.v ===== *)
(** * E-mail

    [internal/email]: the sender of verification codes over the Resend client, a
    third-party library taken as a class, and the message it writes. *)

From S2P Require Import Prelude GoStrings GoNum GoParse Interfaces Config.

Definition PurposeRegister : string := "register".
Definition PurposeResetPassword : string := "reset_password".

(** [email.ErrDisabled] *)
Definition ErrDisabled : error := ErrNew "email: resend is not configured".

Module SendEmailRequest.
(** [resend.SendEmailRequest], the fields that are set. *)
Record t := mk { From : string; To : list string; Subject : string; Html : string; Text : string }.
End SendEmailRequest.

Class ResendClient (T : Type) := {
  NewClient : string → T;
  SendWithContext : ctx → SendEmailRequest.t → SM T string;
}.

(** [email.SenderAPI] *)
Class SenderAPI (S : Type) := {
  Enabled : S → bool;
  SendVerificationCode : ctx → string → string → string → SM S string;
}.

(** ** The message *)

(** A double quote, and an attribute of a tag. *)
Definition dq : string := of_bytes [Ascii.ascii_of_N 34].
Definition attr (name value : string) : string := name +:+ "=" +:+ dq +:+ value +:+ dq.
Definition nl : string := of_bytes [Ascii.ascii_of_N 10].
Fixpoint lines (l : list string) : string :=
  match l with [] => "" | [s] => s | s :: l => s +:+ nl +:+ lines l end.

Definition purpose_label (purpose : string) : string :=
  if bool_decide (purpose = PurposeRegister) then "注册"
  else if bool_decide (purpose = PurposeResetPassword) then "重置密码"
  else "验证".

Definition buildVerificationEmail (purpose code : string) (ttl : Z) : string * string * string :=
  let label := purpose_label purpose in
  let ttlMin := Z.quot (Round ttl Minute) Minute in
  let ttlMin := if ttlMin <=? 0 then 10 else ttlMin in
  let ttlStr := FormatInt ttlMin +:+ " 分钟" in
  let subject := "WatchTogether " +:+ label +:+ "验证码" in
  let html := lines [
    "<!DOCTYPE html>";
    "<html><head><meta " +:+ attr "charset" "utf-8" +:+ "><meta " +:+ attr "name" "viewport"
      +:+ " " +:+ attr "content" "width=device-width,initial-scale=1" +:+ "></head>";
    "<body " +:+ attr "style" "font-family:system-ui,-apple-system,sans-serif;line-height:1.5;color:#111827;background:#f9fafb;padding:24px;" +:+ ">";
    "<div " +:+ attr "style" "max-width:480px;margin:0 auto;background:#fff;border-radius:12px;padding:28px 24px;box-shadow:0 1px 3px rgba(0,0,0,.08);" +:+ ">";
    "<p " +:+ attr "style" "margin:0 0 12px;font-size:15px;" +:+ ">您好，</p>";
    "<p " +:+ attr "style" "margin:0 0 20px;font-size:15px;" +:+ ">您正在进行 <strong>" +:+ label
      +:+ "</strong>。请在 <strong>" +:+ ttlStr +:+ "</strong> 内使用以下验证码完成操作：</p>";
    "<p " +:+ attr "style" "margin:0 0 24px;font-size:32px;letter-spacing:8px;font-weight:700;text-align:center;color:#111827;"
      +:+ ">" +:+ code +:+ "</p>";
    "<p " +:+ attr "style" "margin:0;font-size:13px;color:#6b7280;" +:+ ">如非本人操作，请忽略此邮件。请勿向他人透露验证码。</p>";
    "</div>";
    "<p " +:+ attr "style" "text-align:center;font-size:12px;color:#9ca3af;margin-top:16px;"
      +:+ ">WatchTogether</p>";
    "</body></html>"] in
  let text := lines ["WatchTogether " +:+ label; ""; "验证码：" +:+ code; "";
    "验证码在 " +:+ ttlStr +:+ " 内有效。如非本人操作请忽略。"; ""] in
  (subject, html, text).

(** ** The sender *)

Module Sender.
Record t (T : Type) := mk { cfg : Config.t; client : option T }.
Arguments mk {T} _ _.
Arguments cfg {T} _.
Arguments client {T} _.

Section sender.
Context `{!ResendClient T}.

Definition NewSender (c : Config.t) : t T :=
  let key := TrimSpace (Config.ResendAPIKey c) in
  if bool_decide (key = "") then mk c None else mk c (Some (NewClient key)).

Definition is_enabled (s : t T) : bool := match client s with Some _ => true | None => false end.

Definition Send (c : ctx) (to purpose code : string) : SM (t T) string := λ s,
  match client s with
  | None => (Err ErrDisabled, s)
  | Some x =>
      let '(subject, html, text) :=
        buildVerificationEmail purpose code (Config.EmailCodeTTL (cfg s)) in
      let '(r, x) := SendWithContext c
        (SendEmailRequest.mk (Config.EmailFrom (cfg s)) [to] subject html text) x in
      (r, mk (cfg s) (Some x))
  end.

#[global] Instance iface : SenderAPI (t T) := {
  Enabled := is_enabled;
  SendVerificationCode := Send;
}.
End sender.
End Sender.

(** [redactEmail]: what the log shows of an address. *)
Definition at_byte : Ascii.ascii := Ascii.ascii_of_N 64.
Definition redactEmail (e : string) : string :=
  let e := TrimSpace e in
  if bool_decide (e = "") then "(empty)"
  else match cut_byte at_byte (to_bytes e) with
  | Some ((a :: _), domain) => of_bytes [a] +:+ "***@" +:+ of_bytes domain
  | _ => "***"
  end.
