(* ===== verification/Ably.v ===== *)
(** * The real-time channel

    [internal/realtime]: the channel of a room, the token that lets a client
    subscribe to it, and publishing.  The Ably client and the signing of its
    tokens are third-party libraries, taken as classes. *)

From S2P Require Import Prelude GoStrings GoNum GoParse GoJson Model Interfaces Chat.
From S2P Require Import JsonFacts Config.

(** [realtime.TokenIssuer] and [realtime.Publisher.ChannelName], for the service
    that also publishes. *)
Class Realtime (S : Type) := {
  RtChannelName : string → SM S string;
  RtIssueRoomJWT : ctx → time → string → string → SM S (string * time);
}.

Module AblyClaims.
(** The claims of a token, and its header's key name. *)
Record t := mk {
  iat : Z; exp : Z; capability : string; clientId : string; tokenType : string;
}.
End AblyClaims.

(** [jwt.NewWithClaims(HS256, claims)] with a key name, signed with the secret. *)
Class AblySigner := { SignAbly : string → string → AblyClaims.t → result string }.

(** [ably.NewREST] with a key, and [Channels.Get(channel).Publish]. *)
Class AblyREST (R : Type) := {
  NewREST : string → result R;
  RestPublish : ctx → string → string → PubData → SM R unit;
}.

Definition ErrRootKeyRequired : error := ErrNew "ably root key is required".

Definition ChannelName (prefix roomID : string) : string :=
  let prefix := TrimByte (TrimSpace prefix) colon in
  let roomID := TrimSpace roomID in
  prefix +:+ ":room:" +:+ roomID +:+ ":control".
Definition AdminChannelName (prefix : string) : string :=
  TrimByte (TrimSpace prefix) colon +:+ ":admin".

Definition operations : list string := ["subscribe"; "presence"; "history"].
(** [json.Marshal] of a map with one key and a list of strings. *)
Definition RoomCapability (channel : string) : string :=
  of_bytes (braces [member_str channel (brackets (quote <$> operations))]).

Section tokens.
Context `{!AblySigner}.

Definition IssueRoomJWT (cfg : Config.t) (roomID clientID : string) (now : time)
    : result (string * time) :=
  let clientID := TrimSpace clientID in
  if bool_decide (clientID = "") then Err (ErrNew "client id is required")
  else if bool_decide (Config.AblyKeyName cfg = "") || bool_decide (Config.AblyKeySecret cfg = "")
  then Err ErrRootKeyRequired
  else
    let channel := ChannelName (Config.AblyChannelPrefix cfg) roomID in
    let expiresAt := time_Add now (Config.AblyJWTTTL cfg) in
    let claims := AblyClaims.mk (Unix now) (Unix expiresAt) (RoomCapability channel) clientID "jwt" in
    and_then (SignAbly (Config.AblyKeyName cfg) (Config.AblyKeySecret cfg) claims)
      (λ signed, Ok (signed, expiresAt)).
End tokens.

Module AblyService.
Record t (R : Type) := mk { rest : R; cfg : Config.t }.
Arguments mk {R} _ _.
Arguments rest {R} _.
Arguments cfg {R} _.

Section service.
Context `{!AblySigner, !AblyREST R}.

Definition NewService (c : Config.t) : result (t R) :=
  if bool_decide (TrimSpace (Config.AblyRootKey c) = "") then Err ErrRootKeyRequired
  else and_then (NewREST (Config.AblyRootKey c)) (λ r, Ok (mk r c)).

Definition Channel (roomID : string) : SM (t R) string := λ s,
  (Ok (ChannelName (Config.AblyChannelPrefix (cfg s)) roomID), s).
Definition Issue (_ : ctx) (now : time) (roomID clientID : string) : SM (t R) (string * time) := λ s,
  (IssueRoomJWT (cfg s) roomID clientID now, s).
Definition Publish (c : ctx) (roomID name : string) (data : PubData) : SM (t R) unit := λ s,
  let '(r, x) := RestPublish c (ChannelName (Config.AblyChannelPrefix (cfg s)) roomID) name data
                   (rest s) in
  (r, mk x (cfg s)).

#[global] Instance publisher_iface : Publisher (t R) := { PublishRoomMessage := Publish }.
#[global] Instance realtime_iface : Realtime (t R) := {
  RtChannelName := Channel; RtIssueRoomJWT := Issue }.
End service.
End AblyService.

(** ** What a token allows *)

Lemma app_inv_channel p a b :
  p +:+ ":room:" +:+ a +:+ ":control" = p +:+ ":room:" +:+ b +:+ ":control" → a = b.
Proof.
  intros H%(f_equal to_bytes). rewrite !to_bytes_app in H. repeat apply app_inv_head in H.
  apply app_inv_tail in H. rewrite <- (of_to_bytes a), <- (of_to_bytes b). by f_equal.
Qed.

Definition allowed : json := JArr ((λ s, JStr s (to_bytes s)) <$> operations).

(** What [RoomCapability] writes: the one channel, and the three operations. *)
Lemma RoomCapability_scope channel :
  parse (RoomCapability channel) = Some (JObj [(clean channel, allowed)]).
Proof.
  assert (renders 1 allowed (brackets (quote <$> operations))) as Ha.
  { refine (renders_array 0 ((λ s, (jstr s, quote s)) <$> operations) _ _); [done|].
    repeat constructor; apply renders_string. }
  apply (parse_renders 2); [|done]. unfold RoomCapability. rewrite to_of_bytes.
  apply (renders_object 1 [(channel, allowed, brackets (quote <$> operations))]); [done|].
  by constructor.
Qed.

Section properties.
Context `{!AblySigner}.

(** A token is issued only with a key and for a client with an id; it names
    that client, expires when announced, and allows subscribing, presence and
    history on the channel of the room and no other: rooms with different ids have
    different channels, which are never the admin channel. *)
Theorem room_token_scope cfg roomID clientID now token expiresAt :
  IssueRoomJWT cfg roomID clientID now = Ok (token, expiresAt) →
  let channel := ChannelName (Config.AblyChannelPrefix cfg) roomID in
  (∃ c, SignAbly (Config.AblyKeyName cfg) (Config.AblyKeySecret cfg) c = Ok token ∧
     AblyClaims.clientId c = TrimSpace clientID ∧ TrimSpace clientID ≠ "" ∧
     AblyClaims.exp c = Unix expiresAt ∧ expiresAt = now + Config.AblyJWTTTL cfg ∧
     parse (AblyClaims.capability c) = Some (JObj [(clean channel, allowed)])) ∧
  Config.AblyKeyName cfg ≠ "" ∧ Config.AblyKeySecret cfg ≠ "" ∧
  (∀ other, ChannelName (Config.AblyChannelPrefix cfg) other = channel →
     TrimSpace other = TrimSpace roomID) ∧
  channel ≠ AdminChannelName (Config.AblyChannelPrefix cfg).
Proof.
  unfold IssueRoomJWT. case_bool_decide as Hc; [done|]. case_bool_decide as Hk; [done|].
  case_bool_decide as Hs; [done|]. cbn [orb].
  match goal with |- context [SignAbly _ _ ?c] => destruct (SignAbly _ _ c) as [tok| |] eqn:E end;
    [|done..]. intros [= <- <-]. split_and!; [|done|done| |].
  - eexists. split; [exact E|]. split_and!; [done..|]. apply RoomCapability_scope.
  - intros other. unfold ChannelName. apply app_inv_channel.
  - unfold ChannelName, AdminChannelName. intros Heq%(f_equal to_bytes).
    rewrite !to_bytes_app in Heq. apply app_inv_head in Heq. discriminate.
Qed.
End properties.

(** ** An example *)

Module ToyAbly.
#[global] Instance signer : AblySigner := {|
  SignAbly key secret c := Ok (key +:+ "." +:+ AblyClaims.capability c) |}.
(** The defaults with a key. *)
Definition keyed : Config.t :=
  match normalize (@applyEnv {| Getenv k :=
    if bool_decide (k = "ABLY_ROOT_KEY") then "app.key:secret" else "" |} Config.Default) with
  | Ok c => c
  | _ => Config.Default
  end.
Definition token : string := "app.key." +:+ RoomCapability "watchtogether:room:r1:control".
End ToyAbly.

Lemma room_token_scope_witness :
  IssueRoomJWT ToyAbly.keyed "r1" "u1" 0 = Ok (ToyAbly.token, 30 * Minute) ∧
  ChannelName (Config.AblyChannelPrefix ToyAbly.keyed) "r1" ≠
    AdminChannelName (Config.AblyChannelPrefix ToyAbly.keyed).
Proof.
  assert (IssueRoomJWT ToyAbly.keyed "r1" "u1" 0 = Ok (ToyAbly.token, 30 * Minute)) as Hi
    by (vm_compute; reflexivity).
  split; [exact Hi|].
  exact (proj2 (proj2 (proj2 (proj2 (room_token_scope _ _ _ _ _ _ Hi))))).
Defined.
