(* ===== verification/Startup.v ===== *)
(** * Start-up and shutdown

    [cmd/server/main.go] with [internal/store/postgres/db.go] and
    [internal/cache/redis/client.go]: the configuration, the database, the Redis
    client and the real-time channel are opened in this order, the server runs
    until it fails or a signal comes, and the deferred closes run in the opposite
    order.  The operating system, the drivers and the HTTP server are third-party
    code: the class [Host] has their answers.  The state of a run is the list of
    what it has done, the newest first. *)

From S2P Require Import Prelude GoStrings GoNum GoParse Model Interfaces Postgres Config Email Ably.

(** ** The host *)

(** What ends the wait of [run]: [ListenAndServe] failed, or a signal came. *)
Inductive wake : Type := ServeFailed (e : error) | Signalled.

(** An error that is [nil] is [None]. *)
Class Host := {
  sql_Open : string → option error;          (* sql.Open("pgx", dsn) *)
  db_Ping : option error;
  db_Exec : string → option error;
  db_Close : option error;
  schema_sql : string + error;               (* schemaFS.ReadFile("schema.sql") *)
  RedisOptions : Type;
  ParseURL : string → RedisOptions + error;
  AddrOptions : string → RedisOptions;       (* &goredis.Options{Addr: a} *)
  redis_Ping : RedisOptions → option error;
  redis_Close : RedisOptions → option error;
  awakened : wake;
  shut_down : option error;                  (* srv.Shutdown(ctx) *)
}.

Section server.
Context `{!UnicodeTables, !Environment, !ConfigFiles, !Host, !ResendClient T, !AblyREST R}.

(** [*sql.DB] with its settings. *)
Record DB := mkDB { dsn : string; MaxOpenConns : Z; MaxIdleConns : Z; ConnMaxLifetime : Z }.
(** [goredis.UniversalClient]; the caches are views of one client. *)
Abbreviation client := RedisOptions.

(** [stores]: both stores use the one database. *)
Record stores := mkStores { st_db : DB; st_users : DB; st_rooms : DB }.

Record Dependencies := mkDependencies {
  d_config : Config.t;
  d_users : DB; d_rooms : DB;
  d_sender : Sender.t T;
  d_codes : option client; d_sessions : client; d_states : client; d_presence : client;
  d_access : client; d_pubsub : client; d_chat : option client;
  d_realtime : AblyService.t R;
}.

(** What a run does to the world. *)
Inductive event : Type :=
  | OpenedDB (d : DB) | ClosedDB
  | OpenedRedis (c : client) | ClosedRedis
  | Serving (addr : string) (deps : Dependencies)
  | ShutDown.
Abbreviation RUN := (SM (list event)).

Definition happens (x : event) : RUN unit := modify (cons x).
Definition check_err (e : option error) : RUN unit :=
  match e with Some e => throw e | None => mret tt end.
(** [defer f()]: [f] runs when the rest is done, whatever its result. *)
Definition deferring {A} (f : RUN unit) (rest : RUN A) : RUN A := λ tr,
  let '(r, tr1) := rest tr in
  let '(_, tr2) := f tr1 in (r, tr2).

(** ** [internal/store/postgres/db.go] *)

Definition close_db : RUN unit := _ ← happens ClosedDB; check_err db_Close.
Definition wrap_err (message : string) (e : option error) : option error := ErrWrap message <$> e.

Definition initSchema : RUN unit :=
  match schema_sql with
  | inl schema => check_err (wrap_err "init postgres schema: %w" (db_Exec schema))
  | inr e => throw (ErrWrap "read postgres schema: %w" e)
  end.

Definition Open (dsn : string) : RUN DB :=
  _ ← check_err (wrap_err "open postgres: %w" (sql_Open dsn));
  let db := mkDB dsn 20 10 Hour in
  _ ← happens (OpenedDB db);
  match db_Ping with
  | Some e => _ ← ignore close_db; throw (ErrWrap "ping postgres: %w" e)
  | None =>
      initialised ← attempt initSchema;
      match initialised with
      | inr e => _ ← ignore close_db; throw e
      | inl _ => mret db
      end
  end.

(** ** [internal/cache/redis/client.go] *)

Definition ErrNoRedis : error :=
  ErrNew "redis: REDIS_URL or REDIS_ADDR is required when CACHE_BACKEND=redis".
Definition NewClient (addr redisURL : string) : RUN client :=
  let u := TrimSpace redisURL in
  if negb (bool_decide (u = "")) then
    match ParseURL u with
    | inr e => throw e
    | inl opts => _ ← happens (OpenedRedis opts); mret opts
    end
  else
    let a := TrimSpace addr in
    if bool_decide (a = "") then throw ErrNoRedis
    else
      let opts := AddrOptions a in
      _ ← happens (OpenedRedis opts);
      mret opts.

(** ** [cmd/server/main.go] *)

Record caches := mkCaches {
  close : option (RUN unit);
  redis : option client;
  sessions : client; roomStates : client; roomPresence : client; roomAccess : client;
  pubsub : client;
}.

Definition close_redis (c : client) : RUN unit := _ ← happens ClosedRedis; check_err (redis_Close c).

Definition newStores (cfg : Config.t) : RUN stores :=
  if bool_decide (Config.StorageBackend cfg = "postgres") then
    db ← Open (Config.PostgresDSN cfg);
    mret (mkStores db db db)
  else throw (ErrNew ("unsupported storage backend: " +:+ Config.StorageBackend cfg)).

Definition newCaches (cfg : Config.t) : RUN caches :=
  if negb (bool_decide (Config.CacheBackend cfg = CacheBackendRedis)) then
    throw (ErrNew ("unsupported cache backend: " +:+ Config.CacheBackend cfg +:+
                   " (only redis is supported)"))
  else
    c ← NewClient (Config.RedisAddr cfg) (Config.RedisURL cfg);
    match redis_Ping c with
    | Some e => _ ← ignore (close_redis c); throw e
    | None => mret (mkCaches (Some (close_redis c)) (Some c) c c c c c)
    end.

Definition roomChatFromCaches (ca : caches) : option client := redis ca.

(** The rest of [run]: the code store has the client the caches carry.
    [api.NewRouter] comes before the server listens: it opens nothing, and only the
    CORS middleware it is made with can panic, on an origin it cannot read; the
    deferred closes run then as on an error. *)
Definition serve (cfg : Config.t) (st : stores) (ca : caches) : RUN unit :=
  realtime ← of_result (AblyService.NewService cfg);
  let deps := mkDependencies cfg (st_users st) (st_rooms st) (Sender.NewSender cfg)
    (redis ca) (sessions ca) (roomStates ca) (roomPresence ca) (roomAccess ca)
    (pubsub ca) (roomChatFromCaches ca) realtime in
  _ ← happens (Serving (Config.Addr cfg) deps);
  match awakened with
  | ServeFailed e => throw e
  | Signalled => _ ← happens ShutDown; check_err shut_down
  end.

Definition run : RUN unit :=
  cfg ← of_result (Load "config.yaml");
  st ← newStores cfg;
  deferring close_db (
    ca ← newCaches cfg;
    match close ca with
    | Some f => deferring f (serve cfg st ca)
    | None => serve cfg st ca
    end).

(** The status the process ends with: [log.Fatalf] exits with 1. *)
Definition main : Z :=
  match run [] with (Ok _, _) => 0 | (Err _, _) => 1 | (Halt _, _) => 2 end.

(** ** What is opened is closed *)

(** In order of time: nothing opened; or a database closed at the very end, and
    within that time perhaps a Redis client, closed before it. *)
Definition is_handle (x : event) : bool :=
  match x with OpenedDB _ | ClosedDB | OpenedRedis _ | ClosedRedis => true | _ => false end.
Inductive redis_closed : list event → Prop :=
  | no_redis : redis_closed []
  | one_redis c body : Forall (λ x, is_handle x = false) body →
      redis_closed (OpenedRedis c :: body ++ [ClosedRedis]).
Inductive all_closed : list event → Prop :=
  | no_db : all_closed []
  | one_db d mid : redis_closed mid → all_closed (OpenedDB d :: mid ++ [ClosedDB]).

Definition pool (cfg : Config.t) : DB := mkDB (Config.PostgresDSN cfg) 20 10 Hour.
(** The dependencies of a server whose parts all answer. *)
Definition wired (cfg : Config.t) (c : client) (realtime : AblyService.t R) : Dependencies :=
  mkDependencies cfg (pool cfg) (pool cfg) (Sender.NewSender cfg) (Some c) c c c c c (Some c) realtime.

Definition initialised : bool :=
  bool_decide (db_Ping = None) &&
  match schema_sql with inl schema => bool_decide (db_Exec schema = None) | inr _ => false end.

Lemma Open_spec dsn tr : let db := mkDB dsn 20 10 Hour in
  (Open dsn tr = (Ok db, OpenedDB db :: tr) ∧ initialised = true) ∨
  ∃ e, Open dsn tr = (Err e, tr) ∨ Open dsn tr = (Err e, ClosedDB :: OpenedDB db :: tr).
Proof.
  unfold Open, initialised, close_db, initSchema, happens, check_err. sm_unfold.
  destruct (sql_Open dsn) as [e|]; cbn; [right; eauto|].
  destruct db_Ping as [e|]; cbn; [right; destruct db_Close; eauto|].
  destruct schema_sql as [schema|e]; cbn; [|right; destruct db_Close; eauto].
  destruct (db_Exec schema) as [e|]; cbn; [right; destruct db_Close; eauto|by left].
Qed.

Lemma newStores_spec cfg tr :
  (newStores cfg tr = (Ok (mkStores (pool cfg) (pool cfg) (pool cfg)), OpenedDB (pool cfg) :: tr) ∧
   initialised = true) ∨
  ∃ e, newStores cfg tr = (Err e, tr) ∨ newStores cfg tr = (Err e, ClosedDB :: OpenedDB (pool cfg) :: tr).
Proof.
  unfold newStores. case_bool_decide; [|right; eauto].
  destruct (Open_spec (Config.PostgresDSN cfg) tr) as [[E Hi]|[e [E|E]]].
  - left. split; [|done]. by rewrite (bind_Ok _ _ _ _ _ E).
  - right. exists e. left. by rewrite (bind_Err _ _ _ _ _ E).
  - right. exists e. right. by rewrite (bind_Err _ _ _ _ _ E).
Qed.

Lemma newCaches_spec cfg tr :
  (∃ c, newCaches cfg tr = (Ok (mkCaches (Some (close_redis c)) (Some c) c c c c c), OpenedRedis c :: tr) ∧
     redis_Ping c = None) ∨
  ∃ e, newCaches cfg tr = (Err e, tr) ∨ ∃ c, newCaches cfg tr = (Err e, ClosedRedis :: OpenedRedis c :: tr).
Proof.
  unfold newCaches. destruct (negb _); [right; eauto|].
  assert ((∃ c, NewClient (Config.RedisAddr cfg) (Config.RedisURL cfg) tr = (Ok c, OpenedRedis c :: tr)) ∨
    ∃ e, NewClient (Config.RedisAddr cfg) (Config.RedisURL cfg) tr = (Err e, tr)) as [[c E]|[e E]].
  { unfold NewClient, happens. sm_unfold. destruct (negb _).
    - destruct (ParseURL _); eauto.
    - destruct (bool_decide _); eauto. }
  - rewrite (bind_Ok _ _ _ _ _ E). destruct (redis_Ping c) as [e|] eqn:Hp; [right; exists e; right; exists c|left; by exists c].
    unfold close_redis, happens, check_err. sm_unfold. by destruct (redis_Close c).
  - right. exists e. left. by rewrite (bind_Err _ _ _ _ _ E).
Qed.

(** What a server does once everything is open. *)
Lemma serve_spec cfg c tr : let ca := mkCaches (Some (close_redis c)) (Some c) c c c c c in
  ∃ res body, serve cfg (mkStores (pool cfg) (pool cfg) (pool cfg)) ca tr = (res, body ++ tr) ∧
    ((body = [] ∧ res ≠ Ok tt) ∨
     ∃ realtime, AblyService.NewService cfg = Ok realtime ∧
       let serving := Serving (Config.Addr cfg) (wired cfg c realtime) in
       (body = [serving] ∧ res ≠ Ok tt ∨
        body = [ShutDown; serving] ∧ awakened = Signalled ∧ (res = Ok tt ↔ shut_down = None))).
Proof.
  cbv zeta. unfold serve, happens, check_err. sm_unfold.
  destruct (AblyService.NewService cfg) as [realtime|e|h]; [|by eexists _, []; eauto..].
  unfold wired, roomChatFromCaches. cbn. destruct awakened as [e|] eqn:Ew.
  - eexists _, [_]. split; [done|]. right. exists realtime. split; [done|]. left. done.
  - destruct shut_down as [e|]; eexists _, [_; _]; (split; [done|]); right; exists realtime; (split; [done|]); by right.
Qed.

Lemma deferring_eq {A} f (rest : RUN A) tr r tr1 : rest tr = (r, tr1) →
  deferring f rest tr = (r, (f tr1).2).
Proof. unfold deferring. intros ->. by destruct (f tr1). Qed.
Lemma close_db_trace tr : (close_db tr).2 = ClosedDB :: tr.
Proof. unfold close_db, happens, check_err. sm_unfold. by destruct db_Close. Qed.
Lemma close_redis_trace c tr : (close_redis c tr).2 = ClosedRedis :: tr.
Proof. unfold close_redis, happens, check_err. sm_unfold. by destruct (redis_Close c). Qed.

Lemma run_trace : ∃ res tr, run [] = (res, tr) ∧
  (tr = [] ∧ res ≠ Ok tt ∨
   ∃ cfg mid, Load "config.yaml" = Ok cfg ∧ tr = ClosedDB :: mid ++ [OpenedDB (pool cfg)] ∧
     (mid = [] ∧ res ≠ Ok tt ∨
      ∃ c body, mid = ClosedRedis :: body ++ [OpenedRedis c] ∧
        (body = [] ∧ res ≠ Ok tt ∨
         initialised = true ∧ redis_Ping c = None ∧
         ∃ realtime, AblyService.NewService cfg = Ok realtime ∧
           let serving := Serving (Config.Addr cfg) (wired cfg c realtime) in
           (body = [serving] ∧ res ≠ Ok tt ∨
            body = [ShutDown; serving] ∧ awakened = Signalled ∧ (res = Ok tt ↔ shut_down = None))))).
Proof.
  unfold run. destruct (Load "config.yaml") as [cfg|e|h] eqn:El;
    [|by eexists _, []; (split; [done|]); left..].
  rewrite (bind_Ok (of_result (Ok cfg)) _ [] cfg []) by done.
  destruct (newStores_spec cfg []) as [[E Hi]|[e [E|E]]].
  2: { eexists _, []. rewrite (bind_Err _ _ _ _ _ E). by split; [|left]. }
  2: { eexists _, _. rewrite (bind_Err _ _ _ _ _ E). split; [done|]. right. exists cfg, []. split_and!; [done..|by left]. }
  rewrite (bind_Ok _ _ _ _ _ E). set (tr0 := [OpenedDB (pool cfg)]).
  destruct (newCaches_spec cfg tr0) as [[c [Ec Hp]]|[e [Ec|[c Ec]]]].
  - destruct (serve_spec cfg c (OpenedRedis c :: tr0)) as (res & body & Es & Hb). cbv zeta in Es.
    eexists res, _. split.
    { erewrite deferring_eq; [reflexivity|]. rewrite (bind_Ok _ _ _ _ _ Ec). cbn [close].
      erewrite deferring_eq by exact Es. by rewrite close_redis_trace. }
    rewrite close_db_trace. right. exists cfg, (ClosedRedis :: body ++ [OpenedRedis c]). split; [done|]. split.
    { unfold tr0. by rewrite <- app_comm_cons, <- app_assoc. }
    right. exists c, body. split; [done|]. destruct Hb as [Hb|Hb]; [by left|right]. by split_and!.
  - eexists _, _. split.
    { erewrite deferring_eq; [reflexivity|]. by rewrite (bind_Err _ _ _ _ _ Ec). }
    rewrite close_db_trace. right. exists cfg, []. split; [done|]. split; [done|]. by left.
  - eexists _, _. split.
    { erewrite deferring_eq; [reflexivity|]. by rewrite (bind_Err _ _ _ _ _ Ec). }
    rewrite close_db_trace. right. exists cfg, [ClosedRedis; OpenedRedis c]. split; [done|]. split; [done|].
    right. exists c, []. split; [done|]. by left.
Qed.

(** C29: whatever fails, and when, the process closes what it opened: the database
    and the Redis client once each, the client first, at the very end, also when
    opening a later part fails or panics.  It serves only with a configuration that
    loaded, a database that answered and took its schema, a Redis client that
    answered, and a real-time channel; its parts then share that one database and
    that one client.  It ends with status 0 only after a signal and a shutdown
    without error. *)
Theorem startup_closes :
  let '(res, tr) := run [] in
  all_closed (rev tr) ∧
  (∀ addr deps, Serving addr deps ∈ tr → ∃ cfg c realtime,
     Load "config.yaml" = Ok cfg ∧ initialised = true ∧ redis_Ping c = None ∧
     AblyService.NewService cfg = Ok realtime ∧ addr = Config.Addr cfg ∧ deps = wired cfg c realtime) ∧
  (main = 0 ↔ res = Ok tt) ∧
  (res = Ok tt → awakened = Signalled ∧ shut_down = None ∧ ShutDown ∈ tr ∧
     ∃ addr deps, Serving addr deps ∈ tr).
Proof.
  destruct run_trace as (res & tr & E & Ht). unfold main. rewrite E.
  split; [|split; [|split]].
  - destruct Ht as [[-> _]|(cfg & mid & _ & -> & Ht)]; [constructor|].
    cbn [rev]. rewrite rev_app_distr. cbn [rev app]. apply (one_db (pool cfg) (rev mid)).
    destruct Ht as [[-> _]|(c & body & -> & Ht)]; [constructor|].
    cbn [rev]. rewrite rev_app_distr. cbn [rev app]. apply (one_redis c (rev body)).
    destruct Ht as [[-> _]|(_ & _ & rt & _ & [[-> _]|[-> _]])]; repeat constructor.
  - intros addr deps Hin. destruct Ht as [[-> _]|(cfg & mid & Hc & -> & Ht)]; [by apply elem_of_nil in Hin|].
    destruct Ht as [[-> _]|(c & body & -> & Ht)]; [set_solver|].
    destruct Ht as [[-> _]|(Hi & Hp & rt & Hrt & Ht)]; [set_solver|]. exists cfg, c, rt.
    assert (Serving addr deps = Serving (Config.Addr cfg) (wired cfg c rt)) as [= -> ->]; [|done].
    destruct Ht as [[-> _]|[-> _]]; set_solver.
  - destruct res as [[]|e|h]; split; intros ?; done.
  - intros ->. destruct Ht as [[_ Ht]|(cfg & mid & Hc & -> & Ht)]; [done|].
    destruct Ht as [[_ Ht]|(c & body & -> & Ht)]; [done|].
    destruct Ht as [[_ Ht]|(Hi & Hp & rt & Hrt & Ht)]; [done|].
    destruct Ht as [[_ Ht]|(-> & Hw & Hs)]; [done|]. split; [done|]. split; [by apply Hs|].
    split; [set_solver|]. exists (Config.Addr cfg), (wired cfg c rt). set_solver.
Qed.
End server.

(** ** The schema *)

(** The columns of the table [users] that [schema.sql] creates, and those the
    queries of [stores.go] read. *)
Definition schema_users : list string :=
  ["id"; "username"; "password_hash"; "nickname"; "avatar_url"; "role"; "created_at"; "updated_at"].
Definition selected_users : list string :=
  ["id"; "email"; "username"; "password_hash"; "nickname"; "avatar_url"; "role"; "created_at"; "updated_at"].

(** The database that start-up creates has no column for the e-mail addresses. *)
Lemma schema_lacks_email : filter (λ c, c ∉ schema_users) selected_users = ["email"].
Proof. reflexivity. Qed.
