(* ===== verification/ToolCheck.v ===== *)
(** * The check of an external tool

    [pkg/toolcheck/toolcheck.go]: whether a program is in the path and answers to
    [--version].  The processes of the operating system are third-party code: the
    class [Processes] has what they do. *)

From S2P Require Import Prelude GoStrings GoNum GoParse.
#[local] Open Scope Z_scope.

(** How a run of a program ends. *)
Inductive exit : Type := Exited | DeadlineExceeded | Failed (message : string).

(** [exec.LookPath], and [cmd.Run] of a path with its arguments, killed when the
    time is over: what was written to both outputs, and the end. *)
Class Processes := {
  LookPath : string → option string;
  Run : string → list string → Z → string * exit;
}.

(** [toolcheck.Result] *)
Module ToolResult.
Record t := mk {
  Name : string; Found : bool; Available : bool; Path : string; Version : string; Error : string;
}.
#[global] Instance eq_dec : EqDecision t.
Proof. solve_decision. Defined.
End ToolResult.

Definition DefaultTimeout : Z := 5 * Second.

(** The loop over the lines. *)
Fixpoint first_nonblank (lines : list string) : string :=
  match lines with
  | [] => ""
  | line :: rest =>
      let line := TrimSpace line in
      if bool_decide (line = "") then first_nonblank rest else line
  end.
Definition newline : Ascii.ascii := byte_at 10.
Definition firstLine (value : string) : string := first_nonblank (Split value newline).

(** [Check] *)
Definition check `{!Processes} (name : string) (args : list string) (timeout : Z) : ToolResult.t :=
  match LookPath name with
  | None => ToolResult.mk name false false "" "" "not found in PATH"
  | Some path =>
      let args := if bool_decide (args = []) then ["--version"] else args in
      let timeout := if timeout <=? 0 then DefaultTimeout else timeout in
      match Run path args timeout with
      | (_, DeadlineExceeded) => ToolResult.mk name true false path "" "version check timed out"
      | (_, Failed message) => ToolResult.mk name true false path "" message
      | (out, Exited) => ToolResult.mk name true true path (firstLine out) ""
      end
  end.

(** ** What a result tells *)

Lemma first_nonblank_spec lines :
  (first_nonblank lines = "" ∧ ∀ l, l ∈ lines → TrimSpace l = "") ∨
  ∃ before l after, lines = before ++ l :: after ∧ first_nonblank lines = TrimSpace l ∧
    TrimSpace l ≠ "" ∧ ∀ x, x ∈ before → TrimSpace x = "".
Proof.
  induction lines as [|l lines IH]; [left; split; [done|by intros l Hl%elem_of_nil]|]. cbn [first_nonblank].
  case_bool_decide as E.
  - destruct IH as [[-> Hall]|(b & x & a & -> & -> & Hx & Hb)]; [left|right].
    + split; [done|]. intros y [->|Hy]%elem_of_cons; [done|by apply Hall].
    + exists (l :: b), x, a. split_and!; try done. intros y [->|Hy]%elem_of_cons; [done|by apply Hb].
  - right. exists [], l, lines. split_and!; try done. by intros y Hy%elem_of_nil.
Qed.

(** The version is the first line that is not blank, without its margins; a tool
    that is available has no error, one that is not has no version. *)
Theorem check_consistent `{!Processes} name args timeout :
  let r := check name args timeout in
  ToolResult.Name r = name ∧
  (ToolResult.Found r = true ↔ LookPath name = Some (ToolResult.Path r)) ∧
  (ToolResult.Available r = true → ToolResult.Found r = true ∧ ToolResult.Error r = "") ∧
  (ToolResult.Available r = false → ToolResult.Version r = "") ∧
  TrimSpace (ToolResult.Version r) = ToolResult.Version r.
Proof.
  cbv zeta. unfold check. destruct (LookPath name) as [path|] eqn:E; cbn; [|split_and!; try done; by split].
  destruct (Run _ _ _) as [out [| |m]]; cbn; (split; [done|]); (split; [done|]); try by split_and!.
  split; [done|]. split; [done|]. unfold firstLine.
  destruct (first_nonblank_spec (Split out newline)) as [[-> _]|(b & l & a & _ & -> & _)]; [done|].
  apply TrimSpace_idem.
Qed.

Example first_line : firstLine (of_bytes (byte_at 10 :: to_bytes "  ffmpeg version 6.0 " ++ byte_at 10 :: to_bytes "built with")) =
  "ffmpeg version 6.0".
Proof. vm_compute. reflexivity. Qed.
