(* ===== verification/Auth.v ===== *)
(** * Accounts and tokens

    [internal/auth/auth.go]: registration with an e-mailed code, login, password
    reset, refresh and logout, over any user store, session cache and code store.
    The JWT library, bcrypt, the UUID generator and the address parser of
    [net/mail] are parameters. *)

From S2P Require Import Prelude GoStrings GoNum Model Interfaces Service.
From S2P Require Import Postgres EmailCode Config Email.

Definition TokenTypeAccess : string := "access".
Definition TokenTypeRefresh : string := "refresh".

Module Claims.
(** [auth.Claims], the registered claims flattened. *)
Record t := mk {
  UserID : string; Username : string; Role : UserRole; Type_ : string;
  Subject : string; ID : string; IssuedAt : time; ExpiresAt : time;
}.
#[global] Instance eq_dec : EqDecision t.
Proof. solve_decision. Defined.
End Claims.

Module TokenPair.
Record t := mk {
  AccessToken : string; RefreshToken : string; TokenType : string; ExpiresAt : time;
}.
End TokenPair.

(** ** The libraries *)

(** [jwt.NewNumericDate], [jwt.NewWithClaims(HS256, ...).SignedString] and
    [jwt.ParseWithClaims] with an HMAC key, a required expiry and a leeway, at a
    clock reading. *)
Class Jwt := {
  NewNumericDate : time → time;
  SignedString : string → Claims.t → result string;
  ParseWithClaims : string → Z → time → string → option Claims.t;
}.

(** Claims that JSON carries unchanged. *)
Definition json_safe `{!Jwt} (c : Claims.t) : bool :=
  ValidString (Claims.UserID c) && ValidString (Claims.Username c) &&
  ValidString (Claims.Role c) && ValidString (Claims.Type_ c) &&
  ValidString (Claims.Subject c) && ValidString (Claims.ID c) &&
  (NewNumericDate (Claims.IssuedAt c) =? Claims.IssuedAt c) &&
  (NewNumericDate (Claims.ExpiresAt c) =? Claims.ExpiresAt c).

(** Dates are kept to the second; signing succeeds; a token is its three base64url parts; under the key it was
    signed with it parses to its claims until the leeway after its expiry is over;
    tokens with different ids are different. *)
Class JwtLaws `{!Jwt} := {
  jwt_seconds : ∀ t, NewNumericDate t = t / Second * Second;
  jwt_signs : ∀ secret c, ∃ tok, SignedString secret c = Ok tok;
  jwt_compact : ∀ secret c tok, SignedString secret c = Ok tok →
    tok ≠ "" ∧ TrimSpace (TrimPrefix tok "Bearer ") = tok;
  jwt_parses : ∀ secret leeway now c tok, SignedString secret c = Ok tok → json_safe c = true →
    ParseWithClaims secret leeway now tok =
      if now <? Claims.ExpiresAt c + leeway then Some c else None;
  jwt_jti : ∀ secret c c' tok, SignedString secret c = Ok tok → SignedString secret c' = Ok tok →
    ValidString (Claims.ID c) = true → ValidString (Claims.ID c') = true →
    Claims.ID c = Claims.ID c';
}.

(** [mail.ParseAddress]: the address, or [None] for an error. *)
Class MailParser := { ParseAddress : string → option string }.

(** The random bytes bcrypt draws. *)
Class Salts := { salt_at : nat → string }.

Module AuthConfig.
(** The settings of [config.Config] this package reads. *)
Record t := mk {
  JWTSecret : string; JWTAccessTTL : Z; JWTRefreshTTL : Z; EmailCodeMaxAttempts : Z;
}.
End AuthConfig.

(** The collaborators; [afterLogin] is the hook, over a state of its own. *)
Class AuthBackend := {
  UsersT : Type; users_ops :: UserStore UsersT;
  SessionsT : Type; sessions_ops :: SessionCache SessionsT;
  CodesT : Type; codes_ops :: CodeStore CodesT;
  HookT : Type; afterLogin : option (ctx → SM HookT unit);
}.

(** ** Validation *)

Section validation.
Context `{!UnicodeTables, !MailParser}.

Definition normalizeUsername (username : string) : string := ToLower (TrimSpace username).

(** The regular expression [^[a-z0-9_]{3,40}$]. *)
Definition username_char (a : Ascii.ascii) : bool :=
  in_range 97 122 (byte_of a) || in_range 48 57 (byte_of a) || (byte_of a =? 95)%N.
Definition usernameCharset (username : string) : bool :=
  forallb username_char (to_bytes username) && (3 <=? len username) && (len username <=? 40).
Definition validateUsername (username : string) : result unit :=
  if negb (usernameCharset username) then Err ErrInvalidUsername else Ok tt.

Definition validatePassword (password : string) : result unit :=
  if (len password <? 8) || (128 <? len password) then Err ErrWeakPassword
  else
    let lower := existsb is_lower_rune (runes password) in
    let digit := existsb is_digit_rune (runes password) in
    if negb lower || negb digit then Err ErrWeakPassword else Ok tt.

Definition at_sign : Ascii.ascii := Ascii.ascii_of_N 64.
Definition split_address (address : string) : result string :=
  let at_ := LastIndexByte address at_sign in
  if (at_ <=? 0) || (at_ =? len address - 1) then Err ErrInvalidEmail
  else
    let local := String.substring 0 (Z.to_nat at_) address in
    let domain := String.substring (Z.to_nat (at_ + 1))
                    (String.length address - Z.to_nat (at_ + 1)) address in
    if bool_decide (local = "") || bool_decide (domain = "") then Err ErrInvalidEmail
    else Ok (local +:+ "@" +:+ domain).
Definition normalizeEmail (raw : string) : result string :=
  let s := ToLower (TrimSpace raw) in
  if bool_decide (s = "") then Err ErrInvalidEmail
  else match ParseAddress s with
  | Some a => split_address a
  | None => match ParseAddress ("<" +:+ s +:+ ">") with
            | Some a => split_address a
            | None => Err ErrInvalidEmail
            end
  end.

Definition ExtractBearer (header : string) : string :=
  if HasPrefix header "Bearer " then TrimSpace (TrimPrefix header "Bearer ") else "".
End validation.

(** ** The service *)

Section auth.
Context `{!UnicodeTables, !MailParser, !Bcrypt, !Jwt, !Salts, !UuidSource, !Env, !AuthBackend}.

(** [auth.Service]; [ticks] and [uuids] say how much of the environment and of the
    UUIDs has been used. *)
Record AuthService := mkAuth {
  users : UsersT;
  sessions : SessionsT;
  codes : option CodesT;
  hook : HookT;
  cfg : AuthConfig.t;
  ticks : nat;
  uuids : nat;
}.

Definition set_users (x : UsersT) (s : AuthService) : AuthService :=
  mkAuth x (sessions s) (codes s) (hook s) (cfg s) (ticks s) (uuids s).
Definition set_sessions (x : SessionsT) (s : AuthService) : AuthService :=
  mkAuth (users s) x (codes s) (hook s) (cfg s) (ticks s) (uuids s).
Definition set_codes (x : option CodesT) (s : AuthService) : AuthService :=
  mkAuth (users s) (sessions s) x (hook s) (cfg s) (ticks s) (uuids s).
Definition set_hook (x : HookT) (s : AuthService) : AuthService :=
  mkAuth (users s) (sessions s) (codes s) x (cfg s) (ticks s) (uuids s).
Definition pass_tick (s : AuthService) : AuthService :=
  mkAuth (users s) (sessions s) (codes s) (hook s) (cfg s) (S (ticks s)) (uuids s).
Definition draw_uuid (s : AuthService) : AuthService :=
  mkAuth (users s) (sessions s) (codes s) (hook s) (cfg s) (ticks s) (S (uuids s)).

(** A clock reading, a UUID, a call on a collaborator: one tick each. *)
Definition clock : SM AuthService time := λ s, (Ok (now_at (ticks s)), pass_tick s).
Definition newUUID : SM AuthService string := λ s, (Ok (uuid_at (uuids s)), draw_uuid s).
Definition call_users {A} (m : ctx → time → SM UsersT A) : SM AuthService A := λ s,
  let '(r, x) := m (ctx_at (ticks s)) (now_at (ticks s)) (users s) in
  (r, pass_tick (set_users x s)).
Definition call_sessions {A} (m : ctx → time → SM SessionsT A) : SM AuthService A := λ s,
  let '(r, x) := m (ctx_at (ticks s)) (now_at (ticks s)) (sessions s) in
  (r, pass_tick (set_sessions x s)).
Definition call_codes {A} (m : ctx → SM CodesT A) : SM AuthService A := λ s,
  match codes s with
  | None => (Halt NilDereference, s)
  | Some x => let '(r, x) := m (ctx_at (ticks s)) x in (r, pass_tick (set_codes (Some x) s))
  end.

Definition HashPassword (password : string) : SM AuthService string := λ s,
  (GenerateFromPassword (salt_at (ticks s)) password, pass_tick s).
Definition CheckPassword (hash password : string) : bool := CompareHashAndPassword hash password.

Definition runAfterLogin : SM AuthService unit :=
  match afterLogin with
  | None => mret tt
  | Some f => ignore (λ s, let '(r, x) := f (ctx_at (ticks s)) (hook s) in
                           (r, pass_tick (set_hook x s)))
  end.

(** ** Tokens *)

Definition sign (user : User.t) (tokenType : string) (ttl : Z) : SM AuthService (string * time) :=
  now ← clock;
  let expiresAt := time_Add now ttl in
  jti ← newUUID;
  secret ← gets (λ s, AuthConfig.JWTSecret (cfg s));
  let claims := Claims.mk (User.ID user) (User.Username user) (User.Role user) tokenType
                  (User.ID user) jti (NewNumericDate now) (NewNumericDate expiresAt) in
  token ← of_result (SignedString secret claims);
  mret (token, expiresAt).

Definition issuePair (user : User.t) : SM AuthService TokenPair.t :=
  c ← gets cfg;
  '(access, accessExp) ← sign user TokenTypeAccess (AuthConfig.JWTAccessTTL c);
  '(refresh, _) ← sign user TokenTypeRefresh (AuthConfig.JWTRefreshTTL c);
  _ ← call_sessions (λ x t,
        SetRefreshToken x t (User.ID user) refresh (AuthConfig.JWTRefreshTTL c));
  mret (TokenPair.mk access refresh "Bearer" accessExp).

Definition leeway : Z := 5 * Second.

(** The JWT library reads the wall clock itself. *)
Definition ParseToken (tokenString expectedType : string) : SM AuthService Claims.t :=
  let tokenString := TrimSpace (TrimPrefix tokenString "Bearer ") in
  if bool_decide (tokenString = "") then throw ErrInvalidToken
  else
    secret ← gets (λ s, AuthConfig.JWTSecret (cfg s));
    now ← clock;
    match ParseWithClaims secret leeway now tokenString with
    | None => throw ErrInvalidToken
    | Some claims =>
        if negb (bool_decide (expectedType = "")) &&
           negb (bool_decide (Claims.Type_ claims = expectedType)) then throw ErrInvalidToken
        else if bool_decide (Claims.UserID claims = "") || bool_decide (Claims.ID claims = "")
        then throw ErrInvalidToken
        else
          blocked ← call_sessions (λ x t, IsBlacklisted x t (Claims.ID claims));
          if (blocked : bool) then throw ErrInvalidToken else mret claims
    end.

Definition Refresh (refreshToken : string) : SM AuthService TokenPair.t :=
  claims ← ParseToken refreshToken TokenTypeRefresh;
  stored ← call_sessions (λ x t, GetRefreshToken x t (Claims.UserID claims));
  if bool_decide (stored = "") || negb (bool_decide (stored = refreshToken))
  then throw ErrInvalidToken
  else
    user ← call_users (λ x _, UserGetByID x (Claims.UserID claims));
    tokens ← issuePair user;
    _ ← runAfterLogin;
    mret tokens.

(** One turn of the loop of [Logout]. *)
Definition logout_token (tokenString : string) : SM AuthService unit :=
  parsed ← attempt (ParseToken tokenString "");
  match parsed with
  | inr _ => mret tt
  | inl claims =>
      now ← clock;
      let ttl := time_Sub (Claims.ExpiresAt claims) now in
      let ttl := if ttl <? 0 then 0 else ttl in
      call_sessions (λ x t, BlacklistToken x t (Claims.ID claims) ttl)
  end.
Definition Logout (accessToken refreshToken : string) : SM AuthService unit :=
  _ ← logout_token accessToken;
  _ ← logout_token refreshToken;
  mret tt.

(** ** Accounts *)

Definition verify_code (email purpose code : string) : SM AuthService unit :=
  has ← gets (λ s, match codes s with Some _ => true | None => false end);
  if negb has then throw (ErrNew "auth: verification store not configured")
  else
    maxAttempts ← gets (λ s, AuthConfig.EmailCodeMaxAttempts (cfg s));
    now ← clock;
    call_codes (λ x, code_verify x email purpose code maxAttempts now).

(** [if _, err := get(...); err == nil { conflict } else if !NotFound { err }] *)
Definition absent (get : SM AuthService User.t) : SM AuthService unit :=
  found ← attempt get;
  match found with
  | inl _ => throw ErrConflict
  | inr e => if errors_Is e ErrNotFound then mret tt else throw e
  end.

Definition RegisterWithCode (emailAddr username password code nickname avatarURL : string)
    : SM AuthService (User.t * TokenPair.t) :=
  emailNorm ← of_result (normalizeEmail emailAddr);
  let usernameNorm := normalizeUsername username in
  _ ← of_result (validateUsername usernameNorm);
  _ ← of_result (validatePassword password);
  _ ← verify_code emailNorm PurposeRegister code;
  _ ← absent (call_users (λ x _, UserGetByEmail x emailNorm));
  _ ← absent (call_users (λ x _, UserGetByUsername x usernameNorm));
  hash ← HashPassword password;
  let nick := TrimSpace nickname in
  let nick := if bool_decide (nick = "") then usernameNorm else nick in
  let user := User.mk "" emailNorm usernameNorm hash nick (TrimSpace avatarURL)
                UserRoleUser zero_time zero_time in
  user ← call_users (λ x t, UserCreate x t user);
  tokens ← issuePair user;
  _ ← runAfterLogin;
  mret (user, tokens).

Definition find_login (login : string) : SM AuthService User.t :=
  if ContainsByte login at_sign then
    match normalizeEmail login with
    | Ok emailNorm => call_users (λ x _, UserGetByEmail x emailNorm)
    | _ => throw ErrInvalidCredentials
    end
  else call_users (λ x _, UserGetByUsername x (normalizeUsername login)).

Definition Login (login password : string) : SM AuthService (User.t * TokenPair.t) :=
  let login := TrimSpace login in
  if bool_decide (login = "") then throw ErrInvalidCredentials
  else
    found ← attempt (find_login login);
    match found with
    | inr err => if errors_Is err ErrNotFound then throw ErrInvalidCredentials else throw err
    | inl user =>
        if negb (CheckPassword (User.PasswordHash user) password)
        then throw ErrInvalidCredentials
        else
          tokens ← issuePair user;
          _ ← runAfterLogin;
          mret (user, tokens)
    end.

Definition ResetPassword (emailAddr code newPassword : string) : SM AuthService unit :=
  emailNorm ← of_result (normalizeEmail emailAddr);
  _ ← of_result (validatePassword newPassword);
  _ ← verify_code emailNorm PurposeResetPassword code;
  found ← attempt (call_users (λ x _, UserGetByEmail x emailNorm));
  match found with
  | inr err => if errors_Is err ErrNotFound then throw ErrInvalidCredentials else throw err
  | inl user =>
      hash ← HashPassword newPassword;
      let user := User.set_PasswordHash hash user in
      user ← call_users (λ x t, UserUpdate x t user);
      call_sessions (λ x _, DeleteRefreshToken x (User.ID user))
  end.
End auth.
