(* ===== verification/AuthTokens.v ===== *)
(** * Tokens: issued, used once, revoked

    The theorems on the token side of [internal/auth/auth.go], against the
    contracts of the session cache and of the JWT library. *)

From S2P Require Import Prelude GoStrings GoNum Model Interfaces Service.
From S2P Require Import MemCaches Postgres EmailCode Config Email Auth.

Section tokens.
Context `{!UnicodeTables, !MailParser, !Bcrypt, !Jwt, !Salts, !UuidSource, !Env, !AuthBackend}.
Context `{ST : !SessionTokens SessionsT, SC : !SessionContract SessionsT, UC : !UserStoreContract UsersT}.

(** The refresh token the cache may give for a user. *)
Definition stored (s : AuthService) (u tok : string) : Prop := may_give (sessions s) u tok.
Definition blacklisted (s : AuthService) (t : time) (j : string) : bool :=
  sc_black (sessions s) t j.

(** Nothing but issuing stores a token: the configuration stays, ids are drawn in
    order, a stored token stays or goes. *)
Definition forgets (s s' : AuthService) : Prop :=
  cfg s' = cfg s ∧ (uuids s ≤ uuids s')%nat ∧
  ∀ u tok, stored s' u tok → stored s u tok.

#[export] Instance forgets_preorder : PreOrder forgets.
Proof.
  split; [intros s; split_and!; auto|].
  intros s1 s2 s3 (Hc1 & Hu1 & Ht1) (Hc2 & Hu2 & Ht2). split_and!; [congruence|lia|]. auto.
Qed.

Lemma forgets_sessions s x n :
  (∀ u tok, may_give x u tok → may_give (sessions s) u tok) →
  forgets s (mkAuth (users s) x (codes s) (hook s) (cfg s) n (uuids s)).
Proof. by intros Hx. Qed.

Lemma forgets_clock : keeps forgets clock.
Proof. intros s. by split_and!; auto. Qed.
Lemma forgets_uuid : keeps forgets newUUID.
Proof. intros s. split_and!; [done|simpl; lia|by auto]. Qed.
Lemma forgets_hash p : keeps forgets (HashPassword p).
Proof. intros s. by split_and!; auto. Qed.
Lemma forgets_users {A} (m : ctx → time → SM UsersT A) : keeps forgets (call_users m).
Proof. intros s. unfold call_users. destruct (m _ _ _). by split_and!; auto. Qed.
Lemma forgets_codes {A} (m : ctx → SM CodesT A) : keeps forgets (call_codes m).
Proof.
  intros s. unfold call_codes. destruct (codes s); [|reflexivity]. destruct (m _ _).
  by split_and!; auto.
Qed.
Lemma forgets_hook : keeps forgets runAfterLogin.
Proof.
  unfold runAfterLogin. destruct afterLogin as [f|]; keeps_step. intros s. destruct (f _ _).
  by split_and!; auto.
Qed.
Lemma forgets_get u : keeps forgets (call_sessions (λ x t, GetRefreshToken x t u)).
Proof.
  intros s. unfold call_sessions.
  pose proof (GetRefreshToken_only (ctx_at (ticks s)) (now_at (ticks s)) u (sessions s)) as Hlaw.
  destruct (GetRefreshToken _ _ _ _) as [r x]. apply (forgets_sessions s x (S (ticks s))), Hlaw.
Qed.
Lemma forgets_delete u : keeps forgets (call_sessions (λ x _, DeleteRefreshToken x u)).
Proof.
  intros s. unfold call_sessions. pose proof (DeleteRefreshToken_only (ctx_at (ticks s)) u (sessions s)) as Hlaw.
  destruct (DeleteRefreshToken _ _ _) as [r x]. apply (forgets_sessions s x (S (ticks s))), Hlaw.
Qed.
Lemma forgets_is_black j : keeps forgets (call_sessions (λ x t, IsBlacklisted x t j)).
Proof.
  intros s. unfold call_sessions.
  pose proof (IsBlacklisted_only (ctx_at (ticks s)) (now_at (ticks s)) j (sessions s)) as Hlaw.
  destruct (IsBlacklisted _ _ _ _) as [r x]. apply (forgets_sessions s x (S (ticks s))), Hlaw.
Qed.
Lemma forgets_blacklist j ttl : keeps forgets (call_sessions (λ x t, BlacklistToken x t j ttl)).
Proof.
  intros s. unfold call_sessions.
  pose proof (BlacklistToken_only (ctx_at (ticks s)) (now_at (ticks s)) j ttl (sessions s)) as Hlaw.
  destruct (BlacklistToken _ _ _ _ _) as [r x]. apply (forgets_sessions s x (S (ticks s))), Hlaw.
Qed.

Create HintDb forgets.
#[local] Hint Resolve forgets_clock forgets_uuid forgets_hash forgets_users forgets_codes
  forgets_hook forgets_get forgets_delete forgets_is_black forgets_blacklist : forgets.
Ltac forgets_auto := repeat first [keeps_step | solve [auto with forgets]].

Lemma forgets_sign user ty ttl : keeps forgets (sign user ty ttl).
Proof. unfold sign. forgets_auto. Qed.
Lemma forgets_parse tok ty : keeps forgets (ParseToken tok ty).
Proof. unfold ParseToken. cbv zeta. forgets_auto. Qed.
Lemma forgets_verify email purpose code : keeps forgets (verify_code email purpose code).
Proof. unfold verify_code. forgets_auto. Qed.
Lemma forgets_absent get : keeps forgets get → keeps forgets (absent get).
Proof. intros. unfold absent. forgets_auto. Qed.
Lemma forgets_find login : keeps forgets (find_login login).
Proof. unfold find_login. forgets_auto. Qed.
Lemma forgets_logout tok : keeps forgets (logout_token tok).
Proof. unfold logout_token. forgets_auto. apply forgets_parse. Qed.

(** ** Issuing *)

(** A token signed with the [k]-th id drawn. *)
Definition minted (secret : string) (k : nat) (tok : string) : Prop :=
  ∃ c, SignedString secret c = Ok tok ∧ Claims.ID c = uuid_at k.

(** From [s] to [s'] the refresh token [tok], with an id drawn on the way, became
    the one token of user [u]; other users' tokens stay or go. *)
Definition issues (s s' : AuthService) (u tok : string) : Prop :=
  cfg s' = cfg s ∧
  (∃ k, (uuids s ≤ k < uuids s')%nat ∧ minted (AuthConfig.JWTSecret (cfg s)) k tok) ∧
  ∀ u' x, stored s' u' x → if decide (u' = u) then x = tok else stored s u' x.

Lemma forgets_issues s s1 s2 u tok : forgets s s1 → issues s1 s2 u tok → issues s s2 u tok.
Proof.
  intros (Hc1 & Hu1 & Ht1) (Hc2 & (k & Hk & Hm) & Ht2). split_and!; [congruence| |].
  - exists k. split; [lia|]. by rewrite <- Hc1.
  - intros u' x Hx. specialize (Ht2 u' x Hx). case_decide; auto.
Qed.
Lemma issues_forgets s s1 s2 u tok : issues s s1 u tok → forgets s1 s2 → issues s s2 u tok.
Proof.
  intros (Hc1 & (k & Hk & Hm) & Ht1) (Hc2 & Hu2 & Ht2). split_and!; [congruence| |].
  - exists k. split; [lia|done].
  - intros u' x Hx. by apply Ht1, Ht2.
Qed.

Lemma sign_run user ty ttl s :
  wp (sign user ty ttl) (λ r s', forgets s s' ∧
    ∀ tok exp, r = Ok (tok, exp) →
      minted (AuthConfig.JWTSecret (cfg s)) (uuids s) tok ∧ (uuids s < uuids s')%nat) s.
Proof.
  pose proof (forgets_sign user ty ttl s) as Hf. unfold wp. split; [exact Hf|]. clear Hf.
  intros tok exp. unfold sign, mbind, SM_bind, clock, newUUID, gets, of_result, mret, SM_ret.
  cbn [ticks pass_tick draw_uuid uuids cfg fst snd].
  destruct (SignedString _ _) as [tk| |] eqn:E; intros [= <- <-].
  split; [by eexists|]. simpl. lia.
Qed.

Lemma issuePair_run user s :
  wp (issuePair user) (λ r s', match r with
    | Ok tp => issues s s' (User.ID user) (TokenPair.RefreshToken tp)
    | _ => forgets s s' end) s.
Proof.
  unfold issuePair. apply wp_bind. change (wp (gets cfg) ?Q s) with (Q (Ok (cfg s)) s). cbv beta iota.
  apply wp_bind. eapply wp_mono; [apply sign_run|]. intros [[a ea]|e|h] s1 [Hf1 _]; [|done..].
  apply wp_bind. eapply wp_mono; [apply sign_run|]. intros [[b eb]|e|h] s2 [Hf2 Hm]; [|by etrans..].
  destruct (Hm b eb eq_refl) as [Hmint Hlt].
  apply wp_bind. unfold wp at 1, call_sessions.
  pose proof (SetRefreshToken_only (ctx_at (ticks s2)) (now_at (ticks s2)) (User.ID user) b
    (AuthConfig.JWTRefreshTTL (cfg s)) (sessions s2)) as Ht.
  destruct (SetRefreshToken _ _ _ _ _ _) as [r x]. cbn [fst snd].
  destruct r as [[]|e|h]; cbv iota.
  2,3: etrans; [exact Hf1|]; etrans; [exact Hf2|]; by apply (forgets_sessions s2 x (S (ticks s2))).
  apply wp_ret. simpl. eapply forgets_issues; [exact Hf1|].
  destruct Hf2 as (Hc2 & Hu2 & Ht2). destruct Hf1 as (Hc1 & Hu1 & _). split_and!.
  - simpl. congruence.
  - exists (uuids s1). simpl. split; [lia|done].
  - intros u' y Hy. specialize (Ht u' y Hy). case_decide; [done|by apply Ht2].
Qed.
(** What an operation that issues does, and one that does not. *)
Definition issued_to {A} (user_of : A → string) (pair_of : A → TokenPair.t)
    (s : AuthService) (r : result A) (s' : AuthService) : Prop :=
  match r with
  | Ok a => issues s s' (user_of a) (TokenPair.RefreshToken (pair_of a))
  | _ => forgets s s'
  end.

Context (hook_returns : ∀ f c x h, afterLogin = Some f → (f c x).1 ≠ Halt h).

Lemma hook_run s : ∃ s', runAfterLogin s = (Ok tt, s') ∧ forgets s s'.
Proof.
  pose proof (forgets_hook s) as Hf. unfold runAfterLogin in *. destruct afterLogin as [f|] eqn:E.
  - unfold ignore in *. pose proof (hook_returns f (ctx_at (ticks s)) (hook s)) as Hh.
    destruct (f _ _) as [[a|e|h] x]; [eauto..|]. by destruct (Hh h).
  - eauto.
Qed.

Lemma issue_run {A} (f : TokenPair.t → A) user user_of pair_of s0 s :
  (∀ tp, user_of (f tp) = User.ID user) → (∀ tp, pair_of (f tp) = tp) → forgets s0 s →
  wp (tokens ← issuePair user; _ ← runAfterLogin; mret (f tokens)) (issued_to user_of pair_of s0) s.
Proof.
  intros Hu Hp Hf. apply wp_bind. eapply wp_mono; [apply issuePair_run|].
  intros [tp|e|h] s1 Hi; [|change (forgets s0 s1); by etrans..].
  apply wp_bind. unfold wp at 1. destruct (hook_run s1) as (s2 & -> & Hf2). cbn [fst snd].
  apply wp_ret. unfold issued_to. rewrite Hu, Hp.
  eapply issues_forgets; [by eapply forgets_issues|done].
Qed.

(** [keeps] steps before the point where tokens are issued. *)
Lemma forgets_then {A B} (m : SM AuthService A) (k : A → SM AuthService B) u p s0 s :
  keeps forgets m → forgets s0 s →
  (∀ a s1, forgets s0 s1 → wp (k a) (issued_to u p s0) s1) →
  wp (x ← m; k x) (issued_to u p s0) s.
Proof.
  intros Hm Hf Hk. apply wp_bind. eapply wp_keeps; [exact Hm|].
  intros [a|e|h] s1 Hs1; [apply Hk; by etrans|change (forgets s0 s1); by etrans..].
Qed.

Lemma wp_refused {A} e (u : A → string) p s0 s :
  forgets s0 s → wp (throw e) (issued_to u p s0) s.
Proof. done. Qed.

Lemma Login_issues login password s :
  wp (Login login password) (issued_to (λ a, User.ID a.1) snd s) s.
Proof.
  unfold Login. cbv zeta. case_bool_decide; [apply wp_refused; reflexivity|].
  eapply forgets_then; [apply keeps_attempt, forgets_find|reflexivity|].
  intros [user|e] s1 Hf; [|destruct (errors_Is e ErrNotFound); by apply wp_refused].
  destruct (negb _); [by apply wp_refused|]. by apply issue_run.
Qed.

Lemma Register_issues e un pw code nick av s :
  wp (RegisterWithCode e un pw code nick av) (issued_to (λ a, User.ID a.1) snd s) s.
Proof.
  unfold RegisterWithCode. cbv zeta.
  eapply forgets_then; [forgets_auto|reflexivity|]. intros email s1 Hf1.
  eapply forgets_then; [forgets_auto|done|]. intros _ s2 Hf2.
  eapply forgets_then; [forgets_auto|done|]. intros _ s3 Hf3.
  eapply forgets_then; [apply forgets_verify|done|]. intros _ s4 Hf4.
  eapply forgets_then; [apply forgets_absent; auto with forgets|done|]. intros _ s5 Hf5.
  eapply forgets_then; [apply forgets_absent; auto with forgets|done|]. intros _ s6 Hf6.
  eapply forgets_then; [auto with forgets|done|]. intros hash s7 Hf7.
  eapply forgets_then; [auto with forgets|done|]. intros user s8 Hf8.
  by apply (issue_run (λ tokens, (user, tokens))).
Qed.

(** [Refresh] accepts only the token stored for a user, and replaces it. *)
Lemma Refresh_issues tok s :
  wp (Refresh tok) (λ r s', match r with
    | Ok tp => ∃ u, stored s u tok ∧ tok ≠ "" ∧ issues s s' u (TokenPair.RefreshToken tp)
    | _ => forgets s s' end) s.
Proof.
  unfold Refresh. apply wp_bind. eapply wp_keeps; [apply forgets_parse|].
  intros [claims|e|h] s1 Hf1; [|done..].
  apply wp_bind. unfold wp at 1. pose proof (forgets_get (Claims.UserID claims) s1) as Hf2.
  unfold call_sessions in *.
  pose proof (GetRefreshToken_only (ctx_at (ticks s1)) (now_at (ticks s1)) (Claims.UserID claims)
    (sessions s1)) as Hget.
  destruct (GetRefreshToken _ _ _ _) as [r x]. destruct Hget as [Hget _]. cbn [fst snd] in *.
  set (s2 := pass_tick (set_sessions x s1)) in *.
  destruct r as [st|e|h]; [|by etrans..].
  destruct (bool_decide _ || _) eqn:Hcmp; [apply wp_throw; by etrans|].
  apply orb_false_iff in Hcmp as [Hne Heq]. apply bool_decide_eq_false in Hne.
  apply negb_false_iff, bool_decide_eq_true in Heq.
  assert (forgets s s2) as Hf by by etrans.
  apply wp_bind. unfold wp at 1. pose proof (forgets_users (λ x _, UserGetByID x (Claims.UserID claims)) s2) as Hf3.
  unfold call_users in *. destruct (UserGetByID _ _ _) as [[user|e|h] y] eqn:Eu; cbn [fst snd] in *;
    [|by etrans..].
  apply UserGetByID_key in Eu.
  eapply wp_mono; [by apply (issue_run (λ tp, tp) user (λ _, User.ID user) (λ tp, tp) s); [..|etrans]|].
  intros [tp|e|h] s' Hi; [|done..]. exists (Claims.UserID claims).
  destruct (Hget st eq_refl) as [?|Hst]; [done|]. subst st.
  split_and!; [by apply Hf1|done|]. by rewrite <- Eu.
Qed.

Lemma forgets_Logout a r : keeps forgets (Logout a r).
Proof. unfold Logout. forgets_auto; apply forgets_logout. Qed.
Lemma forgets_Reset e code pw : keeps forgets (ResetPassword e code pw).
Proof. unfold ResetPassword. forgets_auto. apply forgets_verify. Qed.

(** ** Histories *)

Inductive request : Type :=
  | ALogin (login password : string)
  | ARegister (email username password code nickname avatarURL : string)
  | ARefresh (token : string)
  | ALogout (access refresh : string)
  | AReset (email code newPassword : string)
  | AParse (token type_ : string).

Definition serve (q : request) : SM AuthService (option TokenPair.t) :=
  match q with
  | ALogin l p => a ← Login l p; mret (Some a.2)
  | ARegister e u p c n av => a ← RegisterWithCode e u p c n av; mret (Some a.2)
  | ARefresh tok => tp ← Refresh tok; mret (Some tp)
  | ALogout a r => _ ← Logout a r; mret None
  | AReset e c p => _ ← ResetPassword e c p; mret None
  | AParse tok ty => _ ← ParseToken tok ty; mret None
  end.

Definition reply : Type := request * result (option TokenPair.t).
Fixpoint serve_all (qs : list request) (s : AuthService) : list reply * AuthService :=
  match qs with
  | [] => ([], s)
  | q :: qs =>
      let '(r, s1) := serve q s in
      let '(h, s2) := serve_all qs s1 in ((q, r) :: h, s2)
  end.

(** The refresh token a request used up, and the one its answer hands out. *)
Definition used_token (x : reply) : option string :=
  match x with (ARefresh tok, Ok (Some _)) => Some tok | _ => None end.
Definition handed_out (x : reply) : option string :=
  match x with (_, Ok (Some tp)) => Some (TokenPair.RefreshToken tp) | _ => None end.

Lemma serve_run q s :
  wp (serve q) (λ r s', match handed_out (q, r) with
    | None => forgets s s'
    | Some new => ∃ u, issues s s' u new ∧
        ∀ tok, used_token (q, r) = Some tok → tok ≠ "" ∧ stored s u tok end) s.
Proof.
  destruct q as [l p|e u p c n av|tok|a r|e c p|tok ty]; cbn [serve]; apply wp_bind.
  - eapply wp_mono; [apply Login_issues|]. intros [a|e|h] s' Hi; [|done..]. by exists (User.ID a.1).
  - eapply wp_mono; [apply Register_issues|]. intros [a|e'|h] s' Hi; [|done..]. by exists (User.ID a.1).
  - eapply wp_mono; [apply Refresh_issues|]. intros [tp|e|h] s'; [|done..].
    intros (u & Ht & Hne & Hi). exists u. split; [done|]. by intros tok' [= <-].
  - eapply wp_keeps; [apply forgets_Logout|]. by intros [] s' Hf.
  - eapply wp_keeps; [apply forgets_Reset|]. by intros [] s' Hf.
  - eapply wp_keeps; [apply forgets_parse|]. by intros [] s' Hf.
Qed.

Context `{!JwtLaws}.
Context (uuids_differ : ∀ i j, uuid_at i = uuid_at j → i = j)
        (uuids_valid : ∀ i, ValidString (uuid_at i) = true).

Lemma minted_unique secret k k' tok : minted secret k tok → minted secret k' tok → k = k'.
Proof.
  intros (c & Hc & Hk) (c' & Hc' & Hk'). apply uuids_differ. rewrite <- Hk, <- Hk'.
  by apply (jwt_jti secret c c' tok); rewrite ?Hk, ?Hk'.
Qed.

(** What holds after a history that used the tokens [used] and handed out the
    tokens [out]: each user has at most one token, [live], handed out and unused,
    and no two users share one. *)
Record history_ok (used out : list string) (live : gmap string string) (s : AuthService) : Prop := {
  ho_stored : ∀ u tok, stored s u tok → live !! u = Some tok;
  ho_live : ∀ u tok, live !! u = Some tok → tok ∈ out ∧ (tok ∉ used) ∧
    ∃ k, (k < uuids s)%nat ∧ minted (AuthConfig.JWTSecret (cfg s)) k tok;
  ho_inj : ∀ u u' tok, live !! u = Some tok → live !! u' = Some tok → u = u';
  ho_used : ∀ tok, tok ∈ used →
    ∃ k, (k < uuids s)%nat ∧ minted (AuthConfig.JWTSecret (cfg s)) k tok;
}.

Lemma history_forgets used out live s s' :
  history_ok used out live s → forgets s s' → history_ok used out live s'.
Proof.
  intros [I1 I2 I3 I4] (Hc & Hu & Ht). split.
  - auto.
  - intros u tok Hl. destruct (I2 u tok Hl) as (? & ? & k & Hk & Hm). split_and!; [done..|].
    exists k. split; [lia|]. by rewrite Hc.
  - done.
  - intros tok Hin. destruct (I4 tok Hin) as (k & Hk & Hm). exists k. split; [lia|]. by rewrite Hc.
Qed.

Lemma history_issues used used' out live s s' u tok :
  history_ok used out live s → issues s s' u tok →
  (∀ x, x ∈ used' ↔ (x ∈ used ∨ (x ∈ used' ∧ live !! u = Some x))) →
  history_ok used' (out ++ [tok]) (<[u := tok]> live) s'.
Proof.
  intros [I1 I2 I3 I4] (Hc & (k & [Hk1 Hk2] & Hm) & Ht) Hused.
  assert (∀ k' x, (k' < uuids s)%nat → minted (AuthConfig.JWTSecret (cfg s)) k' x → x ≠ tok) as Hfresh.
  { intros k' x Hlt Hx ->. pose proof (minted_unique _ _ _ _ Hm Hx). lia. }
  assert (∀ x, x ∈ used' → ∃ k, (k < uuids s)%nat ∧ minted (AuthConfig.JWTSecret (cfg s)) k x) as Hold.
  { intros x [Hx|[_ Hx]]%Hused; [by apply I4|]. by destruct (I2 u x Hx) as (_ & _ & ?). }
  assert (∀ u' x, u' ≠ u → live !! u' = Some x → x ≠ tok ∧ x ∉ used') as Hother.
  { intros u' x Hne Hx. destruct (I2 u' x Hx) as (_ & Hnu & k' & Hk' & Hm'). split; [by eapply Hfresh|].
    intros [Hin|[_ Hin]]%Hused; [done|]. by destruct Hne; apply (I3 _ _ x). }
  split.
  - intros u' x Hx. specialize (Ht u' x Hx). case_decide as Hu'.
    + subst u' x. apply lookup_insert_eq.
    + rewrite lookup_insert_ne by done. by apply I1.
  - intros u' x. destruct (decide (u' = u)) as [->|Hne].
    + rewrite lookup_insert_eq. intros [= <-]. split_and!; [set_solver| |].
      * intros Hin. destruct (Hold tok Hin) as (k' & Hk' & Hm'). by destruct (Hfresh k' tok Hk' Hm').
      * exists k. split; [lia|]. by rewrite Hc.
    + rewrite lookup_insert_ne by done. intros Hx. destruct (I2 u' x Hx) as (Ho & _ & k' & Hk' & Hm').
      split_and!; [set_solver|by eapply Hother|]. exists k'. split; [lia|]. by rewrite Hc.
  - intros u1 u2 x. destruct (decide (u1 = u)) as [->|Hn1], (decide (u2 = u)) as [->|Hn2];
      rewrite ?lookup_insert_eq, ?lookup_insert_ne by done; try done.
    + intros [= <-] Hx. by destruct (Hother u2 _ Hn2 Hx).
    + intros Hx [= <-]. by destruct (Hother u1 _ Hn1 Hx).
    + apply I3.
  - intros x Hin. destruct (Hold x Hin) as (k' & Hk' & Hm'). exists k'. split; [lia|]. by rewrite Hc.
Qed.

Lemma omap_app_cons {A B} (f : A → option B) x l :
  omap f (x :: l) = from_option (λ y, [y]) [] (f x) ++ omap f l.
Proof. simpl. by destruct (f x). Qed.

Lemma serve_all_once qs used out live s :
  history_ok used out live s → NoDup used →
  let '(h, s') := serve_all qs s in
  NoDup (used ++ omap used_token h) ∧
  ∀ i x tok, h !! i = Some x → used_token x = Some tok →
    tok ∈ out ∨ ∃ j y, (j < i)%nat ∧ h !! j = Some y ∧ handed_out y = Some tok.
Proof.
  revert used out live s. induction qs as [|q qs IH]; intros used out live s Hok Hnd; cbn [serve_all].
  { cbn. rewrite app_nil_r. split; [done|]. intros i x tok Hx. by rewrite lookup_nil in Hx. }
  pose proof (serve_run q s) as Hq. unfold wp in Hq.
  destruct (serve q s) as [r s1]. cbn [fst snd] in Hq.
  set (used1 := used ++ from_option (λ x, [x]) [] (used_token (q, r))).
  set (out1 := out ++ from_option (λ x, [x]) [] (handed_out (q, r))).
  assert (NoDup used1 ∧ (∃ live1, history_ok used1 out1 live1 s1) ∧
    ∀ tok, used_token (q, r) = Some tok → tok ∈ out) as (Hnd1 & (live1 & Hok1) & Hin).
  { destruct (handed_out (q, r)) as [new|] eqn:Hnew.
    - destruct Hq as (u & Hi & Hu). destruct (used_token (q, r)) as [old|] eqn:Hold.
      + destruct (Hu old eq_refl) as (Hne & Ht).
        pose proof (ho_stored _ _ _ _ Hok u old Ht) as Hl.
        destruct (ho_live _ _ _ _ Hok u old Hl) as (Ho & Hnu & _). subst used1 out1. simpl.
        split_and!; [by apply NoDup_app_snoc| |by intros tok [= <-]].
        eexists. eapply history_issues; [exact Hok|exact Hi|]. intros x. set_solver.
      + subst used1 out1. simpl. rewrite app_nil_r. split_and!; [done| |done].
        eexists. eapply history_issues; [exact Hok|exact Hi|]. intros x. set_solver.
    - assert (used_token (q, r) = None) as Hnone.
      { by destruct q, r as [[tp|]| |]. }
      subst used1 out1. rewrite Hnone. simpl. rewrite !app_nil_r. split_and!; [done| |done].
      eexists. by eapply history_forgets. }
  specialize (IH used1 out1 live1 s1 Hok1 Hnd1). destruct (serve_all qs s1) as [h s2].
  destruct IH as [IH1 IH2]. split.
  - subst used1. rewrite <- app_assoc in IH1. by rewrite omap_app_cons.
  - intros [|i] x tok Hx Hu; simpl in Hx.
    + simplify_eq. left. auto.
    + destruct (IH2 i x tok Hx Hu) as [Ho|(j & y & Hj & Hy & Hh)].
      * subst out1. apply elem_of_app in Ho as [Ho|Ho]; [by left|].
        destruct (handed_out (q, r)) as [new|] eqn:Hnew; simpl in Ho; [|by apply not_elem_of_nil in Ho].
        apply list_elem_of_singleton in Ho as ->. right. exists 0%nat, (q, r). split_and!; [lia|done..].
      * right. exists (S j), y. split_and!; [lia|done..].
Qed.

(** C8: from a service that stores no refresh token, through any sequence of logins,
    registrations, refreshes, logouts, password resets and token checks, with any
    failures of the stores and any clock, no refresh token is accepted twice, and
    every one accepted was handed out by an earlier answer. *)
Theorem refresh_single_use qs s :
  (∀ u tok, ¬ stored s u tok) →
  let h := (serve_all qs s).1 in
  NoDup (omap used_token h) ∧
  ∀ i x tok, h !! i = Some x → used_token x = Some tok →
    ∃ j y, (j < i)%nat ∧ h !! j = Some y ∧ handed_out y = Some tok.
Proof.
  intros Hnone. assert (history_ok [] [] ∅ s) as Hok.
  { split; [intros u tok Hx; by destruct (Hnone u tok)|..].
    - intros u tok Hx. by rewrite lookup_empty in Hx.
    - intros u u' tok Hx. by rewrite lookup_empty in Hx.
    - intros tok Hx. by apply not_elem_of_nil in Hx. }
  pose proof (serve_all_once qs [] [] ∅ s Hok (NoDup_nil_2)) as Hall.
  destruct (serve_all qs s) as [h s']. destruct Hall as [Hnd Hin]. cbn [fst]. split; [done|].
  intros i x tok Hx Hu. destruct (Hin i x tok Hx Hu) as [Ho|?]; [by apply not_elem_of_nil in Ho|done].
Qed.

(** ** Reading a token *)

(** What [ParseToken] answers for a token signed with the key, while the session
    cache can be asked. *)
Lemma ParseToken_run c tok ty s :
  SignedString (AuthConfig.JWTSecret (cfg s)) c = Ok tok → json_safe c = true →
  Claims.UserID c ≠ "" → Claims.ID c ≠ "" → ctx_at (S (ticks s)) = None →
  wp (ParseToken tok ty) (λ r s', forgets s s' ∧
    (∀ t j, now_at (S (ticks s)) ≤ t → blacklisted s' t j = blacklisted s t j) ∧
    r = if now_at (ticks s) <? Claims.ExpiresAt c + leeway then
          if negb (bool_decide (ty = "")) && negb (bool_decide (Claims.Type_ c = ty))
          then Err ErrInvalidToken
          else if blacklisted s (now_at (S (ticks s))) (Claims.ID c) then Err ErrInvalidToken
          else Ok c
        else Err ErrInvalidToken) s ∧
  ((ParseToken tok ty s).1 = Ok c → ticks (ParseToken tok ty s).2 = S (S (ticks s))).
Proof.
  intros Hsign Hsafe Hu Hj Hctx. pose proof (forgets_parse tok ty s) as Hf.
  destruct (jwt_compact _ _ _ Hsign) as [Hne Htrim]. unfold wp.
  enough (((∀ t j, now_at (S (ticks s)) ≤ t →
      blacklisted (ParseToken tok ty s).2 t j = blacklisted s t j) ∧
    (ParseToken tok ty s).1 = if now_at (ticks s) <? Claims.ExpiresAt c + leeway then
        if negb (bool_decide (ty = "")) && negb (bool_decide (Claims.Type_ c = ty))
        then Err ErrInvalidToken
        else if blacklisted s (now_at (S (ticks s))) (Claims.ID c) then Err ErrInvalidToken
        else Ok c
      else Err ErrInvalidToken) ∧
    ((ParseToken tok ty s).1 = Ok c → ticks (ParseToken tok ty s).2 = S (S (ticks s)))) by tauto.
  unfold ParseToken. rewrite Htrim. cbv zeta. rewrite bool_decide_false by done.
  unfold mbind, SM_bind, gets, clock. rewrite (jwt_parses _ leeway _ _ _ Hsign Hsafe).
  destruct (now_at (ticks s) <? _); [|done].
  destruct (negb _ && _); [done|]. rewrite !bool_decide_false by done. cbn [orb].
  unfold call_sessions. cbn [ticks pass_tick sessions]. rewrite Hctx.
  pose proof (IsBlacklisted_law None (now_at (S (ticks s))) (Claims.ID c) (sessions s)) as Hb.
  destruct (IsBlacklisted _ _ _ _) as [r x]. destruct Hb as (-> & _ & Hb).
  unfold blacklisted. by destruct (sc_black (sessions s) _ _).
Qed.

Lemma NewNumericDate_idem t : NewNumericDate (NewNumericDate t) = NewNumericDate t.
Proof. rewrite !jwt_seconds. unfold Second. by rewrite Z.div_mul. Qed.

Definition user_safe (u : User.t) : Prop :=
  ValidString (User.ID u) = true ∧ ValidString (User.Username u) = true ∧
  ValidString (User.Role u) = true ∧ User.ID u ≠ "".

(** The claims [sign] puts in a token. *)
Definition claims_for (u : User.t) (ty jti : string) (now : time) (ttl : Z) : Claims.t :=
  Claims.mk (User.ID u) (User.Username u) (User.Role u) ty (User.ID u) jti
    (NewNumericDate now) (NewNumericDate (now + ttl)).

Lemma claims_for_safe u ty k now ttl :
  user_safe u → ValidString ty = true → json_safe (claims_for u ty (uuid_at k) now ttl) = true.
Proof.
  intros (Hv1 & Hv2 & Hv3 & _) Hty. unfold json_safe, claims_for. simpl.
  by rewrite Hv1, Hv2, Hv3, Hty, uuids_valid, !NewNumericDate_idem, !Z.eqb_refl.
Qed.

Lemma issuePair_tokens user s tp s1 :
  issuePair user s = (Ok tp, s1) →
  let c := cfg s in
  cfg s1 = c ∧
  SignedString (AuthConfig.JWTSecret c) (claims_for user TokenTypeAccess (uuid_at (uuids s))
    (now_at (ticks s)) (AuthConfig.JWTAccessTTL c)) = Ok (TokenPair.AccessToken tp) ∧
  SignedString (AuthConfig.JWTSecret c) (claims_for user TokenTypeRefresh (uuid_at (S (uuids s)))
    (now_at (S (ticks s))) (AuthConfig.JWTRefreshTTL c)) = Ok (TokenPair.RefreshToken tp) ∧
  TokenPair.ExpiresAt tp = now_at (ticks s) + AuthConfig.JWTAccessTTL c.
Proof.
  unfold issuePair, sign, mbind, SM_bind, gets, clock, newUUID, of_result, mret, SM_ret.
  cbn [fst snd cfg ticks uuids pass_tick draw_uuid].
  destruct (SignedString _ _) as [a| |] eqn:Ea; [|done..]. cbn [cfg ticks uuids pass_tick draw_uuid].
  match goal with |- context [SignedString ?x ?y] =>
    destruct (SignedString x y) as [b| |] eqn:Eb; [|done..] end.
  match goal with |- context [call_sessions ?m ?x] =>
    destruct (call_sessions m x) as [[[]| |] s2] eqn:Ec; [|done..] end. intros [= <- <-].
  split_and!; [|done..]. unfold call_sessions in Ec. destruct (SetRefreshToken _ _ _ _ _ _).
  by simplify_eq.
Qed.

(** C9: the two tokens of an issued pair are read back as what was signed, each for
    its own use and no other: with the user's id, name and role, their own type and
    id, and the expiry their own lifetime gives, at any later time up to five seconds
    after that expiry, unless they have been revoked.  The access token is never
    accepted for refreshing, nor the refresh token for access. *)
Theorem issued_tokens_accepted user s tp s1 s2 :
  issuePair user s = (Ok tp, s1) → cfg s2 = cfg s1 → user_safe user →
  (∀ i, uuid_at i ≠ "") → ctx_at (S (ticks s2)) = None →
  let access := claims_for user "access" (uuid_at (uuids s)) (now_at (ticks s))
                  (AuthConfig.JWTAccessTTL (cfg s)) in
  let refresh := claims_for user "refresh" (uuid_at (S (uuids s))) (now_at (S (ticks s)))
                   (AuthConfig.JWTRefreshTTL (cfg s)) in
  let accepted c := (now_at (ticks s2) <? Claims.ExpiresAt c + 5 * Second) &&
                    negb (blacklisted s2 (now_at (S (ticks s2))) (Claims.ID c)) in
  (ParseToken (TokenPair.AccessToken tp) "access" s2).1 =
    (if accepted access then Ok access else Err ErrInvalidToken) ∧
  (ParseToken (TokenPair.RefreshToken tp) "refresh" s2).1 =
    (if accepted refresh then Ok refresh else Err ErrInvalidToken) ∧
  (ParseToken (TokenPair.AccessToken tp) "refresh" s2).1 = Err ErrInvalidToken ∧
  (ParseToken (TokenPair.RefreshToken tp) "access" s2).1 = Err ErrInvalidToken ∧
  TokenPair.ExpiresAt tp = now_at (ticks s) + AuthConfig.JWTAccessTTL (cfg s).
Proof.
  intros Hp Hcfg Hsafe Hids Hctx c r accepted. pose proof Hsafe as (_ & _ & _ & Huid).
  destruct (issuePair_tokens _ _ _ _ Hp) as (Hcfg1 & Ha & Hb & Hexp).
  change TokenTypeAccess with "access" in Ha. change TokenTypeRefresh with "refresh" in Hb.
  fold c in Ha. fold r in Hb. rewrite <- Hcfg1, <- Hcfg in Ha, Hb.
  assert (Hc : json_safe c = true) by (by apply claims_for_safe).
  assert (Hr : json_safe r = true) by (by apply claims_for_safe).
  destruct (ParseToken_run c _ "access" s2 Ha Hc Huid (Hids _) Hctx) as [(_ & _ & E1) _].
  destruct (ParseToken_run r _ "refresh" s2 Hb Hr Huid (Hids _) Hctx) as [(_ & _ & E2) _].
  destruct (ParseToken_run c _ "refresh" s2 Ha Hc Huid (Hids _) Hctx) as [(_ & _ & E3) _].
  destruct (ParseToken_run r _ "access" s2 Hb Hr Huid (Hids _) Hctx) as [(_ & _ & E4) _].
  rewrite E1, E2, E3, E4. unfold accepted, leeway.
  destruct (now_at (ticks s2) <? Claims.ExpiresAt c + 5 * Second),
    (now_at (ticks s2) <? Claims.ExpiresAt r + 5 * Second);
    cbn [andb Claims.Type_ c r claims_for];
    by destruct (blacklisted _ _ (Claims.ID c)), (blacklisted _ _ (Claims.ID r)).
Qed.

(** ** Logging out *)

Context (clock_mono : ∀ m n, (m ≤ n)%nat → now_at m ≤ now_at n).

(** Later, and with the same answer from now on about the token id [j]. *)
Definition same_black (j : string) (s s' : AuthService) : Prop :=
  (ticks s ≤ ticks s')%nat ∧
  ∀ t, now_at (ticks s') ≤ t → blacklisted s' t j = blacklisted s t j.

#[local] Instance same_black_preorder j : PreOrder (same_black j).
Proof.
  split; [by intros s|]. intros s1 s2 s3 [Ht1 Hb1] [Ht2 Hb2]. split; [lia|].
  intros t Ht. rewrite Hb2 by done. apply Hb1. etrans; [apply clock_mono, Ht2|done].
Qed.

(** The claims a token string is read as, at a time. *)
Definition read_as (s : AuthService) (now : time) (tok : string) : option Claims.t :=
  ParseWithClaims (AuthConfig.JWTSecret (cfg s)) leeway now (TrimSpace (TrimPrefix tok "Bearer ")).

Lemma clock_black j : keeps (same_black j) clock.
Proof. intros s. split; [simpl; lia|done]. Qed.
Lemma IsBlacklisted_black j i : keeps (same_black j) (call_sessions (λ x t, IsBlacklisted x t i)).
Proof.
  intros s. unfold call_sessions.
  pose proof (IsBlacklisted_law (ctx_at (ticks s)) (now_at (ticks s)) i (sessions s)) as Hb.
  destruct (IsBlacklisted _ _ _ _) as [r x]. destruct Hb as (_ & _ & Hb). split; [simpl; lia|].
  intros t Ht. apply Hb. etrans; [|exact Ht]. apply clock_mono. simpl. lia.
Qed.
Lemma BlacklistToken_black j i ttl :
  i ≠ j → keeps (same_black j) (call_sessions (λ x t, BlacklistToken x t i ttl)).
Proof.
  intros Hij s. unfold call_sessions.
  pose proof (BlacklistToken_law (ctx_at (ticks s)) (now_at (ticks s)) i ttl (sessions s)) as Hb.
  destruct (BlacklistToken _ _ _ _ _) as [r x]. destruct Hb as (_ & _ & Hb). split; [simpl; lia|].
  intros t Ht. unfold blacklisted. simpl. rewrite Hb.
  destruct (ctx_at (ticks s)); simpl; [done|]. by rewrite bool_decide_false.
Qed.
Lemma ParseToken_black j tok ty : keeps (same_black j) (ParseToken tok ty).
Proof.
  unfold ParseToken. cbv zeta. repeat keeps_step; [apply clock_black|apply IsBlacklisted_black].
Qed.

(** What is read is what the JWT library reads at the tick of the call. *)
Lemma ParseToken_reads tok ty s c s' :
  ParseToken tok ty s = (Ok c, s') → read_as s (now_at (ticks s)) tok = Some c.
Proof.
  unfold ParseToken, read_as. cbv zeta. case_bool_decide; [done|].
  unfold mbind, SM_bind, gets, clock. destruct (ParseWithClaims _ _ _ _) as [c1|]; [|done].
  destruct (negb _ && _); [done|]. destruct (_ || _); [done|].
  destruct (call_sessions _ _) as [[[]| |] s1]; try done. by intros [= <- _].
Qed.

Definition ticks_le (s s' : AuthService) : Prop := (ticks s ≤ ticks s')%nat.
#[local] Instance ticks_le_preorder : PreOrder ticks_le.
Proof. split; unfold ticks_le; [intros s|intros s1 s2 s3]; lia. Qed.

Lemma sessions_tick {A} (m : ctx → time → SM SessionsT A) : keeps ticks_le (call_sessions m).
Proof. intros s. unfold call_sessions, ticks_le. destruct (m _ _ _). simpl. lia. Qed.
Lemma clock_tick : keeps ticks_le clock.
Proof. intros s. unfold ticks_le. simpl. lia. Qed.

Lemma logout_later tok s : (ticks s ≤ ticks (logout_token tok s).2)%nat.
Proof.
  enough (keeps ticks_le (logout_token tok)) as Hk by exact (Hk s).
  unfold logout_token, ParseToken. cbv zeta.
  repeat keeps_step; first [apply clock_tick|apply sessions_tick].
Qed.

Lemma logout_other j tok s :
  (∀ c, read_as s (now_at (ticks s)) tok = Some c → Claims.ID c ≠ j) →
  same_black j s (logout_token tok s).2.
Proof.
  intros Hother. unfold logout_token, mbind, SM_bind, attempt.
  pose proof (ParseToken_black j tok "" s) as Hb.
  pose proof (ParseToken_reads tok "" s) as Hread.
  destruct (ParseToken tok "" s) as [[c|e|h] s1]; [|done..]. cbn [fst snd] in *.
  specialize (Hread c s1 eq_refl). etrans; [exact Hb|]. cbn [clock].
  etrans; [apply (clock_black j s1)|]. apply (BlacklistToken_black j). by apply Hother.
Qed.

(** The deadline [logout_token] gives a token it reads, [n] ticks in. *)
Definition revoked_until (n : nat) (c : Claims.t) : time :=
  let ttl := time_Sub (Claims.ExpiresAt c) (now_at (2 + n)) in
  now_at (3 + n) + (if ttl <? 0 then 0 else ttl).

Lemma logout_self c tok s :
  SignedString (AuthConfig.JWTSecret (cfg s)) c = Ok tok → json_safe c = true →
  Claims.UserID c ≠ "" → Claims.ID c ≠ "" → (∀ n, ctx_at n = None) →
  now_at (ticks s) < Claims.ExpiresAt c + leeway →
  blacklisted s (now_at (S (ticks s))) (Claims.ID c) = false →
  let s' := (logout_token tok s).2 in
  (ticks s + 4 ≤ ticks s')%nat ∧ cfg s' = cfg s ∧
  ∀ t, blacklisted s' t (Claims.ID c) = before_deadline (revoked_until (ticks s) c) t.
Proof.
  intros Hsign Hsafe Hu Hj Hctx Hexp Hb.
  destruct (ParseToken_run c tok "" s Hsign Hsafe Hu Hj (Hctx _)) as [(Hf & _ & Hr) Hticks].
  rewrite (proj2 (Z.ltb_lt _ _)) in Hr by done. cbn [negb andb] in Hr.
  rewrite bool_decide_true in Hr by done. cbn [negb andb] in Hr. rewrite Hb in Hr.
  specialize (Hticks Hr). unfold logout_token, mbind, SM_bind, attempt.
  destruct (ParseToken tok "" s) as [r1 s1]. cbn [fst snd] in *. subst r1.
  unfold clock, call_sessions. cbn [ticks pass_tick sessions]. rewrite Hctx.
  match goal with |- context [BlacklistToken ?c ?n ?j ?ttl ?x] =>
    pose proof (BlacklistToken_law c n j ttl x) as Hlaw; destruct (BlacklistToken c n j ttl x) as [r x'] end.
  destruct Hlaw as (_ & _ & Hlaw). destruct Hf as (Hcfg & _). split_and!; [simpl; lia|done|].
  intros t. unfold blacklisted. simpl. rewrite Hlaw. simpl. rewrite bool_decide_true by done.
  unfold revoked_until. by rewrite Hticks.
Qed.

Lemma revoked_until_range n m c :
  (∀ n, 0 ≤ now_at n) → (n + 4 ≤ m)%nat → now_at m < Claims.ExpiresAt c ≤ max_int64 →
  (∀ t, before_deadline (revoked_until n c) t = (t <? revoked_until n c)) ∧
  Claims.ExpiresAt c ≤ revoked_until n c ≤ Claims.ExpiresAt c + (now_at m - now_at n).
Proof.
  intros H0' Hm Hexp. assert (now_at n ≤ now_at (2 + n) ∧ now_at (2 + n) ≤ now_at (3 + n) ∧
    now_at (3 + n) ≤ now_at m) as (Hn1 & Hn2 & Hn3) by (split_and!; apply clock_mono; lia).
  pose proof (H0' n).
  assert (revoked_until n c = now_at (3 + n) + (Claims.ExpiresAt c - now_at (2 + n))) as Hd.
  { unfold revoked_until. rewrite time_Sub_small by (unfold min_int64, max_int64 in *; lia).
    by rewrite (proj2 (Z.ltb_ge _ _)) by lia. }
  rewrite Hd. split; [|lia]. intros t. unfold before_deadline, IsZero.
  by rewrite (proj2 (Z.eqb_neq _ _)) by (unfold zero_time, Second; lia).
Qed.

(** A later check of a token that was logged out at [s0]. *)
Lemma logout_then_parse c tok s s0 s1 s2 :
  SignedString (AuthConfig.JWTSecret (cfg s)) c = Ok tok → json_safe c = true →
  Claims.UserID c ≠ "" → Claims.ID c ≠ "" → (∀ n, ctx_at n = None) → (∀ n, 0 ≤ now_at n) →
  (∀ t, blacklisted s t (Claims.ID c) = false) → cfg s0 = cfg s → cfg s2 = cfg s →
  same_black (Claims.ID c) s s0 → same_black (Claims.ID c) (logout_token tok s0).2 s1 →
  same_black (Claims.ID c) s1 s2 →
  now_at (ticks s1) < Claims.ExpiresAt c ≤ max_int64 →
  ∃ d, Claims.ExpiresAt c ≤ d ≤ Claims.ExpiresAt c + (now_at (ticks s1) - now_at (ticks s)) ∧
  (ParseToken tok (Claims.Type_ c) s2).1 =
    if (now_at (ticks s2) <? Claims.ExpiresAt c + leeway) && (d <=? now_at (S (ticks s2)))
    then Ok c else Err ErrInvalidToken.
Proof.
  intros Hsign Hsafe Hu Hj Hctx Hpos Hfresh Hc0 Hc2 Hs0 Hs1 Hs2 Hexp.
  destruct Hs0 as [Ht0 Hb0]. pose proof Hs1 as [Ht1 _]. pose proof Hs2 as [Ht2 _].
  assert (now_at (ticks s0) ≤ now_at (ticks s1) ∧ now_at (ticks s) ≤ now_at (ticks s0)) as [Hn0 Hn].
  { split; apply clock_mono; [|done]. pose proof (logout_later tok s0). lia. }
  destruct (logout_self c tok s0) as (Ht & Hcfg & Hb);
    [by rewrite Hc0|done|done|done|done|unfold leeway, Second; lia| |].
  { rewrite Hb0; [apply Hfresh|]. apply clock_mono. lia. }
  destruct (revoked_until_range (ticks s0) (ticks s1) c Hpos) as [Hd Hrange]; [lia|done|].
  exists (revoked_until (ticks s0) c). split; [lia|].
  destruct (ParseToken_run c tok (Claims.Type_ c) s2) as [(_ & _ & Hr) _];
    [by rewrite Hc2|done..|]. rewrite Hr. rewrite (bool_decide_true (_ = Claims.Type_ c)) by done.
  cbn [negb]. rewrite andb_false_r.
  assert (same_black (Claims.ID c) (logout_token tok s0).2 s2) as [_ Hb2] by (by etrans).
  rewrite Hb2 by (apply clock_mono; lia). rewrite Hb, Hd, Z.leb_antisym.
  destruct (now_at (ticks s2) <? _); [|done]. by destruct (now_at (S (ticks s2)) <? _).
Qed.

End tokens.
