(* ===== verification/AuthAccounts.v ===== *)
(** * Accounts: registering, logging in, resetting a password

    The theorems on the account side of [internal/auth/auth.go], against the
    contracts of the user store and the session cache, bcrypt and the JWT
    library, for a service whose contexts stay live. *)

From S2P Require Import Prelude GoStrings GoNum Model Interfaces Service.
From S2P Require Import Postgres EmailCode Config Email Auth.

Section accounts.
Context `{!UnicodeTables, !MailParser, !Bcrypt, !Jwt, !Salts, !UuidSource, !Env, !AuthBackend}.
Context `{SC : !SessionContract SessionsT, UC : !UserStoreContract UsersT}.
Context `{BL : !BcryptLaws, JL : !JwtLaws}.
Context (live : ∀ n, ctx_at n = None).
Context (hook_returns : ∀ f c x h, afterLogin = Some f → (f c x).1 ≠ Halt h).

Definition accounts (s : AuthService) : gmap string User.t := us_view (users s).
Definition accounts_wf (s : AuthService) : Prop := us_wf (users s).

(** The accounts and the configuration stay. *)
Definition same_accounts (s s' : AuthService) : Prop :=
  cfg s' = cfg s ∧ (accounts_wf s → accounts_wf s' ∧ accounts s' = accounts s).
#[export] Instance same_accounts_preorder : PreOrder same_accounts.
Proof.
  split; [by intros s; split|]. intros s1 s2 s3 [Hc1 Hs1] [Hc2 Hs2]. split; [congruence|].
  intros Hw. destruct (Hs1 Hw) as [Hw2 Ha2]. destruct (Hs2 Hw2) as [? ?]. split; [done|congruence].
Qed.

Lemma accounts_clock : keeps same_accounts clock.
Proof. by intros s. Qed.
Lemma accounts_uuid : keeps same_accounts newUUID.
Proof. by intros s. Qed.
Lemma accounts_hash p : keeps same_accounts (HashPassword p).
Proof. by intros s. Qed.
Lemma accounts_sessions {A} (m : ctx → time → SM SessionsT A) : keeps same_accounts (call_sessions m).
Proof. intros s. unfold call_sessions. by destruct (m _ _ _). Qed.
Lemma accounts_codes {A} (m : ctx → SM CodesT A) : keeps same_accounts (call_codes m).
Proof. intros s. unfold call_codes. destruct (codes s); [|reflexivity]. by destruct (m _ _). Qed.
Lemma accounts_hook : keeps same_accounts runAfterLogin.
Proof.
  unfold runAfterLogin. destruct afterLogin as [f|]; keeps_step. intros s. by destruct (f _ _).
Qed.
Lemma accounts_sign u ty ttl : keeps same_accounts (sign u ty ttl).
Proof. unfold sign. repeat keeps_step; first [apply accounts_clock|apply accounts_uuid]. Qed.
Lemma accounts_issue u : keeps same_accounts (issuePair u).
Proof. unfold issuePair. repeat keeps_step; first [apply accounts_sign|apply accounts_sessions]. Qed.
Lemma accounts_verify e p c : keeps same_accounts (verify_code e p c).
Proof. unfold verify_code. repeat keeps_step; first [apply accounts_clock|apply accounts_codes]. Qed.

(** A call on the user store. *)
Lemma wp_call_users {A} (m : ctx → time → SM UsersT A) post Q s :
  method_law us_wf us_view None (m None (now_at (ticks s))) post → accounts_wf s →
  (∀ r s', cfg s' = cfg s → sessions s' = sessions s → codes s' = codes s → accounts_wf s' →
     post (accounts s) r (accounts s') → Q r s') →
  wp (call_users m) Q s.
Proof.
  intros Hm Hw HQ. specialize (Hm (users s) Hw). unfold wp, call_users. rewrite live.
  destruct (m None _ (users s)) as [r x]. destruct Hm as [Hx Hp]. by apply HQ.
Qed.

(** Issuing to an account and running the hook succeed. *)
Lemma issue_returns user s :
  ∃ tp s1, issuePair user s = (Ok tp, s1) ∧ TokenPair.TokenType tp = "Bearer".
Proof.
  unfold issuePair, sign, mbind, SM_bind, gets, clock, newUUID, of_result, mret, SM_ret.
  cbn [fst snd cfg ticks uuids pass_tick draw_uuid].
  match goal with |- context [SignedString ?x ?y] => destruct (jwt_signs x y) as [a ->] end.
  cbn [cfg ticks uuids pass_tick draw_uuid].
  match goal with |- context [SignedString ?x ?y] => destruct (jwt_signs x y) as [b ->] end.
  unfold call_sessions. cbn [ticks sessions pass_tick draw_uuid]. rewrite live.
  match goal with |- context [SetRefreshToken ?c ?n ?u ?t ?l ?x] =>
    pose proof (SetRefreshToken_law c n u t l x) as Hlaw;
    destruct (SetRefreshToken c n u t l x) as [r x'] end.
  destruct Hlaw as (-> & _). eauto.
Qed.

Lemma hook_returns_ok s : ∃ s', runAfterLogin s = (Ok tt, s').
Proof.
  unfold runAfterLogin. destruct afterLogin as [f|] eqn:E; [|by eexists].
  unfold ignore. pose proof (hook_returns f (ctx_at (ticks s)) (hook s)) as Hh.
  destruct (f _ _) as [[a|e|h] x]; [by eexists..|]. by destruct (Hh h).
Qed.

(** The end of every login. *)
Lemma wp_signed_in {A} (f : TokenPair.t → A) user Q s :
  (∀ tp s', TokenPair.TokenType tp = "Bearer" → same_accounts s s' → Q (Ok (f tp)) s') →
  wp (tokens ← issuePair user; _ ← runAfterLogin; mret (f tokens)) Q s.
Proof.
  intros HQ. destruct (issue_returns user s) as (tp & s1 & E1 & Hb).
  destruct (hook_returns_ok s1) as (s2 & E2).
  unfold wp, mbind, SM_bind. rewrite E1, E2. apply HQ; [done|].
  pose proof (accounts_issue user s) as K1. pose proof (accounts_hook s1) as K2.
  rewrite E1 in K1. rewrite E2 in K2. by etrans.
Qed.

(** ** Logging in *)

(** The account a (trimmed) login names: by address when it has an "@". *)
Definition login_names (login : string) (u : User.t) : Prop :=
  if ContainsByte login at_sign
  then ∃ e, normalizeEmail login = Ok e ∧ us_lower (User.Email u) = us_lower e
  else us_lower (User.Username u) = us_lower (normalizeUsername login).

Lemma find_login_run login s :
  accounts_wf s →
  wp (find_login login) (λ r s', same_accounts s s' ∧ match r with
    | Ok u => accounts s !! User.ID u = Some u ∧ login_names login u
    | Err e => (e = ErrNotFound ∨ e = ErrInvalidCredentials) ∧
               ∀ id u, accounts s !! id = Some u → ¬ login_names login u
    | Halt _ => False end) s.
Proof.
  intros Hw. unfold find_login, login_names. destruct (ContainsByte login at_sign).
  - destruct (normalizeEmail login) as [e| |] eqn:E.
    2,3: apply wp_throw; (split; [reflexivity|]); split; [by right|]; intros id u _ (e' & [=] & _).
    eapply wp_call_users; [apply UserGetByEmail_law|done|].
    intros r s' Hc _ _ Hw' [Hv [(u & -> & Hu & Hl)|[-> Hno]]]; (split; [by split|]).
    + split; [done|]. by exists e.
    + split; [by left|]. intros id u Hu (e' & [= <-] & Hl). by eapply Hno.
  - eapply wp_call_users; [apply UserGetByUsername_law|done|].
    intros r s' Hc _ _ Hw' [Hv [(u & -> & Hu & Hl)|[-> Hno]]]; (split; [by split|]); [done|].
    split; [by left|]. intros id u Hu Hl. by eapply Hno.
Qed.

(** What a login answers. *)
Definition login_result (login password : string) (s : AuthService) (r : result (User.t * TokenPair.t)) : Prop :=
  match r with
  | Ok (u, tp) => accounts s !! User.ID u = Some u ∧ login_names (TrimSpace login) u ∧
      CheckPassword (User.PasswordHash u) password = true ∧ TokenPair.TokenType tp = "Bearer"
  | Err e => e = ErrInvalidCredentials ∧
      (TrimSpace login = "" ∨
       (∀ id u, accounts s !! id = Some u → ¬ login_names (TrimSpace login) u) ∨
       ∃ u, accounts s !! User.ID u = Some u ∧ login_names (TrimSpace login) u ∧
            CheckPassword (User.PasswordHash u) password = false)
  | Halt _ => False
  end.
Lemma Login_run login password s : accounts_wf s →
  wp (Login login password) (λ r s', same_accounts s s' ∧ login_result login password s r) s.
Proof.
  intros Hw. unfold Login. cbv zeta. case_bool_decide as Hl; [apply wp_throw; split; [reflexivity|cbn; auto]|].
  apply wp_bind, wp_attempt. eapply wp_mono; [by apply find_login_run|].
  intros [u|e|h] s1 [Hs1 Hr]; [| |done].
  - destruct Hr as [Hu Hn]. destruct (CheckPassword _ _) eqn:Hp; cbn [negb].
    + apply wp_signed_in. intros tp s2 Hb Hs2. split; [by etrans|done].
    + apply wp_throw. split; [done|]. split; [done|]. right. right. by exists u.
  - destruct Hr as [[-> | ->] Hno]; cbn; (split; [done|]); (split; [done|]); auto.
Qed.


(** ** Codes *)

(** What the code store answers a check made at this point, and the store after it. *)
Definition code_check (s : AuthService) (email purpose code : string) : option (result unit * CodesT) :=
  (λ x, code_verify None email purpose code (AuthConfig.EmailCodeMaxAttempts (cfg s))
          (now_at (ticks s)) x) <$> codes s.

Lemma verify_code_run email purpose code s :
  wp (verify_code email purpose code) (λ r s', same_accounts s s' ∧ sessions s' = sessions s ∧
    match code_check s email purpose code with
    | None => r = Err (ErrNew "auth: verification store not configured") ∧ codes s' = None
    | Some (r0, x) => r = r0 ∧ codes s' = Some x
    end) s.
Proof.
  pose proof (accounts_verify email purpose code s) as Hs. unfold wp. split; [exact Hs|]. clear Hs.
  unfold verify_code, code_check, mbind, SM_bind, gets, clock, throw.
  destruct (codes s) as [x|] eqn:E; cbn [negb fmap option_fmap option_map]; [|done].
  unfold call_codes. cbn [codes pass_tick ticks]. rewrite E, live.
  by destruct (code_verify _ _ _ _ _ _ _).
Qed.

(** ** Resetting a password *)

(** What a reset answers, and what it leaves. *)
Definition reset_result (email code newPassword : string) (s s' : AuthService) (r : result unit) : Prop :=
  match r with
  | Ok _ => validatePassword newPassword = Ok tt ∧
      ∃ e x u u', normalizeEmail email = Ok e ∧
        code_check s e PurposeResetPassword code = Some (Ok tt, x) ∧
        accounts s !! User.ID u = Some u ∧ us_lower (User.Email u) = us_lower e ∧
        User.ID u' = User.ID u ∧ accounts s' = <[User.ID u := u']> (accounts s) ∧
        CheckPassword (User.PasswordHash u') newPassword = true ∧
        (∀ t, sc_token (sessions s') t (User.ID u) = "") ∧
        User.Email u' = User.Email u ∧ User.Username u' = User.Username u
  | _ => accounts s' = accounts s
  end.
Lemma ResetPassword_run email code newPassword s : accounts_wf s →
  wp (ResetPassword email code newPassword)
    (λ r s', accounts_wf s' ∧ reset_result email code newPassword s s' r) s.
Proof.
  intros Hw. unfold reset_result.
  unfold ResetPassword. apply wp_bind. unfold wp at 1, of_result. cbn [fst snd].
  destruct (normalizeEmail email) as [e| |] eqn:Ee; [|done..].
  apply wp_bind. unfold wp at 1. cbn [fst snd].
  destruct (validatePassword newPassword) as [[]| |] eqn:Ep; [|done..].
  apply wp_bind. eapply wp_mono; [apply verify_code_run|]. intros r s1 (Hs1 & _ & Hcode).
  destruct Hs1 as [_ Hs1]. destruct (Hs1 Hw) as [Hw1 Ha1].
  destruct r as [[]|er|h]; [|done..].
  destruct (code_check s e PurposeResetPassword code) as [[r0 x]|] eqn:Ec; [|by destruct Hcode].
  destruct Hcode as [<- _].
  apply wp_bind, wp_attempt. eapply wp_call_users; [apply UserGetByEmail_law|done|].
  intros r s2 _ _ _ Hw2 [Ha2 [(u & -> & Hu & Hl)|[-> _]]]; cbv iota.
  2: { split; [done|]. exact (eq_trans Ha2 Ha1). }
  apply wp_bind. unfold wp at 1, HashPassword. cbn [fst snd].
  destruct (GenerateFromPassword _ newPassword) as [hash| |] eqn:Eh; [|split; [done|exact (eq_trans Ha2 Ha1)]..].
  destruct (bcrypt_ok _ _ _ Eh) as [_ Hcheck].
  apply wp_bind. eapply wp_call_users; [apply UserUpdate_law|done|].
  intros r s3 _ _ _ Hw3 [(u' & old & row & -> & _ & Hid & Hrow & Hhash & Hem & Hun & Ha3)|(e3 & -> & Ha3)].
  2: { split; [done|]. exact (eq_trans Ha3 (eq_trans Ha2 Ha1)). }
  unfold wp, call_sessions. rewrite live.
  pose proof (DeleteRefreshToken_law None (User.ID u') (sessions s3)) as Hdel.
  destruct (DeleteRefreshToken _ _ _) as [r y]. destruct Hdel as (-> & _ & Hdel). cbn [fst snd].
  split; [done|]. split; [done|]. exists e, x, u, row. cbn in Hid, Hrow, Hhash, Hem, Hun.
  assert (accounts s1 = accounts s) as Haa by done. rewrite Haa in Hu.
  split_and!; [done|done|done|done|done| | | |done|done].
  - change (accounts s3 = <[User.ID u := row]> (accounts s)).
    refine (eq_trans Ha3 _). cbn. f_equal. exact (eq_trans Ha2 Ha1).
  - rewrite Hhash. exact Hcheck.
  - intros t. cbn [sessions pass_tick set_sessions]. rewrite Hdel. cbn [live_and].
    by rewrite Hid, bool_decide_true.
Qed.

(** C13: a password reset succeeds only with a valid new password and a code the store
    accepts; it then gives the account of that address a hash the new password
    matches, changes no other account, and leaves no refresh token stored for it.
    One that fails changes no account.  All this while the contexts stay live. *)
Theorem ResetPassword_correct email code newPassword s :
  accounts_wf s →
  let '(r, s') := ResetPassword email code newPassword s in
  accounts_wf s' ∧
  match r with
  | Ok _ => validatePassword newPassword = Ok tt ∧
      ∃ e x u u', normalizeEmail email = Ok e ∧
        code_check s e PurposeResetPassword code = Some (Ok tt, x) ∧
        accounts s !! User.ID u = Some u ∧ us_lower (User.Email u) = us_lower e ∧
        User.ID u' = User.ID u ∧ accounts s' = <[User.ID u := u']> (accounts s) ∧
        CheckPassword (User.PasswordHash u') newPassword = true ∧
        ∀ t, sc_token (sessions s') t (User.ID u) = ""
  | _ => accounts s' = accounts s
  end.
Proof.
  intros Hw. pose proof (ResetPassword_run email code newPassword s Hw) as Hwp. unfold wp in Hwp.
  destruct (ResetPassword email code newPassword s) as [[a|e|h] s']; destruct Hwp as [Hw' Hr]; [|done..].
  split; [done|]. destruct Hr as (Hp & e & x & u & u' & ? & ? & ? & ? & ? & ? & ? & ? & _).
  split; [done|]. by exists e, x, u, u'.
Qed.

(** ** Registering *)

(** [absent]: nobody is found, or the conflict. *)
Definition unused (field : User.t → string) (x : string) (s : AuthService) : Prop :=
  ∀ id u, accounts s !! id = Some u → us_lower (field u) ≠ us_lower x.

Lemma absent_run (get : ctx → SM UsersT User.t) field x s :
  method_law us_wf us_view None (get None) (λ v res v', v' = v ∧
     ((∃ u, res = Ok u ∧ v !! User.ID u = Some u ∧ us_lower (field u) = us_lower x) ∨
      (res = Err ErrNotFound ∧ ∀ id u, v !! id = Some u → us_lower (field u) ≠ us_lower x))) →
  accounts_wf s →
  wp (absent (call_users (λ c _, get c))) (λ r s', accounts_wf s' ∧ accounts s' = accounts s ∧
    codes s' = codes s ∧
    (r = Ok tt ∧ unused field x s ∨ r = Err ErrConflict ∧ ¬ unused field x s)) s.
Proof.
  intros Hlaw Hw. unfold absent. apply wp_bind, wp_attempt.
  eapply wp_call_users; [apply Hlaw|done|]. intros r s' _ _ Hc Hw' [Ha [(u & -> & Hu & Hl)|[-> Hno]]].
  - apply wp_throw. split_and!; [done..|]. right. split; [done|]. intros Hn. by apply (Hn _ u Hu).
  - apply wp_ret. split_and!; [done..|]. by left.
Qed.

(** The checks of a registration that come before the password is hashed, and the
    code store [x] after them. *)
Definition may_register (email username password code : string) (s : AuthService)
    (emailNorm : string) (x : CodesT) : Prop :=
  normalizeEmail email = Ok emailNorm ∧ usernameCharset (normalizeUsername username) = true ∧
  validatePassword password = Ok tt ∧
  code_check s emailNorm PurposeRegister code = Some (Ok tt, x) ∧
  unused User.Email emailNorm s ∧ unused User.Username (normalizeUsername username) s.

Lemma register_checks {A} email username password code (k : string → SM AuthService A) Q s :
  accounts_wf s →
  (∀ r s', (∀ e x, ¬ may_register email username password code s e x) → (∀ a, r ≠ Ok a) →
     accounts_wf s' → accounts s' = accounts s → Q r s') →
  (∀ e x s', accounts_wf s' → accounts s' = accounts s → codes s' = Some x →
     may_register email username password code s e x → wp (k e) Q s') →
  wp (emailNorm ← of_result (normalizeEmail email);
      _ ← of_result (validateUsername (normalizeUsername username));
      _ ← of_result (validatePassword password);
      _ ← verify_code emailNorm PurposeRegister code;
      _ ← absent (call_users (λ x _, UserGetByEmail x emailNorm));
      _ ← absent (call_users (λ x _, UserGetByUsername x (normalizeUsername username)));
      k emailNorm) Q s.
Proof.
  intros Hw Hfail Hk.
  apply wp_bind. unfold wp at 1, of_result. cbn [fst snd].
  destruct (normalizeEmail email) as [e|e|h] eqn:Ee; [|apply Hfail; try done; intros ?? [??]; congruence..].
  apply wp_bind. unfold wp at 1. cbn [fst snd]. unfold validateUsername.
  destruct (usernameCharset _) eqn:Eu; cbn [negb]; [|apply Hfail; try done; intros ?? (?&?&?); congruence].
  apply wp_bind. unfold wp at 1. cbn [fst snd].
  destruct (validatePassword password) as [[]|e1|h] eqn:Ep;
    [|apply Hfail; try done; intros ?? (?&?&?&?); congruence..].
  apply wp_bind. eapply wp_mono; [apply verify_code_run|].
  intros r s1 ([_ Hs1] & _ & Hcode). destruct (Hs1 Hw) as [Hw1 Ha1].
  assert (∀ a x, may_register email username password code s a x → r = Ok tt ∧ codes s1 = Some x) as Hcode'.
  { intros a x (? & _ & _ & Hc & _). assert (a = e) as -> by congruence. by rewrite Hc in Hcode. }
  destruct r as [[]|e1|h]; [|apply Hfail; try done; intros a x Hm; by destruct (Hcode' a x Hm)..].
  destruct (code_check s e PurposeRegister code) as [[r0 x]|] eqn:Ec; [|by destruct Hcode].
  destruct Hcode as [<- Hx].
  apply wp_bind. eapply wp_mono; [by apply (absent_run _ User.Email e); [intros; apply UserGetByEmail_law|]|].
  unfold unused. intros r s2 (Hw2 & Ha2 & Hc2 & Hr2). rewrite Ha1 in Hr2. fold (unused User.Email e s) in Hr2.
  destruct Hr2 as [[-> Hno1]|[-> Hno1]].
  2: { apply Hfail; [|done|congruence|congruence]. intros a y (? & _ & _ & _ & Hun & _).
       assert (a = e) as -> by congruence. by apply Hno1. }
  apply wp_bind. eapply wp_mono;
    [by apply (absent_run _ User.Username (normalizeUsername username)); [intros; apply UserGetByUsername_law|]|].
  unfold unused. intros r s3 (Hw3 & Ha3 & Hc3 & Hr3). rewrite Ha2, Ha1 in Hr3.
  fold (unused User.Username (normalizeUsername username) s) in Hr3.
  destruct Hr3 as [[-> Hno2]|[-> Hno2]].
  2: { apply Hfail; [|done|congruence|congruence]. intros a y (_ & _ & _ & _ & _ & Hun). by apply Hno2. }
  apply (Hk e x); [done|congruence|congruence|]. by split_and!.
Qed.

(** What a registration answers, and what it leaves. *)
Definition register_result (email username password code : string) (s s' : AuthService)
    (r : result (User.t * TokenPair.t)) : Prop :=
  match r with
  | Ok (u, tp) => accounts s !! User.ID u = None ∧ accounts s' = <[User.ID u := u]> (accounts s) ∧
      normalizeEmail email = Ok (User.Email u) ∧
      User.Username u = normalizeUsername username ∧ usernameCharset (User.Username u) = true ∧
      validatePassword password = Ok tt ∧ CheckPassword (User.PasswordHash u) password = true ∧
      User.Role u = UserRoleUser ∧
      (∃ x, code_check s (User.Email u) PurposeRegister code = Some (Ok tt, x)) ∧
      unused User.Email (User.Email u) s ∧ unused User.Username (User.Username u) s
  | _ => accounts s' = accounts s
  end.
Lemma Register_run email username password code nickname avatarURL s : accounts_wf s →
  wp (RegisterWithCode email username password code nickname avatarURL)
    (λ r s', accounts_wf s' ∧ register_result email username password code s s' r) s.
Proof.
  intros Hw. unfold register_result.
  unfold RegisterWithCode. cbv zeta. apply register_checks; [done|..].
  { intros [a| |] s' _ Hr Hw' Ha'; [by destruct (Hr a)|done..]. }
  intros e x s1 Hw1 Ha1 _ (He & Hu & Hp & Hc & Hn1 & Hn2).
  apply wp_bind. unfold wp at 1, HashPassword. cbn [fst snd].
  destruct (GenerateFromPassword _ password) as [hash| |] eqn:Eh; [|by split..].
  destruct (bcrypt_ok _ _ _ Eh) as [_ Hcheck].
  apply wp_bind. eapply wp_call_users; [apply UserCreate_law|done|].
  intros r s2 _ _ _ Hw2 [(u & -> & Hfree & Ha2 & Hem & Hun & Hha & _ & _ & Hro)|(e2 & -> & Ha2)].
  2: { split; [done|]. exact (eq_trans Ha2 Ha1). }
  cbn in Hem, Hun, Hha, Hro. change (accounts s1 !! User.ID u = None) in Hfree.
  change (accounts s2 = <[User.ID u := u]> (accounts s1)) in Ha2. rewrite Ha1 in Ha2, Hfree.
  apply wp_signed_in. intros tp s3 _ [_ Hs3]. destruct (Hs3 Hw2) as [Hw3 Ha3].
  split; [done|]. rewrite Hem, Hun, Hha. split_and!; try done; [congruence|by eexists].
Qed.

(** C11: a registration succeeds only with a valid address, name and password and a
    code the store accepts for that address, when no account has the address or the
    name; it adds exactly one account, a plain user's, under the normalized address
    and name, with a hash the password matches.  One that fails adds none.  All this
    while the contexts stay live and the hook returns: when the session cache fails
    after the account has been created, the registration reports that failure and
    the account stays ([failed_registration_keeps_account]). *)
Theorem RegisterWithCode_correct email username password code nickname avatarURL s :
  accounts_wf s →
  let '(r, s') := RegisterWithCode email username password code nickname avatarURL s in
  match r with
  | Ok (u, tp) => accounts s !! User.ID u = None ∧ accounts s' = <[User.ID u := u]> (accounts s) ∧
      normalizeEmail email = Ok (User.Email u) ∧
      User.Username u = normalizeUsername username ∧ usernameCharset (User.Username u) = true ∧
      validatePassword password = Ok tt ∧ CheckPassword (User.PasswordHash u) password = true ∧
      User.Role u = UserRoleUser ∧
      (∃ x, code_check s (User.Email u) PurposeRegister code = Some (Ok tt, x)) ∧
      unused User.Email (User.Email u) s ∧ unused User.Username (User.Username u) s
  | _ => accounts s' = accounts s
  end.
Proof.
  intros Hw. pose proof (Register_run email username password code nickname avatarURL s Hw) as Hwp.
  unfold wp in Hwp. by destruct (RegisterWithCode _ _ _ _ _ _ s) as [r s']; destruct Hwp.
Qed.

(** A password of 73 to 128 bytes passes the check of its form but cannot be
    hashed: such a registration always fails, and when its code was right, the
    code has been used up all the same. *)
Theorem long_password_burns_code email username password code nickname avatarURL s :
  accounts_wf s → 72 < len password →
  let '(r, s') := RegisterWithCode email username password code nickname avatarURL s in
  (∀ a, r ≠ Ok a) ∧ accounts s' = accounts s ∧
  ∀ e x, validatePassword password = Ok tt → normalizeEmail email = Ok e →
    usernameCharset (normalizeUsername username) = true →
    unused User.Email e s → unused User.Username (normalizeUsername username) s →
    code_check s e PurposeRegister code = Some (Ok tt, x) →
    codes s' = Some x.
Proof.
  intros Hw Hlen. enough (wp (RegisterWithCode email username password code nickname avatarURL)
    (λ r s', (∀ a, r ≠ Ok a) ∧ accounts s' = accounts s ∧
      ∀ e x, may_register email username password code s e x → codes s' = Some x) s) as Hwp.
  { unfold wp in Hwp. destruct (RegisterWithCode _ _ _ _ _ _ s) as [r s'].
    destruct Hwp as (? & ? & Hc). split_and!; [done..|]. intros. by apply (Hc e). }
  unfold RegisterWithCode. cbv zeta. apply register_checks; [done|..].
  { intros r s' Hno Hr _ Ha. split_and!; [done..|]. intros e x Hm. by destruct (Hno e x). }
  intros e x s1 _ Ha1 Hx Hm. apply wp_bind. unfold wp at 1, HashPassword. cbn [fst snd].
  destruct (bcrypt_long (salt_at (ticks s1)) password Hlen) as [er ->].
  split_and!; [done..|]. intros e' x' Hm'. destruct Hm as (He & _ & _ & Hc & _), Hm' as (He' & _ & _ & Hc' & _).
  cbn. congruence.
Qed.
End accounts.
