(* ===== verification/AccountLife.v ===== *)
(** * The life of an account

    Registering, then any other requests to the account service, then logging in:
    an account that was made stays reachable by its name and its address with its
    password, and with no other, until the password of that address is reset. *)

From S2P Require Import Prelude GoStrings GoNum Model Interfaces Service.
From S2P Require Import Postgres EmailCode Config Email Auth AuthTokens AuthAccounts.

Section life.
Context `{!UnicodeTables, !MailParser, !Bcrypt, !Jwt, !Salts, !UuidSource, !Env, !AuthBackend}.
Context `{SC : !SessionContract SessionsT, UC : !UserStoreContract UsersT}.
Context `{BL : !BcryptLaws, JL : !JwtLaws}.
Context (live : ∀ n, ctx_at n = None).
Context (hook_returns : ∀ f c x h, afterLogin = Some f → (f c x).1 ≠ Halt h).

(** No two accounts share an address or a name. *)
Definition names_unique (s : AuthService) : Prop :=
  ∀ i j u v, accounts s !! i = Some u → accounts s !! j = Some v →
    us_lower (User.Email u) = us_lower (User.Email v) ∨
    us_lower (User.Username u) = us_lower (User.Username v) → i = j.
Definition tidy (s : AuthService) : Prop := accounts_wf s ∧ names_unique s.
Definition has_account (u : User.t) (s : AuthService) : Prop := accounts s !! User.ID u = Some u.

Lemma tidy_same s s' : same_accounts s s' → tidy s → tidy s' ∧ accounts s' = accounts s.
Proof.
  intros [_ Hs] [Hw Hn]. destruct (Hs Hw) as [Hw' Ha]. split; [split; [done|]|done].
  unfold names_unique. by rewrite Ha.
Qed.

Lemma tidy_eq u s s' : tidy s → has_account u s → accounts_wf s' → accounts s' = accounts s →
  tidy s' ∧ has_account u s'.
Proof. intros [_ Hn] Hu Hw Ha. unfold tidy, names_unique, has_account. by rewrite !Ha. Qed.

(** ** Every request keeps the accounts tidy *)

(** Requests that are not about accounts. *)
Ltac accounts_auto := repeat (keeps_step || first
  [apply accounts_clock|apply accounts_uuid|apply accounts_hash|apply accounts_sessions
  |apply accounts_codes|apply accounts_hook|apply accounts_issue|eassumption]).
Lemma accounts_parse tok ty : keeps same_accounts (ParseToken tok ty).
Proof. unfold ParseToken. cbv zeta. accounts_auto. Qed.
Lemma accounts_get_user id : keeps same_accounts (call_users (λ x _, UserGetByID x id)).
Proof.
  intros s. split; [unfold call_users; by destruct (UserGetByID _ _ _)|]. intros Hw.
  change (wp (call_users (λ x _, UserGetByID x id)) (λ _ s', accounts_wf s' ∧ accounts s' = accounts s) s).
  eapply wp_call_users; [done|apply UserGetByID_law|done|]. by intros r s' _ _ _ Hw' [_ Ha].
Qed.
Lemma accounts_refresh tok : keeps same_accounts (Refresh tok).
Proof. unfold Refresh. accounts_auto; first [apply accounts_parse|apply accounts_get_user]. Qed.
Lemma accounts_logout a r : keeps same_accounts (Logout a r).
Proof. unfold Logout, logout_token. accounts_auto; apply accounts_parse. Qed.

(** A registration adds a fresh name; a reset keeps the names. *)
Lemma tidy_insert u s s' : tidy s → accounts_wf s' → accounts s' = <[User.ID u := u]> (accounts s) →
  (∀ j v, accounts s !! j = Some v → j ≠ User.ID u →
     us_lower (User.Email u) ≠ us_lower (User.Email v) ∧
     us_lower (User.Username u) ≠ us_lower (User.Username v)) → tidy s'.
Proof.
  intros [_ Hn] Hw' Ha Hu. split; [done|]. intros i j x y. rewrite Ha.
  intros [(<- & <-)|[Hi Hx]]%lookup_insert_Some [(<- & <-)|[Hj Hy]]%lookup_insert_Some Hxy; try done.
  - destruct (Hu j y Hy) as [Hne1 Hne2]; [done|]. by destruct Hxy.
  - destruct (Hu i x Hx) as [Hne1 Hne2]; [done|]. by destruct Hxy.
  - by apply (Hn i j x y).
Qed.

(** A reset of the password of another address. *)
Definition spares (u : User.t) (q : request) : Prop :=
  match q with
  | AReset email _ _ => ∀ e, normalizeEmail email = Ok e → us_lower e ≠ us_lower (User.Email u)
  | _ => True
  end.

Lemma tidy_after {A} (m : SM AuthService A) (f : A → option TokenPair.t) u s :
  tidy s → has_account u s → same_accounts s (m s).2 →
  tidy ((x ← m; mret (f x)) s).2 ∧ has_account u ((x ← m; mret (f x)) s).2.
Proof.
  intros Ht Hu Hm. unfold mbind, SM_bind, mret, SM_ret.
  destruct (m s) as [[a|e|h] s1]; cbn [snd] in *; destruct (tidy_same s s1 Hm Ht) as [Ht1 Ha1];
    (split; [done|]); unfold has_account; by rewrite Ha1.
Qed.
Lemma bind_ret_state {S A B} (m : SM S A) (f : A → B) s : ((x ← m; mret (f x)) s).2 = (m s).2.
Proof. unfold mbind, SM_bind, mret, SM_ret. by destruct (m s) as [[]]. Qed.

Lemma register_keeps u e n p c ni av s : tidy s → has_account u s →
  tidy (RegisterWithCode e n p c ni av s).2 ∧ has_account u (RegisterWithCode e n p c ni av s).2.
Proof.
  intros Ht Hu. pose proof (Register_run live hook_returns e n p c ni av s (proj1 Ht)) as [Hw' Hr].
  destruct (RegisterWithCode e n p c ni av s) as [[[v tp]|er|h] s']; cbn [fst snd] in *.
  - destruct Hr as (Hfree & Ha & _ & _ & _ & _ & _ & _ & _ & Hue & Hun). split.
    + apply (tidy_insert v s s' Ht Hw' Ha). intros j x Hx _. split; [by apply not_eq_sym, (Hue j x)|by apply not_eq_sym, (Hun j x)].
    + unfold has_account in *. rewrite Ha, lookup_insert_ne; [done|]. intros E. rewrite E in Hfree. congruence.
  - by apply (tidy_eq u s).
  - by apply (tidy_eq u s).
Qed.
Lemma reset_keeps u e c p s : tidy s → has_account u s → spares u (AReset e c p) →
  tidy (ResetPassword e c p s).2 ∧ has_account u (ResetPassword e c p s).2.
Proof.
  intros Ht Hu Hq. pose proof (ResetPassword_run live e c p s (proj1 Ht)) as [Hw' Hr].
  destruct (ResetPassword e c p s) as [[a|er|h] s']; cbn [fst snd] in *; [|by apply (tidy_eq u s)..].
  destruct Hr as (_ & e' & x & v & v' & He & _ & Hv & Hl & Hid & Ha & _ & _ & Hem & Hun).
  assert (User.ID v ≠ User.ID u) as Hne.
  { intros E. unfold has_account in Hu. rewrite <- E, Hv in Hu. injection Hu as ->. by apply (Hq e' He). }
  rewrite <- Hid in Ha. split.
  - apply (tidy_insert v' s s' Ht Hw' Ha). rewrite Hem, Hun, Hid. intros j y Hy Hj.
    destruct Ht as [_ Hn]. specialize (Hn _ _ _ _ Hv Hy). split; intros E; apply Hj; symmetry; apply Hn; auto.
  - unfold has_account. by rewrite Ha, Hid, lookup_insert_ne.
Qed.

Lemma serve_keeps u q s : tidy s → has_account u s → spares u q →
  tidy (serve q s).2 ∧ has_account u (serve q s).2.
Proof.
  intros Ht Hu Hq. destruct q as [l p|e n p c ni av|tok|a r|e c p|tok ty]; cbn [serve].
  - apply tidy_after; [done..|]. apply (Login_run live hook_returns l p s (proj1 Ht)).
  - rewrite bind_ret_state. by apply register_keeps.
  - apply tidy_after; [done..|]. apply accounts_refresh.
  - apply tidy_after; [done..|]. apply accounts_logout.
  - rewrite bind_ret_state. by apply reset_keeps.
  - apply tidy_after; [done..|]. apply accounts_parse.
Qed.
Lemma serve_all_keeps u qs : ∀ s, tidy s → has_account u s → Forall (spares u) qs →
  tidy (serve_all qs s).2 ∧ has_account u (serve_all qs s).2.
Proof.
  induction qs as [|q qs IH]; intros s Ht Hu Hqs; [done|]. apply list.Forall_cons in Hqs as [Hq Hqs].
  cbn [serve_all]. destruct (serve_keeps u q s Ht Hu Hq) as [Ht1 Hu1].
  destruct (serve q s) as [r s1]. cbn [snd] in *. specialize (IH s1 Ht1 Hu1 Hqs).
  by destruct (serve_all qs s1) as [h s2].
Qed.

(** ** Logging in *)

Lemma names_one s login u v : names_unique s → has_account u s → has_account v s →
  login_names login u → login_names login v → v = u.
Proof.
  unfold login_names, has_account. intros Hn Hu Hv Lu Lv. assert (User.ID v = User.ID u) as E.
  { apply (Hn _ _ _ _ Hv Hu). destruct (ContainsByte login at_sign).
    - left. destruct Lu as (e & He & ->), Lv as (e' & He' & ->). congruence.
    - right. congruence. }
  rewrite E in Hv. congruence.
Qed.

Lemma login_of s u login password : tidy s → has_account u s →
  TrimSpace login ≠ "" → login_names (TrimSpace login) u →
  (Login login password s).1 = Err ErrInvalidCredentials ∧ CheckPassword (User.PasswordHash u) password = false ∨
  ∃ tp, (Login login password s).1 = Ok (u, tp) ∧ CheckPassword (User.PasswordHash u) password = true.
Proof.
  intros [Hw Hn] Hu Hne Hl. pose proof (Login_run live hook_returns login password s Hw) as [_ Hr].
  unfold login_result in Hr. destruct (Login login password s) as [[[v tp]|e|h] s']; cbn [fst] in *; [| |done].
  - destruct Hr as (Hv & Lv & Hp & _). assert (v = u) as -> by (by apply (names_one s (TrimSpace login))).
    right. by exists tp.
  - destruct Hr as [-> [E|[Hno|(v & Hv & Lv & Hp)]]]; [done|by destruct (Hno _ _ Hu)|].
    assert (v = u) as -> by (by apply (names_one s (TrimSpace login))). by left.
Qed.

(** What was typed at the registration names the account. *)
Lemma typed_names e n u : normalizeEmail e = Ok (User.Email u) → User.Username u = normalizeUsername n →
  usernameCharset (User.Username u) = true →
  (ContainsByte (TrimSpace n) at_sign = false → TrimSpace n ≠ "" ∧ login_names (TrimSpace n) u) ∧
  (ContainsByte (TrimSpace e) at_sign = true → TrimSpace e ≠ "" ∧ login_names (TrimSpace e) u).
Proof.
  intros He Hn Hc. split; intros Ha.
  - split.
    + intros E. unfold normalizeUsername in Hn. rewrite E in Hn. by rewrite Hn in Hc.
    + unfold login_names. rewrite Ha. unfold normalizeUsername. rewrite TrimSpace_idem. by rewrite Hn.
  - split; [intros E; by rewrite E in Ha|]. unfold login_names. rewrite Ha. exists (User.Email u). split; [|done].
    rewrite <- He. unfold normalizeEmail. by rewrite TrimSpace_idem.
Qed.

(** C12: after an account is registered, and through any requests to the account
    service but a password reset for its address (logins, registrations, refreshes,
    logouts, resets of others, checks of tokens, succeeding or not), the name or the
    address typed at the registration logs in to that very account with its
    password, and is refused with every password its hash does not match; all this
    while the contexts stay live and the hook returns. *)
Theorem registered_can_login e n p c nick avatar u tp s s1 qs :
  accounts_wf s → names_unique s →
  RegisterWithCode e n p c nick avatar s = (Ok (u, tp), s1) → Forall (spares u) qs →
  let s2 := (serve_all qs s1).2 in
  ∀ login, login = n ∧ ContainsByte (TrimSpace n) at_sign = false ∨
           login = e ∧ ContainsByte (TrimSpace e) at_sign = true →
    (∃ tp2, (Login login p s2).1 = Ok (u, tp2)) ∧
    ∀ other, CheckPassword (User.PasswordHash u) other = false →
      (Login login other s2).1 = Err ErrInvalidCredentials.
Proof.
  intros Hw Hn Hreg Hqs s2 login Hlogin.
  pose proof (Register_run live hook_returns e n p c nick avatar s Hw) as Hr.
  unfold wp in Hr. rewrite Hreg in Hr. destruct Hr as [Hw1 Hr]. cbn [fst snd register_result] in *.
  destruct Hr as (Hfree & Ha & He & Hu & Hc & _ & Hp & _ & _ & Hue & Hun).
  assert (tidy s1) as Ht1.
  { apply (tidy_insert u s s1 (conj Hw Hn) Hw1 Ha). intros j x Hx _.
    split; [by apply not_eq_sym, (Hue j x)|by apply not_eq_sym, (Hun j x)]. }
  assert (has_account u s1) as Hu1 by (unfold has_account; rewrite Ha; apply lookup_insert_eq).
  destruct (serve_all_keeps u qs s1 Ht1 Hu1 Hqs) as [Ht2 Hu2]. fold s2 in Ht2, Hu2.
  destruct (typed_names e n u He Hu Hc) as [Tn Te].
  assert (TrimSpace login ≠ "" ∧ login_names (TrimSpace login) u) as [Hne Hl].
  { destruct Hlogin as [[-> Hat]|[-> Hat]]; auto. }
  split.
  - destruct (login_of s2 u login p Ht2 Hu2 Hne Hl) as [[_ Hf]|(tp2 & Hok & _)]; [congruence|by exists tp2].
  - intros other Ho. destruct (login_of s2 u login other Ht2 Hu2 Hne Hl) as [[Hf _]|(tp2 & _ & Hf)]; [done|congruence].
Qed.
End life.
