(* ===== verification/AuthExamples.v ===== *)
(** * A concrete wiring of the account service

    The PostgreSQL user store over a table, the in-memory sessions and codes, a
    reversible hash and a token format that spells the claims out: the inputs of
    the witnesses of the theorems of [AuthTokens] and [AuthAccounts]. *)

From S2P Require Import Prelude GoStrings GoNum Model Interfaces Service.
From S2P Require Import MemCaches Postgres EmailCode Config Email Auth AuthTokens AuthAccounts AccountLife Fixtures.
From stdpp Require Import countable.
From Stdlib Require Import Ascii.
#[local] Open Scope Z_scope.

Module ToyAuth.

(** ** A token format: the claims and the key, in binary *)

Fixpoint bits (p : positive) : string :=
  match p with
  | xH => "e"
  | xO p => String "0"%char (bits p)
  | xI p => String "1"%char (bits p)
  end.
Fixpoint of_bits (s : string) : option positive :=
  match s with
  | String "0"%char s => xO <$> of_bits s
  | String "1"%char s => xI <$> of_bits s
  | String "e"%char "" => Some xH
  | _ => None
  end.
Lemma of_bits_bits p : of_bits (bits p) = Some p.
Proof. induction p as [p IH|p IH|]; simpl; by rewrite ?IH. Qed.

Definition fields (secret : string) (c : Claims.t) : list positive :=
  [encode secret; encode (Claims.UserID c); encode (Claims.Username c); encode (Claims.Role c);
   encode (Claims.Type_ c); encode (Claims.Subject c); encode (Claims.ID c);
   encode (Claims.IssuedAt c); encode (Claims.ExpiresAt c)].
Definition of_fields (l : list positive) : option (string * Claims.t) :=
  match l with
  | [k; a; b; c; d; e; f; g; h] =>
      secret ← decode k; u ← decode a; n ← decode b; r ← decode c; ty ← decode d;
      su ← decode e; j ← decode f; ia ← decode g; ex ← decode h;
      Some (secret, Claims.mk u n r ty su j ia ex)
  | _ => None
  end.
Lemma of_fields_fields secret c : of_fields (fields secret c) = Some (secret, c).
Proof. unfold of_fields, fields. rewrite !decode_encode. simpl. by destruct c. Qed.

Definition token (secret : string) (c : Claims.t) : string :=
  String "t"%char (bits (encode (fields secret c))).
Definition read (tok : string) : option (string * Claims.t) :=
  match tok with
  | String "t"%char s => p ← of_bits s; l ← decode p; of_fields l
  | _ => None
  end.
Lemma read_token secret c : read (token secret c) = Some (secret, c).
Proof. simpl. rewrite of_bits_bits. simpl. rewrite decode_encode. apply of_fields_fields. Qed.

#[global] Instance jwt : Jwt := {
  NewNumericDate t := t / Second * Second;
  SignedString secret c := Ok (token secret c);
  ParseWithClaims secret leeway now tok :=
    '(k, c) ← read tok;
    if bool_decide (k = secret) && (now <? Claims.ExpiresAt c + leeway) then Some c else None;
}.

Lemma bits_last p : ∃ l, to_bytes (bits p) = l ++ ["e"%char].
Proof.
  induction p as [p [l IH]|p [l IH]|]; simpl; [exists ("1"%char :: l)|exists ("0"%char :: l)|by exists []];
    simpl; by f_equal.
Qed.
Lemma trim_token secret c : TrimSpace (TrimPrefix (token secret c) "Bearer ") = token secret c.
Proof.
  change (TrimPrefix (token secret c) "Bearer ") with (token secret c).
  unfold TrimSpace, token. generalize (encode (fields secret c)). intros p.
  change (to_bytes (String "t"%char (bits p))) with ("t"%char :: to_bytes (bits p)).
  unfold trim_func. change (trim_left is_space ("t"%char :: to_bytes (bits p)))
    with ("t"%char :: to_bytes (bits p)).
  destruct (bits_last p) as [l Hl]. rewrite Hl. unfold trim_right.
  rewrite app_comm_cons, rev_app_distr. cbn [rev app].
  match goal with |- context [drop_runes decode_last_rune is_space 0 (?a :: ?r)] =>
    replace (drop_runes decode_last_rune is_space 0 (a :: r)) with (a :: r) by reflexivity end.
  cbn [rev]. change (rev l ++ ["t"%char]) with (rev ("t"%char :: l)). rewrite rev_involutive.
  cbn [app]. rewrite <- Hl.
  change ("t"%char :: to_bytes (bits p)) with (to_bytes (String "t"%char (bits p))). apply of_to_bytes.
Qed.

#[global] Instance jwt_laws : JwtLaws.
Proof.
  split; [done|..].
  - intros secret c. by eexists.
  - intros secret c tok [= <-]. split; [done|apply trim_token].
  - intros secret leeway now c tok [= <-] _. cbn [ParseWithClaims jwt]. rewrite read_token. cbn.
    by rewrite bool_decide_true.
  - intros secret c c' tok [= <-] [= Ht] _ _.
    assert (token secret c = token secret c') as Heq by (unfold token; by f_equal).
    pose proof (read_token secret c) as Hr. rewrite Heq, read_token in Hr. congruence.
Qed.

(** ** The rest of the environment *)

#[global] Instance mail : MailParser := {
  ParseAddress s := if ContainsByte s at_sign then Some s else None;
}.
#[global] Instance salts : Salts := {| salt_at _ := "" |}.
Fixpoint tally (n : nat) : string :=
  match n with O => "u" | S n => String "u"%char (tally n) end.
#[global] Instance uuids : UuidSource := {| uuid_at := tally |}.

Lemma tally_length n : String.length (tally n) = S n.
Proof. induction n; simpl; congruence. Qed.
Lemma uuids_differ i j : uuid_at i = uuid_at j → i = j.
Proof. simpl. intros Hu. pose proof (f_equal String.length Hu) as Hl. rewrite !tally_length in Hl. lia. Qed.
Lemma uuids_nonempty i : uuid_at i ≠ "".
Proof. by destruct i. Qed.

#[global] Instance backend : AuthBackend := {
  UsersT := PgUsers.t TableUsers.t;
  SessionsT := MemSessions.t;
  CodesT := MemCodes.t;
  HookT := unit;
  afterLogin := None;
}.
(** ** A service *)

Lemma tally_runes n : runes (tally n) = replicate (S n) 117%N.
Proof.
  induction n as [|n IH]; [done|].
  change (runes (tally (S n))) with (117%N :: runes (tally n)). by rewrite IH.
Qed.
Lemma uuids_valid i : ValidString (uuid_at i) = true.
Proof.
  unfold ValidString. cbn [uuid_at uuids]. apply bool_decide_true. rewrite tally_runes.
  induction i as [|i IH]; [done|].
  change (encode_rune 117 ++ concat (map encode_rune (replicate (S i) 117%N)) =
    "u"%char :: to_bytes (tally i)). rewrite IH. done.
Qed.
Lemma clock_mono m n : (m ≤ n)%nat → now_at m ≤ now_at n.
Proof. intros ?. cbn [now_at live_env]. unfold Second. lia. Qed.
Lemma clock_nonneg n : 0 ≤ now_at n.
Proof. cbn [now_at live_env]. unfold Second. lia. Qed.
Lemma always_live n : ctx_at n = None.
Proof. done. Qed.
Lemma no_hook (f : ctx → SM HookT unit) c x h : afterLogin = Some f → (f c x).1 ≠ Halt h.
Proof. done. Qed.

Definition ann : User.t :=
  User.mk "1" "ann@x.io" "ann" "$password1" "ann" "" UserRoleUser (1 * Second) (1 * Second).
Definition table : gmap string User.t := {["1" := ann]}.
Definition settings : AuthConfig.t := AuthConfig.mk "key" (900 * Second) (3600 * Second) 5.
Definition sent : MemCodes.t :=
  let send purpose email x :=
    (MemCodes.CommitSend "" email purpose "123456" (600 * Second) (60 * Second) (now_at 0) x).2 in
  send PurposeRegister "bob@x.io" (send PurposeResetPassword "ann@x.io" ∅).
Definition service : AuthService :=
  mkAuth (PgUsers.mk (TableUsers.mk table) 0) (MemSessions.mk ∅ ∅) (Some sent) tt settings 0 0.

Lemma service_row id u : accounts service !! id = Some u → id = "1" ∧ u = ann.
Proof. intros Hu. change (table !! id = Some u) in Hu. unfold table in Hu. by apply lookup_singleton_Some in Hu as [<- <-]. Qed.
Lemma service_wf : accounts_wf service.
Proof. intros id u Hu. by destruct (service_row id u Hu) as [-> ->]. Qed.

(** The pair a login of [ann] gets, and the service after it. *)
Definition login : result (User.t * TokenPair.t) * AuthService := Login "ann" "password1" service.
Definition pair : TokenPair.t :=
  match login.1 with Ok (_, tp) => tp | _ => TokenPair.mk "" "" "" 0 end.
Definition signed_in : AuthService := login.2.
Definition access_claims : Claims.t :=
  claims_for ann TokenTypeAccess (uuid_at 0) (now_at 1) (AuthConfig.JWTAccessTTL settings).
(** The ids under which the pair was signed. *)
Definition refresh_claims : Claims.t :=
  claims_for ann TokenTypeRefresh (uuid_at 1) (now_at 2) (AuthConfig.JWTRefreshTTL settings).
Lemma pair_tokens :
  TokenPair.AccessToken pair = token "key" access_claims ∧
  TokenPair.RefreshToken pair = token "key" refresh_claims.
Proof. split; vm_compute; reflexivity. Qed.
Lemma read_as_token s now secret c c' : read_as s now (token secret c) = Some c' → c' = c.
Proof.
  unfold read_as. rewrite trim_token. cbn [ParseWithClaims jwt]. rewrite read_token. cbn.
  destruct (_ && _); congruence.
Qed.
Definition signed_out : AuthService :=
  (Logout (TokenPair.AccessToken pair) (TokenPair.RefreshToken pair) signed_in).2.
End ToyAuth.

(** ** The theorems at work *)

Lemma refresh_single_use_witness :
  let tok := TokenPair.RefreshToken ToyAuth.pair in
  let h := (serve_all [ALogin "ann" "password1"; ARefresh tok; ARefresh tok] ToyAuth.service).1 in
  NoDup (omap used_token h) ∧ omap used_token h = [tok].
Proof.
  intros tok h. split; [|vm_compute; reflexivity].
  assert (∀ u x, ¬ stored ToyAuth.service u x) as Hnone by (intros u x [Hx [t Ht]]; by symmetry in Ht).
  exact (proj1 (refresh_single_use ToyAuth.no_hook ToyAuth.uuids_differ ToyAuth.uuids_valid
    [ALogin "ann" "password1"; ARefresh tok; ARefresh tok] ToyAuth.service Hnone)).
Defined.

Lemma issued_tokens_accepted_witness :
  let '(r, s1) := issuePair ToyAuth.ann ToyAuth.service in
  match r with
  | Ok tp => (ParseToken (TokenPair.RefreshToken tp) "access" s1).1 = Err ErrInvalidToken ∧
      (∃ c, (ParseToken (TokenPair.AccessToken tp) "access" s1).1 = Ok c ∧ Claims.UserID c = "1") ∧
      ∃ c, (ParseToken (TokenPair.RefreshToken tp) "refresh" s1).1 = Ok c ∧ Claims.UserID c = "1"
  | _ => False
  end.
Proof.
  destruct (issuePair ToyAuth.ann ToyAuth.service) as [r s1] eqn:E.
  assert (∃ tp, r = Ok tp) as [tp ->].
  { destruct (issue_returns ToyAuth.always_live ToyAuth.ann ToyAuth.service) as (tp & s2 & E2 & _).
    exists tp. congruence. }
  assert (user_safe ToyAuth.ann) as Hsafe by (split_and!; vm_compute; done).
  destruct (issued_tokens_accepted ToyAuth.uuids_valid ToyAuth.ann ToyAuth.service tp s1 s1 E
    eq_refl Hsafe ToyAuth.uuids_nonempty eq_refl) as (Ha & Hb & _ & Hr & _).
  split; [exact Hr|].
  assert (tp = match (issuePair ToyAuth.ann ToyAuth.service).1 with Ok tp => tp
    | _ => TokenPair.mk "" "" "" 0 end) as -> by (by rewrite E).
  assert (s1 = (issuePair ToyAuth.ann ToyAuth.service).2) as -> by (by rewrite E).
  split; (eexists; split; [|shelve]).
  - refine (eq_trans Ha _). vm_compute. reflexivity.
  - refine (eq_trans Hb _). vm_compute. reflexivity.
  Unshelve. all: reflexivity.
Defined.


Lemma ResetPassword_correct_witness :
  let '(r, s') := ResetPassword "Ann@x.io " " 123456" "newpass99" ToyAuth.service in
  r = Ok tt ∧ accounts_wf s' ∧
  ∃ u', accounts s' = <["1" := u']> (accounts ToyAuth.service) ∧
        CheckPassword (User.PasswordHash u') "newpass99" = true.
Proof.
  pose proof (ResetPassword_correct ToyAuth.always_live "Ann@x.io " " 123456" "newpass99" ToyAuth.service
    ToyAuth.service_wf) as Hp.
  assert ((ResetPassword "Ann@x.io " " 123456" "newpass99" ToyAuth.service).1 = Ok tt) as Ha
    by (vm_compute; reflexivity).
  destruct (ResetPassword _ _ _ ToyAuth.service) as [r s']. cbn [fst] in Ha. subst r.
  destruct Hp as (Hw & _ & e & x & u & u' & _ & _ & Hu & _ & _ & Hs & Hc & _).
  split; [reflexivity|]. split; [exact Hw|]. exists u'.
  destruct (ToyAuth.service_row _ _ Hu) as [Hid _]. rewrite Hid in Hs. split; [exact Hs|exact Hc].
Defined.

Lemma RegisterWithCode_correct_witness :
  let '(r, s') := RegisterWithCode "bob@x.io" " Bob" "password2" "123456" "" "" ToyAuth.service in
  match r with
  | Ok (u, _) => accounts s' = <[User.ID u := u]> (accounts ToyAuth.service) ∧
                 User.Username u = "bob"
  | _ => False
  end.
Proof.
  pose proof (RegisterWithCode_correct ToyAuth.always_live ToyAuth.no_hook "bob@x.io" " Bob" "password2"
    "123456" "" "" ToyAuth.service ToyAuth.service_wf) as Hr.
  assert (∃ a, (RegisterWithCode "bob@x.io" " Bob" "password2" "123456" "" "" ToyAuth.service).1 = Ok a)
    as [[u tp] Ha] by (eexists; vm_compute; reflexivity).
  destruct (RegisterWithCode _ _ _ _ _ _ ToyAuth.service) as [r s']. cbn [fst] in Ha. subst r.
  destruct Hr as (_ & Hs & _ & Hn & _). split; [exact Hs|].
  rewrite Hn. vm_compute. reflexivity.
Defined.

(** A password of eighty bytes. *)
Definition long_password : string := "1" +:+ of_bytes (replicate 79 "a"%char).

Lemma long_password_burns_code_witness :
  let '(r, s') := RegisterWithCode "bob@x.io" "bob" long_password "123456" "" "" ToyAuth.service in
  validatePassword long_password = Ok tt ∧ (∀ a, r ≠ Ok a) ∧
  accounts s' = accounts ToyAuth.service ∧
  ∃ x, codes s' = Some x ∧
       code_check ToyAuth.service "bob@x.io" PurposeRegister "123456" = Some (Ok tt, x).
Proof.
  pose proof (long_password_burns_code ToyAuth.always_live "bob@x.io" "bob" long_password
    "123456" "" "" ToyAuth.service ToyAuth.service_wf eq_refl) as Hr.
  destruct (RegisterWithCode _ _ _ _ _ _ ToyAuth.service) as [r s'].
  destruct Hr as (Hno & Hs & Hc). split; [vm_compute; reflexivity|].
  split; [exact Hno|]. split; [exact Hs|].
  destruct (code_check ToyAuth.service "bob@x.io" PurposeRegister "123456") as [[r0 x]|] eqn:E.
  - exists x. assert (r0 = Ok tt) as ->.
    { assert (Some r0 = Some (Ok tt)) as [=]; [|done].
      transitivity (fst <$> code_check ToyAuth.service "bob@x.io" PurposeRegister "123456");
        [by rewrite E|vm_compute; reflexivity]. }
    split; [|reflexivity]. apply (Hc "bob@x.io" x); try (vm_compute; reflexivity); [| |exact E].
    + intros id u Hu. destruct (ToyAuth.service_row id u Hu) as [_ ->]. vm_compute. discriminate.
    + intros id u Hu. destruct (ToyAuth.service_row id u Hu) as [_ ->]. vm_compute. discriminate.
  - exfalso. assert (None = Some (Ok tt : result unit)) as [=].
    transitivity (fst <$> code_check ToyAuth.service "bob@x.io" PurposeRegister "123456");
      [by rewrite E|vm_compute; reflexivity].
Defined.


(** Bob registers; ann signs in and resets her password, bob mistypes his. *)
Module ToyLife.
Definition registered := RegisterWithCode "bob@x.io" " Bob" "password2" "123456" "" "" ToyAuth.service.
Definition meanwhile : list request :=
  [ALogin "ann" "password1"; AReset "ann@x.io" "123456" "newpass99"; ALogin "bob" "password3"].
Definition later_on : AuthService := (serve_all meanwhile registered.2).2.
Definition bob : User.t := match registered.1 with Ok (u, _) => u | _ => ToyAuth.ann end.
Definition bob_pair : TokenPair.t := match registered.1 with Ok (_, tp) => tp | _ => ToyAuth.pair end.
End ToyLife.

Lemma registered_can_login_witness :
  User.Username ToyLife.bob = "bob" ∧
  (∃ tp, (Login " Bob" "password2" ToyLife.later_on).1 = Ok (ToyLife.bob, tp)) ∧
  (Login " Bob" "password3" ToyLife.later_on).1 = Err ErrInvalidCredentials.
Proof.
  split; [vm_compute; reflexivity|].
  assert (ToyLife.registered.1 = Ok (ToyLife.bob, ToyLife.bob_pair)) as Hr by (vm_compute; reflexivity).
  assert (ToyLife.registered = (Ok (ToyLife.bob, ToyLife.bob_pair), ToyLife.registered.2)) as Hp
    by (rewrite <- Hr; apply surjective_pairing).
  assert (names_unique ToyAuth.service) as Hn.
  { intros i j u v Hu Hv _. apply ToyAuth.service_row in Hu as [-> _], Hv as [-> _]. done. }
  assert (Forall (spares ToyLife.bob) ToyLife.meanwhile) as Hs.
  { constructor; [exact I|]. constructor; [|by repeat constructor]. intros e He.
    assert (normalizeEmail "ann@x.io" = Ok "ann@x.io") as E by (vm_compute; reflexivity).
    rewrite E in He. injection He as <-. vm_compute. discriminate. }
  destruct (registered_can_login ToyAuth.always_live ToyAuth.no_hook "bob@x.io" " Bob" "password2" "123456" "" ""
    _ _ _ _ ToyLife.meanwhile ToyAuth.service_wf Hn Hp Hs " Bob") as [Hok Hno].
  - left. split; [reflexivity|vm_compute; reflexivity].
  - split; [exact Hok|]. apply Hno. vm_compute. reflexivity.
Defined.

(** ** A registration whose session cannot be stored

    The session cache fails once, when the refresh token is filed: the registration
    answers that failure, but the account is there, its code is used up, and the
    same registration cannot be made again. *)
Module SessionsDown.
#[local] Instance once_down : Env := {
  ctx_at n := if (n =? 8)%nat then Some (ErrNew "down") else None;
  now_at n := (1700000000 + Z.of_nat n) * Second;
  jitter_at _ := 0;
}.
Definition first : result (User.t * TokenPair.t) * AuthService :=
  RegisterWithCode "bob@x.io" "bob" "password2" "123456" "" "" ToyAuth.service.

Lemma failed_registration_keeps_account :
  first.1 = Err (ErrNew "down") ∧
  (User.Username <$> (map_to_list (accounts first.2)).*2) = ["bob"; "ann"] ∧
  (RegisterWithCode "bob@x.io" "bob" "password2" "123456" "" "" first.2).1 = Err ErrInvalidCode.
Proof. split_and!; vm_compute; reflexivity. Qed.
End SessionsDown.
