(* ===== verification/Api.v ===== *)
(** * The HTTP interface: replies, authentication, accounts

    [pkg/apierr], [internal/api/context.go] and [internal/api/auth_handlers.go].
    A handler is a program over the whole server that answers a reply or stops
    with the error handed to [apierr.Abort]; [serve] turns both, and a panic, into
    the reply.  The framework's part is the request: its headers, parameters and
    address, and the body already bound to the handler's struct, or not ([Bound]).
    The server keeps one clock: the account service and the room service take
    turns on it. *)

From S2P Require Import Prelude GoStrings GoNum GoParse Model Interfaces Service Chat.
From S2P Require Import Postgres EmailCode Config Email Ably Auth.

(** ** Errors and replies *)

Definition InvalidRequest (msg : string) : error := ApiError 400 "INVALID_REQUEST" msg.
Definition Unauthorized (msg : string) : error := ApiError 401 "UNAUTHORIZED" msg.
Definition Forbidden (msg : string) : error := ApiError 403 "FORBIDDEN" msg.
Definition NotFound (msg : string) : error := ApiError 404 "NOT_FOUND" msg.
Definition Conflict (msg : string) : error := ApiError 409 "CONFLICT" msg.
Definition TooManyRequests (msg : string) : error := ApiError 429 "RATE_LIMITED" msg.
Definition Internal (msg : string) : error := ApiError 500 "INTERNAL_ERROR" msg.
Definition PayloadTooLarge (msg : string) : error := ApiError 413 "PAYLOAD_TOO_LARGE" msg.
Definition ServiceUnavailable (msg : string) : error := ApiError 503 "SERVICE_UNAVAILABLE" msg.

(** What a request asks for. *)
Record Request := mkRequest {
  Authorization : string;             (* the header *)
  Query : string → string;            (* "" when absent *)
  Param : string → string;
  ClientIP : string;
  ContentLength : Z;
}.
(** [c.ShouldBindJSON(&req)]: whether it succeeded, and the struct after it. *)
Record Bound (A : Type) := mkBound { bound : bool; body : A }.
Arguments mkBound {A} _ _.
Arguments bound {A} _.
Arguments body {A} _.

Module RoomResponse.
(** [roomResponse]; the room's password hash has no JSON. *)
Record t := mk { Room : Room.t; IsOwner : bool; LeftRoomID : string }.
End RoomResponse.
Module RoomSnapshotResponse.
(** [roomSnapshotResponse], with [ablyRoomInfo]. *)
Record t := mk {
  RoomID : string; State : RoomState.t; Queue : list string; ViewerCount : Z;
  Channel : string; TokenEndpoint : string;
}.
End RoomSnapshotResponse.
Module AdminRoomItem.
(** [adminRoomListItem] *)
Record t := mk {
  Room : Room.t; Owner : option User.t; OnlineCount : Z; CurrentVideo : string;
  Playback : PlaybackAction; CreatedAt : time;
}.
End AdminRoomItem.
Module DebugRoomItem.
(** [debugRoomResponse]; without a presence there are no [users]. *)
Record t := mk {
  Room : Room.t; State : RoomState.t; Users : option (list HubUser.t); Queue : list string;
  ViewerCount : Z;
}.
End DebugRoomItem.

(** The values handed to [c.JSON]. *)
Inductive Body : Type :=
  | BNone
  | BError (code message : string)
  | BCode (expiresAt : string) (retryAfter : Z)
  | BSession (user : User.t) (tokens : TokenPair.t)
  | BTokens (tokens : TokenPair.t)
  | BUser (user : User.t)
  | BRoom (room : RoomResponse.t)
  | BRooms (items : list Room.t) (total : Z)
  | BIdle (roomID : string)
  | BState (state : RoomState.t)
  | BAbly (token expiresAt : string)
  | BMessage (msg : Message.t)
  | BSnapshot (snapshot : RoomSnapshotResponse.t)
  | BChatSent (res : ChatSendResult.t)
  | BChat (items : list ChatMessage.t) (hasMore : bool)
  | BAdminRooms (items : list AdminRoomItem.t) (total : Z)
  | BDebugRooms (items : list DebugRoomItem.t) (total : Z)
  | BHealth (storage cache : string).
Record Response := mkResponse { status : Z; retryAfterHeader : option string; content : Body }.
Definition reply_ok (status : Z) (b : Body) : Response := mkResponse status None b.

(** [errors.As(err, &apiErr)] *)
Fixpoint as_api (e : error) : option (Z * string * string) :=
  match e with
  | ApiError status code message => Some (status, code, message)
  | ErrWrap _ inner => as_api inner
  | _ => None
  end.
(** [apierr.Respond] *)
Definition Respond (e : error) : Response :=
  let '(status, code, message) :=
    default (500, "INTERNAL_ERROR", "Internal Server Error") (as_api e) in
  mkResponse status None (BError code message).

Definition mapError (e : error) : error :=
  if errors_Is e ErrInvalidCredentials then Unauthorized "invalid username or password"
  else if errors_Is e ErrInvalidToken then Unauthorized "invalid token"
  else if errors_Is e ErrNotFound then NotFound "resource not found"
  else if errors_Is e ErrConflict then Conflict "resource already exists"
  else e.

Definition respondAuthError (e : error) : error :=
  if errors_Is e ErrInvalidCredentials then InvalidRequest "invalid username/email or password"
  else if errors_Is e ErrInvalidToken then Unauthorized "invalid token"
  else if errors_Is e ErrInvalidEmail then InvalidRequest "invalid email"
  else if errors_Is e ErrWeakPassword then InvalidRequest "password does not meet requirements"
  else if errors_Is e ErrInvalidUsername
  then InvalidRequest "invalid username (use 3-40 chars: a-z, 0-9, _)"
  else if errors_Is e ErrInvalidCode then InvalidRequest "invalid verification code"
  else if errors_Is e ErrExpired then InvalidRequest "verification code expired"
  else if errors_Is e ErrMaxAttempts
  then InvalidRequest "too many incorrect verification attempts"
  else if errors_Is e ErrConflict then Conflict "email or username already in use"
  else e.

(** [errors.As(err, &cool)] *)
Fixpoint as_cooldown (e : error) : option Z :=
  match e with
  | CooldownError d => Some d
  | ErrWrap _ inner => as_cooldown inner
  | _ => None
  end.

(** Whole seconds, at least one. *)
Definition retry_seconds (d : Z) : Z :=
  let sec := Z.quot (Round d Second) Second in if sec <? 1 then 1 else sec.
(** [c.Header("Retry-After", ...)] and [apierr.Abort]. *)
Definition too_soon (wait : Z) (message : string) : Response :=
  mkResponse 429 (Some (FormatInt (retry_seconds wait))) (BError "RATE_LIMITED" message).

Definition respondCodeErr {S} (e : error) : SM S Response :=
  match as_cooldown e with
  | Some d => if 0 <? d then mret (too_soon d "verification code sent too recently")
              else if errors_Is e ErrDailyLimit
              then throw (TooManyRequests "daily verification email limit reached") else throw e
  | None => if errors_Is e ErrDailyLimit
            then throw (TooManyRequests "daily verification email limit reached") else throw e
  end.

(** ** The rate limiter *)

Module Limiter.
(** [slidingWindowLimiter] *)
Record t := mk { hits : gmap string (list time); limit : Z; win : Z }.
Definition newIPLimiter (limit window : Z) : t := mk ∅ limit window.

(** [allow], at the clock reading it takes before it locks the mutex: what it does
    under the mutex is one step, and two calls that overlap may take these steps in
    the other order than their readings. *)
Definition allow (ip : string) (now : time) (l : t) : bool * t :=
  if limit l <=? 0 then (true, l)
  else
    let cutoff := time_Add now (- win l) in
    let kept := filter (λ t, After t cutoff = true) (default [] (hits l !! ip)) in
    if limit l <=? Z.of_nat (length kept) then (false, l)
    else (true, mk (<[ip := kept ++ [now]]> (hits l)) (limit l) (win l)).
End Limiter.

(** ** The server *)

(** The random source of a request, by the tick at which a code is drawn. *)
Class RandSource := { rand_at : nat → RandBytes }.

Class ApiBackend `{!Backend} := {
  MailT : Type; mail_ops :: SenderAPI MailT;
  realtime_ops :: Realtime PubT;
}.

Section api.
Context `{!UnicodeTables, !MailParser, !Bcrypt, !Jwt, !Salts, !UuidSource, !RandSource, !Env}.
Context `{!AuthBackend, !Backend, !ApiBackend}.

(** [Dependencies] and the two services built from them; the room store, caches,
    presence and publisher are the room service's, the user store and the codes
    the account service's. *)
Record App := mkApp {
  svc : Service;
  auth : AuthService;
  conf : Config.t;
  sender : option MailT;
  ipLimiter : option Limiter.t;
  regLastHit : gmap string time;
}.

Definition set_svc (x : Service) (a : App) : App :=
  mkApp x (auth a) (conf a) (sender a) (ipLimiter a) (regLastHit a).
Definition set_sender (x : option MailT) (a : App) : App :=
  mkApp (next_tick (svc a)) (auth a) (conf a) x (ipLimiter a) (regLastHit a).
Definition set_limiter (x : option Limiter.t) (a : App) : App :=
  mkApp (next_tick (svc a)) (auth a) (conf a) (sender a) x (regLastHit a).
Definition set_lastHit (x : gmap string time) (a : App) : App :=
  mkApp (svc a) (auth a) (conf a) (sender a) (ipLimiter a) x.

(** A call of the room service; one of the account service, on the same clock. *)
Definition on_rooms {A} (m : SM Service A) : SM App A := λ a,
  let '(r, s) := m (svc a) in (r, set_svc s a).
Definition at_tick (n : nat) (s : AuthService) : AuthService :=
  mkAuth (users s) (sessions s) (codes s) (hook s) (cfg s) n (uuids s).
Definition tick_to (n : nat) (s : Service) : Service :=
  mkService (states s) (presence s) (rooms s) (roomAccess s) (publisher s) (roomChat s)
    (chat s) n (events s).
Definition on_auth {A} (m : SM AuthService A) : SM App A := λ a,
  let '(r, s) := m (at_tick (tick (svc a)) (auth a)) in
  (r, mkApp (tick_to (ticks s) (svc a)) s (conf a) (sender a) (ipLimiter a) (regLastHit a)).

Definition time_Now : SM App time := on_rooms now.
(** Map the error of a call, as [respond...(c, err)]. *)
Definition or_abort {A} (f : error → error) (m : SM App A) : SM App A := map_err f m.
(** A request body that does not bind stops the request. *)
Definition must_bind {A} (b : Bound A) (message : string) : SM App A :=
  if bound b then mret (body b) else throw (InvalidRequest message).
(** [if cond { abort }] *)
Definition abort_if (cond : bool) (e : error) : SM App unit := if cond then throw e else mret tt.

(** [ipLimiter.allow(ip)]; a nil limiter allows everything. *)
Definition allow_ip (ip : string) : SM App bool := λ a,
  match ipLimiter a with
  | None => (Ok true, a)
  | Some l => let '(ok, l) := Limiter.allow ip (now_at (tick (svc a))) l in
              (Ok ok, set_limiter (Some l) a)
  end.

(** ** Who is asking *)

Definition requireAuth (q : Request) (k : Claims.t → SM App Response) : SM App Response :=
  let token := ExtractBearer (Authorization q) in
  parsed ← attempt (on_auth (ParseToken token TokenTypeAccess));
  match parsed with
  | inr _ => throw (Unauthorized "authentication required")
  | inl claims => k claims
  end.
Definition requireAdmin (claims : Claims.t) (k : SM App Response) : SM App Response :=
  if negb (bool_decide (Claims.Role claims = UserRoleAdmin))
  then throw (Forbidden "admin role required") else k.
Definition currentUser (claims : Claims.t) : option Claims.t :=
  if bool_decide (Claims.UserID claims = "") then None else Some claims.

(** The reply to a request: the handler's, the error's, or the recovery's. *)
Definition serve_request (h : SM App Response) : App → Response * App := λ a,
  match h a with
  | (Ok r, a') => (r, a')
  | (Err e, a') => (Respond e, a')
  | (Halt _, a') => (reply_ok 500 BNone, a')
  end.

(** ** Codes by e-mail *)

Definition writeRegisterCodeOK (ttl interval : Z) : SM App Response :=
  t ← time_Now;
  let exp := time_Add t ttl in
  let retrySec := Z.quot (Round interval Second) Second in
  let retrySec := if retrySec <? 1 then 60 else retrySec in
  mret (reply_ok 200 (BCode (format_rfc3339 exp) retrySec)).
Definition code_ok : SM App Response :=
  c ← gets conf; writeRegisterCodeOK (Config.EmailCodeTTL c) (Config.EmailCodeSendInterval c).

Definition fakeRegisterCodeOK (emailNorm : string) : SM App Response :=
  last ← gets (λ a, default zero_time (regLastHit a !! emailNorm));
  t ← time_Now;
  c ← gets conf;
  let interval := Config.EmailCodeSendInterval c in
  if time_Sub t last <? interval
  then mret (too_soon (wrap64 (interval - time_Sub t last)) "please wait before retrying")
  else
    _ ← modify (λ a, set_lastHit (<[emailNorm := t]> (regLastHit a)) a);
    code_ok.

Definition has_codes : SM App bool :=
  gets (λ a, match codes (auth a) with Some _ => true | None => false end).
Definition precheck (email purpose : string) : SM App unit :=
  c ← gets conf;
  t ← time_Now;
  on_auth (call_codes (λ x, code_precheck x email purpose (Config.EmailCodeSendInterval c)
                              (Config.EmailCodeDailyLimit c) t)).
Definition rollback (email purpose : string) : SM App unit :=
  t ← time_Now; ignore (on_auth (call_codes (λ x, code_rollback x email purpose t))).
Definition commit (email purpose code : string) : SM App unit :=
  c ← gets conf;
  t ← time_Now;
  n ← gets (λ a, tick (svc a));
  on_auth (call_codes (λ x, code_commit x (salt_at n) email purpose code
                              (Config.EmailCodeTTL c) (Config.EmailCodeSendInterval c) t)).

(** [emailcode.GenerateNumericCode] of a server without a code set for tests. *)
Definition generate_code : SM App string := λ a,
  (@GenerateNumericCode (rand_at (tick (svc a))) "" (Config.EmailCodeLength (conf a)),
   set_svc (next_tick (svc a)) a).

Definition sender_enabled : SM App bool :=
  gets (λ a, match sender a with Some m => Enabled m | None => false end).
Definition send_code (email purpose code : string) : SM App string := λ a,
  match sender a with
  | None => (Halt NilDereference, a)
  | Some m => let '(r, m) := SendVerificationCode (ctx_at (tick (svc a))) email purpose code m in
              (r, set_sender (Some m) a)
  end.

(** The end of both handlers: draw a code, send it, and store its hash; a failure
    up to the sending gives the reservation back. *)
Definition deliver_code (email purpose : string) : SM App Response :=
  drawn ← attempt generate_code;
  match drawn with
  | inr _ => _ ← rollback email purpose; throw (Internal "failed to generate code")
  | inl code =>
      enabled ← sender_enabled;
      if negb enabled then
        _ ← rollback email purpose; throw (Internal "email delivery is not configured")
      else
        sent ← attempt (send_code email purpose code);
        match sent with
        | inr _ => _ ← rollback email purpose; throw (Internal "failed to send email")
        | inl _ =>
            _ ← or_abort (λ _, Internal "failed to persist verification")
                  (commit email purpose code);
            code_ok
        end
  end.

(** [h.users.GetByEmail] *)
Definition find_email (email : string) : SM App (User.t + error) :=
  attempt (on_auth (call_users (λ x _, UserGetByEmail x email))).

Definition registerSendCode (q : Request) (b : Bound string) : SM App Response :=
  email ← must_bind b "invalid request body";
  emailNorm ← or_abort (λ _, InvalidRequest "invalid email") (of_result (normalizeEmail email));
  allowed ← allow_ip (ClientIP q);
  _ ← abort_if (negb allowed) (TooManyRequests "too many requests");
  found ← find_email emailNorm;
  match found with
  | inl _ => fakeRegisterCodeOK emailNorm
  | inr e =>
      if negb (errors_Is e ErrNotFound) then throw (mapError e)
      else
        has ← has_codes;
        _ ← abort_if (negb has) (Internal "verification store not configured");
        checked ← attempt (precheck emailNorm PurposeRegister);
        match checked with
        | inr e => respondCodeErr e
        | inl _ => deliver_code emailNorm PurposeRegister
        end
  end.

Definition resetSendCode (q : Request) (b : Bound string) : SM App Response :=
  email ← must_bind b "invalid request body";
  emailNorm ← or_abort (λ _, InvalidRequest "invalid email") (of_result (normalizeEmail email));
  allowed ← allow_ip (ClientIP q);
  _ ← abort_if (negb allowed) (TooManyRequests "too many requests");
  has ← has_codes;
  _ ← abort_if (negb has) (Internal "verification store not configured");
  checked ← attempt (precheck emailNorm PurposeResetPassword);
  match checked with
  | inr e => respondCodeErr e
  | inl _ =>
      found ← find_email emailNorm;
      match found with
      | inr e =>
          _ ← rollback emailNorm PurposeResetPassword;
          if errors_Is e ErrNotFound then code_ok else throw (mapError e)
      | inl _ => deliver_code emailNorm PurposeResetPassword
      end
  end.

(** ** Accounts *)

(** [registerRequest], [loginRequest] and [resetPasswordRequest] *)
Record registerRequest := mkRegister {
  reg_email : string; reg_username : string; reg_password : string; reg_code : string;
  reg_nickname : string; reg_avatar : string;
}.
Record loginRequest := mkLogin { login_name : string; login_password : string }.
Record resetPasswordRequest := mkReset {
  reset_email : string; reset_code : string; reset_new : string;
}.

Definition register (b : Bound registerRequest) : SM App Response :=
  r ← must_bind b "invalid register request";
  '(user, tokens) ← or_abort respondAuthError (on_auth
    (RegisterWithCode (reg_email r) (reg_username r) (reg_password r) (reg_code r)
       (reg_nickname r) (reg_avatar r)));
  mret (reply_ok 201 (BSession user tokens)).

Definition resetPassword (b : Bound resetPasswordRequest) : SM App Response :=
  r ← must_bind b "invalid request body";
  _ ← or_abort respondAuthError (on_auth
    (ResetPassword (reset_email r) (reset_code r) (reset_new r)));
  mret (reply_ok 204 BNone).

Definition login (b : Bound loginRequest) : SM App Response :=
  r ← must_bind b "invalid login request";
  '(user, tokens) ← or_abort respondAuthError (on_auth
    (Login (login_name r) (login_password r)));
  mret (reply_ok 200 (BSession user tokens)).

Definition refresh (b : Bound string) : SM App Response :=
  if negb (bound b) || bool_decide (body b = "")
  then throw (InvalidRequest "invalid refresh request")
  else
    tokens ← or_abort respondAuthError (on_auth (Refresh (body b)));
    mret (reply_ok 200 (BTokens tokens)).

(** A body that does not bind is ignored. *)
Definition logout (q : Request) (b : Bound string) : SM App Response :=
  _ ← or_abort respondAuthError (on_auth
    (Logout (ExtractBearer (Authorization q)) (body b)));
  mret (reply_ok 204 BNone).

Definition me (claims : Claims.t) : SM App Response :=
  user ← or_abort mapError (on_auth (call_users (λ x _, UserGetByID x (Claims.UserID claims))));
  mret (reply_ok 200 (BUser user)).

Definition redactLogEmail (e : string) : string :=
  let e := TrimSpace (ToLower e) in
  if bool_decide (e = "") then ""
  else
    let at_ := LastIndexByte e at_sign in
    if at_ <=? 0 then "***"
    else String.substring 0 1 e +:+ "***@" +:+
         String.substring (Z.to_nat (at_ + 1)) (String.length e - Z.to_nat (at_ + 1)) e.
End api.
