(* ===== verification/RoomsApi.v ===== *)
(** * The HTTP interface: rooms, administration, routes

    [internal/api/room_handlers.go], [admin_room_handlers.go],
    [debug_handlers.go] and [router.go].  A room handler runs after [requireAuth],
    so it gets the claims of a token.  [handle] is the router: one case per route,
    with the middleware the route goes through. *)

From S2P Require Import Prelude GoStrings GoNum GoParse QueueUrl Model Interfaces Service Chat Hub.
From S2P Require Import Postgres EmailCode Config Email Ably Auth Api.

(** ** Requests *)

(** [createRoomRequest], [ablyTokenRequest], [controlRoomRequest] and
    [postRoomChatRequest]; a request that only carries a password is a string. *)
Record createRoomRequest := mkCreate {
  create_name : string; create_visibility : string; create_password : string;
}.
Record ablyTokenRequest := mkAblyToken {
  ably_room : string; ably_purpose : string; ably_password : string;
}.
Record controlRoomRequest := mkControl {
  ctl_action : PlaybackAction; ctl_position : float64; ctl_video : string;
  ctl_queue : list string; ctl_mode : PlaybackMode; ctl_version : Z; ctl_duration : float64;
}.
Record postRoomChatRequest := mkPostChat { post_text : string; post_password : string }.

(** ** Helpers *)

Definition userPtrFromHubUser (u : HubUser.t) : option HubUser.t :=
  if bool_decide (HubUser.ID u = "") then None else Some u.

Definition roomUserFromClaims (claims : option Claims.t) (room : Room.t) : HubUser.t :=
  match claims with
  | None => HubUser.zero
  | Some c => HubUser.mk (Claims.UserID c) (Claims.Username c) "" (Claims.Role c)
                (bool_decide (Room.OwnerID room = Claims.UserID c))
  end.

Definition validPlaybackAction (action : PlaybackAction) : bool :=
  bool_decide (action ∈ [PlaybackActionPlay; PlaybackActionPause; PlaybackActionSeek;
                         PlaybackActionNext; PlaybackActionSwitch]).

Definition cleanQueue (queue : list string) : list string := FilterPlaybackURLs queue.

Definition parseInt (raw : string) (fallback : Z) : Z :=
  if bool_decide (raw = "") then fallback
  else match Atoi raw with
  | Some n => if n <? 0 then fallback else n
  | None => fallback
  end.

Module RoomHandlers.
Section api.
Context `{!UnicodeTables, !MailParser, !Bcrypt, !Jwt, !Salts, !UuidSource, !RandSource, !Env}.
Context `{!AuthBackend, !Backend, !ApiBackend}.

Definition canManageRoom (claims : Claims.t) (room : Room.t) : bool :=
  match currentUser claims with
  | None => false
  | Some user => bool_decide (Claims.Role user = UserRoleAdmin) ||
                 bool_decide (Room.OwnerID room = Claims.UserID user)
  end.

(** [h.deps.RoomStore.GetByID] *)
Definition get_room (roomID : string) : SM App Room.t :=
  or_abort mapError (on_rooms (call_rooms (λ c _, RoomGetByID c roomID))).
Definition loadRoom (q : Request) : SM App Room.t :=
  get_room (TrimSpace (Param q "roomId")).

Definition canAccessRoom (claims : Claims.t) (room : Room.t) (userID password : string)
    : SM App bool :=
  if negb (bool_decide (Room.Visibility room = RoomVisibilityPrivate)) || canManageRoom claims room
  then mret true
  else
    hasAccess ← on_rooms (present roomAccess);
    let cached := hasAccess && negb (bool_decide (userID = "")) in
    granted ← (if (cached : bool) then
                 r ← attempt (on_rooms (call_access (λ c _, HasRoomAccess c (Room.ID room) userID)));
                 mret (match r with inl ok => ok | inr _ => false end)
               else mret false);
    if (granted : bool) then mret true
    else if CheckPassword (Room.PasswordHash room) password then
      _ ← (if (cached : bool)
           then ignore (on_rooms (call_access (λ c _, GrantRoomAccess c (Room.ID room) userID)))
           else mret tt);
      mret true
    else mret false.

(** The guards that stop a request. *)
Definition guard_access (claims : Claims.t) (room : Room.t) (userID password : string)
    : SM App unit :=
  ok ← canAccessRoom claims room userID password;
  abort_if (negb ok) (Forbidden "invalid room password").
Definition guard_manage (claims : Claims.t) (room : Room.t) : SM App unit :=
  abort_if (negb (canManageRoom claims room)) (Forbidden "room owner or admin required").
(** [user == nil] after [requireAuth]. *)
Definition guard_user (claims : Claims.t) : SM App Claims.t :=
  match currentUser claims with
  | None => throw (Unauthorized "authentication required")
  | Some user => mret user
  end.
Definition is_owner (claims : Claims.t) (room : Room.t) : bool :=
  match currentUser claims with
  | None => false
  | Some user => bool_decide (Room.OwnerID room = Claims.UserID user)
  end.

(** ** Rooms *)

(** Without a user the handler would dereference nil. *)
Definition create (claims : Claims.t) (b : Bound createRoomRequest) : SM App Response :=
  req ← must_bind b "invalid JSON body";
  let name := TrimSpace (create_name req) in
  _ ← abort_if ((len name <? 1) || (80 <? len name)) (InvalidRequest "room name is required");
  let visibility := TrimSpace (create_visibility req) in
  let visibility := if bool_decide (visibility = "") then RoomVisibilityPublic else visibility in
  _ ← abort_if (negb (bool_decide (visibility = RoomVisibilityPublic)) &&
                negb (bool_decide (visibility = RoomVisibilityPrivate)))
        (InvalidRequest "invalid room visibility");
  owner ← (match currentUser claims with
           | None => λ a, (Halt NilDereference, a)
           | Some user => mret (Claims.UserID user)
           end);
  hash ← (if bool_decide (visibility = RoomVisibilityPrivate) then
            _ ← abort_if (len (create_password req) <? 4)
                  (InvalidRequest "private room password must be at least 4 characters");
            or_abort (λ _, Internal "failed to hash room password")
              (on_auth (HashPassword (create_password req)))
          else mret "");
  room ← or_abort mapError (on_rooms (call_rooms (λ c t, RoomCreate c t
           (Room.mk "" name owner visibility hash "" zero_time zero_time))));
  mret (reply_ok 201 (BRoom (RoomResponse.mk room true ""))).

Fixpoint enrich_all (rs : list Room.t) : SM App (list Room.t) :=
  match rs with
  | [] => mret []
  | r :: rs => r ← on_rooms (EnrichRoomFromCache r); rs ← enrich_all rs; mret (r :: rs)
  end.

Definition list (q : Request) : SM App Response :=
  let opts := ListRoomsOpts.mk (parseInt (Query q "limit") 20) (parseInt (Query q "offset") 0)
                (TrimSpace (Query q "q")) "" in
  '(rs, total) ← or_abort mapError (on_rooms (call_rooms (λ c _, RoomList c opts)));
  rs ← enrich_all rs;
  mret (reply_ok 200 (BRooms rs total)).

Definition get (claims : Claims.t) (q : Request) : SM App Response :=
  room ← loadRoom q;
  room ← on_rooms (EnrichRoomFromCache room);
  mret (reply_ok 200 (BRoom (RoomResponse.mk room (is_owner claims room) ""))).

Definition delete (claims : Claims.t) (q : Request) : SM App Response :=
  room ← loadRoom q;
  _ ← guard_manage claims room;
  _ ← or_abort mapError (on_rooms (call_rooms (λ c _, RoomDelete c (Room.ID room))));
  let user := roomUserFromClaims (currentUser claims) room in
  _ ← or_abort mapError (on_rooms (CloseRoom (Room.ID room) (Some user)));
  mret (reply_ok 204 BNone).

Definition publish_event (roomID ev : string) (u : HubUser.t) : SM App unit :=
  ignore (on_rooms (PublishRoomEvent roomID ev (userPtrFromHubUser u))).

(** A body that does not bind is ignored. *)
Definition join (claims : Claims.t) (q : Request) (b : Bound string) : SM App Response :=
  room ← loadRoom q;
  user ← guard_user claims;
  _ ← guard_access claims room (Claims.UserID user) (body b);
  let u := roomUserFromClaims (Some user) room in
  leftRoomID ← or_abort mapError (on_rooms (Join (Room.ID room) u));
  _ ← (if bool_decide (leftRoomID = "") then mret tt else publish_event leftRoomID "user_left" u);
  _ ← publish_event (Room.ID room) "user_joined" u;
  mret (reply_ok 200 (BRoom (RoomResponse.mk room (is_owner claims room) leftRoomID))).

Definition leave (claims : Claims.t) (q : Request) : SM App Response :=
  room ← loadRoom q;
  user ← guard_user claims;
  _ ← or_abort mapError (on_rooms (Leave (Room.ID room) (Claims.UserID user)));
  let u := roomUserFromClaims (Some user) room in
  _ ← publish_event (Room.ID room) "user_left" u;
  mret (reply_ok 204 BNone).

Definition kick (claims : Claims.t) (q : Request) : SM App Response :=
  room ← loadRoom q;
  _ ← guard_manage claims room;
  let uid := TrimSpace (Param q "uid") in
  _ ← abort_if (bool_decide (uid = "")) (InvalidRequest "user id is required");
  let actor := roomUserFromClaims (currentUser claims) room in
  _ ← or_abort mapError (on_rooms (KickMember (Room.ID room) uid (Some actor)));
  mret (reply_ok 204 BNone).

Definition state (q : Request) : SM App Response :=
  room ← loadRoom q;
  st ← attempt (on_rooms (ProjectedRoomState (Room.ID room)));
  match st with
  | inl (Some st) => mret (reply_ok 200 (BState st))
  | inl None => mret (reply_ok 200 BNone)
  | inr e => if errors_Is e ErrNotFound then mret (reply_ok 200 (BIdle (Room.ID room)))
             else throw (mapError e)
  end.

(** [h.deps.Realtime], the publisher of the room service. *)
Definition issue_jwt (roomID clientID : string) : SM App (string * time) :=
  on_rooms (call_opt publisher set_publisher (λ c t, RtIssueRoomJWT c t roomID clientID)).
Definition channel_name (roomID : string) : SM App string :=
  has ← on_rooms (present publisher);
  if negb has then mret ""
  else on_rooms (call_opt publisher set_publisher (λ _ _, RtChannelName roomID)).

Definition ablyToken (claims : Claims.t) (b : Bound ablyTokenRequest) : SM App Response :=
  has ← on_rooms (present publisher);
  _ ← abort_if (negb has) (Internal "ably realtime is not configured");
  req ← must_bind b "invalid JSON body";
  _ ← abort_if (negb (bool_decide (ably_purpose req = "")) &&
                negb (bool_decide (ably_purpose req = "room")))
        (InvalidRequest "unsupported token purpose");
  let roomID := TrimSpace (ably_room req) in
  _ ← abort_if (bool_decide (roomID = "")) (InvalidRequest "room_id is required");
  room ← get_room roomID;
  _ ← guard_access claims room (Claims.UserID claims) (ably_password req);
  '(token, exp) ← or_abort (λ _, Internal "failed to issue ably token")
    (issue_jwt (Room.ID room) (Claims.UserID claims));
  mret (reply_ok 200 (BAbly token (format_rfc3339 exp))).

Definition control_error (e : error) : error :=
  if errors_Is e ErrForbidden then Forbidden "room owner or admin required"
  else if errors_Is e ErrStaleControl then Conflict "stale control version"
  else mapError e.

Definition control_input (req : controlRoomRequest) (videoID : string) (queue : Datatypes.list string)
    : ControlInput.t :=
  ControlInput.mk (ctl_action req) (ctl_position req) videoID queue (ctl_mode req)
    (ctl_version req) (ctl_duration req).

Definition control (claims : Claims.t) (q : Request) (b : Bound controlRoomRequest)
    : SM App Response :=
  room ← loadRoom q;
  _ ← guard_manage claims room;
  req ← must_bind b "invalid JSON body";
  _ ← abort_if (negb (validPlaybackAction (ctl_action req)))
        (InvalidRequest "invalid playback action");
  let user := roomUserFromClaims (currentUser claims) room in
  let queue := cleanQueue (ctl_queue req) in
  let videoID := TrimSpace (ctl_video req) in
  _ ← abort_if (negb (bool_decide (videoID = "")) && negb (IsPlaybackURL videoID))
        (InvalidRequest "video_id must be an http(s) or protocol-relative URL");
  '(msg, pubErr) ← or_abort control_error (on_rooms (ApplyControl (Room.ID room) user
    (control_input req videoID queue)));
  match pubErr with
  | Some e => throw (control_error e)
  | None => mret (reply_ok 200 (BMessage msg))
  end.

(** The room as an empty player. *)
Definition idle_state (room : Room.t) (queue : Datatypes.list string) : RoomState.t :=
  RoomState.mk (Room.ID room) (Room.CurrentVideo room) queue [] PlaybackActionPause f_zero
    "" f_zero 0 "" zero_time zero_time.

Definition snapshot (claims : Claims.t) (q : Request) (b : Bound string) : SM App Response :=
  room ← loadRoom q;
  password ← (if ContentLength q =? 0 then mret "" else must_bind b "invalid JSON body");
  _ ← guard_access claims room (Claims.UserID claims) password;
  snap ← on_rooms (Snapshot (Room.ID room));
  let queue := Snapshot.Queue snap in
  let st := default (idle_state room queue) (Snapshot.State snap) in
  let queue := if bool_decide (queue = []) && negb (bool_decide (RoomState.VideoID st = ""))
               then [RoomState.VideoID st] else queue in
  channel ← channel_name (Room.ID room);
  mret (reply_ok 200 (BSnapshot (RoomSnapshotResponse.mk (Room.ID room) st queue
          (Snapshot.ViewerCount snap) channel "/api/ably/token"))).

(** ** Chat *)

Definition chat_error (e : error) : error :=
  if errors_Is e ErrChatRequiresRedis || errors_Is e ErrChatPendingFull
  then ServiceUnavailable "chat temporarily unavailable"
  else if errors_Is e ErrChatTextEmpty then InvalidRequest "chat text is required"
  else if errors_Is e ErrChatTextTooLong || errors_Is e ErrChatPayloadTooLarge
  then PayloadTooLarge "message too long"
  else if errors_Is e ErrChatRateLimited then TooManyRequests "too many chat messages"
  else mapError e.

Definition postRoomChat (claims : Claims.t) (q : Request) (b : Bound postRoomChatRequest)
    : SM App Response :=
  room ← loadRoom q;
  req ← must_bind b "invalid JSON body";
  _ ← guard_access claims room (Claims.UserID claims) (post_password req);
  user ← guard_user claims;
  u ← or_abort mapError (on_auth (call_users (λ x _, UserGetByID x (Claims.UserID user))));
  let hubUser := HubUser.set_Nickname (User.Nickname u) (roomUserFromClaims (Some user) room) in
  res ← or_abort chat_error (on_rooms (SendChat (Room.ID room) hubUser (post_text req)));
  mret (reply_ok 200 (BChatSent res)).

Definition list_chat_error (e : error) : error :=
  if errors_Is e ErrChatRequiresRedis then ServiceUnavailable "chat temporarily unavailable"
  else mapError e.
Definition listRoomChat (claims : Claims.t) (q : Request) : SM App Response :=
  room ← loadRoom q;
  _ ← guard_access claims room (Claims.UserID claims) (TrimSpace (Query q "password"));
  let limit := parseInt (Query q "limit") 50 in
  let beforeID := TrimSpace (Query q "before_id") in
  '(items, hasMore) ← or_abort list_chat_error
    (on_rooms (ListChat (Room.ID room) beforeID limit));
  mret (reply_ok 200 (BChat items hasMore)).
End api.
End RoomHandlers.
