(* ===== verification/Router.v ===== *)
(** * The HTTP interface: administration, and the routes

    [internal/api/admin_room_handlers.go], [debug_handlers.go] and [router.go].
    [route] has one case per route, with the middleware the route goes through;
    which route a path belongs to is the framework's business.  In front of all of
    them is the CORS middleware, which is third-party code: it answers a preflight
    request and a request of an origin that is not allowed itself, and hands every
    other on to [route], which is where the model begins; [Config] has the settings
    it is made with.  [NewServer] is the server [NewRouter] wires, and [act] what can happen to it. *)

From S2P Require Import Prelude GoStrings GoNum GoParse QueueUrl Model Interfaces Service Chat Hub.
From S2P Require Import Postgres EmailCode Config Email Ably Auth Api RoomsApi.

Section admin.
Context `{!UnicodeTables, !MailParser, !Bcrypt, !Jwt, !Salts, !UuidSource, !RandSource, !Env}.
Context `{!AuthBackend, !Backend, !ApiBackend}.

(** ** Administration *)

Definition hide_hash (u : User.t) : User.t := User.set_PasswordHash "" u.

(** One turn of the loop of [listRooms]. *)
Definition admin_item (room : Room.t) : SM App AdminRoomItem.t :=
  room ← on_rooms (EnrichRoomFromCache room);
  online ← on_rooms (memberCount (Room.ID room));
  owner ← (if bool_decide (Room.OwnerID room = "") then mret None
           else
             u ← attempt (on_auth (call_users (λ x _, UserGetByID x (Room.OwnerID room))));
             mret (match u with inl u => Some (hide_hash u) | inr _ => None end));
  st ← attempt (on_rooms (ProjectedRoomState (Room.ID room)));
  let '(action, video) := match st with
    | inl (Some st) => (RoomState.Action st,
                        if bool_decide (RoomState.VideoID st = "") then Room.CurrentVideo room
                        else RoomState.VideoID st)
    | _ => (PlaybackActionPause, Room.CurrentVideo room)
    end in
  mret (AdminRoomItem.mk room owner online video action (Room.CreatedAt room)).

Fixpoint admin_items (rs : list Room.t) : SM App (list AdminRoomItem.t) :=
  match rs with
  | [] => mret []
  | r :: rs => i ← admin_item r; others ← admin_items rs; mret (i :: others)
  end.

Definition listRooms (q : Request) : SM App Response :=
  let limit := parseInt (Query q "limit") 100 in
  let limit := if 500 <? limit then 500 else limit in
  let opts := ListRoomsOpts.mk limit (parseInt (Query q "offset") 0) (TrimSpace (Query q "q")) "" in
  '(rs, total) ← or_abort mapError (on_rooms (call_rooms (λ c _, RoomList c opts)));
  items ← admin_items rs;
  mret (reply_ok 200 (BAdminRooms items total)).

(** ** Debugging *)

Definition debug_item (room : Room.t) : SM App DebugRoomItem.t :=
  snap ← on_rooms (Snapshot (Room.ID room));
  st ← (match Snapshot.State snap with
        | Some st => mret (Some st)
        | None =>
            r ← attempt (on_rooms (call_states (λ c _, GetRoomState c (Room.ID room))));
            match r with
            | inl st => mret (Some st)
            | inr e => if errors_Is e ErrNotFound then mret None else throw (mapError e)
            end
        end);
  let queue := Snapshot.Queue snap in
  let queue := if bool_decide (queue = [])
               then match st with Some st => RoomState.Queue st | None => [] end else queue in
  let queue := if bool_decide (queue = []) then
                 match st with
                 | Some st => if bool_decide (RoomState.VideoID st = "") then []
                              else [RoomState.VideoID st]
                 | None => []
                 end
               else queue in
  has ← on_rooms (present presence);
  us ← (if (has : bool) then
          ms ← or_abort mapError (on_rooms (call_presence (λ c _, ListMembers c (Room.ID room))));
          mret (Some ((λ m, HubUser.mk (RoomMember.UserID m) (RoomMember.Username m) "" "" false) <$> ms))
        else mret None);
  mret (DebugRoomItem.mk room (default (RoomHandlers.idle_state room queue) st) us queue
          (Snapshot.ViewerCount snap)).

Fixpoint debug_items (rs : list Room.t) : SM App (list DebugRoomItem.t) :=
  match rs with
  | [] => mret []
  | r :: rs => i ← debug_item r; others ← debug_items rs; mret (i :: others)
  end.

Definition debug_rooms : SM App Response :=
  '(rs, total) ← or_abort mapError
    (on_rooms (call_rooms (λ c _, RoomList c (ListRoomsOpts.mk 100 0 "" ""))));
  items ← debug_items rs;
  mret (reply_ok 200 (BDebugRooms items total)).

(** ** Routes *)

(** The routes, each with its bound body. *)
Inductive Call : Type :=
  | CRegisterCode (b : Bound string)
  | CRegister (b : Bound registerRequest)
  | CResetCode (b : Bound string)
  | CReset (b : Bound resetPasswordRequest)
  | CLogin (b : Bound loginRequest)
  | CRefresh (b : Bound string)
  | CLogout (b : Bound string)
  | CMe
  | CAblyToken (b : Bound ablyTokenRequest)
  | CCreate (b : Bound createRoomRequest)
  | CList
  | CGet
  | CDelete
  | CJoin (b : Bound string)
  | CLeave
  | CKick
  | CState
  | CControl (b : Bound controlRoomRequest)
  | CSnapshot (b : Bound string)
  | CPostChat (b : Bound postRoomChatRequest)
  | CListChat
  | CAdminRooms
  | CDebugRooms
  | CHealth
  | CNoRoute.

(** The routes behind [requireAuth]. *)
Definition authed (call : Call) (claims : Claims.t) (q : Request) : SM App Response :=
  match call with
  | CLogout b => logout q b
  | CMe => me claims
  | CAblyToken b => RoomHandlers.ablyToken claims b
  | CCreate b => RoomHandlers.create claims b
  | CList => RoomHandlers.list q
  | CGet => RoomHandlers.get claims q
  | CDelete => RoomHandlers.delete claims q
  | CJoin b => RoomHandlers.join claims q b
  | CLeave => RoomHandlers.leave claims q
  | CKick => RoomHandlers.kick claims q
  | CState => RoomHandlers.state q
  | CControl b => RoomHandlers.control claims q b
  | CSnapshot b => RoomHandlers.snapshot claims q b
  | CPostChat b => RoomHandlers.postRoomChat claims q b
  | CListChat => RoomHandlers.listRoomChat claims q
  | CAdminRooms => requireAdmin claims (listRooms q)
  | CDebugRooms => requireAdmin claims debug_rooms
  | _ => throw (NotFound "route not found")
  end.

Definition health : SM App Response :=
  c ← gets conf; mret (reply_ok 200 (BHealth (Config.StorageBackend c) (Config.CacheBackend c))).

Definition route (call : Call) (q : Request) : SM App Response :=
  match call with
  | CRegisterCode b => registerSendCode q b
  | CRegister b => register b
  | CResetCode b => resetSendCode q b
  | CReset b => resetPassword b
  | CLogin b => login b
  | CRefresh b => refresh b
  | CHealth => health
  | CNoRoute => throw (NotFound "route not found")
  | call => requireAuth q (λ claims, authed call claims q)
  end.
Definition handle (call : Call) (q : Request) : App → Response * App :=
  serve_request (route call q).

(** The routes that need no token. *)
Definition is_public (call : Call) : bool :=
  match call with
  | CRegisterCode _ | CRegister _ | CResetCode _ | CReset _ | CLogin _ | CRefresh _
  | CHealth | CNoRoute => true
  | _ => false
  end.

(** What happens to a server: a request, the cleanup a login started (in a
    goroutine, so at any later time), and a tick of the chat's outbox. *)
Inductive action : Type :=
  | ARequest (call : Call) (q : Request)
  | ACleanup (fuel : nat)
  | ATicker (fuel : nat).
Definition run_cleanup (fuel : nat) (a : App) : App :=
  (on_rooms (MaybeRunGlobalCleanup fuel) a).2.
(** The ticker runs only with a chat and a publisher. *)
Definition run_ticker (fuel : nat) (a : App) : App :=
  match roomChat (svc a), publisher (svc a) with
  | Some _, Some _ => (on_rooms (ProcessGlobalChatPending fuel) a).2
  | _, _ => a
  end.
Definition act (x : action) (a : App) : option Response * App :=
  match x with
  | ARequest call q => let '(r, a) := handle call q a in (Some r, a)
  | ACleanup fuel => (None, run_cleanup fuel a)
  | ATicker fuel => (None, run_ticker fuel a)
  end.

(** A run: each action with the server it found and the reply it gave. *)
Record happening := mkHappening { what : action; before : App; answer : option Response }.
Fixpoint run_server (xs : list action) (a : App) : list happening * App :=
  match xs with
  | [] => ([], a)
  | x :: xs =>
      let '(r, a1) := act x a in
      let '(h, a2) := run_server xs a1 in (mkHappening x a r :: h, a2)
  end.
End admin.

(** ** The wiring *)

(** The collaborators of the account service as [NewRouter] wires it: the hook
    starts a cleanup and never fails; its state counts the cleanups started. *)
Definition router_backend (U S C : Type) `{!UserStore U, !SessionCache S, !CodeStore C} : AuthBackend := {|
  UsersT := U; SessionsT := S; CodesT := C;
  HookT := nat; afterLogin := Some (λ _ n, (Ok tt, Datatypes.S n));
|}.

Definition auth_config (c : Config.t) : AuthConfig.t :=
  AuthConfig.mk (Config.JWTSecret c) (Config.JWTAccessTTL c) (Config.JWTRefreshTTL c)
    (Config.EmailCodeMaxAttempts c).

Section server.
Context `{!UnicodeTables, !MailParser, !Bcrypt, !Jwt, !Salts, !UuidSource, !RandSource, !Env}.
Context `{!UserStore U, !SessionCache Se, !CodeStore C, !Backend, !ApiBackend}.
#[local] Instance backend : AuthBackend := router_backend U Se C.

(** [NewRouter]: the dependencies, and the server made of them. *)
Definition NewServer (c : Config.t) (us : U) (se : Se) (co : option C) (st : StatesT)
    (pr : option PresenceT) (ro : option RoomsT) (ac : option AccessT) (pu : option PubT)
    (ch : option ChatT) (ma : option MailT) : App :=
  {|
    svc := NewService st pr ro ac pu ch (ChatLimitsFromConfig c);
    auth := mkAuth us se co 0%nat (auth_config c) 0 0;
    conf := c;
    sender := ma;
    ipLimiter := Some (Limiter.newIPLimiter 40 Minute);
    regLastHit := ∅;
  |}.

End server.
