(* ===== verification/HttpBodies.v ===== *)
(** * Request bodies

    The request structs of [internal/api] and their members: every handler that
    reads a body calls [c.ShouldBindJSON(&req)], by which gin documents
    [encoding/json]'s [Decoder.Decode] of the body, the first JSON value of it, into
    the struct (its validator has nothing to check: no struct has a [binding] tag).
    A member of the wrong type makes it fail in the end, but the other members are
    stored all the same, and two handlers use what was stored.  With the room states
    in Redis, the numbers of a body can always be stored, and an accepted control is
    what every reader gets ([redis_control_kept]). *)

From S2P Require Import Prelude GoStrings GoNum GoParse GoJson JsonFacts GoFloat GoTime Model StateWire Interfaces.
From S2P Require Import Service Playback Hub HubControl Redis RedisStates Postgres EmailCode Config Email Ably Auth.
From S2P Require Import Api RoomsApi Router.

(** ** The decoder *)

(** [Decoder.Decode] reads one value: what follows an object or an array is left
    alone, another value must be followed by white space or the end. *)
Definition first_value (s : string) : option json :=
  let l := to_bytes s in
  '(v, r) ← parse_value (S (S (length l))) 0 l;
  match v, r with
  | (JObj _ | JArr _), _ | _, [] => Some v
  | _, a :: _ => if is_ws (byte_of a) then Some v else None
  end.

(** Storing a value: whether its type fits, and the variable after it. *)
Abbreviation store A := (json → A → bool * A) (only parsing).
Definition stored {A} (into : json → A → option A) : store A := λ v x,
  match into v x with Some y => (true, y) | None => (false, x) end.

(** The elements of an array, over what the slice's array holds. *)
Fixpoint store_elements {A} (st : store A) (zero : A) (vs : list json) (back : list A) : bool * list A :=
  match vs with
  | [] => (true, [])
  | v :: vs =>
      let '(ok, x) := st v (default zero (head back)) in
      let '(oks, xs) := store_elements st zero vs (tail back) in
      (ok && oks, x :: xs)
  end.
Definition store_slice {A} (st : store A) (zero : A) : store (Slice.t A) := λ v cur,
  match v with
  | JNull => (true, Slice.empty)
  | JArr [] => (true, Slice.empty)
  | JArr vs =>
      let '(ok, xs) := store_elements st zero vs (Slice.backing cur) in
      (ok, Slice.mk xs (xs ++ drop (length xs) (Slice.backing cur)))
  | _ => (false, cur)
  end.

(** A field of a struct: its name, and how a value is stored into the struct. *)
Abbreviation field S := (string * (json → S → bool * S))%type (only parsing).
Definition at_field {S A} (name : string) (get : S → A) (put : A → S → S) (st : store A) : field S :=
  (name, λ v s, let '(ok, x) := st v (get s) in (ok, put x s)).

Section struct.
Context {S : Type} (fields : list (field S)).
Definition store_member (kv : string * json) (s : S) : bool * S :=
  match field_of fields.*1 kv.1 with
  | Some name =>
      match list_find (λ f, f.1 = name) fields with
      | Some (_, f) => f.2 kv.2 s
      | None => (true, s)
      end
  | None => (true, s)
  end.
Fixpoint store_members (ms : list (string * json)) (s : S) : bool * S :=
  match ms with
  | [] => (true, s)
  | kv :: ms =>
      let '(ok, s) := store_member kv s in
      let '(oks, s) := store_members ms s in (ok && oks, s)
  end.
Definition Decode (zero : S) (text : string) : Bound S :=
  match first_value text with
  | Some (JObj ms) => let '(ok, s) := store_members ms zero in mkBound ok s
  | Some JNull => mkBound true zero
  | _ => mkBound false zero
  end.
End struct.

Definition text_field {S} (name : string) (get : S → string) (put : string → S → S) : field S :=
  at_field name get put (stored into_string).

(** ** The structs of the handlers *)

(** A struct with one text. *)
Definition only (name : string) : list (field string) := [text_field name id (λ x _, x)].
Definition bind_only (name : string) : string → Bound string := Decode (only name) "".
Definition bind_email : string → Bound string := bind_only "email".
Definition bind_refresh : string → Bound string := bind_only "refresh_token".
Definition bind_logout : string → Bound string := bind_only "refresh_token".
Definition bind_join : string → Bound string := bind_only "password".
Definition bind_snapshot : string → Bound string := bind_only "password".

Definition register_fields : list (field registerRequest) :=
  [text_field "email" reg_email (λ x '(mkRegister _ b c d e f), mkRegister x b c d e f);
   text_field "username" reg_username (λ x '(mkRegister a _ c d e f), mkRegister a x c d e f);
   text_field "password" reg_password (λ x '(mkRegister a b _ d e f), mkRegister a b x d e f);
   text_field "code" reg_code (λ x '(mkRegister a b c _ e f), mkRegister a b c x e f);
   text_field "nickname" reg_nickname (λ x '(mkRegister a b c d _ f), mkRegister a b c d x f);
   text_field "avatar_url" reg_avatar (λ x '(mkRegister a b c d e _), mkRegister a b c d e x)].
Definition bind_register : string → Bound registerRequest :=
  Decode register_fields (mkRegister "" "" "" "" "" "").

Definition login_fields : list (field loginRequest) :=
  [text_field "login" login_name (λ x '(mkLogin _ b), mkLogin x b);
   text_field "password" login_password (λ x '(mkLogin a _), mkLogin a x)].
Definition bind_login : string → Bound loginRequest := Decode login_fields (mkLogin "" "").

Definition reset_fields : list (field resetPasswordRequest) :=
  [text_field "email" reset_email (λ x '(mkReset _ b c), mkReset x b c);
   text_field "code" reset_code (λ x '(mkReset a _ c), mkReset a x c);
   text_field "new_password" reset_new (λ x '(mkReset a b _), mkReset a b x)].
Definition bind_reset : string → Bound resetPasswordRequest := Decode reset_fields (mkReset "" "" "").

Definition create_fields : list (field createRoomRequest) :=
  [text_field "name" create_name (λ x '(mkCreate _ b c), mkCreate x b c);
   text_field "visibility" create_visibility (λ x '(mkCreate a _ c), mkCreate a x c);
   text_field "password" create_password (λ x '(mkCreate a b _), mkCreate a b x)].
Definition bind_create : string → Bound createRoomRequest := Decode create_fields (mkCreate "" "" "").

Definition ably_fields : list (field ablyTokenRequest) :=
  [text_field "room_id" ably_room (λ x '(mkAblyToken _ b c), mkAblyToken x b c);
   text_field "purpose" ably_purpose (λ x '(mkAblyToken a _ c), mkAblyToken a x c);
   text_field "password" ably_password (λ x '(mkAblyToken a b _), mkAblyToken a b x)].
Definition bind_ably : string → Bound ablyTokenRequest := Decode ably_fields (mkAblyToken "" "" "").

Definition chat_fields : list (field postRoomChatRequest) :=
  [text_field "text" post_text (λ x '(mkPostChat _ b), mkPostChat x b);
   text_field "password" post_password (λ x '(mkPostChat a _), mkPostChat a x)].
Definition bind_chat : string → Bound postRoomChatRequest := Decode chat_fields (mkPostChat "" "").

(** The control, its queue being filled. *)
Record controlFilling := mkFilling {
  c_action : string; c_position : float64; c_video : string; c_queue : Slice.t string;
  c_mode : string; c_version : Z; c_duration : float64;
}.
Definition control_fields : list (field controlFilling) :=
  [text_field "action" c_action (λ x '(mkFilling _ b c d e f g), mkFilling x b c d e f g);
   at_field "position" c_position (λ x '(mkFilling a _ c d e f g), mkFilling a x c d e f g) (stored into_float64);
   text_field "video_id" c_video (λ x '(mkFilling a b _ d e f g), mkFilling a b x d e f g);
   at_field "queue" c_queue (λ x '(mkFilling a b c _ e f g), mkFilling a b c x e f g)
     (store_slice (stored into_string) "");
   text_field "playback_mode" c_mode (λ x '(mkFilling a b c d _ f g), mkFilling a b c d x f g);
   at_field "control_version" c_version (λ x '(mkFilling a b c d e _ g), mkFilling a b c d e x g) (stored into_int64);
   at_field "video_duration" c_duration (λ x '(mkFilling a b c d e f _), mkFilling a b c d e f x) (stored into_float64)].
Definition control_of (x : controlFilling) : controlRoomRequest :=
  mkControl (c_action x) (c_position x) (c_video x) (Slice.elems (c_queue x)) (c_mode x) (c_version x) (c_duration x).
Definition bind_control (text : string) : Bound controlRoomRequest :=
  let b := Decode control_fields (mkFilling "" f_zero "" Slice.empty "" 0 f_zero) text in
  mkBound (bound b) (control_of (body b)).

(** The body of each route, read from its text. *)
Definition with_body (call : Call) (text : string) : Call :=
  match call with
  | CRegisterCode _ => CRegisterCode (bind_email text)
  | CRegister _ => CRegister (bind_register text)
  | CResetCode _ => CResetCode (bind_email text)
  | CReset _ => CReset (bind_reset text)
  | CLogin _ => CLogin (bind_login text)
  | CRefresh _ => CRefresh (bind_refresh text)
  | CLogout _ => CLogout (bind_logout text)
  | CAblyToken _ => CAblyToken (bind_ably text)
  | CCreate _ => CCreate (bind_create text)
  | CJoin _ => CJoin (bind_join text)
  | CControl _ => CControl (bind_control text)
  | CSnapshot _ => CSnapshot (bind_snapshot text)
  | CPostChat _ => CPostChat (bind_chat text)
  | call => call
  end.

(** The wrong type of one member does not keep the others from being stored. *)
Example join_body : bind_join (of_bytes (chars "{" ++ quote "x" ++ chars ":[1]," ++
    quote "PassWord" ++ chars ":" ++ quote "pw" ++ chars "} trailing")) = mkBound true "pw".
Proof. vm_compute. reflexivity. Qed.
Example chat_body : bind_chat (of_bytes (chars "{" ++ quote "text" ++ chars ":1," ++
    quote "password" ++ chars ":" ++ quote "pw" ++ chars "}")) = mkBound false (mkPostChat "" "pw").
Proof. vm_compute. reflexivity. Qed.

(** ** The numbers of a control *)

(** A float of the machine that JSON can write. *)
Definition good (x : float64) : Prop := f_ok x = true ∧ f_finite x = true.

Lemma good_zero : good f_zero.
Proof. done. Qed.
Lemma good_into v cur x : into_float64 v cur = Some x → good cur → good x.
Proof. apply into_float64_finite. Qed.
Lemma good_stored v cur : good cur → good (stored into_float64 v cur).2.
Proof. unfold stored. destruct (into_float64 v cur) eqn:E; [|done]. by apply (good_into v). Qed.

(** What every field keeps, the decoder keeps. *)
Lemma store_members_keeps {S} (fields : list (field S)) (P : S → Prop) :
  Forall (λ f, ∀ v s, P s → P (f.2 v s).2) fields →
  ∀ ms s, P s → P (store_members fields ms s).2.
Proof.
  intros Hf ms. induction ms as [|kv ms IH]; intros s Hs; [done|]. cbn [store_members].
  assert (P (store_member fields kv s).2) as H1.
  { unfold store_member. destruct (field_of _ _) as [name|]; [|done].
    destruct (list_find _ fields) as [[i f]|] eqn:E; [|done].
    apply list_find_Some in E as (Hi & _ & _). by apply (list.Forall_lookup_1 _ _ _ _ Hf Hi). }
  destruct (store_member fields kv s) as [ok s1]. specialize (IH s1 H1).
  by destruct (store_members fields ms s1) as [oks s2].
Qed.
Lemma Decode_keeps {S} (fields : list (field S)) (P : S → Prop) zero text :
  Forall (λ f, ∀ v s, P s → P (f.2 v s).2) fields → P zero → P (body (Decode fields zero text)).
Proof.
  intros Hf Hz. unfold Decode. destruct (first_value text) as [v|]; [|done]. destruct v as [| | | | |ms]; try done.
  pose proof (store_members_keeps fields P Hf ms zero Hz) as H. by destruct (store_members fields ms zero).
Qed.

Lemma at_field_keeps {S A} (P : S → Prop) name (get : S → A) put st :
  (∀ v s, P s → P (put (st v (get s)).2 s)) →
  ∀ v s, P s → P ((at_field name get put st).2 v s).2.
Proof. intros H v s Hs. specialize (H v s Hs). cbn. by destruct (st v (get s)). Qed.

Definition numbers_good (x : controlFilling) : Prop := good (c_position x) ∧ good (c_duration x).
Lemma control_fields_good : Forall (λ f, ∀ v s, numbers_good s → numbers_good (f.2 v s).2) control_fields.
Proof.
  repeat apply list.Forall_cons_2; [..|apply list.Forall_nil_2]; apply at_field_keeps;
    intros v [a b c d e f g] [Hp Hd]; (split; [try apply good_stored; apply Hp|try apply good_stored; apply Hd]).
Qed.
Lemma bind_control_good text :
  good (ctl_position (body (bind_control text))) ∧ good (ctl_duration (body (bind_control text))).
Proof.
  change (numbers_good (body (Decode control_fields
    (mkFilling "" f_zero "" Slice.empty "" 0 f_zero) text))).
  apply Decode_keeps; [apply control_fields_good|split; apply good_zero].
Qed.

(** A state that was read back has them, too. *)
Definition state_numbers (x : Filling.t) : Prop := good (Filling.Position x) ∧ good (Filling.VideoDuration x).
Lemma state_member_good kv x y : state_member kv x = Some y → state_numbers x → state_numbers y.
Proof.
  destruct kv as [key v], x as [rid vid q qm act pos mode dur ver by_ upd base]. intros Hy [Hp Hd].
  cbn [Filling.Position Filling.VideoDuration] in Hp, Hd. unfold state_member in Hy.
  destruct (field_of state_fields key) as [f|]; [|apply Some_inj in Hy; by subst y].
  repeat (case_bool_decide; [
    match type of Hy with mbind _ ?m = _ => destruct m as [z|] eqn:E; [|done] end;
    apply Some_inj in Hy; subst y; split; cbn [Filling.Position Filling.VideoDuration];
    first [exact Hp|exact Hd|exact (good_into _ _ _ E Hp)|exact (good_into _ _ _ E Hd)]|]).
  match type of Hy with mbind _ ?m = _ => destruct m as [z|] eqn:E; [|done] end.
  apply Some_inj in Hy; subst y; split; [exact Hp|exact Hd].
Qed.
Lemma unmarshal_state_good p st : unmarshal_state p = Some st →
  good (RoomState.Position st) ∧ good (RoomState.VideoDuration st).
Proof.
  assert (∀ ms x y, fold_members state_member ms x = Some y → state_numbers x → state_numbers y) as Hfold.
  { intros ms. induction ms as [|kv ms IH]; intros x y; cbn [fold_members]; [by intros ->%Some_inj|].
    destruct (state_member kv x) as [z|] eqn:E; [|done]. intros Hy Hx. apply (IH z); [done|].
    by apply (state_member_good kv x). }
  unfold unmarshal_state. destruct (parse p) as [[]|]; try done; [by intros <-%Some_inj|].
  destruct (fold_members _ _ _) as [y|] eqn:E; [|done]. intros <-%Some_inj. by apply (Hfold _ _ _ E).
Qed.

(** So does the state of a control, whatever was read before. *)
Lemma new_state_good r u t prev msg :
  good (ControlInput.Position msg) → good (ControlInput.VideoDuration msg) →
  (∀ p, prev = Some p → good (RoomState.VideoDuration p)) →
  let st := Control.new_state r u t prev msg in
  state_typed st ∧ f_finite (RoomState.Position st) = true ∧ f_finite (RoomState.VideoDuration st) = true ∧
  RoomState.UpdatedAt st = t ∧ RoomState.BaseUpdatedAt st = zero_time.
Proof.
  intros Hp Hd Hprev. unfold Control.new_state.
  assert (good (Control.step prev msg (Control.mode_of prev msg)).1.2) as Hs.
  { unfold Control.step. repeat case_match; done. }
  destruct (Control.step _ _ _) as [[[video queue] pos] act]. cbn [fst snd] in Hs.
  set (dur := Advance.resolveControlDuration msg prev video).
  assert (good dur) as Hdur.
  { unfold dur, Advance.resolveControlDuration. destruct (f_gt _ _); [done|]. destruct prev as [p|]; [|done].
    case_match; [by apply Hprev|done]. }
  destruct Hs, Hdur. unfold state_typed. cbn. repeat split; try done; try constructor.
  all: unfold Control.next_version; destruct prev; [apply wrap64_range|done].
Qed.

(** ** A control from its body to the cache *)

Import Hub.Control.
Section controls.
Context `{!UnicodeTables, !MailParser, !Bcrypt, !Jwt, !Salts, !UuidSource, !RandSource, !Env, !AuthBackend}.
Context `{!RedisServer R, !RedisLaws R}.
Context `{!RoomPresence Pr, !RoomStore Ro, !RoomAccessCache Ac, !RoomChat Ch, !Publisher Pu}.
(** A service whose states are on the Redis server. *)
#[local] Instance redis_states : Backend := {|
  StatesT := R; PresenceT := Pr; RoomsT := Ro; AccessT := Ac; ChatT := Ch; PubT := Pu;
|}.
Context `{!ApiBackend}.

(** The room service's calendar is one JSON can write. *)
Definition writable_clock : Prop := ∀ n, 0 ≤ year_of (now_at n) ≤ 9999.

Lemma stamp_writable n n' r u prev msg : writable_clock →
  good (ControlInput.Position msg) → good (ControlInput.VideoDuration msg) →
  (∀ p, prev = Some p → good (RoomState.VideoDuration p)) →
  let st := Control.new_state r u (now_at n) prev msg in
  state_typed st ∧ is_Some (marshal_state (stamp_state (now_at n') r st)).
Proof.
  intros Hy Hp Hd Hprev st. destruct (new_state_good r u (now_at n) prev msg Hp Hd Hprev) as (Ht & Hfp & Hfd & Hu & Hb).
  fold st in Ht, Hfp, Hfd, Hu, Hb. split; [done|]. apply marshal_state_defined.
  assert (0 ≤ year_of zero_time ≤ 9999) as Hz by (vm_compute; split; discriminate).
  pose proof (Hy n). pose proof (Hy n'). clearbody st. unfold stamp_state. destruct (IsZero _), st; cbn in *; subst; done.
Qed.

Lemma get_state_good c r s st s' : RedisStates.GetRoomState c r s = (Ok st, s') → good (RoomState.VideoDuration st).
Proof.
  unfold RedisStates.GetRoomState. destruct (redis _ _ _ s) as [[p|e|h] s1]; [|by destruct e|done].
  destruct (unmarshal_state p) as [st'|] eqn:E; [|done]. intros [= <- _].
  by apply unmarshal_state_good in E as [_ ?].
Qed.

Lemma read_state_good r s st s' :
  attempt (call_states (λ c _, GetRoomState c r)) s = (Ok (inl st), s') → good (RoomState.VideoDuration st).
Proof.
  unfold attempt, call_states. cbn [GetRoomState states_ops RedisStates.iface StatesT redis_states].
  destruct (RedisStates.GetRoomState (R:=R) (ctx_at (tick s)) r (states s)) as [[st'|e|h] y] eqn:Eg; intros E; try discriminate.
  injection E as <- _. by apply get_state_good in Eg.
Qed.
Lemma control_read_good r s t prev s' : control_read r s = (Ok (t, prev), s') →
  (∃ n, t = now_at n) ∧ ∀ p, prev = Some p → good (RoomState.VideoDuration p).
Proof.
  unfold control_read. intros Hr. sm_bind Hr as t0 E. injection E as <- <-. sm_bind Hr as g E.
  assert (t = now_at (tick s)) as ->.
  { destruct g as [st|e]; [by injection Hr as <- _ _|]. destruct (errors_Is _ _); [by injection Hr as <- _ _|done]. }
  split; [by eexists|]. intros p ->. destruct g as [st|e]; [|by destruct (errors_Is _ _)].
  injection Hr as -> _. by apply read_state_good in E.
Qed.

(** The announcement leaves the states alone. *)
Lemma publish_states r name data s : states (call_publish r name data s).2 = states s.
Proof.
  unfold call_publish, call_opt. destruct (publisher s) as [p|]; [|done]. by destruct (PublishRoomMessage _ _ _ _ p).
Qed.
Lemma announce_run r msg s (m : Message.t) (e : option error) s' :
  (has ← present publisher;
   if negb has then mret (msg, None)
   else
     e ← attempt (call_publish r "room.sync" (PubMessage msg));
     mret (msg, match e with inl _ => None | inr err => Some err end)) s = (Ok (m, e), s') →
  m = msg ∧ states s' = states s.
Proof.
  intros Hr. sm_bind Hr as has E. injection E as _ <-. destruct has; cbn [negb] in Hr.
  - sm_bind Hr as o E. injection Hr as <- _ <-. split; [done|]. pose proof (publish_states r "room.sync" (PubMessage msg) s) as Hs.
    unfold attempt in E. destruct (call_publish _ _ _ s) as [[u|e'|h] y]; [| |done]; by injection E as _ <-.
  - by injection Hr as <- _ <-.
Qed.

Lemma control_kept r user msg s m pubErr s' : writable_clock →
  good (ControlInput.Position msg) → good (ControlInput.VideoDuration msg) →
  ApplyControl r user msg s = (Ok (m, pubErr), s') →
  ∃ st, describes m st ∧ keeps_state (R:=R) r st (states s').
Proof.
  intros Hy Hp Hd. unfold ApplyControl. destruct (authorized user); [|done]. cbn [negb]. intros Hr.
  sm_bind Hr as tp E. destruct tp as [t prev]. apply control_read_good in E as [[n ->] Hprev].
  unfold control_write in Hr. destruct (stale prev msg); [done|]. sm_bind Hr as o E.
  unfold call_states in E.
  cbn [SetRoomState states_ops RedisStates.iface StatesT redis_states] in E.
  apply announce_run in Hr as [-> Hst].
  match type of Hst with _ = states ?x => rename x into s2 end.
  match type of E with (let '(_, _) := RedisStates.SetRoomState _ (now_at (tick ?x)) _ _ _ in _) = _ =>
    destruct (stamp_writable n (tick x) r (HubUser.ID user) prev msg Hy Hp Hd Hprev) as [Ht Hm];
    pose proof (SetRoomState_keeps (R:=R) (ctx_at (tick x)) (now_at (tick x)) r
      (new_state r (HubUser.ID user) (now_at n) prev msg) (states x) Ht Hm) as Hk;
    exists (stamp_state (now_at (tick x)) r (new_state r (HubUser.ID user) (now_at n) prev msg)) end.
  destruct (RedisStates.SetRoomState _ _ _ _ _) as [res y]. injection E as -> <-.
  destruct (ctx_at _); [by destruct Hk|]. destruct Hk as [_ Hk].
  split; [apply describes_new|]. rewrite Hst. exact Hk.
Qed.

(** C16: with the room states in Redis, and years the clock can write, the state a
    control makes of a body of any text can be written out, whatever the room's key
    holds before: no number of the body, however large, keeps it from being stored.
    And a control that is answered with 200 is kept: the answer is the message that
    describes the state which every reader of the room then gets, for seven days or
    until another command changes the key. *)
Theorem redis_control_kept text : writable_clock →
  (∀ r u n n' payload videoID queue,
     is_Some (marshal_state (stamp_state (now_at n') r (new_state r u (now_at n) (unmarshal_state payload)
       (RoomHandlers.control_input (body (bind_control text)) videoID queue))))) ∧
  ∀ claims q a resp a', RoomHandlers.control claims q (bind_control text) a = (Ok resp, a') →
  ∃ room a1 m st, RoomHandlers.loadRoom q a = (Ok room, a1) ∧ resp = reply_ok 200 (BMessage m) ∧
    describes m st ∧ keeps_state (R:=R) (Room.ID room) st (states (svc a')).
Proof.
  intros Hy. destruct (bind_control_good text) as [Hp Hd]. split.
  - intros r u n n' payload videoID queue. apply stamp_writable; [done|exact Hp|exact Hd|].
    intros p Hu. by apply unmarshal_state_good in Hu as [_ ?].
  - intros claims q a resp a' Hc. unfold RoomHandlers.control in Hc. sm_bind Hc as room El. exists room.
    match type of El with _ = (_, ?a1) => exists a1 end.
    sm_bind Hc as u1 E1. sm_bind Hc as req Eb.
    assert (req = body (bind_control text)) as ->.
    { unfold must_bind in Eb. destruct (bound _); [|done]. by injection Eb as <- _. }
    sm_bind Hc as u2 E2. cbv zeta in Hc. sm_bind Hc as u3 E3. sm_bind Hc as mp E4. destruct mp as [m pubErr].
    destruct pubErr as [e|]; [done|]. injection Hc as <- <-. unfold or_abort, map_err, on_rooms in E4.
    match type of E4 with context [ApplyControl ?r ?u ?i ?s] => destruct (ApplyControl r u i s) as [[[m' e']|e|h] s1] eqn:Ea end;
      [|done|done]. injection E4 as -> -> <-. apply control_kept in Ea as (st & Hm & Hk); [|done|exact Hp|exact Hd].
    by exists m, st.
Qed.
End controls.
