(* ===== verification/Replies.v ===== *)
(** * The texts of replies

    What [c.JSON] writes: [encoding/json] of the values the handlers of
    [internal/api] and [pkg/apierr] hand over, the structs by the order and the tags
    of their fields, a [gin.H] by its sorted keys.  Instants are written in UTC, the
    zone of the model's clock. *)

From S2P Require Import Prelude GoStrings GoNum GoJson JsonFacts GoFloat GoTime Model StateWire Interfaces.
From S2P Require Import Service Chat ChatWire Hub Auth Api.
#[local] Open Scope Z_scope.

(** ** Values *)

Abbreviation text := (list Ascii.ascii).

(** A Go value as the encoder sees it. *)
Inductive value : Type :=
  | VNil
  | VBool (b : bool)
  | VInt (z : Z)
  | VFloat (x : float64)
  | VString (s : string)
  | VTime (t : time)
  | VList (vs : list value)
  | VStruct (ms : list (string * value)).

Section all.
Context {A : Type} (f : A → option text).
Fixpoint all_texts (l : list A) : option (list text) :=
  match l with [] => Some [] | a :: l => t ← f a; ts ← all_texts l; Some (t :: ts) end.
End all.

(** [json.Marshal]: an empty slice or struct has no member to put between the
    braces; a float that is not finite and a year beyond 0..9999 are errors. *)
Fixpoint marshal (v : value) : option text :=
  match v with
  | VNil => Some (chars "null")
  | VBool b => Some (chars (if b then "true" else "false"))
  | VInt z => Some (dec_Z z)
  | VFloat x => json_float x
  | VString s => Some (quote s)
  | VTime t => marshal_time t
  | VList vs => brackets <$> all_texts marshal vs
  | VStruct ms => braces <$> all_texts (λ m, member_str m.1 <$> marshal m.2) ms
  end.

(** What a reader makes of the text. *)
Fixpoint reads (v : value) : json :=
  match v with
  | VNil => JNull
  | VBool b => JBool b
  | VInt z => JNum (dec_Z z)
  | VFloat x => JNum (default [] (json_float x))
  | VString s => jstr s
  | VTime t => jstr (of_bytes (format_rfc3339_nano t))
  | VList vs => JArr (map reads vs)
  | VStruct ms => JObj (map (λ m, (clean m.1, reads m.2)) ms)
  end.

Fixpoint nesting (v : value) : N :=
  match v with
  | VList vs => N.succ (foldr (λ v n, N.max (nesting v) n) 0%N vs)
  | VStruct ms => N.succ (foldr (λ m n, N.max (nesting m.2) n) 0%N ms)
  | _ => 0%N
  end.

(** The floats of a machine; every number that can be written. *)
Fixpoint floats_ok (v : value) : bool :=
  match v with
  | VFloat x => f_ok x
  | VList vs => forallb floats_ok vs
  | VStruct ms => forallb (λ m, floats_ok m.2) ms
  | _ => true
  end.
Fixpoint writable (v : value) : bool :=
  match v with
  | VFloat x => f_finite x
  | VTime t => (0 <=? year_of t) && (year_of t <=? 9999)
  | VList vs => forallb writable vs
  | VStruct ms => forallb (λ m, writable m.2) ms
  | _ => true
  end.

Section value_ind.
Context (P : value → Prop).
Context (Hleaf : ∀ v, match v with VList _ | VStruct _ => False | _ => True end → P v).
Context (Hlist : ∀ vs, Forall P vs → P (VList vs)).
Context (Hstruct : ∀ ms, Forall (λ m, P m.2) ms → P (VStruct ms)).
Lemma value_induction : ∀ v, P v.
Proof.
  fix IH 1. intros v. destruct v as [| | | | | |vs|ms].
  - by apply Hleaf.
  - by apply Hleaf.
  - by apply Hleaf.
  - by apply Hleaf.
  - by apply Hleaf.
  - by apply Hleaf.
  - apply Hlist. induction vs as [|v vs IHvs]; constructor; [apply IH|apply IHvs].
  - apply Hstruct. induction ms as [|m ms IHms]; constructor; [apply IH|apply IHms].
Qed.
End value_ind.

(** ** Reading a text back *)

Lemma renders_weaken d d' v l : (d <= d')%N → renders d v l → renders d' v l.
Proof. intros Hd Hr fuel depth rest Hf Hn Hs. apply Hr; [done|lia|done]. Qed.
Lemma renders_null d : renders d JNull (chars "null").
Proof. intros fuel depth rest Hf _ Hr. by destruct fuel as [|k]; [simpl in Hf; lia|]. Qed.
Lemma nesting_enough (depth d : N) : (depth + (d + 1) <= max_nesting)%N → (max_nesting <? depth + 1)%N = false.
Proof. intros Hd. apply N.ltb_ge. lia. Qed.
Lemma renders_no_elements d : renders (d + 1) (JArr []) (brackets []).
Proof.
  intros fuel depth rest Hf Hn Hr. destruct fuel as [|k]; [simpl in Hf; lia|].
  change (brackets [] ++ rest) with (byte_at 91 :: byte_at 93 :: rest). cbn [parse_value].
  change (skip_ws (byte_at 91 :: ?x)) with (byte_at 91 :: x). cbv zeta iota.
  change (byte_of (byte_at 91)) with 91%N. cbn [N.eqb Pos.eqb].
  by rewrite (nesting_enough depth d Hn).
Qed.
Lemma renders_no_members d : renders (d + 1) (JObj []) (braces []).
Proof.
  intros fuel depth rest Hf Hn Hr. destruct fuel as [|k]; [simpl in Hf; lia|].
  change (braces [] ++ rest) with (byte_at 123 :: byte_at 125 :: rest). cbn [parse_value].
  change (skip_ws (byte_at 123 :: ?x)) with (byte_at 123 :: x). cbv zeta iota.
  change (byte_of (byte_at 123)) with 123%N. cbn [N.eqb Pos.eqb].
  by rewrite (nesting_enough depth d Hn).
Qed.

Lemma all_texts_some {A} (f : A → option text) l ts : all_texts f l = Some ts ↔
  Forall2 (λ a t, f a = Some t) l ts.
Proof.
  revert ts. induction l as [|a l IH]; intros ts; cbn [all_texts].
  - split; [by intros <-%Some_inj; constructor|by inversion 1].
  - split.
    + destruct (f a) as [t|] eqn:E; [|done]. destruct (all_texts f l) as [ts'|]; [|done].
      intros <-%Some_inj. constructor; [done|]. by apply IH.
    + inversion 1 as [|? t ? ts' Ht Hts]; subst. apply IH in Hts. by rewrite Ht, Hts.
Qed.

(** The parts of a text, when each reads back. *)
Lemma parts_zip {A} (f : A → json) d (l : list A) ts : Forall2 (λ a t, renders d (f a) t) l ts →
  ∃ es, es.*1 = map f l ∧ es.*2 = ts ∧ Forall (λ e, renders d e.1 e.2) es ∧ length es = length l.
Proof.
  induction 1 as [|a t l ts Ha _ (es & E1 & E2 & Hes & Hl)]; [by exists []|].
  exists ((f a, t) :: es). cbn. split_and!; [by rewrite <- E1|by rewrite <- E2|by constructor|by rewrite Hl].
Qed.
Lemma parts_deep {A} (n : A → N) (r : A → json) (ok : A → bool) (m : A → option text) l ts :
  Forall (λ a, ∀ t, ok a = true → m a = Some t → renders (n a) (r a) t) l →
  forallb ok l = true → Forall2 (λ a t, m a = Some t) l ts →
  Forall2 (λ a t, renders (foldr (λ a k, N.max (n a) k) 0%N l) (r a) t) l ts.
Proof.
  intros Hl Hok Hts. induction Hts as [|a t l ts Ht Hts IH]; constructor.
  - apply list.Forall_cons in Hl as [Ha _]. cbn [forallb] in Hok. apply andb_true_iff in Hok as [Hok _].
    cbn [foldr]. apply (renders_weaken (n a)); [lia|]. by apply Ha.
  - apply list.Forall_cons in Hl as [_ Hl]. cbn [forallb] in Hok. apply andb_true_iff in Hok as [_ Hok].
    eapply list.Forall2_impl; [by apply IH|]. intros x y Hxy. cbn [foldr].
    apply (renders_weaken (foldr (λ a k, N.max (n a) k) 0%N l)); [lia|done].
Qed.

Lemma marshal_list_reads vs ts : Forall (λ v, ∀ t, floats_ok v = true → marshal v = Some t →
    renders (nesting v) (reads v) t) vs →
  forallb floats_ok vs = true → all_texts marshal vs = Some ts →
  renders (nesting (VList vs)) (JArr (map reads vs)) (brackets ts).
Proof.
  intros Hvs Hok Hts. apply all_texts_some, (parts_deep nesting reads floats_ok marshal vs ts Hvs Hok) in Hts.
  cbn [nesting]. set (d := foldr _ 0%N vs) in *. clearbody d. replace (N.succ d) with (d + 1)%N by lia.
  apply parts_zip in Hts as (es & <- & <- & Hes & _). destruct es as [|e es]; [apply renders_no_elements|].
  by apply renders_array.
Qed.
Lemma marshal_struct_reads ms ts : Forall (λ m, ∀ t, floats_ok m.2 = true → marshal m.2 = Some t →
    renders (nesting m.2) (reads m.2) t) ms →
  forallb (λ m, floats_ok m.2) ms = true → all_texts (λ m, member_str m.1 <$> marshal m.2) ms = Some ts →
  renders (nesting (VStruct ms)) (JObj (map (λ m, (clean m.1, reads m.2)) ms)) (braces ts).
Proof.
  intros Hms Hok Hts. apply all_texts_some in Hts. cbn [nesting].
  assert (∃ ls, Forall2 (λ m l, marshal m.2 = Some l) ms ls ∧ ts = zip_with (λ m l, member_str m.1 l) ms ls) as (ls & Hls & ->).
  { clear Hms Hok. induction Hts as [|m t ms ts Ht _ (ls & Hls & ->)]; [by exists []|].
    destruct (marshal m.2) as [l|] eqn:E; [|done]. apply Some_inj in Ht as <-. exists (l :: ls). split; [by constructor|done]. }
  apply (parts_deep (λ m, nesting m.2) (λ m, reads m.2) (λ m, floats_ok m.2) (λ m, marshal m.2) ms ls Hms Hok) in Hls.
  set (d := foldr _ 0%N ms) in *. clearbody d. replace (N.succ d) with (d + 1)%N by lia.
  clear Hms Hok Hts. set (rs := zip_with (λ m l, (m.1, reads m.2, l) : rendering) ms ls).
  assert (map (λ m, (clean m.1, reads m.2)) ms = member_of <$> rs ∧ zip_with (λ m l, member_str m.1 l) ms ls = text_of <$> rs ∧
    Forall (λ r : rendering, renders d r.1.2 r.2) rs) as (-> & -> & Hrs).
  { subst rs. induction Hls as [|m l ms ls Hl Hls (IH1 & IH2 & IH3)]; [done|]. cbn. unfold member_of, text_of in *. cbn in *.
    rewrite IH1, IH2. split_and!; [done|done|by constructor]. }
  destruct rs as [|r rs]; [apply renders_no_members|]. by apply renders_object.
Qed.

Lemma marshal_renders v : ∀ t, floats_ok v = true → marshal v = Some t → renders (nesting v) (reads v) t.
Proof.
  induction v as [v Hv|vs Hvs|ms Hms] using value_induction; intros t Hok Ht.
  - destruct v as [|b|z|x|s|t0| |]; try done; cbn [marshal reads nesting floats_ok] in *.
    + apply Some_inj in Ht as <-. apply renders_null.
    + apply Some_inj in Ht as <-. apply renders_bool.
    + apply Some_inj in Ht as <-. apply renders_int.
    + rewrite Ht. apply renders_literal. by apply (float_reads x).
    + apply Some_inj in Ht as <-. apply renders_string.
    + apply marshal_time_some in Ht as [_ ->]. apply renders_string.
  - cbn [marshal] in Ht. destruct (all_texts marshal vs) as [ts|] eqn:E; [|done]. apply Some_inj in Ht as <-.
    by apply marshal_list_reads.
  - cbn [marshal] in Ht. destruct (all_texts _ ms) as [ts|] eqn:E; [|done]. apply Some_inj in Ht as <-.
    by apply marshal_struct_reads.
Qed.

Lemma all_texts_defined {A} (f : A → option text) (ok : A → bool) l :
  Forall (λ a, is_Some (f a) ↔ ok a = true) l → is_Some (all_texts f l) ↔ forallb ok l = true.
Proof.
  induction 1 as [|a l Ha _ IH]; [by split; [|by eexists]|]. cbn [all_texts forallb]. rewrite andb_true_iff, <- Ha, <- IH.
  destruct (f a), (all_texts f l); (split; [intros [? [=]]|intros [[? [=]] [? [=]]]]); try by eexists.
Qed.
Lemma marshal_defined v : is_Some (marshal v) ↔ writable v = true.
Proof.
  induction v as [v Hv|vs Hvs|ms Hms] using value_induction.
  - destruct v as [|b|z|x|s|t0| |]; try done; cbn [marshal writable]; try (split; [done|by eexists]).
    + apply json_float_finite.
    + unfold marshal_time. destruct (_ && _); (split; [by intros [? [=]]|try done; by eexists]).
  - cbn [marshal writable]. rewrite fmap_is_Some. by apply all_texts_defined.
  - cbn [marshal writable]. rewrite fmap_is_Some. apply (all_texts_defined _ (λ m, writable m.2)).
    eapply list.Forall_impl; [exact Hms|]. intros m Hm. cbn. by rewrite fmap_is_Some.
Qed.

(** ** The values of the handlers *)

Definition member (name : string) (v : value) : list (string * value) := [(name, v)].
Definition text_member (name s : string) := member name (VString s).
(** [omitempty]: the empty string, slice, 0 and -0, [false] and [nil] are left out;
    an instant never is. *)
Definition opt_text (name s : string) := if bool_decide (s = "") then [] else text_member name s.
Definition opt_int (name : string) (z : Z) := if z =? 0 then [] else member name (VInt z).
Definition opt_float (name : string) (x : float64) := if is_zero_float x then [] else member name (VFloat x).
Definition opt_true (name : string) (b : bool) := if b then member name (VBool true) else [].
Definition opt_list (name : string) (vs : list value) := match vs with [] => [] | _ => member name (VList vs) end.
Definition strings (l : list string) : list value := VString <$> l.
(** [append([]string(nil), ...)]: nothing appended leaves [nil]. *)
Definition appended (l : list string) : value := match l with [] => VNil | _ => VList (strings l) end.

Definition user_value (u : User.t) : value := VStruct (
  text_member "id" (User.ID u) ++ text_member "email" (User.Email u) ++
  text_member "username" (User.Username u) ++ opt_text "nickname" (User.Nickname u) ++
  opt_text "avatar_url" (User.AvatarURL u) ++ text_member "role" (User.Role u) ++
  member "created_at" (VTime (User.CreatedAt u)) ++ member "updated_at" (VTime (User.UpdatedAt u))).
Definition room_members (r : Room.t) : list (string * value) :=
  text_member "id" (Room.ID r) ++ text_member "name" (Room.Name r) ++ text_member "owner_id" (Room.OwnerID r) ++
  text_member "visibility" (Room.Visibility r) ++ opt_text "current_video_id" (Room.CurrentVideo r) ++
  member "created_at" (VTime (Room.CreatedAt r)) ++ member "updated_at" (VTime (Room.UpdatedAt r)).
Definition room_value (r : Room.t) : value := VStruct (room_members r).
(** The embedded room's members come first. *)
Definition room_response_value (r : RoomResponse.t) : value := VStruct (
  room_members (RoomResponse.Room r) ++ opt_true "is_owner" (RoomResponse.IsOwner r) ++
  opt_text "left_room_id" (RoomResponse.LeftRoomID r)).
Definition tokens_value (t : TokenPair.t) : value := VStruct (
  text_member "access_token" (TokenPair.AccessToken t) ++ text_member "refresh_token" (TokenPair.RefreshToken t) ++
  text_member "token_type" (TokenPair.TokenType t) ++ member "expires_at" (VTime (TokenPair.ExpiresAt t))).
Definition item_value (q : QueueItemRef.t) : value := VStruct (
  text_member "id" (QueueItemRef.ID q) ++ opt_text "video_id" (QueueItemRef.VideoID q) ++
  member "position" (VInt (QueueItemRef.Position q))).
Definition state_value (s : RoomState.t) : value := VStruct (
  text_member "room_id" (RoomState.RoomID s) ++ opt_text "video_id" (RoomState.VideoID s) ++
  opt_list "queue" (strings (RoomState.Queue s)) ++ opt_list "queue_meta" (item_value <$> RoomState.QueueMeta s) ++
  text_member "action" (RoomState.Action s) ++ member "position" (VFloat (RoomState.Position s)) ++
  opt_text "playback_mode" (RoomState.PlaybackMode s) ++ opt_float "video_duration" (RoomState.VideoDuration s) ++
  opt_int "control_version" (RoomState.ControlVersion s) ++ opt_text "updated_by" (RoomState.UpdatedBy s) ++
  member "updated_at" (VTime (RoomState.UpdatedAt s)) ++ member "base_updated_at" (VTime (RoomState.BaseUpdatedAt s))).
Definition hub_user_value (u : HubUser.t) : value := VStruct (
  text_member "id" (HubUser.ID u) ++ text_member "username" (HubUser.Username u) ++
  opt_text "nickname" (HubUser.Nickname u) ++ text_member "role" (HubUser.Role u) ++
  member "is_owner" (VBool (HubUser.IsOwner u))).
Definition message_value (m : Message.t) : value := VStruct (
  text_member "type" (Message.Type_ m) ++ opt_text "action" (Message.Action m) ++ opt_text "event" (Message.Event m) ++
  opt_float "position" (Message.Position m) ++ opt_text "video_id" (Message.VideoID m) ++
  opt_list "queue" (strings (Message.Queue m)) ++ opt_int "timestamp" (Message.Timestamp m) ++
  opt_int "control_version" (Message.ControlVersion m) ++ opt_text "playback_mode" (Message.PlaybackMode m) ++
  opt_int "updated_at" (Message.UpdatedAt m) ++
  match Message.User m with Some u => member "user" (hub_user_value u) | None => [] end).
Definition chat_value (m : ChatMessage.t) : value := VStruct (
  text_member "type" (ChatMessage.Type_ m) ++ member "seq" (VInt (ChatMessage.Seq m)) ++
  opt_text "stream_id" (ChatMessage.StreamID m) ++ text_member "room_id" (ChatMessage.RoomID m) ++
  member "user" (hub_user_value (ChatMessage.User m)) ++ text_member "text" (ChatMessage.Text m) ++
  member "sent_at" (VInt (ChatMessage.SentAt m))).
Definition snapshot_value (s : RoomSnapshotResponse.t) : value := VStruct (
  text_member "room_id" (RoomSnapshotResponse.RoomID s) ++ member "state" (state_value (RoomSnapshotResponse.State s)) ++
  member "queue" (appended (RoomSnapshotResponse.Queue s)) ++
  member "viewer_count" (VInt (RoomSnapshotResponse.ViewerCount s)) ++
  member "ably" (VStruct (text_member "channel" (RoomSnapshotResponse.Channel s) ++
    text_member "token_endpoint" (RoomSnapshotResponse.TokenEndpoint s)))).
Definition admin_item_value (i : AdminRoomItem.t) : value := VStruct (
  member "room" (room_value (AdminRoomItem.Room i)) ++
  match AdminRoomItem.Owner i with Some u => member "owner" (user_value u) | None => [] end ++
  member "online_count" (VInt (AdminRoomItem.OnlineCount i)) ++
  opt_text "current_video_id" (AdminRoomItem.CurrentVideo i) ++ opt_text "playback_action" (AdminRoomItem.Playback i) ++
  member "created_at" (VTime (AdminRoomItem.CreatedAt i))).
Definition debug_item_value (i : DebugRoomItem.t) : value := VStruct (
  member "room" (room_value (DebugRoomItem.Room i)) ++ member "state" (state_value (DebugRoomItem.State i)) ++
  member "users" (match DebugRoomItem.Users i with Some us => VList (hub_user_value <$> us) | None => VNil end) ++
  member "queue" (appended (DebugRoomItem.Queue i)) ++ member "viewer_count" (VInt (DebugRoomItem.ViewerCount i))).
Definition listing (items : list value) (total : Z) : value :=
  VStruct (member "items" (VList items) ++ member "total" (VInt total)).

(** [apierr.Respond] and [registerCodeResponse]. *)
Definition error_value (code message : string) : value :=
  VStruct (member "error" (VStruct (text_member "code" code ++ text_member "message" message))).
Definition code_value (expiresAt : string) (retryAfter : Z) : value := VStruct (
  text_member "expires_at" expiresAt ++ member "retry_after" (VInt retryAfter) ++ opt_int "retry_after_s" retryAfter).

(** A reply's value; a reply without one has an empty body. *)
Definition reply_value (b : Body) : option value :=
  match b with
  | BNone => None
  | BError code message => Some (error_value code message)
  | BCode expiresAt retryAfter => Some (code_value expiresAt retryAfter)
  | BSession user tokens => Some (VStruct (member "tokens" (tokens_value tokens) ++ member "user" (user_value user)))
  | BTokens tokens => Some (VStruct (member "tokens" (tokens_value tokens)))
  | BUser user => Some (VStruct (member "user" (user_value user)))
  | BRoom room => Some (room_response_value room)
  | BRooms items total => Some (listing (room_value <$> items) total)
  | BIdle roomID =>
      Some (VStruct (text_member "action" PlaybackActionPause ++ member "position" (VInt 0) ++
                     text_member "room_id" roomID))
  | BState state => Some (state_value state)
  | BAbly token expiresAt => Some (VStruct (text_member "expires_at" expiresAt ++ text_member "token" token))
  | BMessage msg => Some (message_value msg)
  | BSnapshot snapshot => Some (snapshot_value snapshot)
  | BChatSent res => Some (VStruct (member "message" (chat_value (ChatSendResult.Message res)) ++
                                    text_member "realtime" (ChatSendResult.Realtime res)))
  | BChat items hasMore => Some (VStruct (member "has_more" (VBool hasMore) ++ member "items" (VList (chat_value <$> items))))
  | BAdminRooms items total => Some (listing (admin_item_value <$> items) total)
  | BDebugRooms items total => Some (listing (debug_item_value <$> items) total)
  | BHealth storage cache =>
      Some (VStruct (text_member "cache_backend" cache ++ text_member "status" "ok" ++ text_member "storage_backend" storage))
  end.
Definition reply_text (b : Body) : option string :=
  match reply_value b with None => Some "" | Some v => of_bytes <$> marshal v end.

(** ** The texts agree with the other encoders *)

Abbreviation texts := (all_texts (λ m, member_str m.1 <$> marshal m.2)).
Lemma all_texts_app {A} (f : A → option text) l1 l2 :
  all_texts f (l1 ++ l2) = (t1 ← all_texts f l1; t2 ← all_texts f l2; Some (t1 ++ t2)).
Proof.
  induction l1 as [|a l1 IH]; cbn [app all_texts]; [by destruct (all_texts f l2)|]. rewrite IH.
  destruct (f a), (all_texts f l1), (all_texts f l2); done.
Qed.
Lemma texts_text name s : texts (text_member name s) = Some [member_str name (quote s)].
Proof. done. Qed.
Lemma texts_opt_text name s : texts (opt_text name s) = Some (omitempty name s).
Proof. unfold opt_text, omitempty. by case_bool_decide. Qed.
Lemma texts_int name z : texts (member name (VInt z)) = Some [member_str name (dec_Z z)].
Proof. done. Qed.
Lemma texts_opt_int name z : texts (opt_int name z) = Some (omit_int name z).
Proof. unfold opt_int, omit_int. by destruct (z =? 0). Qed.
Lemma texts_bool name b : texts (member name (VBool b)) = Some [member_str name (chars (if b then "true" else "false"))].
Proof. done. Qed.
Lemma texts_float name x : texts (member name (VFloat x)) = (l ← json_float x; Some [member_str name l]).
Proof. cbn. by destruct (json_float x). Qed.
Lemma texts_opt_float name x : texts (opt_float name x) = omit_float name x.
Proof. unfold opt_float, omit_float. destruct (is_zero_float x); [done|]. apply texts_float. Qed.
Lemma texts_time name t : texts (member name (VTime t)) = (l ← marshal_time t; Some [member_str name l]).
Proof. cbn. by destruct (marshal_time t). Qed.
Lemma texts_list {A} name (f : A → value) (g : A → text) l : (∀ a, marshal (f a) = Some (g a)) →
  texts (opt_list name (f <$> l)) = Some (omit_slice name (g <$> l)).
Proof.
  intros Hf. assert (all_texts marshal (f <$> l) = Some (g <$> l)) as E.
  { induction l as [|a l IH]; [done|]. cbn. rewrite Hf. cbn. change (list_fmap A value f l) with (f <$> l).
    change (list_fmap A text g l) with (g <$> l). by rewrite IH. }
  destruct l as [|a l]; [done|].
  change (texts (member name (VList (f <$> a :: l))) = Some [member_str name (brackets (g <$> a :: l))]).
  change ((x ← member_str name <$> (brackets <$> all_texts marshal (f <$> a :: l)); Some [x]) =
    Some [member_str name (brackets (g <$> a :: l))]). by rewrite E.
Qed.

Lemma item_value_text q : marshal (item_value q) = Some (marshal_item q).
Proof.
  unfold item_value, marshal_item. cbn [marshal]. rewrite !all_texts_app, texts_text, texts_opt_text, texts_int. done.
Qed.
Lemma state_value_text s : of_bytes <$> marshal (state_value s) = marshal_state s.
Proof.
  unfold state_value, marshal_state. cbn [marshal].
  rewrite !all_texts_app, !texts_text, !texts_opt_text, (texts_list "queue" VString quote), (texts_list "queue_meta" item_value marshal_item),
    texts_float, texts_opt_float, texts_opt_int, !texts_time by (done || apply item_value_text).
  destruct (json_float _), (omit_float _ _), (marshal_time (RoomState.UpdatedAt s)), (marshal_time (RoomState.BaseUpdatedAt s)); try done.
Qed.
Lemma hub_user_text u : marshal (hub_user_value u) = Some (marshal_user u).
Proof.
  unfold hub_user_value, marshal_user. cbn [marshal].
  rewrite !all_texts_app, !texts_text, texts_opt_text, texts_bool. done.
Qed.
Lemma chat_value_text m : of_bytes <$> marshal (chat_value m) = Some (marshal_chat m).
Proof.
  unfold chat_value, marshal_chat. cbn [marshal].
  rewrite !all_texts_app, !texts_text, texts_opt_text, !texts_int. cbn [all_texts member fst snd]. rewrite hub_user_text. done.
Qed.

(** ** Replies without password hashes, and how deep they nest *)

Definition floats_fit (b : Body) : Prop := match reply_value b with Some v => floats_ok v = true | None => True end.

(** The reply without its password hashes. *)
Definition bare_room (r : Room.t) : Room.t :=
  Room.mk (Room.ID r) (Room.Name r) (Room.OwnerID r) (Room.Visibility r) "" (Room.CurrentVideo r)
    (Room.CreatedAt r) (Room.UpdatedAt r).
Definition bare_user (u : User.t) : User.t := User.set_PasswordHash "" u.
Definition bare_admin (i : AdminRoomItem.t) : AdminRoomItem.t :=
  AdminRoomItem.mk (bare_room (AdminRoomItem.Room i)) (bare_user <$> AdminRoomItem.Owner i) (AdminRoomItem.OnlineCount i)
    (AdminRoomItem.CurrentVideo i) (AdminRoomItem.Playback i) (AdminRoomItem.CreatedAt i).
Definition bare_debug (i : DebugRoomItem.t) : DebugRoomItem.t :=
  DebugRoomItem.mk (bare_room (DebugRoomItem.Room i)) (DebugRoomItem.State i) (DebugRoomItem.Users i)
    (DebugRoomItem.Queue i) (DebugRoomItem.ViewerCount i).
Definition bare (b : Body) : Body :=
  match b with
  | BSession user tokens => BSession (bare_user user) tokens
  | BUser user => BUser (bare_user user)
  | BRoom r => BRoom (RoomResponse.mk (bare_room (RoomResponse.Room r)) (RoomResponse.IsOwner r) (RoomResponse.LeftRoomID r))
  | BRooms items total => BRooms (bare_room <$> items) total
  | BAdminRooms items total => BAdminRooms (bare_admin <$> items) total
  | BDebugRooms items total => BDebugRooms (bare_debug <$> items) total
  | b => b
  end.

Lemma bare_values b : reply_value (bare b) = reply_value b.
Proof.
  destruct b as [| | |u tk| |u|r|rs n| | | | | | | |ai n|di n|]; try done; cbn [bare reply_value];
    do 2 f_equal; rewrite <- list_fmap_compose; apply list_fmap_ext; intros i x _; try done.
  by destruct x as [r [u|]].
Qed.

(** How deep the values go. *)
Definition depth_le (k : nat) (v : value) : Prop := (nesting v <= N.of_nat k)%N.
Definition members_le (k : nat) (ms : list (string * value)) : Prop := Forall (λ m, depth_le k m.2) ms.
Lemma depth_leaf k v : nesting v = 0%N → depth_le k v.
Proof. unfold depth_le. intros ->. lia. Qed.
Lemma depth_struct k ms : members_le k ms → depth_le (S k) (VStruct ms).
Proof.
  intros Hms. unfold depth_le. change (nesting (VStruct ms)) with (N.succ (foldr (λ m n, N.max (nesting m.2) n) 0%N ms)).
  enough (foldr (λ m n, N.max (nesting m.2) n) 0 ms <= N.of_nat k)%N by lia.
  induction Hms as [|m ms Hm _ IH]; [cbn; lia|]. cbn [foldr]. unfold depth_le in Hm. lia.
Qed.
Lemma depth_list {A} (f : A → value) k (l : list A) : (∀ a, depth_le k (f a)) → depth_le (S k) (VList (f <$> l)).
Proof.
  intros Hf. unfold depth_le. change (nesting (VList (f <$> l))) with (N.succ (foldr (λ v n, N.max (nesting v) n) 0%N (f <$> l))).
  enough (foldr (λ v n, N.max (nesting v) n) 0 (f <$> l) <= N.of_nat k)%N by lia.
  induction l as [|a l IH]; [cbn; lia|]. specialize (Hf a). unfold depth_le in Hf.
  change (f <$> a :: l) with (f a :: (f <$> l)). cbn [foldr]. lia.
Qed.
Lemma members_app k l1 l2 : members_le k l1 → members_le k l2 → members_le k (l1 ++ l2).
Proof. apply Forall_app_2. Qed.
Lemma members_one k name v : depth_le k v → members_le k (member name v).
Proof. by repeat constructor. Qed.
Lemma members_list {A} (f : A → value) k name (l : list A) : (∀ a, depth_le k (f a)) → members_le (S k) (opt_list name (f <$> l)).
Proof. intros Hf. destruct l as [|a l]; [constructor|]. by apply (members_one _ name (VList (f <$> a :: l))), depth_list. Qed.
Lemma members_nil k : members_le k [].
Proof. constructor. Qed.
Ltac shallow := repeat first
  [ apply members_app | apply members_nil | apply members_one | apply members_list; intros ?
  | apply depth_struct | apply depth_list; intros ? | apply depth_leaf; reflexivity
  | match goal with
    | |- members_le _ (match ?x with _ => _ end) => destruct x
    | |- depth_le _ (match ?x with _ => _ end) => destruct x
    end
  | progress unfold text_member, opt_text, opt_int, opt_float, opt_true, strings, appended, room_members, listing,
      user_value, room_value, room_response_value, tokens_value, item_value, state_value, hub_user_value, message_value,
      chat_value, snapshot_value, admin_item_value, debug_item_value, error_value, code_value ].
Lemma reply_depth b v : reply_value b = Some v → depth_le 6 v.
Proof. destruct b; cbn [reply_value]; try done; intros <-%Some_inj; shallow. Qed.

(** ** Examples *)

(** A snapshot without a queue has [null] for it. *)
Example empty_queue : marshal (appended []) = Some (chars "null") ∧ marshal (VList []) = Some (chars "[]").
Proof. by split. Qed.
Example error_text : reply_text (BError "NOT_FOUND" "route not found") = Some (of_bytes (braces
  [member_str "error" (braces [member_str "code" (quote "NOT_FOUND"); member_str "message" (quote "route not found")])])).
Proof. vm_compute. reflexivity. Qed.
Example user_text : reply_text (BUser (User.mk "u1" "a@x.io" "ann" "$2a$10$secret" "" "" "user" 0 0)) =
  Some (of_bytes (braces [member_str "user" (braces
    [member_str "id" (quote "u1"); member_str "email" (quote "a@x.io"); member_str "username" (quote "ann");
     member_str "role" (quote "user"); member_str "created_at" (quote "1970-01-01T00:00:00Z");
     member_str "updated_at" (quote "1970-01-01T00:00:00Z")])])).
Proof. vm_compute. reflexivity. Qed.
