(* ===== verification/ReplyReader.v ===== *)
(** * What a client reads from a reply

    A reader of the replies of [internal/api], by the names of their JSON members
    and independent of the encoder in [Replies]: each endpoint's client asks for a
    kind of reply, looks the members up by name and makes of them the value the
    handler handed to [c.JSON].  [replies_read] shows that it gets that value, the
    password hashes blank. *)

From S2P Require Import Prelude GoStrings GoNum GoJson JsonFacts GoFloat GoTime Model StateWire Interfaces Service Chat ChatWire Hub Auth Api Replies.
#[local] Open Scope Z_scope.

(** ** Members by name *)

Fixpoint look (name : string) (ms : list (string * json)) : option json :=
  match ms with
  | [] => None
  | (k, j) :: ms => if bool_decide (k = name) then Some j else look name ms
  end.
Definition members (j : json) : option (list (string * json)) := match j with JObj ms => Some ms | _ => None end.
(** A member that has to be there; one that may be left out. *)
Definition need {A} (name : string) (f : json → option A) (ms : list (string * json)) : option A :=
  j ← look name ms; f j.
Definition may {A} (name : string) (f : json → option A) (zero : A) (ms : list (string * json)) : option A :=
  match look name ms with Some j => f j | None => Some zero end.

Definition the_text (j : json) : option string := match j with JStr s _ => Some s | _ => None end.
Definition the_bool (j : json) : option bool := match j with JBool b => Some b | _ => None end.
Definition the_int (j : json) : option Z := match j with JNum l => parse_int64 l | _ => None end.
Definition the_float (j : json) : option float64 := match j with JNum l => parse_float l | _ => None end.
Definition the_time (j : json) : option time := match j with JStr _ _ => into_time j zero_time | _ => None end.
Section lists.
Context {A : Type} (f : json → option A).
Fixpoint each (js : list json) : option (list A) :=
  match js with [] => Some [] | j :: js => x ← f j; xs ← each js; Some (x :: xs) end.
Definition the_list (j : json) : option (list A) := match j with JArr js => each js | _ => None end.
(** [null] for a list there is not. *)
Definition list_or_null (j : json) : option (option (list A)) :=
  match j with JNull => Some None | _ => Some <$> the_list j end.
End lists.

Definition the_queue (j : json) : option (list string) := default [] <$> list_or_null the_text j.

(** ** The readers *)

Definition read_user (j : json) : option User.t :=
  ms ← members j; id ← need "id" the_text ms; email ← need "email" the_text ms; name ← need "username" the_text ms;
  nick ← may "nickname" the_text "" ms; avatar ← may "avatar_url" the_text "" ms; role ← need "role" the_text ms;
  created ← need "created_at" the_time ms; updated ← need "updated_at" the_time ms;
  Some (User.mk id email name "" nick avatar role created updated).
Definition read_room (j : json) : option Room.t :=
  ms ← members j; id ← need "id" the_text ms; name ← need "name" the_text ms; owner ← need "owner_id" the_text ms;
  vis ← need "visibility" the_text ms; video ← may "current_video_id" the_text "" ms;
  created ← need "created_at" the_time ms; updated ← need "updated_at" the_time ms;
  Some (Room.mk id name owner vis "" video created updated).
Definition read_room_response (j : json) : option RoomResponse.t :=
  ms ← members j; room ← read_room j; owner ← may "is_owner" the_bool false ms; left ← may "left_room_id" the_text "" ms;
  Some (RoomResponse.mk room owner left).
Definition read_tokens (j : json) : option TokenPair.t :=
  ms ← members j; access ← need "access_token" the_text ms; refresh ← need "refresh_token" the_text ms;
  type ← need "token_type" the_text ms; expires ← need "expires_at" the_time ms;
  Some (TokenPair.mk access refresh type expires).
Definition read_item (j : json) : option QueueItemRef.t :=
  ms ← members j; id ← need "id" the_text ms; video ← may "video_id" the_text "" ms; pos ← need "position" the_int ms;
  Some (QueueItemRef.mk id video pos).
Definition read_state (j : json) : option RoomState.t :=
  ms ← members j; room ← need "room_id" the_text ms; video ← may "video_id" the_text "" ms;
  queue ← may "queue" (the_list the_text) [] ms; meta ← may "queue_meta" (the_list read_item) [] ms;
  action ← need "action" the_text ms; pos ← need "position" the_float ms; mode ← may "playback_mode" the_text "" ms;
  duration ← may "video_duration" the_float f_zero ms; version ← may "control_version" the_int 0 ms;
  by_ ← may "updated_by" the_text "" ms; updated ← need "updated_at" the_time ms; base ← need "base_updated_at" the_time ms;
  Some (RoomState.mk room video queue meta action pos mode duration version by_ updated base).
Definition read_hub_user (j : json) : option HubUser.t :=
  ms ← members j; id ← need "id" the_text ms; name ← need "username" the_text ms; nick ← may "nickname" the_text "" ms;
  role ← need "role" the_text ms; owner ← need "is_owner" the_bool ms; Some (HubUser.mk id name nick role owner).
Definition read_message (j : json) : option Message.t :=
  ms ← members j; type ← need "type" the_text ms; action ← may "action" the_text "" ms; event ← may "event" the_text "" ms;
  pos ← may "position" the_float f_zero ms; video ← may "video_id" the_text "" ms;
  queue ← may "queue" (the_list the_text) [] ms; stamp ← may "timestamp" the_int 0 ms;
  version ← may "control_version" the_int 0 ms; mode ← may "playback_mode" the_text "" ms;
  updated ← may "updated_at" the_int 0 ms; user ← may "user" (λ j, Some <$> read_hub_user j) None ms;
  Some (Message.mk type action event pos video queue stamp version mode updated user).
Definition read_chat (j : json) : option ChatMessage.t :=
  ms ← members j; type ← need "type" the_text ms; seq ← need "seq" the_int ms; sid ← may "stream_id" the_text "" ms;
  room ← need "room_id" the_text ms; user ← need "user" read_hub_user ms; text ← need "text" the_text ms;
  sent ← need "sent_at" the_int ms; Some (ChatMessage.mk type seq sid room user text sent).
Definition read_ably (j : json) : option (string * string) :=
  ms ← members j; channel ← need "channel" the_text ms; endpoint ← need "token_endpoint" the_text ms; Some (channel, endpoint).
Definition read_snapshot (j : json) : option RoomSnapshotResponse.t :=
  ms ← members j; room ← need "room_id" the_text ms; state ← need "state" read_state ms;
  queue ← need "queue" the_queue ms; n ← need "viewer_count" the_int ms; ably ← need "ably" read_ably ms;
  Some (RoomSnapshotResponse.mk room state queue n ably.1 ably.2).
Definition read_admin_item (j : json) : option AdminRoomItem.t :=
  ms ← members j; room ← need "room" read_room ms; owner ← may "owner" (λ j, Some <$> read_user j) None ms;
  n ← need "online_count" the_int ms; video ← may "current_video_id" the_text "" ms;
  playback ← may "playback_action" the_text "" ms; created ← need "created_at" the_time ms;
  Some (AdminRoomItem.mk room owner n video playback created).
Definition read_debug_item (j : json) : option DebugRoomItem.t :=
  ms ← members j; room ← need "room" read_room ms; state ← need "state" read_state ms;
  users ← need "users" (list_or_null read_hub_user) ms; queue ← need "queue" the_queue ms;
  n ← need "viewer_count" the_int ms; Some (DebugRoomItem.mk room state users queue n).
Definition read_listing {A} (f : json → option A) (j : json) : option (list A * Z) :=
  ms ← members j; items ← need "items" (the_list f) ms; total ← need "total" the_int ms; Some (items, total).

(** What the client asked for. *)
Inductive Kind : Type :=
  | KEmpty | KError | KCode | KSession | KTokens | KUser | KRoom | KRooms | KIdle | KState | KAbly | KMessage | KSnapshot
  | KChatSent | KChat | KAdminRooms | KDebugRooms | KHealth.
Definition kind_of (b : Body) : Kind :=
  match b with
  | BNone => KEmpty | BError _ _ => KError | BCode _ _ => KCode | BSession _ _ => KSession | BTokens _ => KTokens
  | BUser _ => KUser | BRoom _ => KRoom | BRooms _ _ => KRooms | BIdle _ => KIdle | BState _ => KState
  | BAbly _ _ => KAbly | BMessage _ => KMessage | BSnapshot _ => KSnapshot | BChatSent _ => KChatSent
  | BChat _ _ => KChat | BAdminRooms _ _ => KAdminRooms | BDebugRooms _ _ => KDebugRooms | BHealth _ _ => KHealth
  end.
Definition literally (s : string) (j : json) : option () :=
  t ← the_text j; if bool_decide (t = s) then Some () else None.
Definition read_reply (k : Kind) (j : json) : option Body :=
  ms ← members j;
  match k with
  | KEmpty => None
  | KError => e ← need "error" members ms; code ← need "code" the_text e; message ← need "message" the_text e;
      Some (BError code message)
  | KCode => expires ← need "expires_at" the_text ms; retry ← need "retry_after" the_int ms;
      seconds ← may "retry_after_s" the_int 0 ms;
      if bool_decide (seconds = retry) then Some (BCode expires retry) else None
  | KSession => user ← need "user" read_user ms; tokens ← need "tokens" read_tokens ms; Some (BSession user tokens)
  | KTokens => tokens ← need "tokens" read_tokens ms; Some (BTokens tokens)
  | KUser => user ← need "user" read_user ms; Some (BUser user)
  | KRoom => room ← read_room_response j; Some (BRoom room)
  | KRooms => l ← read_listing read_room j; Some (BRooms l.1 l.2)
  | KIdle => _ ← need "action" (literally "pause") ms; pos ← need "position" the_int ms; room ← need "room_id" the_text ms;
      if bool_decide (pos = 0) then Some (BIdle room) else None
  | KState => state ← read_state j; Some (BState state)
  | KAbly => token ← need "token" the_text ms; expires ← need "expires_at" the_text ms; Some (BAbly token expires)
  | KMessage => m ← read_message j; Some (BMessage m)
  | KSnapshot => s ← read_snapshot j; Some (BSnapshot s)
  | KChatSent => m ← need "message" read_chat ms; how ← need "realtime" the_text ms;
      Some (BChatSent (ChatSendResult.mk m how))
  | KChat => items ← need "items" (the_list read_chat) ms; more ← need "has_more" the_bool ms; Some (BChat items more)
  | KAdminRooms => l ← read_listing read_admin_item j; Some (BAdminRooms l.1 l.2)
  | KDebugRooms => l ← read_listing read_debug_item j; Some (BDebugRooms l.1 l.2)
  | KHealth => _ ← need "status" (literally "ok") ms; storage ← need "storage_backend" the_text ms;
      cache ← need "cache_backend" the_text ms; Some (BHealth storage cache)
  end.
Definition receive (k : Kind) (t : string) : option Body := j ← parse t; read_reply k j.

(** ** What there is to read *)

(** The value that was sent, its strings valid UTF-8 (an invalid byte reads as the
    replacement character), a float that is left out 0, no password hash. *)
Definition unsigned (x : float64) : float64 := if is_zero_float x then f_zero else x.
Definition seen_user (u : User.t) : User.t :=
  User.mk (clean (User.ID u)) (clean (User.Email u)) (clean (User.Username u)) "" (clean (User.Nickname u))
    (clean (User.AvatarURL u)) (clean (User.Role u)) (User.CreatedAt u) (User.UpdatedAt u).
Definition seen_room (r : Room.t) : Room.t :=
  Room.mk (clean (Room.ID r)) (clean (Room.Name r)) (clean (Room.OwnerID r)) (clean (Room.Visibility r)) ""
    (clean (Room.CurrentVideo r)) (Room.CreatedAt r) (Room.UpdatedAt r).
Definition seen_tokens (t : TokenPair.t) : TokenPair.t :=
  TokenPair.mk (clean (TokenPair.AccessToken t)) (clean (TokenPair.RefreshToken t)) (clean (TokenPair.TokenType t))
    (TokenPair.ExpiresAt t).
Definition seen_message (m : Message.t) : Message.t :=
  Message.mk (clean (Message.Type_ m)) (clean (Message.Action m)) (clean (Message.Event m)) (unsigned (Message.Position m))
    (clean (Message.VideoID m)) (clean <$> Message.Queue m) (Message.Timestamp m) (Message.ControlVersion m)
    (clean (Message.PlaybackMode m)) (Message.UpdatedAt m) (clean_user <$> Message.User m).
Definition seen_snapshot (s : RoomSnapshotResponse.t) : RoomSnapshotResponse.t :=
  RoomSnapshotResponse.mk (clean (RoomSnapshotResponse.RoomID s)) (clean_state (RoomSnapshotResponse.State s))
    (clean <$> RoomSnapshotResponse.Queue s) (RoomSnapshotResponse.ViewerCount s)
    (clean (RoomSnapshotResponse.Channel s)) (clean (RoomSnapshotResponse.TokenEndpoint s)).
Definition seen_admin (i : AdminRoomItem.t) : AdminRoomItem.t :=
  AdminRoomItem.mk (seen_room (AdminRoomItem.Room i)) (seen_user <$> AdminRoomItem.Owner i) (AdminRoomItem.OnlineCount i)
    (clean (AdminRoomItem.CurrentVideo i)) (clean (AdminRoomItem.Playback i)) (AdminRoomItem.CreatedAt i).
Definition seen_debug (i : DebugRoomItem.t) : DebugRoomItem.t :=
  DebugRoomItem.mk (seen_room (DebugRoomItem.Room i)) (clean_state (DebugRoomItem.State i))
    (map clean_user <$> DebugRoomItem.Users i) (clean <$> DebugRoomItem.Queue i) (DebugRoomItem.ViewerCount i).
Definition seen (b : Body) : Body :=
  match b with
  | BNone => BNone
  | BError code message => BError (clean code) (clean message)
  | BCode expires retry => BCode (clean expires) retry
  | BSession user tokens => BSession (seen_user user) (seen_tokens tokens)
  | BTokens tokens => BTokens (seen_tokens tokens)
  | BUser user => BUser (seen_user user)
  | BRoom r => BRoom (RoomResponse.mk (seen_room (RoomResponse.Room r)) (RoomResponse.IsOwner r) (clean (RoomResponse.LeftRoomID r)))
  | BRooms items total => BRooms (seen_room <$> items) total
  | BIdle room => BIdle (clean room)
  | BState state => BState (clean_state state)
  | BAbly token expires => BAbly (clean token) (clean expires)
  | BMessage m => BMessage (seen_message m)
  | BSnapshot s => BSnapshot (seen_snapshot s)
  | BChatSent res => BChatSent (ChatSendResult.mk (clean_message (ChatSendResult.Message res)) (clean (ChatSendResult.Realtime res)))
  | BChat items more => BChat (clean_message <$> items) more
  | BAdminRooms items total => BAdminRooms (seen_admin <$> items) total
  | BDebugRooms items total => BDebugRooms (seen_debug <$> items) total
  | BHealth storage cache => BHealth (clean storage) (clean cache)
  end.

(** ** The members of a struct, the absent ones too *)

(** Every integer of the value fits the 64 bits of a Go [int]. *)
Fixpoint ints_ok (v : value) : bool :=
  match v with
  | VInt z => (min_int64 <=? z) && (z <=? max_int64)
  | VList vs => forallb ints_ok vs
  | VStruct ms => forallb (λ m, ints_ok m.2) ms
  | _ => true
  end.
Definition ints_fit (b : Body) : Prop := match reply_value b with Some v => ints_ok v = true | None => True end.
Definition sound (v : value) : Prop := floats_ok v = true ∧ ints_ok v = true ∧ writable v = true.
Lemma sound_list vs : sound (VList vs) → Forall sound vs.
Proof.
  intros (H1 & H2 & H3). cbn [floats_ok ints_ok writable] in *. rewrite forallb_forall in H1, H2, H3.
  apply list.Forall_forall. intros v Hv. apply list_elem_of_In in Hv. repeat split; auto.
Qed.
Lemma sound_struct ms : sound (VStruct ms) → Forall (λ m, sound m.2) ms.
Proof.
  intros (H1 & H2 & H3). cbn [floats_ok ints_ok writable] in *. rewrite forallb_forall in H1, H2, H3.
  apply list.Forall_forall. intros v Hv. apply list_elem_of_In in Hv. repeat split; auto.
Qed.

(** A member, or the place of one that is left out. *)
Definition piece : Type := string * option value.
Definition flat (ps : list piece) : list (string * value) :=
  concat (map (λ p, match p.2 with Some v => [(p.1, v)] | None => [] end) ps).
Fixpoint slot (name : string) (ps : list piece) : option value :=
  match ps with [] => None | (k, o) :: ps => if bool_decide (k = name) then o else slot name ps end.
Definition rd (m : string * value) : string * json := (clean m.1, reads m.2).
Definition good_names (ps : list piece) : bool :=
  bool_decide (NoDup ps.*1) && forallb (λ k, bool_decide (clean k = k)) ps.*1.

Lemma look_other name ps : name ∉ ps.*1 → forallb (λ k, bool_decide (clean k = k)) ps.*1 = true →
  look name (map rd (flat ps)) = None.
Proof.
  induction ps as [|[k [v|]] ps IH]; [done|..]; cbn; rewrite list.elem_of_cons, andb_true_iff;
    intros Hn [Hk Hc]; [|by apply IH; auto]. apply bool_decide_eq_true in Hk. rewrite Hk, bool_decide_false by naive_solver. apply IH; auto.
Qed.
Lemma look_flat name ps : good_names ps = true → look name (map rd (flat ps)) = reads <$> slot name ps.
Proof.
  unfold good_names. rewrite andb_true_iff, bool_decide_eq_true. intros [Hd Hc].
  induction ps as [|[k o] ps IH]; [done|]. cbn in Hd, Hc. apply list.NoDup_cons in Hd as [Hk Hd]. apply andb_true_iff in Hc as [Hc1 Hc].
  apply bool_decide_eq_true in Hc1. cbn [slot]. case_bool_decide as E.
  - subst name. destruct o as [v|]; cbn.
    + by rewrite Hc1, bool_decide_true.
    + by apply look_other.
  - destruct o as [v|]; cbn; [rewrite Hc1, bool_decide_false by done|]; by apply IH.
Qed.
Lemma slot_sound name ps v : sound (VStruct (flat ps)) → slot name ps = Some v → sound v.
Proof.
  intros Hs%sound_struct. induction ps as [|[k o] ps IH]; [done|]. cbn [slot]. case_bool_decide as E.
  - intros ->. by apply list.Forall_cons in Hs as [Hs _].
  - apply IH. destruct o; [by apply list.Forall_cons in Hs as [_ Hs]|done].
Qed.

(** The omitted members as places. *)
Definition o_text (s : string) : option value := if bool_decide (s = "") then None else Some (VString s).
Definition o_int (z : Z) : option value := if z =? 0 then None else Some (VInt z).
Definition o_float (x : float64) : option value := if is_zero_float x then None else Some (VFloat x).
Definition o_true (b : bool) : option value := if b then Some (VBool true) else None.
Definition o_list (vs : list value) : option value := match vs with [] => None | _ => Some (VList vs) end.

Lemma flat_cons k o ps : flat ((k, o) :: ps) = match o with Some v => [(k, v)] | None => [] end ++ flat ps.
Proof. done. Qed.
Lemma flat_app ps qs : flat (ps ++ qs) = flat ps ++ flat qs.
Proof. unfold flat. by rewrite map_app, concat_app. Qed.
Lemma member_flat n v : member n v = flat [(n, Some v)].
Proof. done. Qed.
Lemma opt_text_flat n s : opt_text n s = flat [(n, o_text s)].
Proof. unfold opt_text, o_text. by case_bool_decide. Qed.
Lemma opt_int_flat n z : opt_int n z = flat [(n, o_int z)].
Proof. unfold opt_int, o_int. by destruct (z =? 0). Qed.
Lemma opt_float_flat n x : opt_float n x = flat [(n, o_float x)].
Proof. unfold opt_float, o_float. by destruct (is_zero_float x). Qed.
Lemma opt_true_flat n b : opt_true n b = flat [(n, o_true b)].
Proof. by destruct b. Qed.
Lemma opt_list_flat n vs : opt_list n vs = flat [(n, o_list vs)].
Proof. by destruct vs. Qed.
Lemma opt_some_flat {A} (f : A → value) n o :
  match o with Some a => member n (f a) | None => [] end = flat [(n, f <$> o)].
Proof. by destruct o. Qed.
Create Rewrite HintDb flat.
#[local] Hint Rewrite member_flat opt_text_flat opt_int_flat opt_float_flat opt_true_flat opt_list_flat : flat.
#[local] Hint Rewrite (@opt_some_flat HubUser.t) (@opt_some_flat User.t) : flat.
#[local] Hint Rewrite <- flat_app : flat.
(** The struct as its places, and that their names differ. *)
Ltac as_places := unfold text_member; autorewrite with flat; cbn [app];
  match goal with |- context [VStruct (flat ?ps)] =>
    let Hg := fresh "Hg" in assert (good_names ps = true) as Hg by (vm_compute; reflexivity) end.

(** ** Reading a member *)

Section member.
Context (ps : list piece) (Hg : good_names ps = true) (Hs : sound (VStruct (flat ps))).
Abbreviation ms := (map rd (flat ps)).

Lemma need_at {A} name (f : json → option A) v x : slot name ps = Some v → (sound v → f (reads v) = Some x) →
  need name f ms = Some x.
Proof. intros Hv Hf. unfold need. rewrite look_flat, Hv by done. apply Hf. by eapply slot_sound. Qed.
Lemma may_at {A} name (f : json → option A) zero o x : slot name ps = o →
  match o with Some v => sound v → f (reads v) = Some x | None => zero = x end → may name f zero ms = Some x.
Proof.
  intros Ho Hf. unfold may. rewrite look_flat, Ho by done. destruct o as [v|]; cbn; [|by rewrite Hf].
  apply Hf. by eapply slot_sound.
Qed.
End member.

Lemma the_int_of z : sound (VInt z) → the_int (reads (VInt z)) = Some z.
Proof. intros (_ & Hz & _). apply parse_dec_Z. cbn in Hz. apply andb_true_iff in Hz as [H1 H2]. lia. Qed.
Lemma the_float_of x : sound (VFloat x) → the_float (reads (VFloat x)) = Some x.
Proof.
  intros (Hok & _ & Hw). apply json_float_finite in Hw as [l Hl]. cbn [reads the_float]. rewrite Hl.
  by apply (float_reads x).
Qed.
Lemma the_time_of t : sound (VTime t) → the_time (reads (VTime t)) = Some t.
Proof. intros (_ & _ & Hw). cbn [writable] in Hw. apply andb_true_iff in Hw as [H1 H2]. apply time_into. lia. Qed.
Lemma each_of {A B} (f : json → option A) (h : B → value) (g : B → A) (l : list B) :
  (∀ b, sound (h b) → f (reads (h b)) = Some (g b)) → sound (VList (h <$> l)) →
  the_list f (reads (VList (h <$> l))) = Some (g <$> l).
Proof.
  intros Hf Hs%sound_list. cbn [reads the_list]. induction l as [|b l IH]; [done|].
  rewrite fmap_cons in Hs. apply list.Forall_cons in Hs as [Hb Hs]. cbn. rewrite Hf by done.
  specialize (IH Hs). by rewrite IH.
Qed.
Lemma may_text ps name s : good_names ps = true → sound (VStruct (flat ps)) → slot name ps = o_text s →
  may name the_text "" (map rd (flat ps)) = Some (clean s).
Proof. intros Hg Hs Ho. eapply may_at; [done..|]. unfold o_text. case_bool_decide as E; [by rewrite E|done]. Qed.
Lemma may_int ps name z : good_names ps = true → sound (VStruct (flat ps)) → slot name ps = o_int z →
  may name the_int 0 (map rd (flat ps)) = Some z.
Proof. intros Hg Hs Ho. eapply may_at; [done..|]. unfold o_int. destruct (Z.eqb_spec z 0); [done|]. apply the_int_of. Qed.
Lemma may_float ps name x : good_names ps = true → sound (VStruct (flat ps)) → slot name ps = o_float x →
  may name the_float f_zero (map rd (flat ps)) = Some (unsigned x).
Proof. intros Hg Hs Ho. eapply may_at; [done..|]. unfold o_float, unsigned. destruct (is_zero_float x); [done|]. apply the_float_of. Qed.
Lemma may_true ps name b : good_names ps = true → sound (VStruct (flat ps)) → slot name ps = o_true b →
  may name the_bool false (map rd (flat ps)) = Some b.
Proof. intros Hg Hs Ho. eapply may_at; [done..|]. by destruct b. Qed.
Lemma may_list {A B} (f : json → option A) (h : B → value) (g : B → A) ps name (l : list B) :
  (∀ b, sound (h b) → f (reads (h b)) = Some (g b)) →
  good_names ps = true → sound (VStruct (flat ps)) → slot name ps = o_list (h <$> l) →
  may name (the_list f) [] (map rd (flat ps)) = Some (g <$> l).
Proof.
  intros Hf Hg Hs Ho. eapply may_at; [done..|]. destruct l as [|b l]; [done|]. exact (each_of f h g (b :: l) Hf).
Qed.
Lemma may_some {A B} (f : json → option A) (h : B → value) (g : B → A) ps name (o : option B) :
  (∀ b, sound (h b) → f (reads (h b)) = Some (g b)) →
  good_names ps = true → sound (VStruct (flat ps)) → slot name ps = h <$> o →
  may name (λ j, Some <$> f j) None (map rd (flat ps)) = Some (g <$> o).
Proof.
  intros Hf Hg Hs Ho. eapply may_at; [done..|]. destruct o as [b|]; [|done]. cbn. intros Hb. by rewrite Hf.
Qed.
Lemma appended_of q : list_or_null the_text (reads (appended q)) = Some (if bool_decide (q = []) then None else Some (clean <$> q)).
Proof.
  destruct q as [|s q]; [done|]. cbn [appended]. change (list_or_null the_text (reads (VList (strings (s :: q)))) = Some (Some (clean <$> s :: q))).
  unfold list_or_null. cbn [reads]. change (Some <$> the_list the_text (reads (VList (VString <$> s :: q))) = Some (Some (clean <$> s :: q))).
  enough (the_list the_text (reads (VList (VString <$> s :: q))) = Some (clean <$> s :: q)) as -> by done.
  cbn [reads the_list]. induction (s :: q) as [|x l IH]; [done|]. cbn. cbn in IH. by rewrite IH.
Qed.

Lemma need_text ps name s : good_names ps = true → sound (VStruct (flat ps)) → slot name ps = Some (VString s) →
  need name the_text (map rd (flat ps)) = Some (clean s).
Proof. intros Hg Hs Ho. by eapply need_at. Qed.
Lemma need_bool ps name b : good_names ps = true → sound (VStruct (flat ps)) → slot name ps = Some (VBool b) →
  need name the_bool (map rd (flat ps)) = Some b.
Proof. intros Hg Hs Ho. by eapply need_at. Qed.
Lemma need_int ps name z : good_names ps = true → sound (VStruct (flat ps)) → slot name ps = Some (VInt z) →
  need name the_int (map rd (flat ps)) = Some z.
Proof. intros Hg Hs Ho. eapply need_at; [done..|]. apply the_int_of. Qed.
Lemma need_float ps name x : good_names ps = true → sound (VStruct (flat ps)) → slot name ps = Some (VFloat x) →
  need name the_float (map rd (flat ps)) = Some x.
Proof. intros Hg Hs Ho. eapply need_at; [done..|]. apply the_float_of. Qed.
Lemma need_time ps name t : good_names ps = true → sound (VStruct (flat ps)) → slot name ps = Some (VTime t) →
  need name the_time (map rd (flat ps)) = Some t.
Proof. intros Hg Hs Ho. eapply need_at; [done..|]. apply the_time_of. Qed.
Lemma need_list {A B} (f : json → option A) (h : B → value) (g : B → A) ps name (l : list B) :
  (∀ b, sound (h b) → f (reads (h b)) = Some (g b)) →
  good_names ps = true → sound (VStruct (flat ps)) → slot name ps = Some (VList (h <$> l)) →
  need name (the_list f) (map rd (flat ps)) = Some (g <$> l).
Proof. intros Hf Hg Hs Ho. eapply need_at; [done..|]. by apply each_of. Qed.
(** A struct inside another. *)
Lemma need_in {A B} (f : json → option A) (h : B → value) (g : B → A) ps name b :
  (∀ b, sound (h b) → f (reads (h b)) = Some (g b)) →
  good_names ps = true → sound (VStruct (flat ps)) → slot name ps = Some (h b) →
  need name f (map rd (flat ps)) = Some (g b).
Proof. intros Hf Hg Hs Ho. eapply need_at; [done..|]. apply Hf. Qed.

(** One field after the other. *)
Ltac field := first
  [ erewrite may_text by (eassumption || reflexivity) | erewrite may_int by (eassumption || reflexivity)
  | erewrite may_float by (eassumption || reflexivity) | erewrite may_true by (eassumption || reflexivity)
  | erewrite need_text by (eassumption || reflexivity) | erewrite need_bool by (eassumption || reflexivity)
  | erewrite need_int by (eassumption || reflexivity) | erewrite need_float by (eassumption || reflexivity)
  | erewrite need_time by (eassumption || reflexivity) ];
  cbn [mbind option_bind].
(** A list of structs or a struct among the members. *)
Tactic Notation "part" uconstr(lem) uconstr(seen) :=
  erewrite lem by (apply seen || eassumption || reflexivity); cbn [mbind option_bind].
Ltac fields := repeat field; try reflexivity.
Ltac open_struct := as_places; intros Hs; change (reads (VStruct ?ms)) with (JObj (map rd ms)); cbn [members mbind option_bind].

Lemma user_seen u : sound (user_value u) → read_user (reads (user_value u)) = Some (seen_user u).
Proof. unfold user_value, read_user. open_struct. fields. Qed.
Lemma room_seen r : sound (room_value r) → read_room (reads (room_value r)) = Some (seen_room r).
Proof.
  unfold room_value, room_members, read_room. open_struct. fields.
Qed.
Lemma room_response_seen r : sound (room_response_value r) → read_room_response (reads (room_response_value r)) =
  Some (RoomResponse.mk (seen_room (RoomResponse.Room r)) (RoomResponse.IsOwner r) (clean (RoomResponse.LeftRoomID r))).
Proof. unfold room_response_value, room_members, read_room_response, read_room. open_struct. fields. Qed.
Lemma tokens_seen t : sound (tokens_value t) → read_tokens (reads (tokens_value t)) = Some (seen_tokens t).
Proof. unfold tokens_value, read_tokens. open_struct. fields. Qed.
Lemma item_seen q : sound (item_value q) → read_item (reads (item_value q)) = Some (clean_item q).
Proof. unfold item_value, read_item. open_struct. fields. Qed.
Lemma text_seen s : sound (VString s) → the_text (reads (VString s)) = Some (clean s).
Proof. done. Qed.
Lemma state_seen s : sound (state_value s) → read_state (reads (state_value s)) = Some (clean_state s).
Proof.
  unfold state_value, read_state, strings. open_struct. fields. part (may_list the_text VString clean) text_seen.
  part (may_list read_item item_value clean_item) item_seen. fields.
Qed.
Lemma hub_user_seen u : sound (hub_user_value u) → read_hub_user (reads (hub_user_value u)) = Some (clean_user u).
Proof. unfold hub_user_value, read_hub_user. open_struct. fields. Qed.
Lemma message_seen m : sound (message_value m) → read_message (reads (message_value m)) = Some (seen_message m).
Proof.
  unfold message_value, read_message, strings. open_struct. fields. part (may_list the_text VString clean) text_seen.
  part (may_some read_hub_user hub_user_value clean_user) hub_user_seen. fields.
Qed.
Lemma chat_seen m : sound (chat_value m) → read_chat (reads (chat_value m)) = Some (clean_message m).
Proof. unfold chat_value, read_chat. open_struct. fields. part (need_in read_hub_user hub_user_value clean_user) hub_user_seen. fields. Qed.

Lemma queue_of ps name q : good_names ps = true → sound (VStruct (flat ps)) → slot name ps = Some (appended q) →
  need name the_queue (map rd (flat ps)) = Some (clean <$> q).
Proof.
  intros Hg Hs Ho. eapply need_at; [done..|]. intros _. unfold the_queue. rewrite appended_of.
  by case_bool_decide as E; [rewrite E|].
Qed.
Lemma users_of ps name us : good_names ps = true → sound (VStruct (flat ps)) →
  slot name ps = Some (match us with Some us => VList (hub_user_value <$> us) | None => VNil end) →
  need name (list_or_null read_hub_user) (map rd (flat ps)) = Some (map clean_user <$> us).
Proof.
  intros Hg Hs Ho. eapply need_at; [done..|]. destruct us as [us|]; [|done]. intros Hus.
  change (Some <$> the_list read_hub_user (reads (VList (hub_user_value <$> us))) = Some (Some (clean_user <$> us))).
  by rewrite (each_of _ _ clean_user _ hub_user_seen Hus).
Qed.
Lemma snapshot_seen s : sound (snapshot_value s) → read_snapshot (reads (snapshot_value s)) = Some (seen_snapshot s).
Proof.
  unfold snapshot_value, read_snapshot. open_struct. fields. part (need_in read_state state_value clean_state) state_seen.
  erewrite queue_of by (eassumption || reflexivity). cbn [mbind option_bind]. fields.
Qed.
Lemma admin_item_seen i : sound (admin_item_value i) → read_admin_item (reads (admin_item_value i)) = Some (seen_admin i).
Proof.
  unfold admin_item_value, read_admin_item. open_struct. part (need_in read_room room_value seen_room) room_seen.
  part (may_some read_user user_value seen_user) user_seen. fields.
Qed.
Lemma debug_item_seen i : sound (debug_item_value i) → read_debug_item (reads (debug_item_value i)) = Some (seen_debug i).
Proof.
  unfold debug_item_value, read_debug_item. open_struct. part (need_in read_room room_value seen_room) room_seen.
  part (need_in read_state state_value clean_state) state_seen.
  erewrite users_of by (eassumption || reflexivity). cbn [mbind option_bind].
  erewrite queue_of by (eassumption || reflexivity). cbn [mbind option_bind]. fields.
Qed.
Lemma listing_seen {A B} (f : json → option A) (h : B → value) (g : B → A) l total :
  (∀ b, sound (h b) → f (reads (h b)) = Some (g b)) → sound (listing (h <$> l) total) →
  read_listing f (reads (listing (h <$> l) total)) = Some (g <$> l, total).
Proof. intros Hf. unfold listing, read_listing. open_struct. part (need_list f h g) Hf. fields. Qed.

(** ** Every reply reads back *)

Lemma BCode_seen expires retry : sound (code_value expires retry) →
  read_reply KCode (reads (code_value expires retry)) = Some (BCode (clean expires) retry).
Proof. unfold code_value, read_reply. open_struct. fields. by rewrite bool_decide_true. Qed.
Lemma BSession_seen user tokens : let v := VStruct (member "tokens" (tokens_value tokens) ++ member "user" (user_value user)) in
  sound v → read_reply KSession (reads v) = Some (BSession (seen_user user) (seen_tokens tokens)).
Proof.
  cbv zeta. unfold read_reply. open_struct. part (need_in read_user user_value seen_user) user_seen.
  part (need_in read_tokens tokens_value seen_tokens) tokens_seen. done.
Qed.
Lemma BChatSent_seen res : let v := VStruct (member "message" (chat_value (ChatSendResult.Message res)) ++
    text_member "realtime" (ChatSendResult.Realtime res)) in
  sound v → read_reply KChatSent (reads v) = Some (seen (BChatSent res)).
Proof. cbv zeta. unfold read_reply. open_struct. part (need_in read_chat chat_value clean_message) chat_seen. fields. Qed.
Lemma BChat_seen items more : let v := VStruct (member "has_more" (VBool more) ++ member "items" (VList (chat_value <$> items))) in
  sound v → read_reply KChat (reads v) = Some (seen (BChat items more)).
Proof. cbv zeta. unfold read_reply. open_struct. part (need_list read_chat chat_value clean_message) chat_seen. fields. Qed.

Lemma reply_seen b v : reply_value b = Some v → sound v → read_reply (kind_of b) (reads v) = Some (seen b).
Proof.
  destruct b as [|code msg|exp retry|user tk|tk|user|r|rs n|room|s|tok exp|m|s|res|ms more|ai n|di n|st ca];
    cbn [reply_value kind_of seen]; try done; intros <-%Some_inj.
  - unfold error_value, read_reply. open_struct. fields.
  - apply BCode_seen.
  - apply BSession_seen.
  - unfold read_reply. open_struct. part (need_in read_tokens tokens_value seen_tokens) tokens_seen. done.
  - unfold read_reply. open_struct. part (need_in read_user user_value seen_user) user_seen. done.
  - intros Hs. unfold read_reply. cbn [members reads]. change (JObj _) with (reads (room_response_value r)).
    by rewrite room_response_seen.
  - intros Hs. unfold read_reply. by rewrite (listing_seen _ _ _ _ _ room_seen Hs).
  - unfold read_reply. open_struct. fields.
  - intros Hs. unfold read_reply. by rewrite (state_seen s Hs).
  - unfold read_reply. open_struct. fields.
  - intros Hs. unfold read_reply. by rewrite (message_seen m Hs).
  - intros Hs. unfold read_reply. by rewrite (snapshot_seen s Hs).
  - apply BChatSent_seen.
  - apply BChat_seen.
  - intros Hs. unfold read_reply. by rewrite (listing_seen _ _ _ _ _ admin_item_seen Hs).
  - intros Hs. unfold read_reply. by rewrite (listing_seen _ _ _ _ _ debug_item_seen Hs).
  - unfold read_reply. open_struct. fields.
Qed.

(** C27: every reply with a body has a text unless a float in it is not finite or one
    of its instants is outside the years 0 to 9999; a client that asked for this kind of
    reply and looks its members up by the names of the handlers' structs reads from the
    text the value the handler sent, every field of it, each invalid UTF-8 byte of a
    string as the replacement character; no password hash is among the members, the text
    is that of the reply without hashes; and a Go client's [json.Unmarshal] makes of the
    text of a room state that state. *)
Theorem replies_read b v : reply_value b = Some v → floats_fit b →
  (is_Some (reply_text b) ↔ writable v = true) ∧
  ∀ t, reply_text b = Some t →
    (ints_fit b → receive (kind_of b) t = Some (seen b)) ∧
    parse t = Some (reads v) ∧ reply_text (bare b) = Some t ∧
    ∀ s, b = BState s → state_typed s → unmarshal_state t = Some (clean_state s).
Proof.
  unfold floats_fit, ints_fit, reply_text. intros Hb Hok. rewrite bare_values, Hb in *.
  split; [rewrite fmap_is_Some; apply marshal_defined|]. intros t Ht.
  assert (parse t = Some (reads v) ∧ writable v = true) as [Hp Hw].
  { destruct (marshal v) as [l|] eqn:E; [|done]. apply Some_inj in Ht as <-. split; [|by apply marshal_defined; eexists].
    apply (parse_renders (nesting v)); [rewrite to_of_bytes; by apply marshal_renders|].
    pose proof (reply_depth b v Hb) as Hd. unfold depth_le, max_nesting in *. lia. }
  split; [|split; [done|split; [done|]]].
  - intros Hi. unfold receive. rewrite Hp. by apply reply_seen.
  - intros s -> Hs. apply Some_inj in Hb as <-. rewrite state_value_text in Ht. by apply unmarshal_marshal_state.
Qed.

(** ** Examples *)

Lemma replies_read_witness :
  reply_text (BState sample_state) = Some sample_payload ∧
  receive KState sample_payload = Some (BState (clean_state sample_state)) ∧
  unmarshal_state sample_payload = Some (clean_state sample_state).
Proof.
  assert (reply_text (BState sample_state) = Some sample_payload) as E by (vm_compute; reflexivity).
  split; [exact E|].
  assert (floats_fit (BState sample_state)) as Hf by (vm_compute; reflexivity).
  assert (ints_fit (BState sample_state)) as Hi by (vm_compute; reflexivity).
  destruct (replies_read (BState sample_state) (state_value sample_state) eq_refl Hf) as [_ H].
  destruct (H sample_payload E) as (Hr & _ & _ & Hs). split; [exact (Hr Hi)|]. exact (Hs sample_state eq_refl sample_typed).
Defined.

(** A control message, and a user whose hash stays behind. *)
Example received_message :
  let m := Message.mk "control" "seek" "" f_zero "" ["https://a.io/1"; "https://a.io/2"] 7 3 "queue" 9
    (Some (HubUser.mk "u1" "ann" "" "user" true)) in
  (t ← reply_text (BMessage m); receive KMessage t) = Some (BMessage m).
Proof. vm_compute. reflexivity. Qed.
Example received_user :
  (t ← reply_text (BUser (User.mk "u1" "a@x.io" "ann" "$2a$10$secret" "" "" "user" 0 0)); receive KUser t) =
    Some (BUser (User.mk "u1" "a@x.io" "ann" "" "" "" "user" 0 0)).
Proof. vm_compute. reflexivity. Qed.
