(* ===== verification/ApiAccess.v ===== *)
(** * Who may do what over HTTP

    The theorems on [Api], [RoomsApi] and [Router]: a private room needs its
    password, a route behind [requireAuth] needs a token, managing a room needs
    its owner or an administrator; whatever the collaborators answer. *)

From S2P Require Import Prelude GoStrings GoNum GoParse QueueUrl Model Interfaces Service Chat Hub.
From S2P Require Import Postgres EmailCode Config Email Ably Auth Api RoomsApi Router.

Create HintDb grants.

(** ** What the room service leaves alone *)

Section service.
Context `{!Backend, !Env, AG : !AccessGrants AccessT}.

Definition granted (s : Service) (r u : string) : Prop :=
  match roomAccess s with Some x => granted_to x r u | None => False end.
(** Nobody is granted anything new. *)
Definition no_grant (s s' : Service) : Prop := ∀ r u, granted s' r u → granted s r u.
#[export] Instance no_grant_preorder : PreOrder no_grant.
Proof. split; [intros s r u Hg; exact Hg|]. intros s1 s2 s3 Ha Hb r u Hg. exact (Ha r u (Hb r u Hg)). Qed.

Lemma ng_states {A} (m : ctx → time → SM StatesT A) : keeps no_grant (call_states m).
Proof.
  intros s. unfold call_states. destruct (m _ _ _) as [r x]. intros r' u Hg. exact Hg.
Qed.
Lemma ng_opt {T A} get put (m : ctx → time → SM T A) :
  (∀ x s, roomAccess (put x s) = roomAccess s) → keeps no_grant (call_opt get put m).
Proof.
  intros Hput s. unfold call_opt. destruct (get s) as [x|]; [|reflexivity].
  destruct (m _ _ x) as [r y]. intros r' u. unfold granted. cbn [snd next_tick roomAccess].
  by rewrite Hput.
Qed.
Lemma ng_presence {A} (m : ctx → time → SM PresenceT A) : keeps no_grant (call_presence m).
Proof. by apply ng_opt. Qed.
Lemma ng_rooms {A} (m : ctx → time → SM RoomsT A) : keeps no_grant (call_rooms m).
Proof. by apply ng_opt. Qed.
Lemma ng_chat {A} (m : ctx → time → SM ChatT A) : keeps no_grant (call_chat m).
Proof. by apply ng_opt. Qed.
Lemma ng_realtime {A} (m : ctx → time → SM PubT A) : keeps no_grant (call_opt publisher set_publisher m).
Proof. by apply ng_opt. Qed.
Lemma ng_publish r n d : keeps no_grant (call_publish r n d).
Proof.
  intros s. unfold call_publish. pose proof (ng_realtime (λ c _, PublishRoomMessage c r n d) s) as Hp.
  destruct (call_opt _ _ _ s) as [x s']. intros r' u Hg. exact (Hp r' u Hg).
Qed.
Lemma ng_delete_access r : keeps no_grant (call_access (λ c _, DeleteRoomAccess c r)).
Proof.
  intros s. unfold call_access, call_opt, no_grant, granted. destruct (roomAccess s) as [x|] eqn:E; cbn [snd]; [|by rewrite E].
  pose proof (DeleteRoomAccess_only (ctx_at (tick s)) r x) as Hd.
  destruct (DeleteRoomAccess _ _ _). cbn [snd roomAccess set_roomAccess next_tick]. exact Hd.
Qed.
Lemma ng_same {A} (m : SM Service A) :
  (∀ s, roomAccess (m s).2 = roomAccess s) → keeps no_grant m.
Proof. intros Hm s r u. unfold granted. by rewrite Hm. Qed.
Lemma ng_now : keeps no_grant now.
Proof. by apply ng_same. Qed.
Lemma ng_ctx_err : keeps no_grant ctx_err.
Proof. by apply ng_same. Qed.
Lemma ng_jitter : keeps no_grant jitter.
Proof. by apply ng_same. Qed.
Lemma ng_emit e : keeps no_grant (emit e).
Proof. by apply ng_same. Qed.
Lemma ng_present {T} (get : Service → option T) : keeps no_grant (present get).
Proof. by apply ng_same. Qed.

#[local] Hint Resolve ng_states ng_presence ng_rooms ng_chat ng_realtime ng_publish ng_delete_access
  ng_now ng_ctx_err ng_jitter ng_emit ng_present : grants.
Ltac grants_auto := cbv zeta; repeat first [solve [auto with grants] | keeps_step].

Lemma ng_member_count r : keeps no_grant (memberCount r).
Proof. unfold memberCount. grants_auto. Qed.
Lemma ng_projected r : keeps no_grant (ProjectedRoomState r).
Proof. unfold ProjectedRoomState. grants_auto. Qed.
#[local] Hint Resolve ng_member_count ng_projected : grants.
Lemma ng_snapshot r : keeps no_grant (Snapshot r).
Proof. unfold Snapshot. grants_auto. Qed.
Lemma ng_enrich r : keeps no_grant (EnrichRoomFromCache r).
Proof. unfold EnrichRoomFromCache. grants_auto. Qed.
Lemma ng_join r u : keeps no_grant (Join r u).
Proof. unfold Join. grants_auto. Qed.
Lemma ng_leave r u : keeps no_grant (Leave r u).
Proof. unfold Leave. grants_auto. Qed.
Lemma ng_event r e u : keeps no_grant (PublishRoomEvent r e u).
Proof. unfold PublishRoomEvent. grants_auto. Qed.
#[local] Hint Resolve ng_event : grants.
Lemma ng_kick r u a : keeps no_grant (KickMember r u a).
Proof. unfold KickMember. grants_auto. Qed.
Lemma ng_control r u m : keeps no_grant (ApplyControl r u m).
Proof. unfold ApplyControl, control_read, control_write. grants_auto. Qed.
Lemma ng_delete_chat r : keeps no_grant (deleteRoomChat r).
Proof. unfold deleteRoomChat. grants_auto. Qed.
#[local] Hint Resolve ng_delete_chat : grants.
Lemma ng_forget r u : keeps no_grant (forget_room r u).
Proof. unfold forget_room. grants_auto. Qed.
#[local] Hint Resolve ng_forget : grants.
Lemma ng_close r u : keeps no_grant (CloseRoom r u).
Proof. unfold CloseRoom. grants_auto. Qed.
Lemma ng_close_empty r : keeps no_grant (closeEmptyRoom r).
Proof. unfold closeEmptyRoom. grants_auto. Qed.
#[local] Hint Resolve ng_close_empty : grants.
Lemma ng_publish_loop n i k r d e : keeps no_grant (publish_loop n i k r d e).
Proof. revert i e. induction n as [|n IH]; intros i e; simpl; grants_auto. Qed.
#[local] Hint Resolve ng_publish_loop : grants.
Lemma ng_publish_chat r d : keeps no_grant (publishAblyChat r d).
Proof. unfold publishAblyChat. grants_auto. Qed.
#[local] Hint Resolve ng_publish_chat : grants.
Lemma ng_send r u t : keeps no_grant (SendChat r u t).
Proof. unfold SendChat. grants_auto. Qed.
Lemma ng_list_chat r b l : keeps no_grant (ListChat r b l).
Proof. unfold ListChat. grants_auto. Qed.
Lemma ng_drain_entry r i : keeps no_grant (drain_entry r i).
Proof. unfold drain_entry. grants_auto. Qed.
#[local] Hint Resolve ng_drain_entry : grants.
Lemma ng_drain_entries r l : keeps no_grant (drain_entries r l).
Proof. induction l as [|i l IH]; simpl; grants_auto. Qed.
#[local] Hint Resolve ng_drain_entries : grants.
Lemma ng_drain_keys l : keeps no_grant (drain_keys l).
Proof. induction l as [|k l IH]; simpl; unfold drainRoomPending; grants_auto. Qed.
#[local] Hint Resolve ng_drain_keys : grants.
Lemma ng_outbox fuel : keeps no_grant (ProcessGlobalChatPending fuel).
Proof.
  unfold ProcessGlobalChatPending. assert (∀ c, keeps no_grant (scan_pending fuel c)) as Hs.
  { induction fuel as [|k IH]; intros c; simpl; grants_auto. }
  grants_auto.
Qed.
#[local] Hint Resolve ng_outbox : grants.
Lemma ng_cleanup_rooms m t l : keeps no_grant (cleanup_rooms m t l).
Proof. induction l as [|r l IH]; simpl; grants_auto. Qed.
Lemma ng_emit_all l : keeps no_grant (emit_all l).
Proof. induction l as [|e l IH]; simpl; grants_auto. Qed.
#[local] Hint Resolve ng_cleanup_rooms ng_emit_all : grants.
Lemma ng_run_cleanup t : keeps no_grant (RunEmptyRoomCleanup t).
Proof. unfold RunEmptyRoomCleanup, logEmptyRoomCleanupResults. grants_auto. Qed.
#[local] Hint Resolve ng_run_cleanup : grants.
Lemma ng_defer {A} m (b : SM Service A) : keeps no_grant m → keeps no_grant b → keeps no_grant (with_defer m b).
Proof.
  intros Hm Hb s. unfold with_defer. specialize (Hb s). destruct (b s) as [r s1]. cbn [snd] in *.
  etrans; [exact Hb|apply Hm].
Qed.
Lemma ng_maybe_cleanup fuel : keeps no_grant (MaybeRunGlobalCleanup fuel).
Proof.
  unfold MaybeRunGlobalCleanup. cbv zeta.
  repeat first [solve [auto with grants] | apply ng_defer | keeps_step].
Qed.
End service.

#[export] Hint Resolve ng_states ng_presence ng_rooms ng_chat ng_realtime ng_publish ng_delete_access
  ng_now ng_present ng_member_count ng_projected ng_snapshot ng_enrich ng_join ng_leave ng_event
  ng_kick ng_control ng_close ng_send ng_list_chat ng_outbox ng_maybe_cleanup : grants.

(** ** What the handlers leave alone *)

Section access.
Context `{!UnicodeTables, !MailParser, !Bcrypt, !Jwt, !Salts, !UuidSource, !RandSource, !Env}.
Context `{!AuthBackend, !Backend, !ApiBackend, AG : !AccessGrants AccessT}.
Import RoomHandlers.

Definition has_grant (a : App) (r u : string) : Prop := granted (svc a) r u.
Definition no_new (a a' : App) : Prop := no_grant (svc a) (svc a').
#[local] Instance no_new_preorder : PreOrder no_new.
Proof.
  split.
  - intros a. unfold no_new. reflexivity.
  - intros a1 a2 a3 Ha Hb. unfold no_new. etrans; [exact Ha|exact Hb].
Qed.

Lemma nn_rooms {A} (m : SM Service A) : keeps no_grant m → keeps no_new (on_rooms m).
Proof. intros Hm a. specialize (Hm (svc a)). unfold on_rooms. by destruct (m (svc a)). Qed.
Lemma nn_auth {A} (m : SM AuthService A) : keeps no_new (on_auth m).
Proof. intros a. unfold on_auth. destruct (m _) as [r s]. intros x u Hg. exact Hg. Qed.
Lemma nn_same {A} (m : SM App A) :
  (∀ a, roomAccess (svc (m a).2) = roomAccess (svc a)) → keeps no_new m.
Proof. intros Hm a x u. unfold granted. by rewrite Hm. Qed.
Lemma nn_time : keeps no_new time_Now.
Proof. by apply nn_same. Qed.
Lemma nn_allow ip : keeps no_new (allow_ip ip).
Proof.
  apply nn_same. intros a. unfold allow_ip. destruct (ipLimiter a); [|done].
  by destruct (Limiter.allow _ _ _).
Qed.
Lemma nn_generate : keeps no_new generate_code.
Proof. by apply nn_same. Qed.
Lemma nn_send e p c : keeps no_new (send_code e p c).
Proof.
  apply nn_same. intros a. unfold send_code. destruct (sender a); [|done].
  by destruct (SendVerificationCode _ _ _ _ _).
Qed.
Lemma nn_modify f : (∀ a, svc (f a) = svc a) → keeps no_new (modify f).
Proof. intros Hf. apply nn_same. intros a. simpl. by rewrite Hf. Qed.
Lemma nn_or_abort {A} f (m : SM App A) : keeps no_new m → keeps no_new (or_abort f m).
Proof. intros Hm a. specialize (Hm a). unfold or_abort, map_err. by destruct (m a) as [[]]. Qed.
#[local] Hint Resolve nn_rooms nn_auth nn_time nn_allow nn_generate nn_send : grants.
Ltac nn_step :=
  first [solve [auto with grants] | apply nn_or_abort | by apply nn_modify | keeps_step
        | progress unfold must_bind, abort_if, guard_manage, guard_user, get_room, loadRoom,
            publish_event, issue_jwt, channel_name, code_ok, writeRegisterCodeOK, has_codes,
            precheck, rollback, commit, sender_enabled, find_email, respondCodeErr ].
Ltac nn_auto := cbv zeta; repeat nn_step.

Lemma nn_deliver e p : keeps no_new (deliver_code e p).
Proof. unfold deliver_code. nn_auto. Qed.
Lemma nn_fake e : keeps no_new (fakeRegisterCodeOK e).
Proof. unfold fakeRegisterCodeOK. nn_auto. Qed.
#[local] Hint Resolve nn_deliver nn_fake : grants.
Lemma nn_register_code q b : keeps no_new (registerSendCode q b).
Proof. unfold registerSendCode. nn_auto. Qed.
Lemma nn_reset_code q b : keeps no_new (resetSendCode q b).
Proof. unfold resetSendCode. nn_auto. Qed.
Lemma nn_load q : keeps no_new (loadRoom q).
Proof. nn_auto. Qed.
Lemma nn_get_room r : keeps no_new (get_room r).
Proof. nn_auto. Qed.
Lemma nn_enrich_all rs : keeps no_new (enrich_all rs).
Proof. induction rs as [|r rs IH]; simpl; nn_auto. Qed.
Lemma nn_admin_items rs : keeps no_new (admin_items rs).
Proof. induction rs as [|r rs IH]; simpl; unfold admin_item; nn_auto. Qed.
Lemma nn_debug_items rs : keeps no_new (debug_items rs).
Proof. induction rs as [|r rs IH]; simpl; unfold debug_item; nn_auto. Qed.
#[local] Hint Resolve nn_register_code nn_reset_code nn_enrich_all nn_admin_items nn_debug_items : grants.

(** ** Getting into a private room *)

Lemma canManageRoom_managers claims room :
  canManageRoom claims room = true →
  Claims.Role claims = UserRoleAdmin ∨ Room.OwnerID room = Claims.UserID claims.
Proof.
  unfold canManageRoom, currentUser. case_bool_decide; [done|].
  intros [?%bool_decide_eq_true|?%bool_decide_eq_true]%orb_true_iff; auto.
Qed.
Lemma canManageRoom_others claims room :
  Claims.Role claims ≠ UserRoleAdmin → Room.OwnerID room ≠ Claims.UserID claims →
  canManageRoom claims room = false.
Proof.
  intros Hr Ho. apply not_true_is_false. by intros [?|?]%canManageRoom_managers.
Qed.

(** Why a caller may use a room: it is public, theirs to manage, they were granted
    access, or the password is right. *)
Definition may_enter (a : App) (claims : Claims.t) (room : Room.t) (userID password : string) : Prop :=
  Room.Visibility room ≠ RoomVisibilityPrivate ∨ canManageRoom claims room = true ∨
  has_grant a (Room.ID room) userID ∨ CheckPassword (Room.PasswordHash room) password = true.
(** The one grant a check may add. *)
Definition grants_for (a : App) (room : Room.t) (userID password : string) (a' : App) : Prop :=
  ∀ x u, has_grant a' x u → has_grant a x u ∨
    (x = Room.ID room ∧ u = userID ∧ CheckPassword (Room.PasswordHash room) password = true).

(** The request did nothing: the playback states, the presence, the chat, what has been
    published, the accounts, the codes and the mail are as they were, and nobody has
    gained access anywhere. *)
Definition untouched (a a' : App) : Prop :=
  states (svc a') = states (svc a) ∧ presence (svc a') = presence (svc a) ∧
  roomChat (svc a') = roomChat (svc a) ∧ publisher (svc a') = publisher (svc a) ∧
  events (svc a') = events (svc a) ∧
  users (auth a') = users (auth a) ∧ codes (auth a') = codes (auth a) ∧
  hook (auth a') = hook (auth a) ∧ sender a' = sender a ∧ no_new a a'.
#[local] Instance untouched_preorder : PreOrder untouched.
Proof.
  split.
  - intros a. by repeat (split; [done|]).
  - intros a1 a2 a3 Ha Hb. unfold untouched in *. destruct_and!.
    repeat (split; [congruence|]). by etrans.
Qed.
Lemma untouched_no_new a a' : untouched a a' → no_new a a'.
Proof. unfold untouched. tauto. Qed.
Lemma ut_get_room r : keeps untouched (get_room r).
Proof.
  intros a. pose proof (nn_get_room r a) as Hn.
  unfold get_room, or_abort, map_err, on_rooms, call_rooms, call_opt in *.
  destruct (rooms (svc a)); [|by destruct a; repeat (split; [done|])].
  destruct (RoomGetByID _ _ _) as [[x|e|h] y]; by repeat (split; [done|]).
Qed.

Lemma no_new_grants_for a room u p a' : no_new a a' → grants_for a room u p a'.
Proof. intros Hn x v Hg. left. by apply Hn. Qed.
Lemma grants_for_then a room u p a1 a2 :
  grants_for a room u p a1 → no_new a1 a2 → grants_for a room u p a2.
Proof. intros Hg Hn x v Hv. by apply Hg, Hn. Qed.
Lemma grants_for_after a room u p a1 a2 :
  no_new a a1 → grants_for a1 room u p a2 → grants_for a room u p a2.
Proof. intros Hn Hg x v Hv. destruct (Hg x v Hv) as [Hx|?]; [left; by apply Hn|by right]. Qed.

(** Asking the cache for a grant, and granting. *)
Lemma has_access_run r u a :
  wp (attempt (on_rooms (call_access (λ c _, HasRoomAccess c r u))))
    (λ res a', untouched a a' ∧ (res = Ok (inl true) → has_grant a r u)) a.
Proof.
  unfold wp, attempt, on_rooms, call_access, call_opt, untouched, no_new, no_grant, has_grant, granted.
  destruct (roomAccess (svc a)) as [x|] eqn:E; cbn [fst snd svc set_svc];
    [|by rewrite E; split; [repeat (split; [done|])|]].
  pose proof (HasRoomAccess_sound (ctx_at (tick (svc a))) r u x) as [Hs Hk].
  destruct (HasRoomAccess _ _ _ x) as [[b|e|h] y]; cbn [fst snd svc set_svc roomAccess set_roomAccess next_tick] in *;
    (split; [repeat (split; [done|]); exact Hk|]); try done. intros [= ->]. by apply Hs.
Qed.
Lemma grant_access_run room u p a :
  CheckPassword (Room.PasswordHash room) p = true →
  wp (ignore (on_rooms (call_access (λ c _, GrantRoomAccess c (Room.ID room) u))))
    (λ _ a', grants_for a room u p a') a.
Proof.
  intros Hp. unfold wp, ignore, on_rooms, call_access, call_opt, grants_for, has_grant, granted.
  destruct (roomAccess (svc a)) as [x|] eqn:E; cbn [fst snd svc set_svc];
    [|rewrite E; auto].
  pose proof (GrantRoomAccess_only (ctx_at (tick (svc a))) (Room.ID room) u x) as Hg.
  destruct (GrantRoomAccess _ _ _ x) as [[b|e|h] y]; cbn [fst snd svc set_svc roomAccess set_roomAccess next_tick] in *;
    intros r' v Hv; destruct (Hg r' v Hv) as [?|[? ?]]; auto.
Qed.

(** The check passes for who may enter, and does nothing for anybody else. *)
Definition let_in {A} (a : App) claims room u p (yes : result A → Prop) (r : result A) (a' : App) : Prop :=
  grants_for a room u p a' ∧ (may_enter a claims room u p ∨ untouched a a' ∧ ¬ yes r).

Lemma canAccessRoom_run claims room u p a :
  wp (canAccessRoom claims room u p) (let_in a claims room u p (λ r, r = Ok true)) a.
Proof.
  unfold canAccessRoom.
  destruct (negb _ || canManageRoom claims room) eqn:E.
  { apply wp_ret. split; [apply no_new_grants_for; reflexivity|]. left.
    apply orb_true_iff in E as [E|E]; [left|right; by left].
    by apply negb_true_iff, bool_decide_eq_false in E. }
  clear E. apply wp_bind. set (has := match roomAccess (svc a) with Some _ => true | None => false end).
  change (wp (on_rooms (present roomAccess)) ?Q a) with (Q (Ok has) (set_svc (svc a) a)).
  assert (set_svc (svc a) a = a) as -> by (by destruct a). cbv beta iota zeta.
  set (cached := has && _). apply wp_bind.
  apply (wp_mono _ (λ r a1, untouched a a1 ∧ (r = Ok true → has_grant a (Room.ID room) u))).
  { destruct cached; [|by apply wp_ret; split; [reflexivity|]]. apply wp_bind.
    eapply wp_mono; [apply has_access_run|]. intros [[ok|e]|e|h] a1 [Hn Hg]; try done.
    apply wp_ret. split; [done|]. intros [= ->]. by apply Hg. }
  intros r a1 [Ht Hg]. pose proof (untouched_no_new _ _ Ht) as Hn.
  destruct r as [g|e|h]; [|by split; [apply no_new_grants_for|right]..].
  destruct g.
  { apply wp_ret. split; [by apply no_new_grants_for|]. left. right. right. left. by apply Hg. }
  destruct (CheckPassword _ p) eqn:Hp; [|apply wp_ret; by split; [apply no_new_grants_for|right]].
  apply wp_bind. apply (wp_mono _ (λ _ a2, grants_for a1 room u p a2)).
  { destruct cached; [by apply grant_access_run|]. apply wp_ret, no_new_grants_for. reflexivity. }
  intros r a2 Hg2. assert (grants_for a room u p a2) by (by eapply grants_for_after).
  destruct r as [[]|e|h]; [apply wp_ret|..]; split; try done; left; by right; right; right.
Qed.

(** A handler from its access check on. *)
Definition answered {A} (r : result A) : Prop := ∃ x, r = Ok x.
Lemma guarded_run {A} claims room u p (k : SM App A) a :
  keeps no_new k →
  wp (_ ← guard_access claims room u p; k) (let_in a claims room u p answered) a.
Proof.
  intros Hk. apply wp_bind. unfold guard_access. apply wp_bind.
  eapply wp_mono; [apply canAccessRoom_run|]. intros r a1 [Hg Hok].
  assert (∀ e : error, let_in a claims room u p (@answered A) (Err e) a1 ∨ r = Ok true) as Hno.
  { intros e. destruct Hok as [Hm|[Ht Hr]]; [left; split; [done|by left]|].
    left. split; [done|]. right. split; [done|]. by intros [x ?]. }
  destruct r as [ok|e|h].
  - unfold abort_if. destruct ok; cbn [negb].
    + apply wp_ret. eapply wp_keeps; [exact Hk|]. intros r a2 Hn. split; [by eapply grants_for_then|].
      left. by destruct Hok as [?|[_ []]].
    + apply wp_throw. by destruct (Hno (Forbidden "invalid room password")).
  - by destruct (Hno e).
  - split; [done|]. destruct Hok as [?|[? _]]; [by left|right]. split; [done|]. by intros [x ?].
Qed.

(** The routes that let a caller into a room, the room each names, and the
    password it offers. *)
Definition guarded (call : Call) : bool :=
  match call with
  | CAblyToken _ | CJoin _ | CSnapshot _ | CPostChat _ | CListChat => true
  | _ => false
  end.
Definition room_named (call : Call) (q : Request) : string :=
  match call with
  | CAblyToken b => TrimSpace (ably_room (body b))
  | _ => TrimSpace (Param q "roomId")
  end.
Definition password_offered (call : Call) (q : Request) : string :=
  match call with
  | CAblyToken b => ably_password (body b)
  | CJoin b => body b
  | CSnapshot b => if ContentLength q =? 0 then "" else body b
  | CPostChat b => post_password (body b)
  | CListChat => TrimSpace (Query q "password")
  | _ => ""
  end.

(** The caller and the room of a request to the server [a]: what its token is read
    as, and what the store then answers. *)
Definition asks (call : Call) (q : Request) (a : App) (claims : Claims.t) (room : Room.t) : Prop :=
  ∃ a1, on_auth (ParseToken (ExtractBearer (Authorization q)) TokenTypeAccess) a = (Ok claims, a1) ∧
        (get_room (room_named call q) a1).1 = Ok room.

(** The request offers the right password of a room. *)
Definition opens (call : Call) (q : Request) (a : App) (r u : string) : Prop :=
  guarded call = true ∧ ∃ claims room, asks call q a claims room ∧
    r = Room.ID room ∧ u = Claims.UserID claims ∧
    CheckPassword (Room.PasswordHash room) (password_offered call q) = true.

(** A handler behind its room: it grants at most the one access its password is
    right for, and unless the room may be entered it does nothing and fails. *)
Definition entered (call : Call) (q : Request) (claims : Claims.t) (a : App)
    (r : result Response) (a' : App) : Prop :=
  (∀ x u, has_grant a' x u → has_grant a x u ∨
     ∃ room, (get_room (room_named call q) a).1 = Ok room ∧ x = Room.ID room ∧
       u = Claims.UserID claims ∧
       CheckPassword (Room.PasswordHash room) (password_offered call q) = true) ∧
  ((∃ room, (get_room (room_named call q) a).1 = Ok room ∧
      may_enter a claims room (Claims.UserID claims) (password_offered call q)) ∨
   untouched a a' ∧ ¬ answered r).
Definition enters (call : Call) (q : Request) (claims : Claims.t) (h : SM App Response) : Prop :=
  ∀ a, wp h (entered call q claims a) a.

(** After the room, the checks of the request, then the guard, then the rest. *)
Lemma enters_room call q claims k :
  (∀ room a, wp (k room)
     (let_in a claims room (Claims.UserID claims) (password_offered call q) answered) a) →
  enters call q claims (room ← get_room (room_named call q); k room).
Proof.
  intros Hk a. apply wp_bind. pose proof (ut_get_room (room_named call q) a) as Ht.
  pose proof (untouched_no_new _ _ Ht) as Hn.
  unfold wp at 1. destruct (get_room (room_named call q) a) as [[room|e|h] a1] eqn:E; cbn [fst snd] in *.
  2,3: split; [intros x u Hg; left; by apply Hn|right; split; [done|by intros [x ?]]].
  eapply wp_mono; [apply Hk|]. intros r a2 [Hg Hr]. split.
  - intros x u Hx. destruct (Hg x u Hx) as [Hx'|(-> & -> & Hp)]; [left; by apply Hn|].
    right. exists room. by rewrite E.
  - destruct Hr as [Hr|[Ht2 Hr]]; [left|right; split; [by etrans|done]].
    exists room. rewrite E. split; [done|].
    destruct Hr as [?|[?|[Hgr|?]]]; [by left|by right; left| |by right; right; right].
    right. right. left. by apply Hn.
Qed.

(** A check that changes nothing before the rest. *)
Lemma guarded_check {A B} claims room u p (m : SM App A) (k : A → SM App B) a :
  (∀ a, (m a).2 = a) →
  (∀ x, (m a).1 = Ok x → wp (k x) (let_in a claims room u p answered) a) →
  wp (x ← m; k x) (let_in a claims room u p answered) a.
Proof.
  intros Hm Hk. apply wp_bind. unfold wp at 1. rewrite Hm.
  destruct (m a).1 as [x|e|h]; [by apply Hk|..];
    (split; [by apply no_new_grants_for|right; split; [done|by intros [x ?]]]).
Qed.

Lemma enters_join claims q b : enters (CJoin b) q claims (join claims q b).
Proof.
  unfold join, loadRoom. apply (enters_room (CJoin b) q claims). intros room a.
  unfold guard_user, currentUser. case_bool_decide.
  { apply wp_bind, wp_throw. split; [by apply no_new_grants_for|right; split; [done|by intros [x ?]]]. }
  apply wp_bind, wp_ret. apply guarded_run. nn_auto.
Qed.
Lemma enters_list claims q : enters CListChat q claims (listRoomChat claims q).
Proof.
  unfold listRoomChat, loadRoom. apply (enters_room CListChat q claims). intros room a.
  apply guarded_run. nn_auto.
Qed.
Lemma enters_chat claims q b : enters (CPostChat b) q claims (postRoomChat claims q b).
Proof.
  unfold postRoomChat, loadRoom. apply (enters_room (CPostChat b) q claims). intros room a.
  unfold must_bind. apply guarded_check; [by destruct (bound b)|].
  intros req. destruct (bound b); [|done]. intros [= <-]. apply guarded_run. nn_auto.
Qed.
Lemma enters_snapshot claims q b : enters (CSnapshot b) q claims (snapshot claims q b).
Proof.
  unfold snapshot, loadRoom. apply (enters_room (CSnapshot b) q claims). intros room a.
  unfold must_bind. apply guarded_check; [by destruct (ContentLength q =? 0), (bound b)|].
  intros req. cbn [password_offered]. destruct (ContentLength q =? 0).
  - intros [= <-]. apply guarded_run. nn_auto.
  - destruct (bound b); [|done]. intros [= <-]. apply guarded_run. nn_auto.
Qed.
Lemma enters_ably claims q b : enters (CAblyToken b) q claims (ablyToken claims b).
Proof.
  assert (enters (CAblyToken b) q claims (room ← get_room (TrimSpace (ably_room (body b)));
    _ ← guard_access claims room (Claims.UserID claims) (ably_password (body b));
    '(token, exp) ← or_abort (λ _, Internal "failed to issue ably token")
      (issue_jwt (Room.ID room) (Claims.UserID claims));
    mret (reply_ok 200 (BAbly token (format_rfc3339 exp))))) as Hrest.
  { apply (enters_room (CAblyToken b) q claims). intros room a. apply guarded_run. nn_auto. }
  intros a. assert (∀ e, wp (throw e : SM App Response) (entered (CAblyToken b) q claims a) a) as Hstop.
  { intros e. apply wp_throw. split; [intros x u Hg; left; exact Hg|right; split; [done|by intros [x ?]]]. }
  unfold ablyToken, abort_if, must_bind. apply wp_bind.
  change (wp (on_rooms (present publisher)) ?Q a) with
    (Q (Ok (match publisher (svc a) with Some _ => true | None => false end)) (set_svc (svc a) a)).
  assert (set_svc (svc a) a = a) as -> by (by destruct a). cbv beta iota.
  destruct (publisher (svc a)); cbn [negb]; [|apply wp_bind, Hstop]. apply wp_bind, wp_ret.
  destruct (bound b); [|apply wp_bind, Hstop]. apply wp_bind, wp_ret.
  destruct (_ && _); [apply wp_bind, Hstop|]. apply wp_bind, wp_ret. cbv zeta.
  case_bool_decide; [apply wp_bind, Hstop|]. apply wp_bind, wp_ret. apply Hrest.
Qed.

(** The routes that check nothing grant nothing. *)
Lemma nn_authed call claims q : guarded call = false → keeps no_new (authed call claims q).
Proof.
  intros Hc. destruct call; try done; unfold authed, requireAdmin, logout, me, create, list, get,
    delete, leave, kick, state, control, listRooms, debug_rooms; nn_auto.
Qed.
Lemma enters_authed call claims q : guarded call = true → enters call q claims (authed call claims q).
Proof.
  intros Hc. destruct call; try done; unfold authed.
  - apply enters_ably.
  - apply enters_join.
  - apply enters_snapshot.
  - apply enters_chat.
  - apply enters_list.
Qed.
Lemma nn_public call q : is_public call = true → keeps no_new (route call q).
Proof.
  intros Hc. destruct call; try done; unfold route, register, resetPassword, login, refresh, health; nn_auto.
Qed.

Definition bearer (q : Request) : SM App Claims.t :=
  on_auth (ParseToken (ExtractBearer (Authorization q)) TokenTypeAccess).

Lemma parse_frame tok ty s :
  let s' := (ParseToken tok ty s).2 in
  users s' = users s ∧ codes s' = codes s ∧ hook s' = hook s ∧ cfg s' = cfg s ∧ uuids s' = uuids s.
Proof.
  unfold ParseToken. cbv zeta. case_bool_decide; [done|].
  unfold mbind, SM_bind, gets, clock. destruct (ParseWithClaims _ _ _ _) as [c|]; [|done].
  destruct (negb _ && _); [done|]. destruct (_ || _); [done|].
  unfold call_sessions. destruct (IsBlacklisted _ _ _ _) as [[[]|e|h] y]; done.
Qed.

Lemma ut_bearer q : keeps untouched (bearer q).
Proof.
  intros a. unfold bearer, on_auth.
  pose proof (parse_frame (ExtractBearer (Authorization q)) TokenTypeAccess (at_tick (tick (svc a)) (auth a))) as Hf.
  destruct (ParseToken _ _ _) as [r s]. cbn [fst snd] in Hf. destruct Hf as (? & ? & ? & _).
  do 9 (split; [done|]). intros x u Hg. exact Hg.
Qed.

(** What one request does to the grants, and what it takes to have an effect. *)
Lemma route_run call q a :
  wp (route call q) (λ r a',
    (∀ x u, has_grant a' x u → has_grant a x u ∨ opens call q a x u) ∧
    (guarded call = true →
      (∃ claims room, asks call q a claims room ∧
         may_enter a claims room (Claims.UserID claims) (password_offered call q)) ∨
      untouched a a' ∧ ¬ answered r)) a.
Proof.
  destruct (is_public call) eqn:Hpub.
  { eapply wp_keeps; [by apply nn_public|]. intros r a' Hn.
    split; [intros x u Hg; left; by apply Hn|]. by destruct call. }
  assert (route call q = requireAuth q (λ claims, authed call claims q)) as -> by (by destruct call).
  unfold requireAuth. apply wp_bind, wp_attempt. unfold wp at 1.
  pose proof (ut_bearer q a) as Ht. pose proof (untouched_no_new _ _ Ht) as Hn. unfold bearer in *.
  destruct (on_auth _ a) as [[claims|e|h] a1] eqn:Ep; cbn [fst snd] in *.
  2,3: split; [intros x u Hg; left; by apply Hn|intros _; right; split; [done|by intros [x ?]]].
  destruct (guarded call) eqn:Hg.
  2: { eapply wp_keeps; [by apply nn_authed|]. intros r a' Hn'.
       split; [intros x u Hx; left; by apply Hn, Hn'|done]. }
  eapply wp_mono; [by apply enters_authed|]. intros r a' [Hgr Hok]. split.
  - intros x u Hx. destruct (Hgr x u Hx) as [Hx'|(room & Hroom & Hrest)]; [left; by apply Hn|].
    right. split; [done|]. exists claims, room. split; [by exists a1|done].
  - intros _. destruct Hok as [(room & Hroom & Hmay)|[Ht2 Hno]]; [|right; split; [by etrans|done]].
    left. exists claims, room. split; [by exists a1|]. destruct Hmay as [?|[?|[Hgrant|?]]];
      [by left|by right; left|right; right; left; by apply Hn|by right; right; right].
Qed.

(** ** Runs *)

(** A reply that is no error. *)
Definition succeeded (r : Response) : bool :=
  match content r with BError _ _ => false | _ => status r <? 300 end.

Lemma handle_succeeded call q a :
  succeeded (handle call q a).1 = true → ∃ r, (route call q a).1 = Ok r.
Proof.
  unfold handle, serve_request. destruct (route call q a) as [[r|e|h] a']; [by eexists| |done].
  cbn [fst]. unfold Respond. by destruct (default _ (as_api e)) as [[? ?] ?].
Qed.
Lemma handle_state call q a : (handle call q a).2 = (route call q a).2.
Proof. unfold handle, serve_request. by destruct (route call q a) as [[] ?]. Qed.

Definition opened (y : happening) (r u : string) : Prop :=
  ∃ call q, what y = ARequest call q ∧ opens call q (before y) r u.
(** Every grant was earned in the past [h]. *)
Definition earned (h : Datatypes.list happening) (a : App) : Prop :=
  ∀ r u, has_grant a r u → ∃ y, y ∈ h ∧ opened y r u.

Lemma earned_act h x a : earned h a → earned (h ++ [mkHappening x a (act x a).1]) (act x a).2.
Proof.
  intros Hh. assert (∀ a', no_new a a' → earned (h ++ [mkHappening x a (act x a).1]) a') as Hsame.
  { intros a' Hn r u Hg. destruct (Hh r u (Hn r u Hg)) as (y & Hy & Ho). exists y. split; [set_solver|done]. }
  destruct x as [call q|fuel|fuel]; cbn [act snd] in *.
  - intros r u. destruct (handle call q a) as [res a'] eqn:E. cbn [fst snd].
    assert (a' = (route call q a).2) as -> by (by rewrite <- handle_state, E).
    pose proof (route_run call q a) as [Hg _]. intros Hx.
    destruct (Hg r u Hx) as [Hx'|Ho].
    + destruct (Hh r u Hx') as (y & Hy & Hyo). exists y. split; [set_solver|done].
    + eexists. split; [apply elem_of_app; right; by left|]. by exists call, q.
  - apply Hsame. apply nn_rooms. auto with grants.
  - apply Hsame. unfold run_ticker. destruct (roomChat (svc a)), (publisher (svc a)); try reflexivity.
    apply nn_rooms. auto with grants.
Qed.

Lemma run_earned xs a h0 h1 y h2 :
  earned h0 a → (run_server xs a).1 = h1 ++ y :: h2 →
  earned (h0 ++ h1) (before y) ∧ answer y = (act (what y) (before y)).1.
Proof.
  revert a h0 h1. induction xs as [|x xs IH]; intros a h0 h1 He; cbn [run_server].
  { cbn. by destruct h1. }
  pose proof (earned_act h0 x a He) as Hx. destruct (act x a) as [r a1] eqn:E.
  destruct (run_server xs a1) as [h a2] eqn:Er. cbn [fst snd] in *.
  destruct h1 as [|z h1]; cbn [app]; intros [= <- Hrest].
  - rewrite app_nil_r. split; [done|]. cbn [what before answer]. by rewrite E.
  - pose proof (IH a1 (h0 ++ [mkHappening x a r]) h1 Hx) as Hi. rewrite Er in Hi.
    rewrite <- app_assoc in Hi. by apply Hi.
Qed.


(** ** Tokens and managers *)

(** Checking a token does no more to the sessions than look up whether it is revoked. *)
Definition looked_up (x y : SessionsT) (now : time) : Prop := y = x ∨ ∃ c j, y = (IsBlacklisted c now j x).2.
Lemma parse_looks tok ty s : looked_up (sessions s) (sessions (ParseToken tok ty s).2) (now_at (S (ticks s))).
Proof.
  unfold ParseToken. cbv zeta. case_bool_decide; [by left|].
  unfold mbind, SM_bind, gets, clock. destruct (ParseWithClaims _ _ _ _) as [c|]; [|by left].
  destruct (negb _ && _); [by left|]. destruct (_ || _); [by left|].
  unfold call_sessions. cbn [ticks pass_tick sessions]. right. exists (ctx_at (S (ticks s))), (Claims.ID c).
  by destruct (IsBlacklisted _ _ _ _) as [[[]|e|h] y].
Qed.
Lemma looked_up_kept `{!SessionContract SessionsT} x y now : looked_up x y now →
  (∀ t u, sc_token y t u = sc_token x t u) ∧ (∀ t j, now ≤ t → sc_black y t j = sc_black x t j).
Proof.
  intros [->|(c & j & ->)]; [done|]. pose proof (IsBlacklisted_law c now j x) as Hb.
  destruct (IsBlacklisted c now j x). by destruct Hb as (_ & ? & ?).
Qed.

(** C20: on every route but the public ones a request whose token is not accepted is
    answered 401 and does nothing: the rooms, the presence, the states, the chat,
    the grants, the accounts and the codes stay as they are, and of the session cache,
    whichever it is, no more is asked than whether the token is revoked; over one that
    keeps its contract every refresh token is kept, and what is revoked is the same
    from the check on. *)
Theorem unauthenticated_refused call q a e a1 :
  is_public call = false → bearer q a = (Err e, a1) →
  (handle call q a).1 = Respond (Unauthorized "authentication required") ∧
  let a' := (handle call q a).2 in
  svc a' = tick_to (tick (svc a')) (svc a) ∧
  users (auth a') = users (auth a) ∧ codes (auth a') = codes (auth a) ∧
  hook (auth a') = hook (auth a) ∧ cfg (auth a') = cfg (auth a) ∧
  uuids (auth a') = uuids (auth a) ∧
  looked_up (sessions (auth a)) (sessions (auth a')) (now_at (S (tick (svc a)))) ∧
  conf a' = conf a ∧ sender a' = sender a ∧
  ipLimiter a' = ipLimiter a ∧ regLastHit a' = regLastHit a ∧
  ∀ SC : SessionContract SessionsT,
    (∀ t u, sc_token (sessions (auth a')) t u = sc_token (sessions (auth a)) t u) ∧
    (∀ t j, now_at (S (tick (svc a))) ≤ t →
       sc_black (sessions (auth a')) t j = sc_black (sessions (auth a)) t j).
Proof.
  intros Hpub Hb. assert (handle call q a = (Respond (Unauthorized "authentication required"), a1)) as ->.
  { unfold handle. assert (route call q = requireAuth q (λ claims, authed call claims q)) as -> by (by destruct call).
    unfold serve_request, requireAuth, mbind, SM_bind, attempt. fold (bearer q). by rewrite Hb. }
  cbn [fst snd]. split; [done|]. unfold bearer, on_auth in Hb.
  set (s0 := at_tick (tick (svc a)) (auth a)) in *.
  pose proof (parse_frame (ExtractBearer (Authorization q)) TokenTypeAccess s0) as Hf.
  pose proof (parse_looks (ExtractBearer (Authorization q)) TokenTypeAccess s0) as Hl.
  destruct (ParseToken _ _ _) as [r s]. injection Hb as -> <-. cbn [fst snd] in Hf, Hl.
  destruct Hf as (? & ? & ? & ? & ?). repeat (split; [done|]). intros SC. by apply looked_up_kept.
Qed.

(** The routes that change a room for everybody, and those of administrators. *)
Definition managed (call : Call) : bool :=
  match call with CDelete | CKick | CControl _ => true | _ => false end.
Definition administrative (call : Call) : bool :=
  match call with CAdminRooms | CDebugRooms => true | _ => false end.

(** C21: deleting a room, kicking from it and controlling its player by anybody but
    its owner or an administrator is answered 403 and does no more than look the
    room up; the administrators' listings are 403 for everybody else, at once. *)
Theorem management_guarded call q a claims a1 :
  bearer q a = (Ok claims, a1) →
  (managed call = true → ∀ room a2,
     get_room (TrimSpace (Param q "roomId")) a1 = (Ok room, a2) →
     Claims.Role claims ≠ UserRoleAdmin → Room.OwnerID room ≠ Claims.UserID claims →
     handle call q a = (Respond (Forbidden "room owner or admin required"), a2)) ∧
  (administrative call = true → Claims.Role claims ≠ UserRoleAdmin →
     handle call q a = (Respond (Forbidden "admin role required"), a1)).
Proof.
  intros Hb. assert (is_public call = false → handle call q a = serve_request (authed call claims q) a1) as Hh.
  { intros Hpub. unfold handle.
    assert (route call q = requireAuth q (λ claims, authed call claims q)) as -> by (by destruct call).
    unfold serve_request, requireAuth, mbind, SM_bind, attempt. fold (bearer q). by rewrite Hb. }
  split.
  - intros Hm room a2 Hroom Hrole Howner.
    pose proof (canManageRoom_others claims room Hrole Howner) as Hcan. rewrite Hh by (by destruct call). unfold serve_request.
    destruct call; try done; unfold authed, delete, kick, control, loadRoom, mbind, SM_bind;
      rewrite Hroom; unfold guard_manage; by rewrite Hcan.
  - intros Had Hrole. rewrite Hh by (by destruct call). unfold serve_request.
    destruct call; try done; unfold authed, requireAdmin; by rewrite bool_decide_false.
Qed.
End access.
