(* ===== verification/ApiLimits.v ===== *)
(** * What limits the sending of codes

    The rate limiter of [internal/api/auth_handlers.go] against a reference that
    remembers everything, and the life of a mailed code. *)

From S2P Require Import Prelude GoStrings GoNum GoParse Model Interfaces Service Chat.
From S2P Require Import Postgres EmailCode CodeGuessing Config Email Ably Auth AuthAccounts Api.
From Stdlib Require Import Sorted.
#[local] Open Scope Z_scope.

(** ** The limiter *)

(** A run of the limiter, at the clock readings of the calls. *)
Fixpoint allow_all (calls : list (string * time)) (l : Limiter.t) : list bool :=
  match calls with
  | [] => []
  | (ip, t) :: calls => let '(ok, l) := Limiter.allow ip t l in ok :: allow_all calls l
  end.

(** The reference: all calls let through so far, and those of an address in the
    window that ends now. *)
Definition recent (win : Z) (ip : string) (t : time) (past : list (string * time)) : list (string * time) :=
  filter (λ c, c.1 = ip ∧ t - win < c.2) past.
Definition passes (limit win : Z) (past : list (string * time)) (c : string * time) : bool :=
  Z.of_nat (length (recent win c.1 c.2 past)) <? limit.
Fixpoint passes_all (limit win : Z) (past calls : list (string * time)) : list bool * list (string * time) :=
  match calls with
  | [] => ([], past)
  | c :: calls =>
      let ok := passes limit win past c in
      let '(oks, all) := passes_all limit win (if ok then past ++ [c] else past) calls in
      (ok :: oks, all)
  end.

(** The stored list of an address agrees with the past on every window that can
    still be asked for. *)
Definition remembers (win : Z) (last : time) (past : list (string * time)) (hits : gmap string (list time)) : Prop :=
  ∀ ip t, last ≤ t →
    filter (λ x, After x (t - win) = true) (default [] (hits !! ip)) = (recent win ip t past).*2.

Lemma recent_snoc win ip t past c :
  recent win ip t (past ++ [c]) =
    recent win ip t past ++ (if decide (c.1 = ip ∧ t - win < c.2) then [c] else []).
Proof.
  unfold recent. rewrite list.filter_app, list.filter_cons.
  reflexivity.
Qed.

Lemma filter_later win t t' (l : list time) :
  t ≤ t' →
  filter (λ x, After x (t' - win) = true) (filter (λ x, After x (t - win) = true) l) =
  filter (λ x, After x (t' - win) = true) l.
Proof.
  intros Ht. rewrite list_filter_filter. apply list_filter_iff. intros x. unfold After.
  rewrite !Z.ltb_lt. lia.
Qed.

Lemma remembers_allow limit win last past hits ip t :
  0 < limit → remembers win last past hits → last ≤ t →
  let '(ok, l) := Limiter.allow ip t (Limiter.mk hits limit win) in
  ok = passes limit win past (ip, t) ∧ Limiter.limit l = limit ∧ Limiter.win l = win ∧
  remembers win t (if ok then past ++ [(ip, t)] else past) (Limiter.hits l).
Proof.
  intros Hl Hr Ht. unfold Limiter.allow. cbn [Limiter.limit Limiter.win Limiter.hits].
  destruct (Z.leb_spec limit 0); [lia|]. unfold time_Add, passes. cbn [fst snd].
  replace (t + - win) with (t - win) by lia.
  pose proof (Hr ip t Ht) as Hip. rewrite Hip, length_fmap.
  destruct (Z.leb_spec limit (Z.of_nat (length (recent win ip t past)))) as [Hge|Hlt].
  - rewrite (proj2 (Z.ltb_ge _ _)) by done. cbn. split_and!; [done..|].
    intros ip' t' Ht'. apply Hr. lia.
  - rewrite (proj2 (Z.ltb_lt _ _)) by done. cbn. split_and!; [done..|].
    intros ip' t' Ht'. rewrite recent_snoc, fmap_app. cbn [fst snd].
    destruct (decide (ip' = ip)) as [->|Hne].
    + rewrite lookup_insert_eq. cbn [default]. unfold id.
      rewrite list.filter_app, <- Hip, filter_later by done.
      rewrite (Hr ip t') by lia. f_equal. rewrite list.filter_cons, list.filter_nil. unfold After.
      destruct (decide ((t' - win <? t) = true)) as [Hw|Hw]; rewrite Z.ltb_lt in Hw;
        [rewrite decide_True by done|rewrite decide_False by (intros [_ ?]; lia)]; done.
    + rewrite lookup_insert_ne by done. rewrite (Hr ip' t') by lia.
      rewrite decide_False by (intros [? _]; congruence). by rewrite app_nil_r.
Qed.

(** Calls one after the other. *)
Definition in_order (last : time) (calls : list (string * time)) : Prop :=
  StronglySorted Z.le (last :: calls.*2).

Lemma allow_all_refines limit win last past hits calls :
  0 < limit → remembers win last past hits → in_order last calls →
  allow_all calls (Limiter.mk hits limit win) = (passes_all limit win past calls).1.
Proof.
  intros Hl. revert last past hits. induction calls as [|[ip t] calls IH]; intros last past hits Hr Ho; [done|].
  cbn [allow_all passes_all]. inversion Ho as [|? ? Hs Hall]; subst. cbn [fmap list_fmap snd] in *.
  apply list.Forall_cons in Hall as [Ht _].
  pose proof (remembers_allow limit win last past hits ip t Hl Hr Ht) as Ha.
  destruct (Limiter.allow ip t _) as [ok [hits' lim' win']]. cbn [Limiter.limit Limiter.win Limiter.hits] in Ha.
  destruct Ha as (-> & -> & -> & Hr'). rewrite (IH t _ _ Hr' Hs).
  by destruct (passes_all _ _ _ _).
Qed.

(** No window holds more than the limit. *)
Definition bounded (limit win : Z) (past : list (string * time)) : Prop :=
  ∀ ip t0, Z.of_nat (length (filter (λ c : string * time, c.1 = ip ∧ t0 < c.2 ≤ t0 + win) past)) ≤ limit.

Lemma filter_length_le {A} (P Q : A → Prop) `{∀ x, Decision (P x), ∀ x, Decision (Q x)} l :
  (∀ x, P x → Q x) → (length (filter P l) ≤ length (filter Q l))%nat.
Proof.
  intros HPQ. induction l as [|x l IH]; [done|]. rewrite !list.filter_cons.
  destruct (decide (P x)) as [Hp|], (decide (Q x)) as [|Hq]; simpl; try lia.
  destruct Hq. by apply HPQ.
Qed.

Lemma passes_all_bounded limit win past calls :
  0 ≤ limit → bounded limit win past → bounded limit win (passes_all limit win past calls).2.
Proof.
  intros Hl. revert past. induction calls as [|c calls IH]; intros past Hb; [done|]. cbn [passes_all].
  assert (bounded limit win (if passes limit win past c then past ++ [c] else past)) as Hb'.
  { destruct (passes limit win past c) eqn:E; [|done]. unfold passes in E. apply Z.ltb_lt in E.
    intros ip t0. rewrite list.filter_app, length_app, list.filter_cons, list.filter_nil.
    case_decide as Hc; [|specialize (Hb ip t0); simpl; lia]. destruct Hc as [<- Hc].
    pose proof (filter_length_le (λ d : string * time, d.1 = c.1 ∧ t0 < d.2 ≤ t0 + win)
      (λ d, d.1 = c.1 ∧ c.2 - win < d.2) past) as Hle.
    unfold recent in E. cbn [length].
    specialize (Hle ltac:(intros d [? ?]; split; [done|lia])). unfold time in *. lia. }
  specialize (IH _ Hb'). by destruct (passes_all _ _ _ _).
Qed.

(** C31: for calls that reach it in the order of their clock readings, the limiter
    lets a call through exactly when fewer than its limit of the
    calls of that address it let through lie in the window before it, although it
    forgets older ones; so no window of that length ever holds more than the limit
    of one address, refused calls not counted. *)
Theorem limiter_exact limit win calls :
  0 < limit → StronglySorted Z.le calls.*2 →
  allow_all calls (Limiter.newIPLimiter limit win) = (passes_all limit win [] calls).1 ∧
  bounded limit win (passes_all limit win [] calls).2.
Proof.
  intros Hl Hs. split; [|apply passes_all_bounded; [lia|]; intros ip t0; simpl; lia].
  destruct calls as [|[ip t] calls]; [done|].
  apply (allow_all_refines limit win t); [done| |].
  - intros ip' t' _. by rewrite lookup_empty.
  - constructor; [done|]. cbn [fmap list_fmap snd] in *. inversion Hs; subst.
    constructor; [done|]. done.
Qed.

Lemma limiter_exact_witness :
  let calls := [("a", 10); ("a", 20); ("b", 20); ("a", 25); ("a", 70); ("a", 75)] in
  allow_all calls (Limiter.newIPLimiter 2 60) = [true; true; true; false; true; false] ∧
  bounded 2 60 (passes_all 2 60 [] calls).2.
Proof.
  intros calls. assert (StronglySorted Z.le calls.*2) as Hs by (repeat constructor; done).
  destruct (limiter_exact 2 60 calls eq_refl Hs) as [Ha Hb].
  split; [rewrite Ha; vm_compute; reflexivity|exact Hb].
Defined.
