(* ===== verification/ApiExamples.v ===== *)
(** * A concrete server

    The server [NewServer] wires from the default configuration, the in-memory
    caches, the stores over tables and the token format of [ToyAuth], with two
    users and a private room: the inputs of the witnesses of [ApiAccess]. *)

From S2P Require Import Prelude GoStrings GoNum GoParse QueueUrl Model Interfaces Service Chat Hub.
From S2P Require Import MemCaches MemPresence Postgres Fixtures EmailCode Config Email Ably HubControl.
From S2P Require Import Auth AuthTokens AuthExamples Api RoomsApi Router ApiAccess.
From S2P Require Import GoJson JsonFacts GoFloat GoTime StateWire Redis RedisStates HttpBodies.

Module ToyServer.

(** ** The collaborators *)

(** A mailbox that keeps what it is sent, and a realtime service whose tokens
    name their room and client. *)
#[global] Instance mailbox : SenderAPI (list (string * string * string)) := {
  Enabled _ := true;
  SendVerificationCode _ address purpose code := λ box,
    (Ok "sent", box ++ [(address, purpose, code)]);
}.
#[global] Instance realtime : Realtime unit := {
  RtChannelName r := mret ("room:" +:+ r);
  RtIssueRoomJWT _ t r u := mret (r +:+ "/" +:+ u, t + 30 * Minute);
}.
#[global] Instance sevens : RandSource := {| rand_at _ := {| rand_byte _ := Ok 7 |} |}.

#[global] Instance accounts_backend : AuthBackend :=
  router_backend (PgUsers.t TableUsers.t) MemSessions.t MemCodes.t.
#[global] Instance api_backend : ApiBackend := {
  MailT := list (string * string * string);
}.

(** ** Two users and a private room *)

Definition bob : User.t :=
  User.mk "2" "bob@x.io" "bob" "$password2" "bob" "" UserRoleUser (1 * Second) (1 * Second).
Definition cinema : Room.t :=
  Room.mk "r1" "cinema" "1" RoomVisibilityPrivate "$popcorn" "" (1 * Second) (1 * Second).

Definition server : App :=
  NewServer EmptyEnv.config
    (PgUsers.mk (TableUsers.mk {["1" := ToyAuth.ann; "2" := bob]}) 0) (MemSessions.mk ∅ ∅) (Some ∅)
    MemStates.New (Some MemPresence.New)
    (Some (PgRooms.mk (TableDB.mk {["r1" := cinema]}) 0)) (Some MemAccess.New)
    (Some tt) None (Some []).

(** A request of a user, with a fresh access token. *)
Definition access (u : User.t) : Claims.t :=
  claims_for u TokenTypeAccess "token" (now_at 0) (15 * Minute).
Definition request_of (u : User.t) (length : Z) : Request :=
  mkRequest ("Bearer " +:+ ToyAuth.token (Config.JWTSecret EmptyEnv.config) (access u))
    (λ _, "") (λ p, if bool_decide (p = "roomId") then "r1" else "") "10.0.0.1" length.
Definition anonymous : Request := mkRequest "" (λ _, "") (λ _, "r1") "10.0.0.1" 0.

(** Bob is refused, then gives the password, then reads the snapshot. *)
Definition knock : action := ARequest (CJoin (mkBound true "")) (request_of bob 2).
Definition enter : action := ARequest (CJoin (mkBound true "popcorn")) (request_of bob 22).
Definition look : action := ARequest (CSnapshot (mkBound false "")) (request_of bob 0).
Definition evening : list happening * App := run_server [knock; enter; look] server.
Definition statuses : list Z := omap (λ y, status <$> answer y) evening.1.
End ToyServer.

Lemma evening_statuses : ToyServer.statuses = [403; 200; 200].
Proof. vm_compute. reflexivity. Qed.

(** ** The theorems at work *)

Lemma nobody_granted r u : ¬ has_grant ToyServer.server r u.
Proof.
  change (u ∉ default ∅ ((∅ : gmap string (gset string)) !! r)).
  rewrite lookup_empty. apply not_elem_of_empty.
Qed.

(** What a run of two actions and a request did. *)
Section three.
Context `{!UnicodeTables, !MailParser, !Bcrypt, !Jwt, !Salts, !UuidSource, !RandSource, !Env}.
Context `{!AuthBackend, !Backend, !ApiBackend}.
Definition after (x : action) (a : App) : App := (act x a).2.
Definition did (x : action) (a : App) : happening := mkHappening x a (act x a).1.
Lemma run_three x y call q a :
  (run_server [x; y; ARequest call q] a).1 =
    [did x a; did y (after x a)] ++
    mkHappening (ARequest call q) (after y (after x a))
      (Some (handle call q (after y (after x a))).1) :: [].
Proof.
  unfold did, after. cbn [run_server]. destruct (act x a) as [r1 a1]. cbn [fst snd].
  destruct (act y a1) as [r2 a2]. cbn [fst snd act]. by destruct (handle call q a2).
Qed.
End three.

(** The server bob's reading of the snapshot found. *)
Definition found : App := after ToyServer.enter (after ToyServer.knock ToyServer.server).


(** Bob's knock, without the password: refused, and nothing has happened. *)
Lemma knock_refused :
  status (handle (CJoin (mkBound true "")) (ToyServer.request_of ToyServer.bob 2) ToyServer.server).1 = 403 ∧
  let s := svc (after ToyServer.knock ToyServer.server) in
  presence s = Some MemPresence.New ∧ events s = [].
Proof. split; [|split]; vm_compute; reflexivity. Qed.

Lemma pair_of {A B} (p : A * B) x : p.1 = x → p = (x, p.2).
Proof. destruct p. by intros <-. Qed.

Lemma unauthenticated_refused_witness :
  (handle CMe ToyServer.anonymous ToyServer.server).1 =
    mkResponse 401 None (BError "UNAUTHORIZED" "authentication required") ∧
  let a' := (handle CMe ToyServer.anonymous ToyServer.server).2 in
  svc a' = tick_to (tick (svc a')) (svc ToyServer.server) ∧
  ∀ t u, sc_token (sessions (auth a')) t u = sc_token (sessions (auth ToyServer.server)) t u.
Proof.
  assert ((bearer ToyServer.anonymous ToyServer.server).1 = Err ErrInvalidToken) as Hb
    by (vm_compute; reflexivity).
  destruct (unauthenticated_refused CMe _ _ _ _ (eq_refl false) (pair_of _ _ Hb))
    as (Hr & Hs & _ & _ & _ & _ & _ & _ & _ & _ & _ & _ & Ht).
  split; [exact (eq_trans Hr eq_refl)|]. split; [exact Hs|exact (proj1 (Ht _))].
Defined.

(** Bob may not press the buttons, nor see the administrators' list. *)
Lemma management_guarded_witness :
  let q := ToyServer.request_of ToyServer.bob 2 in
  let press := CControl (mkBound true (mkControl PlaybackActionPlay f_zero "" [] "" 0 f_zero)) in
  status (handle press q ToyServer.server).1 = 403 ∧
  status (handle CAdminRooms q ToyServer.server).1 = 403.
Proof.
  intros q press. set (claims := ToyServer.access ToyServer.bob).
  assert ((bearer q ToyServer.server).1 = Ok claims) as Hb by (vm_compute; reflexivity).
  assert ((RoomHandlers.get_room (TrimSpace (Param q "roomId")) (bearer q ToyServer.server).2).1 =
    Ok ToyServer.cinema) as Hg by (vm_compute; reflexivity).
  pose proof (pair_of _ _ Hb) as Hb'. pose proof (pair_of _ _ Hg) as Hg'. split.
  - destruct (management_guarded press q _ _ _ Hb') as [Hm _].
    rewrite (Hm eq_refl _ _ Hg' ltac:(discriminate) ltac:(discriminate)). reflexivity.
  - destruct (management_guarded CAdminRooms q _ _ _ Hb') as [_ Ha].
    rewrite (Ha eq_refl ltac:(discriminate)). reflexivity.
Defined.

(** ** A control of the owner, with the states in Redis *)

Module ToyRedis.
(** The clock of this server stands still. *)
#[global] Instance still_env : Env := {
  ctx_at _ := None; now_at _ := 1700000000 * Second; jitter_at _ := 0;
}.
#[global] Instance backend : Backend :=
  redis_states (R:=Keyspace.t) (Pr:=MemPresence.t) (Ro:=PgRooms.t TableDB.t) (Ac:=MemAccess.t) (Ch:=unit) (Pu:=unit).
#[global] Instance api_backend : ApiBackend := {
  MailT := list (string * string * string);
}.
Definition server : App :=
  NewServer EmptyEnv.config
    (PgUsers.mk (TableUsers.mk {["1" := ToyAuth.ann]}) 0) (MemSessions.mk ∅ ∅) (Some ∅)
    (Keyspace.mk (1700000000 * Second) ∅ : StatesT) (Some MemPresence.New)
    (Some (PgRooms.mk (TableDB.mk {["r1" := ToyServer.cinema]}) 0)) (Some MemAccess.New)
    (Some tt) None (Some []).
Definition body_text : string := of_bytes (braces
  [member_str "action" (quote "play"); member_str "Position" (chars "12.5e0");
   member_str "queue" (brackets [quote "https://a/b.mp4"; quote "x"]);
   member_str "video_id" (quote "https://a/b.mp4"); member_str "control_version" (chars "1")]).
Definition claims : Claims.t := ToyServer.access ToyAuth.ann.
Definition q : Request := ToyServer.request_of ToyAuth.ann 100.
Definition run := RoomHandlers.control claims q (bind_control body_text) server.
Definition message : Message.t :=
  match run.1 with Ok (mkResponse _ _ (BMessage m)) => m | _ => Message.mk "" "" "" f_zero "" [] 0 0 "" 0 None end.
End ToyRedis.

Lemma toy_answer : ToyRedis.run.1 = Ok (reply_ok 200 (BMessage ToyRedis.message)).
Proof. vm_compute. reflexivity. Qed.
Lemma toy_room :
  match (RoomHandlers.loadRoom ToyRedis.q ToyRedis.server).1 with Ok x => Room.ID x = "r1" | _ => True end.
Proof. vm_compute. reflexivity. Qed.

Lemma redis_control_kept_witness :
  Message.Position ToyRedis.message = f_of_dec false 125 (-1) ∧
  ∃ st, describes ToyRedis.message st ∧ keeps_state (R:=Keyspace.t) "r1" st (states (svc ToyRedis.run.2)).
Proof.
  split; [vm_compute; reflexivity|].
  assert (writable_clock (H6 := ToyRedis.still_env)) as Hy by (intros n; vm_compute; split; discriminate).
  destruct (redis_control_kept ToyRedis.body_text Hy) as [_ Hkept].
  destruct (Hkept ToyRedis.claims ToyRedis.q ToyRedis.server _ _ (pair_of _ _ toy_answer))
    as (room & a1 & m & st & Hl & Ha & Hm & Hk).
  assert (∀ x : result Room.t * App, x = (Ok room, a1) →
    match x.1 with Ok y => Room.ID y = "r1" | _ => True end → Room.ID room = "r1") as Hx by (by intros ? ->).
  pose proof (Hx _ Hl toy_room) as Hr.
  assert (m = ToyRedis.message) as -> by exact (f_equal (λ r, match r with mkResponse _ _ (BMessage x) => x | _ => m end) (eq_sym Ha)).
  rewrite Hr in Hk. exists st. split; [exact Hm|exact Hk].
Defined.
